(** * OpenDisplay protocol engine: wire codec, command encoder, orchestrators

    A shallow embedding of the TypeScript sources of opendisplay-js
    (protocol/config-serializer.ts, protocol/config-parser.ts,
    protocol/commands.ts, protocol/responses.ts, protocol/constants.ts,
    models/config.ts, transport/notification-queue.ts and device.ts) together
    with the properties of the natural-language specification that are
    checked against them.

    Conventions.
    - A JavaScript number that holds an integer is a [Z]; the 32-bit
      conversions performed by the bitwise operators are written out in
      module [JS].
    - A [Uint8Array] is a [list Z] whose elements lie in [0, 256).
    - A function that can throw returns a [result]; the error carries the
      class of the exception that the source throws (messages are dropped).
    - Loops whose trip count is not syntactically bounded take a fuel
      argument; running out of fuel is the distinct error [OutOfFuel], which
      is proved unreachable for the fuel the entry points supply. *)

From Stdlib Require Import String ZArith List Lia Bool.
Import ListNotations.
Local Open Scope Z_scope.

(* ------------------------------------------------------------------------- *)
(** ** Exceptions (exceptions.ts) *)

Inductive error : Type :=
| PlainError            (* new Error(...) *)
| RangeError            (* thrown by DataView / TypedArray on bad offsets *)
| BLEConnectionError
| BLETimeoutError
| ProtocolError
| ConfigParseError      (* extends ProtocolError *)
| InvalidResponseError  (* extends ProtocolError *)
| ImageEncodingError
| OutOfFuel.            (* not a source exception: fuel of a loop model ran out *)

(** [e instanceof ProtocolError] *)
Definition instanceof_ProtocolError (e : error) : bool :=
  match e with
  | ProtocolError | ConfigParseError | InvalidResponseError => true
  | _ => false
  end.

(** [e instanceof BLETimeoutError] *)
Definition instanceof_BLETimeoutError (e : error) : bool :=
  match e with
  | BLETimeoutError => true
  | _ => false
  end.

Inductive result (A : Type) : Type :=
| Ok (a : A)
| Err (e : error).
Arguments Ok {A} a.
Arguments Err {A} e.

Definition rbind {A B} (r : result A) (k : A -> result B) : result B :=
  match r with
  | Ok a => k a
  | Err e => Err e
  end.

Declare Scope res_scope.
Delimit Scope res_scope with res.
Notation "'let?' x ':=' r 'in' k" := (rbind r (fun x => k))
  (at level 10, x name, r at level 100, k at level 200) : res_scope.

(* ------------------------------------------------------------------------- *)
(** ** JavaScript integer operators *)

Module JS.

Definition toUint32 (x : Z) : Z := x mod 2 ^ 32.

Definition toInt32 (x : Z) : Z :=
  let u := x mod 2 ^ 32 in
  if u <? 2 ^ 31 then u else u - 2 ^ 32.

(** [a ^ b] *)
Definition xor (a b : Z) : Z := toInt32 (Z.lxor (toInt32 a) (toInt32 b)).
(** [a & b] *)
Definition and (a b : Z) : Z := toInt32 (Z.land (toInt32 a) (toInt32 b)).
(** [a | b] *)
Definition or (a b : Z) : Z := toInt32 (Z.lor (toInt32 a) (toInt32 b)).
(** [~a] *)
Definition not (a : Z) : Z := toInt32 (Z.lnot (toInt32 a)).
(** [a >>> n] *)
Definition ushr (a n : Z) : Z := Z.shiftr (toUint32 a) (n mod 32).
(** [a >> n] *)
Definition shr (a n : Z) : Z := Z.shiftr (toInt32 a) (n mod 32).
(** [a << n] *)
Definition shl (a n : Z) : Z := toInt32 (Z.shiftl (toInt32 a) (n mod 32)).

(** Values as seen by [===]: a number, or [undefined] (the value of a
    property that an object does not have). *)
Inductive value : Type :=
| Num (z : Z)
| Undefined.

Definition strict_eq (a b : value) : bool :=
  match a, b with
  | Num x, Num y => x =? y
  | Undefined, Undefined => true
  | _, _ => false
  end.

End JS.

(* ------------------------------------------------------------------------- *)
(** ** Typed arrays and DataView *)

Definition Uint8Array := list Z.

Definition byte_ok (b : Z) : Prop := 0 <= b < 256.
Definition bytes_ok (l : Uint8Array) : Prop := Forall byte_ok l.

(** [a.slice(s, e)] and [a.subarray(s, e)] for literal, non-negative [s]
    and [e]: both clamp to the length.  ([subarray] is a view; the sources
    never write through one, so it is modelled by value.) *)
Definition slice (a : Uint8Array) (s e : nat) : Uint8Array :=
  firstn (e - s) (skipn s a).

(** [a.slice(s)] / [a.subarray(s)] *)
Definition slice_from (a : Uint8Array) (s : nat) : Uint8Array := skipn s a.

(** [a.slice(s, -k)]: the end index counts from the end of the array. *)
Definition slice_to_end_minus (a : Uint8Array) (s k : nat) : Uint8Array :=
  firstn ((length a - k) - s) (skipn s a).

Module DataView.

(** [new ArrayBuffer(n)]: zero filled. *)
Definition alloc (n : nat) : Uint8Array := repeat 0 n.

(** One byte store.  The sources only store at literal offsets inside a
    buffer they have just allocated, so the RangeError of an out-of-range
    store cannot arise there; out of range the model leaves the buffer
    unchanged. *)
Fixpoint store (buf : Uint8Array) (off : nat) (b : Z) : Uint8Array :=
  match buf, off with
  | [], _ => []
  | _ :: t, O => b :: t
  | h :: t, S k => h :: store t k b
  end.

Definition setUint8 (buf : Uint8Array) (off : nat) (v : Z) : Uint8Array :=
  store buf off (v mod 256).

(** [setInt8] stores the two's complement byte of [v]. *)
Definition setInt8 (buf : Uint8Array) (off : nat) (v : Z) : Uint8Array :=
  store buf off (v mod 256).

Definition setUint16 (buf : Uint8Array) (off : nat) (v : Z)
           (littleEndian : bool) : Uint8Array :=
  let lo := v mod 256 in
  let hi := (v / 256) mod 256 in
  if littleEndian
  then store (store buf off lo) (S off) hi
  else store (store buf off hi) (S off) lo.

Definition setUint32 (buf : Uint8Array) (off : nat) (v : Z)
           (littleEndian : bool) : Uint8Array :=
  let b0 := v mod 256 in
  let b1 := (v / 256) mod 256 in
  let b2 := (v / 65536) mod 256 in
  let b3 := (v / 16777216) mod 256 in
  if littleEndian
  then store (store (store (store buf off b0) (S off) b1)
                    (S (S off)) b2) (S (S (S off))) b3
  else store (store (store (store buf off b3) (S off) b2)
                    (S (S off)) b1) (S (S (S off))) b0.

(** [uint8Array.set(src, off)]: every element is converted to a byte as it
    is stored (the identity on the elements of a [Uint8Array]). *)
Fixpoint set (buf src : Uint8Array) (off : nat) : Uint8Array :=
  match src with
  | [] => buf
  | b :: s => set (store buf off (b mod 256)) s (S off)
  end.

(** Reads.  Every read of the sources is guarded by a length test (or is
    wrapped in a [result] where it is not), so the default is never used. *)
Definition getUint8 (buf : Uint8Array) (off : nat) : Z := nth off buf 0.

Definition getInt8 (buf : Uint8Array) (off : nat) : Z :=
  let b := nth off buf 0 in
  if b <? 128 then b else b - 256.

Definition getUint16 (buf : Uint8Array) (off : nat)
           (littleEndian : bool) : Z :=
  let x := nth off buf 0 in
  let y := nth (S off) buf 0 in
  if littleEndian then x + 256 * y else 256 * x + y.

Definition getUint32 (buf : Uint8Array) (off : nat)
           (littleEndian : bool) : Z :=
  let b0 := nth off buf 0 in
  let b1 := nth (S off) buf 0 in
  let b2 := nth (S (S off)) buf 0 in
  let b3 := nth (S (S (S off))) buf 0 in
  if littleEndian
  then b0 + 256 * b1 + 65536 * b2 + 16777216 * b3
  else b3 + 256 * b2 + 65536 * b1 + 16777216 * b0.

End DataView.

(** [config.reserved || new Uint8Array(n)] (or a filled default).  The
    interfaces declare the reserved fields as [Uint8Array]; a record built
    by hand may leave them out, which is the [None] case. *)
Definition or_default (o : option Uint8Array) (d : Uint8Array) : Uint8Array :=
  match o with
  | Some r => r
  | None => d
  end.

(* ------------------------------------------------------------------------- *)
(** ** Record types (models/config.ts) *)

Module SystemConfig.
Record t : Type := mk {
  icType : Z;              (* uint16 *)
  communicationModes : Z;  (* uint8 *)
  deviceFlags : Z;         (* uint8 *)
  pwrPin : Z;              (* uint8 *)
  reserved : option Uint8Array (* 17 bytes *)
}.

Definition SIZE : nat := 22.

Definition hasPwrPin (config : t) : bool :=
  negb (JS.and (deviceFlags config) 1 =? 0).

Definition fromBytes (data : Uint8Array) : result t :=
  if (length data <? SIZE)%nat then Err PlainError else
  Ok {| icType := DataView.getUint16 data 0 true;
        communicationModes := DataView.getUint8 data 2;
        deviceFlags := DataView.getUint8 data 3;
        pwrPin := DataView.getUint8 data 4;
        reserved := Some (slice data 5 22) |}.
End SystemConfig.

Module ManufacturerData.
Record t : Type := mk {
  manufacturerId : Z;  (* uint16 *)
  boardType : Z;       (* uint8 *)
  boardRevision : Z;   (* uint8 *)
  reserved : option Uint8Array (* 18 bytes *)
}.

Definition SIZE : nat := 22.

Definition fromBytes (data : Uint8Array) : result t :=
  if (length data <? SIZE)%nat then Err PlainError else
  Ok {| manufacturerId := DataView.getUint16 data 0 true;
        boardType := DataView.getUint8 data 2;
        boardRevision := DataView.getUint8 data 3;
        reserved := Some (slice data 4 22) |}.
End ManufacturerData.

Module PowerOption.
Record t : Type := mk {
  powerMode : Z;              (* uint8 *)
  batteryCapacityMah : Z;     (* 3 bytes, 24-bit value *)
  sleepTimeoutMs : Z;         (* uint16 *)
  txPower : Z;                (* written with setInt8, read with getInt8 *)
  sleepFlags : Z;             (* uint8 *)
  batterySensePin : Z;        (* uint8 *)
  batterySenseEnablePin : Z;  (* uint8 *)
  batterySenseFlags : Z;      (* uint8 *)
  capacityEstimator : Z;      (* uint8 *)
  voltageScalingFactor : Z;   (* uint16 *)
  deepSleepCurrentUa : Z;     (* uint32 *)
  deepSleepTimeSeconds : Z;   (* uint16 *)
  reserved : option Uint8Array (* 10 bytes *)
}.

Definition SIZE : nat := 30.

Definition fromBytes (data : Uint8Array) : result t :=
  if (length data <? SIZE)%nat then Err PlainError else
  let batteryMah :=
    JS.or (JS.or (nth 1 data 0) (JS.shl (nth 2 data 0) 8))
          (JS.shl (nth 3 data 0) 16) in
  Ok {| powerMode := DataView.getUint8 data 0;
        batteryCapacityMah := batteryMah;
        sleepTimeoutMs := DataView.getUint16 data 4 true;
        txPower := DataView.getInt8 data 6;
        sleepFlags := DataView.getUint8 data 7;
        batterySensePin := DataView.getUint8 data 8;
        batterySenseEnablePin := DataView.getUint8 data 9;
        batterySenseFlags := DataView.getUint8 data 10;
        capacityEstimator := DataView.getUint8 data 11;
        voltageScalingFactor := DataView.getUint16 data 12 true;
        deepSleepCurrentUa := DataView.getUint32 data 14 true;
        deepSleepTimeSeconds := DataView.getUint16 data 18 true;
        reserved := Some (slice data 20 30) |}.
End PowerOption.

Module DisplayConfig.
Record t : Type := mk {
  instanceNumber : Z;        (* uint8 *)
  displayTechnology : Z;     (* uint8 *)
  panelIcType : Z;           (* uint16 *)
  pixelWidth : Z;            (* uint16 *)
  pixelHeight : Z;           (* uint16 *)
  activeWidthMm : Z;         (* uint16 *)
  activeHeightMm : Z;        (* uint16 *)
  tagType : Z;               (* uint16 *)
  rotation : Z;              (* uint8 *)
  resetPin : Z;              (* uint8 *)
  busyPin : Z;               (* uint8 *)
  dcPin : Z;                 (* uint8 *)
  csPin : Z;                 (* uint8 *)
  dataPin : Z;               (* uint8 *)
  partialUpdateSupport : Z;  (* uint8 *)
  colorScheme : Z;           (* uint8 *)
  transmissionModes : Z;     (* uint8 *)
  clkPin : Z;                (* uint8 *)
  reservedPins : option Uint8Array; (* 7 bytes *)
  reserved : option Uint8Array      (* 15 bytes *)
}.

Definition SIZE : nat := 46.

Definition fromBytes (data : Uint8Array) : result t :=
  if (length data <? SIZE)%nat then Err PlainError else
  Ok {| instanceNumber := DataView.getUint8 data 0;
        displayTechnology := DataView.getUint8 data 1;
        panelIcType := DataView.getUint16 data 2 true;
        pixelWidth := DataView.getUint16 data 4 true;
        pixelHeight := DataView.getUint16 data 6 true;
        activeWidthMm := DataView.getUint16 data 8 true;
        activeHeightMm := DataView.getUint16 data 10 true;
        tagType := DataView.getUint16 data 12 true;
        rotation := DataView.getUint8 data 14;
        resetPin := DataView.getUint8 data 15;
        busyPin := DataView.getUint8 data 16;
        dcPin := DataView.getUint8 data 17;
        csPin := DataView.getUint8 data 18;
        dataPin := DataView.getUint8 data 19;
        partialUpdateSupport := DataView.getUint8 data 20;
        colorScheme := DataView.getUint8 data 21;
        transmissionModes := DataView.getUint8 data 22;
        clkPin := DataView.getUint8 data 23;
        reservedPins := Some (slice data 24 31);
        reserved := Some (slice data 31 46) |}.
End DisplayConfig.

Module LedConfig.
Record t : Type := mk {
  instanceNumber : Z;  (* uint8 *)
  ledType : Z;         (* uint8 *)
  led1R : Z;           (* uint8 *)
  led2G : Z;           (* uint8 *)
  led3B : Z;           (* uint8 *)
  led4 : Z;            (* uint8 *)
  ledFlags : Z;        (* uint8 *)
  reserved : option Uint8Array (* 15 bytes *)
}.

Definition SIZE : nat := 22.

Definition fromBytes (data : Uint8Array) : result t :=
  if (length data <? SIZE)%nat then Err PlainError else
  Ok {| instanceNumber := DataView.getUint8 data 0;
        ledType := DataView.getUint8 data 1;
        led1R := DataView.getUint8 data 2;
        led2G := DataView.getUint8 data 3;
        led3B := DataView.getUint8 data 4;
        led4 := DataView.getUint8 data 5;
        ledFlags := DataView.getUint8 data 6;
        reserved := Some (slice data 7 22) |}.
End LedConfig.

Module SensorData.
Record t : Type := mk {
  instanceNumber : Z;  (* uint8 *)
  sensorType : Z;      (* uint16 *)
  busId : Z;           (* uint8 *)
  reserved : option Uint8Array (* 26 bytes *)
}.

Definition SIZE : nat := 30.

Definition fromBytes (data : Uint8Array) : result t :=
  if (length data <? SIZE)%nat then Err PlainError else
  Ok {| instanceNumber := DataView.getUint8 data 0;
        sensorType := DataView.getUint16 data 1 true;
        busId := DataView.getUint8 data 3;
        reserved := Some (slice data 4 30) |}.
End SensorData.

Module DataBus.
Record t : Type := mk {
  instanceNumber : Z;  (* uint8 *)
  busType : Z;         (* uint8 *)
  pin1 : Z;            (* uint8 *)
  pin2 : Z;            (* uint8 *)
  pin3 : Z;            (* uint8 *)
  pin4 : Z;            (* uint8 *)
  pin5 : Z;            (* uint8 *)
  pin6 : Z;            (* uint8 *)
  pin7 : Z;            (* uint8 *)
  busSpeedHz : Z;      (* uint32 *)
  busFlags : Z;        (* uint8 *)
  pullups : Z;         (* uint8 *)
  pulldowns : Z;       (* uint8 *)
  reserved : option Uint8Array (* 14 bytes *)
}.

Definition SIZE : nat := 30.

Definition fromBytes (data : Uint8Array) : result t :=
  if (length data <? SIZE)%nat then Err PlainError else
  Ok {| instanceNumber := DataView.getUint8 data 0;
        busType := DataView.getUint8 data 1;
        pin1 := DataView.getUint8 data 2;
        pin2 := DataView.getUint8 data 3;
        pin3 := DataView.getUint8 data 4;
        pin4 := DataView.getUint8 data 5;
        pin5 := DataView.getUint8 data 6;
        pin6 := DataView.getUint8 data 7;
        pin7 := DataView.getUint8 data 8;
        busSpeedHz := DataView.getUint32 data 9 true;
        busFlags := DataView.getUint8 data 13;
        pullups := DataView.getUint8 data 14;
        pulldowns := DataView.getUint8 data 15;
        reserved := Some (slice data 16 30) |}.
End DataBus.

Module BinaryInputs.
Record t : Type := mk {
  instanceNumber : Z;  (* uint8 *)
  inputType : Z;       (* uint8 *)
  displayAs : Z;       (* uint8 *)
  reservedPins : option Uint8Array; (* 8 bytes *)
  inputFlags : Z;      (* uint8 *)
  invert : Z;          (* uint8 *)
  pullups : Z;         (* uint8 *)
  pulldowns : Z;       (* uint8 *)
  reserved : option Uint8Array (* 15 bytes *)
}.

Definition SIZE : nat := 30.

Definition fromBytes (data : Uint8Array) : result t :=
  if (length data <? SIZE)%nat then Err PlainError else
  Ok {| instanceNumber := DataView.getUint8 data 0;
        inputType := DataView.getUint8 data 1;
        displayAs := DataView.getUint8 data 2;
        reservedPins := Some (slice data 3 11);
        inputFlags := DataView.getUint8 data 11;
        invert := DataView.getUint8 data 12;
        pullups := DataView.getUint8 data 13;
        pulldowns := DataView.getUint8 data 14;
        reserved := Some (slice data 15 30) |}.
End BinaryInputs.

Module GlobalConfig.
Record t : Type := mk {
  system : option SystemConfig.t;
  manufacturer : option ManufacturerData.t;
  power : option PowerOption.t;
  displays : list DisplayConfig.t;
  leds : list LedConfig.t;
  sensors : list SensorData.t;
  dataBuses : list DataBus.t;
  binaryInputs : list BinaryInputs.t;
  version : Z;
  minorVersion : Z;
  loaded : bool
}.
End GlobalConfig.

(* ------------------------------------------------------------------------- *)
(** ** Packet type ids (config-serializer.ts, config-parser.ts) *)

Definition PACKET_TYPE_SYSTEM : Z := 0x01.
Definition PACKET_TYPE_MANUFACTURER : Z := 0x02.
Definition PACKET_TYPE_POWER : Z := 0x04.
Definition PACKET_TYPE_DISPLAY : Z := 0x20.
Definition PACKET_TYPE_LED : Z := 0x21.
Definition PACKET_TYPE_SENSOR : Z := 0x23.
Definition PACKET_TYPE_DATABUS : Z := 0x24.
Definition PACKET_TYPE_BINARY_INPUT : Z := 0x25.

(* ------------------------------------------------------------------------- *)
(** ** TLV serializer (protocol/config-serializer.ts) *)

(** One turn of the inner [for (let i = 0; i < 8; i++)] loop. *)
Definition crc_shift (crc : Z) : Z :=
  if JS.and crc 1 =? 0
  then JS.ushr crc 1
  else JS.xor (JS.ushr crc 1) 0xedb88320.

Fixpoint crc_shifts (n : nat) (crc : Z) : Z :=
  match n with
  | O => crc
  | S k => crc_shifts k (crc_shift crc)
  end.

(** Body of [for (const byte of data)]. *)
Definition crc_byte (crc byte : Z) : Z := crc_shifts 8 (JS.xor crc byte).

Definition calculateConfigCrc (data : Uint8Array) : Z :=
  let crc := fold_left crc_byte data 0xffffffff in
  let crc32 := JS.ushr (JS.not crc) 0 in
  JS.and crc32 0xffff.

Definition serializeSystemConfig (config : SystemConfig.t) : Uint8Array :=
  let result := DataView.alloc 22 in
  let result := DataView.setUint16 result 0 (SystemConfig.icType config) true in
  let result := DataView.setUint8 result 2 (SystemConfig.communicationModes config) in
  let result := DataView.setUint8 result 3 (SystemConfig.deviceFlags config) in
  let result := DataView.setUint8 result 4 (SystemConfig.pwrPin config) in
  let reserved := or_default (SystemConfig.reserved config) (DataView.alloc 17) in
  DataView.set result (slice reserved 0 17) 5.

Definition serializeManufacturerData (config : ManufacturerData.t) : Uint8Array :=
  let result := DataView.alloc 22 in
  let result := DataView.setUint16 result 0 (ManufacturerData.manufacturerId config) true in
  let result := DataView.setUint8 result 2 (ManufacturerData.boardType config) in
  let result := DataView.setUint8 result 3 (ManufacturerData.boardRevision config) in
  let reserved := or_default (ManufacturerData.reserved config) (DataView.alloc 18) in
  DataView.set result (slice reserved 0 18) 4.

Definition serializePowerOption (config : PowerOption.t) : Uint8Array :=
  let cap := PowerOption.batteryCapacityMah config in
  let result := DataView.alloc 30 in
  let result := DataView.setUint8 result 0 (PowerOption.powerMode config) in
  let result := DataView.setUint8 result 1 (JS.and cap 0xff) in
  let result := DataView.setUint8 result 2 (JS.and (JS.shr cap 8) 0xff) in
  let result := DataView.setUint8 result 3 (JS.and (JS.shr cap 16) 0xff) in
  let result := DataView.setUint16 result 4 (PowerOption.sleepTimeoutMs config) true in
  let result := DataView.setInt8 result 6 (PowerOption.txPower config) in
  let result := DataView.setUint8 result 7 (PowerOption.sleepFlags config) in
  let result := DataView.setUint8 result 8 (PowerOption.batterySensePin config) in
  let result := DataView.setUint8 result 9 (PowerOption.batterySenseEnablePin config) in
  let result := DataView.setUint8 result 10 (PowerOption.batterySenseFlags config) in
  let result := DataView.setUint8 result 11 (PowerOption.capacityEstimator config) in
  let result := DataView.setUint16 result 12 (PowerOption.voltageScalingFactor config) true in
  let result := DataView.setUint32 result 14 (PowerOption.deepSleepCurrentUa config) true in
  let result := DataView.setUint16 result 18 (PowerOption.deepSleepTimeSeconds config) true in
  let reserved := or_default (PowerOption.reserved config) (DataView.alloc 10) in
  DataView.set result (slice reserved 0 10) 20.

Definition serializeDisplayConfig (config : DisplayConfig.t) : Uint8Array :=
  let result := DataView.alloc 46 in
  let result := DataView.setUint8 result 0 (DisplayConfig.instanceNumber config) in
  let result := DataView.setUint8 result 1 (DisplayConfig.displayTechnology config) in
  let result := DataView.setUint16 result 2 (DisplayConfig.panelIcType config) true in
  let result := DataView.setUint16 result 4 (DisplayConfig.pixelWidth config) true in
  let result := DataView.setUint16 result 6 (DisplayConfig.pixelHeight config) true in
  let result := DataView.setUint16 result 8 (DisplayConfig.activeWidthMm config) true in
  let result := DataView.setUint16 result 10 (DisplayConfig.activeHeightMm config) true in
  let result := DataView.setUint16 result 12 (DisplayConfig.tagType config) true in
  let result := DataView.setUint8 result 14 (DisplayConfig.rotation config) in
  let result := DataView.setUint8 result 15 (DisplayConfig.resetPin config) in
  let result := DataView.setUint8 result 16 (DisplayConfig.busyPin config) in
  let result := DataView.setUint8 result 17 (DisplayConfig.dcPin config) in
  let result := DataView.setUint8 result 18 (DisplayConfig.csPin config) in
  let result := DataView.setUint8 result 19 (DisplayConfig.dataPin config) in
  let result := DataView.setUint8 result 20 (DisplayConfig.partialUpdateSupport config) in
  let result := DataView.setUint8 result 21 (DisplayConfig.colorScheme config) in
  let result := DataView.setUint8 result 22 (DisplayConfig.transmissionModes config) in
  let result := DataView.setUint8 result 23 (DisplayConfig.clkPin config) in
  let reservedPins := or_default (DisplayConfig.reservedPins config) (repeat 0xff 7) in
  let result := DataView.set result (slice reservedPins 0 7) 24 in
  let reserved := or_default (DisplayConfig.reserved config) (DataView.alloc 15) in
  DataView.set result (slice reserved 0 15) 31.

Definition serializeLedConfig (config : LedConfig.t) : Uint8Array :=
  let result := DataView.alloc 22 in
  let result := DataView.setUint8 result 0 (LedConfig.instanceNumber config) in
  let result := DataView.setUint8 result 1 (LedConfig.ledType config) in
  let result := DataView.setUint8 result 2 (LedConfig.led1R config) in
  let result := DataView.setUint8 result 3 (LedConfig.led2G config) in
  let result := DataView.setUint8 result 4 (LedConfig.led3B config) in
  let result := DataView.setUint8 result 5 (LedConfig.led4 config) in
  let result := DataView.setUint8 result 6 (LedConfig.ledFlags config) in
  let reserved := or_default (LedConfig.reserved config) (DataView.alloc 15) in
  DataView.set result (slice reserved 0 15) 7.

Definition serializeSensorData (config : SensorData.t) : Uint8Array :=
  let result := DataView.alloc 30 in
  let result := DataView.setUint8 result 0 (SensorData.instanceNumber config) in
  let result := DataView.setUint16 result 1 (SensorData.sensorType config) true in
  let result := DataView.setUint8 result 3 (SensorData.busId config) in
  let reserved := or_default (SensorData.reserved config) (DataView.alloc 26) in
  DataView.set result (slice reserved 0 26) 4.

Definition serializeDataBus (config : DataBus.t) : Uint8Array :=
  let result := DataView.alloc 30 in
  let result := DataView.setUint8 result 0 (DataBus.instanceNumber config) in
  let result := DataView.setUint8 result 1 (DataBus.busType config) in
  let result := DataView.setUint8 result 2 (DataBus.pin1 config) in
  let result := DataView.setUint8 result 3 (DataBus.pin2 config) in
  let result := DataView.setUint8 result 4 (DataBus.pin3 config) in
  let result := DataView.setUint8 result 5 (DataBus.pin4 config) in
  let result := DataView.setUint8 result 6 (DataBus.pin5 config) in
  let result := DataView.setUint8 result 7 (DataBus.pin6 config) in
  let result := DataView.setUint8 result 8 (DataBus.pin7 config) in
  let result := DataView.setUint32 result 9 (DataBus.busSpeedHz config) true in
  let result := DataView.setUint8 result 13 (DataBus.busFlags config) in
  let result := DataView.setUint8 result 14 (DataBus.pullups config) in
  let result := DataView.setUint8 result 15 (DataBus.pulldowns config) in
  let reserved := or_default (DataBus.reserved config) (DataView.alloc 14) in
  DataView.set result (slice reserved 0 14) 16.

Definition serializeBinaryInputs (config : BinaryInputs.t) : Uint8Array :=
  let result := DataView.alloc 30 in
  let result := DataView.setUint8 result 0 (BinaryInputs.instanceNumber config) in
  let result := DataView.setUint8 result 1 (BinaryInputs.inputType config) in
  let result := DataView.setUint8 result 2 (BinaryInputs.displayAs config) in
  let reservedPins := or_default (BinaryInputs.reservedPins config) (DataView.alloc 8) in
  let result := DataView.set result (slice reservedPins 0 8) 3 in
  let result := DataView.setUint8 result 11 (BinaryInputs.inputFlags config) in
  let result := DataView.setUint8 result 12 (BinaryInputs.invert config) in
  let result := DataView.setUint8 result 13 (BinaryInputs.pullups config) in
  let result := DataView.setUint8 result 14 (BinaryInputs.pulldowns config) in
  let reserved := or_default (BinaryInputs.reserved config) (DataView.alloc 15) in
  DataView.set result (slice reserved 0 15) 15.

(** [for (let i = 0; i < Math.min(items.length, 4); i++)
       { chunks.push([i, type]); chunks.push(serialize(items[i])) }] *)
Definition push_repeatable {A : Type} (packetType : Z)
           (serialize : A -> Uint8Array) (items : list A) : list Uint8Array :=
  flat_map
    (fun i => match nth_error items i with
              | Some item => [[Z.of_nat i; packetType]; serialize item]
              | None => []
              end)
    (seq 0 (Nat.min (length items) 4)).

(** [if (x) { chunks.push([0, type]); chunks.push(serialize(x)) }] *)
Definition push_single {A : Type} (packetType : Z)
           (serialize : A -> Uint8Array) (x : option A) : list Uint8Array :=
  match x with
  | Some item => [[0; packetType]; serialize item]
  | None => []
  end.

(** The list [chunks] just before the size test. *)
Definition serializeConfig_chunks (config : GlobalConfig.t) : list Uint8Array :=
  [[0x00; 0x00; GlobalConfig.version config mod 256]]
    ++ push_single PACKET_TYPE_SYSTEM serializeSystemConfig (GlobalConfig.system config)
    ++ push_single PACKET_TYPE_MANUFACTURER serializeManufacturerData
         (GlobalConfig.manufacturer config)
    ++ push_single PACKET_TYPE_POWER serializePowerOption (GlobalConfig.power config)
    ++ push_repeatable PACKET_TYPE_DISPLAY serializeDisplayConfig
         (GlobalConfig.displays config)
    ++ push_repeatable PACKET_TYPE_LED serializeLedConfig (GlobalConfig.leds config)
    ++ push_repeatable PACKET_TYPE_SENSOR serializeSensorData
         (GlobalConfig.sensors config)
    ++ push_repeatable PACKET_TYPE_DATABUS serializeDataBus
         (GlobalConfig.dataBuses config)
    ++ push_repeatable PACKET_TYPE_BINARY_INPUT serializeBinaryInputs
         (GlobalConfig.binaryInputs config).

Definition serializeConfig (config : GlobalConfig.t) : result Uint8Array :=
  let chunks := serializeConfig_chunks config in
  let totalDataSize := fold_left (fun sum chunk => sum + Z.of_nat (length chunk)) chunks 0 in
  if totalDataSize + 2 >? 4096 then Err PlainError else
  let packetData := concat chunks in
  let crc16 := calculateConfigCrc packetData in
  Ok (packetData ++ [crc16 mod 256; (crc16 / 256) mod 256]).

(* ------------------------------------------------------------------------- *)
(** ** TLV parser (protocol/config-parser.ts) *)

(** The [sizes] table of [getPacketSize]; [None] is the [null] of an unknown
    type. *)
Definition getPacketSize (packetType : Z) : option nat :=
  if packetType =? PACKET_TYPE_SYSTEM then Some 22%nat
  else if packetType =? PACKET_TYPE_MANUFACTURER then Some 22%nat
  else if packetType =? PACKET_TYPE_POWER then Some 30%nat
  else if packetType =? PACKET_TYPE_DISPLAY then Some 46%nat
  else if packetType =? PACKET_TYPE_LED then Some 22%nat
  else if packetType =? PACKET_TYPE_SENSOR then Some 30%nat
  else if packetType =? PACKET_TYPE_DATABUS then Some 30%nat
  else if packetType =? PACKET_TYPE_BINARY_INPUT then Some 30%nat
  else None.

(** [Map<string, Uint8Array>] keyed by [`${packetType}-${packetNumber}`].
    Both components are bytes, so the decimal rendering is injective and the
    key is kept as the pair; [parseInt(key.split('-')[0], 10)] is its first
    component.  A JavaScript [Map] iterates in insertion order and [set] on
    a present key replaces the value in place. *)
Definition packet_key : Type := (Z * Z)%type.

Definition key_eqb (a b : packet_key) : bool :=
  (fst a =? fst b) && (snd a =? snd b).

Fixpoint map_set (k : packet_key) (v : Uint8Array)
         (m : list (packet_key * Uint8Array)) : list (packet_key * Uint8Array) :=
  match m with
  | [] => [(k, v)]
  | (k', v') :: rest =>
      if key_eqb k k' then (k, v) :: rest else (k', v') :: map_set k v rest
  end.

(** The [while (offset < data.length - 1)] loop of [parseTlvConfig]. *)
Fixpoint tlv_walk (fuel : nat) (data : Uint8Array) (offset : nat)
         (packets : list (packet_key * Uint8Array))
  : result (list (packet_key * Uint8Array)) :=
  match fuel with
  | O => Err OutOfFuel
  | S fuel' =>
      if (Z.of_nat offset <? Z.of_nat (length data) - 1) then
        if (length data <? offset + 2)%nat then Ok packets
        else
          let packetNumber := nth offset data 0 in
          let packetType := nth (offset + 1) data 0 in
          let offset := (offset + 2)%nat in
          match getPacketSize packetType with
          | None => Ok packets
          | Some packetSize =>
              if (length data <? offset + packetSize)%nat
              then Err ConfigParseError
              else
                let packetData := slice data offset (offset + packetSize) in
                tlv_walk fuel' data (offset + packetSize)
                         (map_set (packetType, packetNumber) packetData packets)
          end
      else Ok packets
  end.

Definition parseSystemConfig (data : Uint8Array) : result SystemConfig.t :=
  if (length data <? 22)%nat then Err ConfigParseError
  else SystemConfig.fromBytes data.

Definition parseManufacturerData (data : Uint8Array) : result ManufacturerData.t :=
  if (length data <? 22)%nat then Err ConfigParseError
  else ManufacturerData.fromBytes data.

Definition parsePowerOption (data : Uint8Array) : result PowerOption.t :=
  if (length data <? 30)%nat then Err ConfigParseError
  else PowerOption.fromBytes data.

Definition parseDisplayConfig (data : Uint8Array) : result DisplayConfig.t :=
  if (length data <? 46)%nat then Err ConfigParseError
  else DisplayConfig.fromBytes data.

Definition parseLedConfig (data : Uint8Array) : result LedConfig.t :=
  if (length data <? 22)%nat then Err ConfigParseError
  else LedConfig.fromBytes data.

Definition parseSensorData (data : Uint8Array) : result SensorData.t :=
  if (length data <? 30)%nat then Err ConfigParseError
  else SensorData.fromBytes data.

Definition parseDataBus (data : Uint8Array) : result DataBus.t :=
  if (length data <? 30)%nat then Err ConfigParseError
  else DataBus.fromBytes data.

Definition parseBinaryInputs (data : Uint8Array) : result BinaryInputs.t :=
  if (length data <? 30)%nat then Err ConfigParseError
  else BinaryInputs.fromBytes data.

Local Open Scope res_scope.

(** The [for (const [key, packetData] of packets)] pass; the accumulator is a
    [GlobalConfig] under construction ([push] appends). *)
Fixpoint tlv_collect (packets : list (packet_key * Uint8Array))
         (acc : GlobalConfig.t) : result GlobalConfig.t :=
  match packets with
  | [] => Ok acc
  | ((packetType, _), packetData) :: rest =>
      let (system, manufacturer, power, displays, leds, sensors, dataBuses,
           binaryInputs, version, minorVersion, loaded) := acc in
      if packetType =? PACKET_TYPE_SYSTEM then
        let? x := parseSystemConfig packetData in
        tlv_collect rest
          (GlobalConfig.mk (Some x) manufacturer power displays leds sensors
                           dataBuses binaryInputs version minorVersion loaded)
      else if packetType =? PACKET_TYPE_MANUFACTURER then
        let? x := parseManufacturerData packetData in
        tlv_collect rest
          (GlobalConfig.mk system (Some x) power displays leds sensors
                           dataBuses binaryInputs version minorVersion loaded)
      else if packetType =? PACKET_TYPE_POWER then
        let? x := parsePowerOption packetData in
        tlv_collect rest
          (GlobalConfig.mk system manufacturer (Some x) displays leds sensors
                           dataBuses binaryInputs version minorVersion loaded)
      else if packetType =? PACKET_TYPE_DISPLAY then
        let? x := parseDisplayConfig packetData in
        tlv_collect rest
          (GlobalConfig.mk system manufacturer power (displays ++ [x]) leds sensors
                           dataBuses binaryInputs version minorVersion loaded)
      else if packetType =? PACKET_TYPE_LED then
        let? x := parseLedConfig packetData in
        tlv_collect rest
          (GlobalConfig.mk system manufacturer power displays (leds ++ [x]) sensors
                           dataBuses binaryInputs version minorVersion loaded)
      else if packetType =? PACKET_TYPE_SENSOR then
        let? x := parseSensorData packetData in
        tlv_collect rest
          (GlobalConfig.mk system manufacturer power displays leds (sensors ++ [x])
                           dataBuses binaryInputs version minorVersion loaded)
      else if packetType =? PACKET_TYPE_DATABUS then
        let? x := parseDataBus packetData in
        tlv_collect rest
          (GlobalConfig.mk system manufacturer power displays leds sensors
                           (dataBuses ++ [x]) binaryInputs version minorVersion loaded)
      else if packetType =? PACKET_TYPE_BINARY_INPUT then
        let? x := parseBinaryInputs packetData in
        tlv_collect rest
          (GlobalConfig.mk system manufacturer power displays leds sensors
                           dataBuses (binaryInputs ++ [x]) version minorVersion loaded)
      else tlv_collect rest acc
  end.

(** [parseTlvConfig(data, version)] run with [fuel] turns of the walk. *)
Definition parseTlvConfig_fuel (fuel : nat) (data : Uint8Array) (version : Z)
  : result GlobalConfig.t :=
  if (length data <? 2)%nat then Err ConfigParseError else
  let? packets := tlv_walk fuel data 0 [] in
  tlv_collect packets
    (GlobalConfig.mk None None None [] [] [] [] [] version 1 true).

(** Every turn of the walk that continues consumes at least two bytes, so
    [length data] turns are more than enough. *)
Definition parseTlvConfig (data : Uint8Array) (version : Z) : result GlobalConfig.t :=
  parseTlvConfig_fuel (S (length data)) data version.

Definition parseConfigResponse (rawData : Uint8Array) : result GlobalConfig.t :=
  if (length rawData <? 5)%nat then Err ConfigParseError else
  let configVersion := DataView.getUint8 rawData 2 in
  let packetData :=
    if (5 <? length rawData)%nat
    then slice_to_end_minus rawData 3 2
    else slice_from rawData 3 in
  parseTlvConfig packetData configVersion.

(* ------------------------------------------------------------------------- *)
(** ** Protocol constants (protocol/constants.ts) *)

Definition RESPONSE_HIGH_BIT_FLAG : Z := 0x8000.
Definition CHUNK_SIZE : nat := 230.
Definition CONFIG_CHUNK_SIZE : nat := 200.
Definition MAX_COMPRESSED_SIZE : nat := 50 * 1024.
Definition MAX_START_PAYLOAD : nat := 200.

Module CommandCode.
Local Open Scope string_scope.

(** The members of [enum CommandCode], in declaration order. *)
Definition members : list (string * Z) :=
  [ ("READ_CONFIG", 0x0040);
    ("WRITE_CONFIG", 0x0041);
    ("WRITE_CONFIG_CHUNK", 0x0042);
    ("READ_FW_VERSION", 0x0043);
    ("REBOOT", 0x000f);
    ("DIRECT_WRITE_START", 0x0070);
    ("DIRECT_WRITE_DATA", 0x0071);
    ("DIRECT_WRITE_END", 0x0072) ].

(** [CommandCode.<name>] as evaluated on the emitted enum object: the
    member's number, or [undefined] for a name the enum does not declare. *)
Definition member (name : string) : JS.value :=
  match find (fun kv => String.eqb (fst kv) name) members with
  | Some kv => JS.Num (snd kv)
  | None => JS.Undefined
  end.

Definition READ_CONFIG : Z := 0x0040.
Definition WRITE_CONFIG : Z := 0x0041.
Definition WRITE_CONFIG_CHUNK : Z := 0x0042.
Definition READ_FW_VERSION : Z := 0x0043.
Definition REBOOT : Z := 0x000f.
Definition DIRECT_WRITE_START : Z := 0x0070.
Definition DIRECT_WRITE_DATA : Z := 0x0071.
Definition DIRECT_WRITE_END : Z := 0x0072.
End CommandCode.

(* ------------------------------------------------------------------------- *)
(** ** Command builders (protocol/commands.ts) *)

Definition buildReadConfigCommand : Uint8Array :=
  DataView.setUint16 (DataView.alloc 2) 0 CommandCode.READ_CONFIG false.

Definition buildReadFwVersionCommand : Uint8Array :=
  DataView.setUint16 (DataView.alloc 2) 0 CommandCode.READ_FW_VERSION false.

Definition buildRebootCommand : Uint8Array :=
  DataView.setUint16 (DataView.alloc 2) 0 CommandCode.REBOOT false.

Definition buildDirectWriteStartCompressed (uncompressedSize : Z)
           (compressedData : Uint8Array) : Uint8Array * Uint8Array :=
  let maxDataInStart := (MAX_START_PAYLOAD - 6)%nat in
  let headerSize := 6%nat in
  let totalSize :=
    if (length compressedData <=? maxDataInStart)%nat
    then (headerSize + length compressedData)%nat
    else MAX_START_PAYLOAD in
  let buffer := DataView.alloc totalSize in
  let buffer := DataView.setUint16 buffer 0 CommandCode.DIRECT_WRITE_START false in
  let buffer := DataView.setUint32 buffer 2 uncompressedSize true in
  let dataLength := Nat.min (length compressedData) maxDataInStart in
  let startCommand := DataView.set buffer (slice compressedData 0 dataLength) 6 in
  let remainingData :=
    if (length compressedData <=? maxDataInStart)%nat
    then []
    else slice_from compressedData maxDataInStart in
  (startCommand, remainingData).

Definition buildDirectWriteStartUncompressed : Uint8Array :=
  DataView.setUint16 (DataView.alloc 2) 0 CommandCode.DIRECT_WRITE_START false.

Definition buildDirectWriteDataCommand (chunkData : Uint8Array) : result Uint8Array :=
  if (CHUNK_SIZE <? length chunkData)%nat then Err PlainError else
  let buffer := DataView.alloc (2 + length chunkData) in
  let buffer := DataView.setUint16 buffer 0 CommandCode.DIRECT_WRITE_DATA false in
  Ok (DataView.set buffer chunkData 2).

Definition buildDirectWriteEndCommand (refreshMode : Z) : Uint8Array :=
  let buffer := DataView.alloc 3 in
  let buffer := DataView.setUint16 buffer 0 CommandCode.DIRECT_WRITE_END false in
  DataView.setUint8 buffer 2 refreshMode.

(** The [while (offset < configLen)] loop of [buildWriteConfigCommand]. *)
Fixpoint writeConfig_chunks (fuel : nat) (configData : Uint8Array)
         (offset : nat) (chunks : list Uint8Array) : result (list Uint8Array) :=
  match fuel with
  | O => Err OutOfFuel
  | S fuel' =>
      let configLen := length configData in
      if (offset <? configLen)%nat then
        let chunkSize := Nat.min CONFIG_CHUNK_SIZE (configLen - offset) in
        let buffer := DataView.alloc (2 + chunkSize) in
        let buffer :=
          DataView.setUint16 buffer 0 CommandCode.WRITE_CONFIG_CHUNK false in
        let chunk :=
          DataView.set buffer (slice configData offset (offset + chunkSize)) 2 in
        writeConfig_chunks fuel' configData (offset + chunkSize) (chunks ++ [chunk])
      else Ok chunks
  end.

Definition buildWriteConfigCommand_fuel (fuel : nat) (configData : Uint8Array)
  : result (Uint8Array * list Uint8Array) :=
  let configLen := length configData in
  if (configLen <=? CONFIG_CHUNK_SIZE)%nat then
    let buffer := DataView.alloc (2 + configLen) in
    let buffer := DataView.setUint16 buffer 0 CommandCode.WRITE_CONFIG false in
    Ok (DataView.set buffer configData 2, [])
  else
    let firstChunkDataSize := (CONFIG_CHUNK_SIZE - 2)%nat in
    let firstBuffer := DataView.alloc (2 + 2 + firstChunkDataSize) in
    let firstBuffer :=
      DataView.setUint16 firstBuffer 0 CommandCode.WRITE_CONFIG false in
    let firstBuffer :=
      DataView.setUint16 firstBuffer 2 (Z.of_nat configLen) true in
    let firstCommand :=
      DataView.set firstBuffer (slice configData 0 firstChunkDataSize) 4 in
    let? chunks := writeConfig_chunks fuel configData firstChunkDataSize [] in
    Ok (firstCommand, chunks).

(** Every turn of the chunk loop advances [offset] by at least one byte. *)
Definition buildWriteConfigCommand (configData : Uint8Array)
  : result (Uint8Array * list Uint8Array) :=
  buildWriteConfigCommand_fuel (S (length configData)) configData.

(* ------------------------------------------------------------------------- *)
(** ** Response interpreter (protocol/responses.ts) *)

(** A [Uint8Array] is modelled by its elements and taken to span its
    ArrayBuffer, as the frames of the transport do ([handleNotification]
    builds them with [new Uint8Array(value.buffer)]).  On such an array
    [new DataView(data.buffer, data.byteOffset + offset, 2)] throws a
    RangeError when fewer than two bytes are left; on a [subarray] of a
    longer buffer it would read the bytes behind the elements instead,
    which this model does not hold. *)
Definition unpackCommandCode (data : Uint8Array) (offset : nat) : result Z :=
  if (length data <? offset + 2)%nat then Err RangeError
  else Ok (DataView.getUint16 (skipn offset data) 0 false).

Definition stripCommandEcho (data : Uint8Array) (expectedCmd : Z) : Uint8Array :=
  if (2 <=? length data)%nat then
    match unpackCommandCode data 0 with
    | Ok echo =>
        if (echo =? expectedCmd) || (echo =? JS.or expectedCmd RESPONSE_HIGH_BIT_FLAG)
        then slice_from data 2
        else data
    | Err _ => data
    end
  else data.

Definition checkResponseType (response : Uint8Array) : result (Z * bool) :=
  let? code := unpackCommandCode response 0 in
  let isAck := negb (JS.and code RESPONSE_HIGH_BIT_FLAG =? 0) in
  let command := JS.and code (JS.not RESPONSE_HIGH_BIT_FLAG) in
  Ok (command, isAck).

Definition validateAckResponse (data : Uint8Array) (expectedCommand : Z)
  : result unit :=
  if (length data <? 2)%nat then Err InvalidResponseError else
  let? responseCode := unpackCommandCode data 0 in
  if (responseCode =? expectedCommand)
     || (responseCode =? JS.or expectedCommand RESPONSE_HIGH_BIT_FLAG)
  then Ok tt
  else Err InvalidResponseError.

Record FirmwareVersion : Type := {
  major : Z;
  minor : Z;
  sha : Uint8Array   (* the ASCII bytes that TextDecoder('ascii') decodes *)
}.

Definition parseFirmwareVersion (data : Uint8Array) : result FirmwareVersion :=
  if (length data <? 5)%nat then Err InvalidResponseError else
  let? echo := unpackCommandCode data 0 in
  if negb (echo =? 0x0043) && negb (echo =? JS.or 0x0043 RESPONSE_HIGH_BIT_FLAG)
  then Err InvalidResponseError else
  let major := nth 2 data 0 in
  let minor := nth 3 data 0 in
  let shaLength := nth 4 data 0 in
  if shaLength =? 0 then Err InvalidResponseError else
  let expectedTotalLength := 5 + shaLength in
  if Z.of_nat (length data) <? expectedTotalLength then Err InvalidResponseError else
  Ok {| major := major; minor := minor;
        sha := slice data 5 (5 + Z.to_nat shaLength) |}.

(* ------------------------------------------------------------------------- *)
(** ** Transport (transport/connection.ts, transport/notification-queue.ts)

    The orchestrators of device.ts are sequential: they write a frame, then
    await [readResponse].  The device side is an oracle, the list [incoming]:
    each call of [readResponse] on a connected link consumes one outcome.
    [Arrives f]: [dequeue] resolves with the frame [f] before its timer
    fires.  [Silence]: the timer fires first, [dequeue] rejects with a
    BLETimeoutError.  [Dropped]: the link is lost during the wait;
    [cleanup] clears the queue, which rejects the waiter with a plain Error,
    and the connection is gone afterwards.  An exhausted oracle is a device
    that stays silent.  A second oracle, [rejections], is consumed by the
    calls of [writeCommand] on a connected link: [true] is a call of
    [writeValueWithResponse] that rejects, which [writeCommand] turns into a
    BLEConnectionError; when it is exhausted every write succeeds.
    Everything observable is appended to [trace]. *)

Inductive outcome : Type :=
| Arrives (frame : Uint8Array)
| Silence
| Dropped.

Inductive status : Type :=
| PreparingImage
| Compressing
| Uploading
| RefreshingDisplay
| UploadCompleteRefreshing
| RefreshComplete
| UploadCompleteBang.

Inductive action : Type :=
| Wrote (frame : Uint8Array)                    (* writeCommand *)
| WriteFailed (frame : Uint8Array)              (* writeCommand, rejected write *)
| Waited (timeoutMs : Z) (o : outcome)          (* readResponse and its outcome *)
| QueueCleared                                  (* clearQueue *)
| OnStatusChange (s : status)
| OnProgress (current total : nat)
| OnUploadComplete
| OnComplete.

Record DeviceCapabilities : Type := {
  width : Z;
  height : Z;
  colorScheme : Z;
  rotation : Z
}.

Record world : Type := World {
  rejections : list bool;
  connected : bool;
  incoming : list outcome;
  trace : list action;
  _config : option GlobalConfig.t;
  _capabilities : option DeviceCapabilities;
  _fwVersion : option FirmwareVersion
}.

(** A world in which no write is rejected. *)
Abbreviation mkWorld := (World []).

Definition M (A : Type) : Type := world -> result A * world.

Definition ret {A} (a : A) : M A := fun w => (Ok a, w).

Definition throw {A} (e : error) : M A := fun w => (Err e, w).

Definition bind {A B} (m : M A) (k : A -> M B) : M B :=
  fun w =>
    match m w with
    | (Ok a, w') => k a w'
    | (Err e, w') => (Err e, w')
    end.

(** [try { m } catch (error) { h(error) }] *)
Definition try_catch {A} (m : M A) (h : error -> M A) : M A :=
  fun w =>
    match m w with
    | (Ok a, w') => (Ok a, w')
    | (Err e, w') => h e w'
    end.

Definition lift {A} (r : result A) : M A := fun w => (r, w).

Declare Scope dev_scope.
Delimit Scope dev_scope with dev.
Notation "x <- m ;; k" := (bind m (fun x => k))
  (at level 61, m at next level, right associativity) : dev_scope.
Notation "m ;;; k" := (bind m (fun _ => k))
  (at level 61, right associativity) : dev_scope.
Local Open Scope dev_scope.

Definition log (a : action) (w : world) : world :=
  World (rejections w) (connected w) (incoming w) (trace w ++ [a])
        (_config w) (_capabilities w) (_fwVersion w).

Definition emit (a : action) : M unit := fun w => (Ok tt, log a w).

Definition writeCommand (data : Uint8Array) : M unit :=
  fun w =>
    if connected w then
      match rejections w with
      | true :: rest =>
          (Err BLEConnectionError,
           World rest true (incoming w) (trace w ++ [WriteFailed data])
                 (_config w) (_capabilities w) (_fwVersion w))
      | false :: rest =>
          (Ok tt,
           World rest true (incoming w) (trace w ++ [Wrote data])
                 (_config w) (_capabilities w) (_fwVersion w))
      | [] => (Ok tt, log (Wrote data) w)
      end
    else (Err BLEConnectionError, w).

Definition readResponse (timeoutMs : Z) : M Uint8Array :=
  fun w =>
    if connected w then
      match incoming w with
      | [] => (Err BLETimeoutError, log (Waited timeoutMs Silence) w)
      | Arrives frame :: rest =>
          (Ok frame,
           World (rejections w) true rest
                 (trace w ++ [Waited timeoutMs (Arrives frame)])
                 (_config w) (_capabilities w) (_fwVersion w))
      | Silence :: rest =>
          (Err BLETimeoutError,
           World (rejections w) true rest (trace w ++ [Waited timeoutMs Silence])
                 (_config w) (_capabilities w) (_fwVersion w))
      | Dropped :: rest =>
          (Err PlainError,
           World (rejections w) false rest (trace w ++ [Waited timeoutMs Dropped])
                 (_config w) (_capabilities w) (_fwVersion w))
      end
    else (Err BLEConnectionError, w).

Definition clearQueue : M unit := emit QueueCleared.

(* ------------------------------------------------------------------------- *)
(** ** Orchestrators (device.ts, class OpenDisplayDevice) *)

Definition TIMEOUT_FIRST_CHUNK : Z := 10000.
Definition TIMEOUT_CHUNK : Z := 2000.
Definition TIMEOUT_ACK : Z := 5000.
Definition TIMEOUT_REFRESH : Z := 90000.

Definition ensureConnected : M unit :=
  fun w => if connected w then (Ok tt, w) else (Err BLEConnectionError, w).

Definition ensureCapabilities : M DeviceCapabilities :=
  fun w =>
    match _capabilities w with
    | Some c => (Ok c, w)
    | None => (Err PlainError, w)
    end.

Definition extractCapabilitiesFromConfig : M DeviceCapabilities :=
  fun w =>
    match _config w with
    | None => (Err PlainError, w)
    | Some c =>
        match GlobalConfig.displays c with
        | [] => (Err PlainError, w)
        | display :: _ =>
            (Ok {| width := DisplayConfig.pixelWidth display;
                   height := DisplayConfig.pixelHeight display;
                   colorScheme := DisplayConfig.colorScheme display;
                   rotation := DisplayConfig.rotation display |}, w)
        end
    end.

Definition set_config (c : GlobalConfig.t) : M unit :=
  fun w => (Ok tt, World (rejections w) (connected w) (incoming w) (trace w)
                           (Some c) (_capabilities w) (_fwVersion w)).

Definition set_capabilities (c : DeviceCapabilities) : M unit :=
  fun w => (Ok tt, World (rejections w) (connected w) (incoming w) (trace w)
                           (_config w) (Some c) (_fwVersion w)).

Definition set_fwVersion (v : FirmwareVersion) : M unit :=
  fun w => (Ok tt, World (rejections w) (connected w) (incoming w) (trace w)
                           (_config w) (_capabilities w) (Some v)).

(** The [while (currentLength < totalLength)] loop of [interrogate]. *)
Fixpoint interrogate_loop (fuel : nat) (totalLength currentLength : Z)
         (tlvData : list Uint8Array) : M (Z * list Uint8Array) :=
  match fuel with
  | O => throw OutOfFuel
  | S fuel' =>
      if currentLength <? totalLength then
        nextResponse <- readResponse TIMEOUT_CHUNK ;;
        let nextChunkData := stripCommandEcho nextResponse CommandCode.READ_CONFIG in
        interrogate_loop fuel' totalLength
          (currentLength + (Z.of_nat (length nextChunkData) - 2))
          (tlvData ++ [slice_from nextChunkData 2])
      else ret (currentLength, tlvData)
  end.

(** [for (const chunk of tlvData) { completeData.set(chunk, offset); ... }];
    [set] throws a RangeError when the chunk does not fit. *)
Fixpoint set_chunks (completeData : Uint8Array) (chunks : list Uint8Array)
         (offset : nat) : result Uint8Array :=
  match chunks with
  | [] => Ok completeData
  | chunk :: rest =>
      if (length completeData <? offset + length chunk)%nat then Err RangeError
      else set_chunks (DataView.set completeData chunk offset) rest
                      (offset + length chunk)
  end.

(** [interrogate] up to and including the assembly of [completeData]. *)
Definition interrogate_completeData : M Uint8Array :=
  ensureConnected ;;;
  writeCommand buildReadConfigCommand ;;;
  response <- readResponse TIMEOUT_FIRST_CHUNK ;;
  let chunkData := stripCommandEcho response CommandCode.READ_CONFIG in
  (* view.getUint16(2, true) on a view that starts at chunkData *)
  if (length chunkData <? 4)%nat then throw RangeError else
  let totalLength := DataView.getUint16 chunkData 2 true in
  let tlvData := [slice_from chunkData 4] in
  let currentLength := Z.of_nat (length chunkData) - 4 in
  fun w =>
    (r <- interrogate_loop (S (length (incoming w))) totalLength currentLength tlvData ;;
     let '(currentLength, tlvData) := r in
     if currentLength <? 0 then throw RangeError else
     lift (set_chunks (DataView.alloc (Z.to_nat currentLength)) tlvData 0)) w.

Definition interrogate : M GlobalConfig.t :=
  completeData <- interrogate_completeData ;;
  config <- lift (parseConfigResponse completeData) ;;
  set_config config ;;;
  caps <- extractCapabilitiesFromConfig ;;
  set_capabilities caps ;;;
  ret config.

Definition readFirmwareVersion : M FirmwareVersion :=
  ensureConnected ;;;
  writeCommand buildReadFwVersionCommand ;;;
  response <- readResponse TIMEOUT_ACK ;;
  v <- lift (parseFirmwareVersion response) ;;
  set_fwVersion v ;;;
  ret v.

Definition reboot : M unit :=
  ensureConnected ;;;
  writeCommand buildRebootCommand.

(** [for (let i = 0; i < chunkCmds.length; i++)] of [writeConfig]. *)
Fixpoint writeConfig_send (chunkCmds : list Uint8Array) : M unit :=
  match chunkCmds with
  | [] => ret tt
  | chunkCmd :: rest =>
      writeCommand chunkCmd ;;;
      response <- readResponse TIMEOUT_ACK ;;
      lift (validateAckResponse response CommandCode.WRITE_CONFIG_CHUNK) ;;;
      writeConfig_send rest
  end.

Definition writeConfig (config : GlobalConfig.t) : M unit :=
  ensureConnected ;;;
  match GlobalConfig.displays config with
  | [] => throw PlainError
  | _ :: _ =>
      configData <- lift (serializeConfig config) ;;
      cmds <- lift (buildWriteConfigCommand configData) ;;
      let '(firstCmd, chunkCmds) := cmds in
      writeCommand firstCmd ;;;
      response <- readResponse TIMEOUT_ACK ;;
      lift (validateAckResponse response CommandCode.WRITE_CONFIG) ;;;
      writeConfig_send chunkCmds
  end.

(** The [try { ... } catch (error) { ... }] around the wait for the response
    to a chunk, in [sendDataChunks]. *)
Definition awaitChunkResponse : M Uint8Array :=
  try_catch (readResponse TIMEOUT_ACK)
    (fun error =>
       if instanceof_BLETimeoutError error then
         emit (OnStatusChange RefreshingDisplay) ;;;
         readResponse TIMEOUT_REFRESH
       else throw error).

(** The [while (bytesSent < imageData.length)] loop of [sendDataChunks]. *)
Fixpoint sendDataChunks_loop (fuel : nat) (imageData : Uint8Array)
         (bytesSent chunksSent : nat) : M bool :=
  match fuel with
  | O => throw OutOfFuel
  | S fuel' =>
      if (bytesSent <? length imageData)%nat then
        let chunkStart := bytesSent in
        let chunkEnd := Nat.min (chunkStart + CHUNK_SIZE) (length imageData) in
        let chunkData := slice imageData chunkStart chunkEnd in
        dataCmd <- lift (buildDirectWriteDataCommand chunkData) ;;
        writeCommand dataCmd ;;;
        let bytesSent := (bytesSent + length chunkData)%nat in
        let chunksSent := (chunksSent + 1)%nat in
        response <- awaitChunkResponse ;;
        r <- lift (checkResponseType response) ;;
        let '(command, isAck) := r in
        if command =? CommandCode.DIRECT_WRITE_DATA then
          emit (OnProgress bytesSent (length imageData)) ;;;
          sendDataChunks_loop fuel' imageData bytesSent chunksSent
        else if command =? CommandCode.DIRECT_WRITE_END then
          emit (OnProgress (length imageData) (length imageData)) ;;;
          ret true
        else throw ProtocolError
      else ret false
  end.

(** Every turn sends at least one byte, so [length imageData] turns (and one
    more for the final test) suffice. *)
Definition sendDataChunks (imageData : Uint8Array) : M bool :=
  sendDataChunks_loop (S (length imageData)) imageData 0 0.

(** Step 5 of [executeUpload], written twice in the source (after the END
    acknowledgement and after auto-completion) with the same text.
    [refreshComplete] and [refreshTimeout] are the values that
    [CommandCode.REFRESH_COMPLETE] and [CommandCode.REFRESH_TIMEOUT]
    evaluate to. *)
Definition awaitRefresh_with (refreshComplete refreshTimeout : JS.value) : M unit :=
  refreshResponse <- readResponse TIMEOUT_REFRESH ;;
  r <- lift (checkResponseType refreshResponse) ;;
  let '(responseCode, _) := r in
  if JS.strict_eq (JS.Num responseCode) refreshComplete then
    emit (OnStatusChange RefreshComplete) ;;;
    emit OnComplete
  else if JS.strict_eq (JS.Num responseCode) refreshTimeout then
    throw ProtocolError
  else throw ProtocolError.

Definition awaitRefresh : M unit :=
  awaitRefresh_with (CommandCode.member "REFRESH_COMPLETE")
                    (CommandCode.member "REFRESH_TIMEOUT").

Record UploadParams : Type := {
  imageData : Uint8Array;
  refreshMode : Z;
  useCompression : bool;                 (* default false *)
  compressedData : option Uint8Array;
  uncompressedSize : option Z
}.

Definition executeUpload (params : UploadParams) : M unit :=
  clearQueue ;;;
  (* 1. START *)
  let start :=
    match useCompression params, compressedData params, uncompressedSize params with
    | true, Some cd, Some n =>
        if n =? 0 then (buildDirectWriteStartUncompressed, None)
        else let '(s, r) := buildDirectWriteStartCompressed n cd in (s, Some r)
    | _, _, _ => (buildDirectWriteStartUncompressed, None)
    end in
  let '(startCmd, remainingCompressed) := start in
  writeCommand startCmd ;;;
  (* 2. START ACK *)
  response <- readResponse TIMEOUT_ACK ;;
  lift (validateAckResponse response CommandCode.DIRECT_WRITE_START) ;;;
  (* 3. data chunks *)
  autoCompleted <-
    match useCompression params, remainingCompressed with
    | true, Some (b :: rest) => sendDataChunks (b :: rest)
    | true, _ => ret false
    | false, _ => sendDataChunks (imageData params)
    end ;;
  (* 4. END, 5. refresh *)
  if negb autoCompleted then
    writeCommand (buildDirectWriteEndCommand (refreshMode params)) ;;;
    response <- readResponse TIMEOUT_ACK ;;
    lift (validateAckResponse response CommandCode.DIRECT_WRITE_END) ;;;
    emit OnUploadComplete ;;;
    emit (OnStatusChange UploadCompleteRefreshing) ;;;
    awaitRefresh
  else
    emit OnUploadComplete ;;;
    emit (OnStatusChange UploadCompleteRefreshing) ;;;
    awaitRefresh.

(** [uploadImage].  [encodedData] is the result of the external
    [prepareImageForUpload] and [compressed] that of the external
    [compressImageData(encodedData, 6)]. *)
Definition uploadImage (encodedData compressed : Uint8Array)
           (refreshMode : Z) (compress : bool) : M unit :=
  ensureConnected ;;;
  _ <- ensureCapabilities ;;
  emit (OnStatusChange PreparingImage) ;;;
  (if compress then
     emit (OnStatusChange Compressing) ;;;
     if (length compressed <? MAX_COMPRESSED_SIZE)%nat then
       emit (OnStatusChange Uploading) ;;;
       executeUpload {| imageData := encodedData; refreshMode := refreshMode;
                        useCompression := true;
                        compressedData := Some compressed;
                        uncompressedSize := Some (Z.of_nat (length encodedData)) |}
     else
       emit (OnStatusChange Uploading) ;;;
       executeUpload {| imageData := encodedData; refreshMode := refreshMode;
                        useCompression := false;
                        compressedData := None; uncompressedSize := None |}
   else
     emit (OnStatusChange Uploading) ;;;
     executeUpload {| imageData := encodedData; refreshMode := refreshMode;
                      useCompression := false;
                      compressedData := None; uncompressedSize := None |}) ;;;
  emit (OnStatusChange UploadCompleteBang).

(* ------------------------------------------------------------------------- *)
(** ** Advertisement data (models/advertisement.ts) *)

Record AdvertisementData : Type := {
  batteryMv : Z;
  temperatureC : Z;
  loopCounter : Z
}.

Definition parseAdvertisement (data : Uint8Array) : result AdvertisementData :=
  if (length data <? 11)%nat then Err PlainError else
  Ok {| batteryMv := DataView.getUint16 data 7 true;
        temperatureC := DataView.getInt8 data 9;
        loopCounter := nth 10 data 0 |}.

(* ------------------------------------------------------------------------- *)
(** ** Notification queue (transport/notification-queue.ts)

    JavaScript runs each call and each timer callback to completion, so the
    queue is a state machine.  A promise returned by [dequeue] is known by a
    number, which stands for the identity of its [resolve] function (what
    the timer callback looks up with [findIndex]); [promises] counts the
    promises handed out so far.  Every operation returns the new state and
    the promises it settles. *)

Module NotificationQueue.

Inductive settled : Type :=
| Resolved (promise : nat) (data : Uint8Array)
| Rejected (promise : nat) (e : error).

Record t : Type := mk {
  queue : list Uint8Array;
  pendingResolvers : list nat;
  promises : nat
}.

(** [new NotificationQueue()] *)
Definition new : t := mk [] [] 0.

Definition enqueue (data : Uint8Array) (q : t) : t * list settled :=
  match pendingResolvers q with
  | pending :: rest =>
      (* shift, clearTimeout, resolve *)
      (mk (queue q) rest (promises q), [Resolved pending data])
  | [] => (mk (queue q ++ [data]) [] (promises q), [])
  end.

Definition dequeue (timeoutMs : Z) (q : t) : t * list settled :=
  let promise := promises q in
  match queue q with
  | data :: rest =>
      (mk rest (pendingResolvers q) (S promise), [Resolved promise data])
  | [] =>
      (* the timer is armed, the resolver is pushed *)
      (mk [] (pendingResolvers q ++ [promise]) (S promise), [])
  end.

(** [findIndex] then [splice(index, 1)]: the list without the first
    occurrence, or [None] for the index -1. *)
Fixpoint splice_first (promise : nat) (pending : list nat) : option (list nat) :=
  match pending with
  | [] => None
  | p :: rest =>
      if (p =? promise)%nat then Some rest
      else match splice_first promise rest with
           | Some rest' => Some (p :: rest')
           | None => None
           end
  end.

(** The callback of the timer that [dequeue] arms for [promise]. *)
Definition onTimeout (promise : nat) (q : t) : t * list settled :=
  match splice_first promise (pendingResolvers q) with
  | Some rest => (mk (queue q) rest (promises q), [Rejected promise BLETimeoutError])
  | None => (q, [])
  end.

Definition clear (q : t) : t * list settled :=
  (mk [] [] (promises q),
   map (fun pending => Rejected pending PlainError) (pendingResolvers q)).

Definition size (q : t) : nat := length (queue q).
Definition pendingCount (q : t) : nat := length (pendingResolvers q).

End NotificationQueue.

(* ------------------------------------------------------------------------- *)
(** ** Image encoders (encoding/images.ts, encoding/bitplanes.ts)

    [ColorScheme] and [PaletteImageBuffer] come from the package
    epaper-dithering; the encoders use the members of the enum by name
    only.  A value of the type is a number at run time: one of the six
    members, or another number, [other n] (the capabilities hold the byte
    of the display record, cast [as ColorScheme] without a check).  Width
    and height are natural numbers, [Math.ceil(width / n)] is then
    [(width + n - 1) / n]. *)

Inductive ColorScheme : Type :=
| MONO
| BWR
| BWY
| BWRY
| BWGBRY
| GRAYSCALE_4
| other (value : Z).

Module PaletteImageBuffer.
Record t : Type := mk {
  width : nat;
  height : nat;
  indices : Uint8Array
}.
End PaletteImageBuffer.

Definition ceil_div (a n : nat) : nat := (a + n - 1) / n.

(** [output[i] |= v] on a [Uint8Array]: the result is stored as a byte, and
    a store outside the array does nothing. *)
Definition or_assign (output : Uint8Array) (i : nat) (v : Z) : Uint8Array :=
  DataView.store output i ((JS.or (nth i output 0) v) mod 256).

(** [for (let y = 0; y < height; y++) for (let x = 0; x < width; x++) body] *)
Definition for_pixels {St : Type} (width height : nat)
           (body : St -> nat -> nat -> St) (init : St) : St :=
  fold_left (fun s y => fold_left (fun s x => body s y x) (seq 0 width) s)
            (seq 0 height) init.

(** [pixels[i]]: reading past the end gives [undefined], which behaves as 0
    in every use the encoders make of it ([> 0], [& mask], [=== 1],
    [=== 2]). *)
Definition pixel_at (pixels : Uint8Array) (i : nat) : Z := nth i pixels 0.

Definition encode1bpp (paletteImage : PaletteImageBuffer.t) : Uint8Array :=
  let width := PaletteImageBuffer.width paletteImage in
  let height := PaletteImageBuffer.height paletteImage in
  let pixels := PaletteImageBuffer.indices paletteImage in
  let bytesPerRow := ceil_div width 8 in
  let output := DataView.alloc (bytesPerRow * height) in
  for_pixels width height
    (fun output y x =>
       let byteIdx := (y * bytesPerRow + x / 8)%nat in
       let bitIdx := (7 - x mod 8)%nat in
       if pixel_at pixels (y * width + x) >? 0
       then or_assign output byteIdx (JS.shl 1 (Z.of_nat bitIdx))
       else output)
    output.

Definition encode2bpp (paletteImage : PaletteImageBuffer.t) : Uint8Array :=
  let width := PaletteImageBuffer.width paletteImage in
  let height := PaletteImageBuffer.height paletteImage in
  let pixels := PaletteImageBuffer.indices paletteImage in
  let bytesPerRow := ceil_div width 4 in
  let output := DataView.alloc (bytesPerRow * height) in
  for_pixels width height
    (fun output y x =>
       let byteIdx := (y * bytesPerRow + x / 4)%nat in
       let pixelInByte := (x mod 4)%nat in
       let bitShift := ((3 - pixelInByte) * 2)%nat in
       let paletteIdx := JS.and (pixel_at pixels (y * width + x)) 0x03 in
       or_assign output byteIdx (JS.shl paletteIdx (Z.of_nat bitShift)))
    output.

(** [BWGBRY_MAP]: [paletteIdx in BWGBRY_MAP] holds for 0..5. *)
Definition BWGBRY_MAP (paletteIdx : Z) : option Z :=
  if paletteIdx =? 0 then Some 0
  else if paletteIdx =? 1 then Some 1
  else if paletteIdx =? 2 then Some 2
  else if paletteIdx =? 3 then Some 3
  else if paletteIdx =? 4 then Some 5
  else if paletteIdx =? 5 then Some 6
  else None.

Definition encode4bpp (paletteImage : PaletteImageBuffer.t) (bwgbryMapping : bool)
  : Uint8Array :=
  let width := PaletteImageBuffer.width paletteImage in
  let height := PaletteImageBuffer.height paletteImage in
  let pixels := PaletteImageBuffer.indices paletteImage in
  let bytesPerRow := ceil_div width 2 in
  let output := DataView.alloc (bytesPerRow * height) in
  for_pixels width height
    (fun output y x =>
       let byteIdx := (y * bytesPerRow + x / 2)%nat in
       let pixelInByte := (x mod 2)%nat in
       let paletteIdx := JS.and (pixel_at pixels (y * width + x)) 0x0f in
       let paletteIdx :=
         if bwgbryMapping then
           match BWGBRY_MAP paletteIdx with
           | Some mapped => mapped
           | None => paletteIdx
           end
         else paletteIdx in
       let bitShift := ((1 - pixelInByte) * 4)%nat in
       or_assign output byteIdx (JS.shl paletteIdx (Z.of_nat bitShift)))
    output.

Definition encodeImage (paletteImage : PaletteImageBuffer.t)
           (colorScheme : ColorScheme) : result Uint8Array :=
  match colorScheme with
  | MONO => Ok (encode1bpp paletteImage)
  | BWR | BWY => Err ImageEncodingError
  | BWRY => Ok (encode2bpp paletteImage)
  | BWGBRY => Ok (encode4bpp paletteImage true)
  | GRAYSCALE_4 => Ok (encode2bpp paletteImage)
  | other _ => Err ImageEncodingError                (* default: *)
  end.

Definition encodeBitplanes (paletteImage : PaletteImageBuffer.t)
           (colorScheme : ColorScheme) : result (Uint8Array * Uint8Array) :=
  match colorScheme with
  | BWR | BWY =>
      let width := PaletteImageBuffer.width paletteImage in
      let height := PaletteImageBuffer.height paletteImage in
      let pixels := PaletteImageBuffer.indices paletteImage in
      let bytesPerRow := ceil_div width 8 in
      let plane1 := DataView.alloc (bytesPerRow * height) in
      let plane2 := DataView.alloc (bytesPerRow * height) in
      Ok (for_pixels width height
            (fun planes y x =>
               let '(plane1, plane2) := planes in
               let byteIdx := (y * bytesPerRow + x / 8)%nat in
               let bitIdx := (7 - x mod 8)%nat in
               let paletteIdx := pixel_at pixels (y * width + x) in
               if paletteIdx =? 1
               then (or_assign plane1 byteIdx (JS.shl 1 (Z.of_nat bitIdx)), plane2)
               else if paletteIdx =? 2
               then (plane1, or_assign plane2 byteIdx (JS.shl 1 (Z.of_nat bitIdx)))
               else planes)
            (plane1, plane2))
  | _ => Err ImageEncodingError
  end.

(* ------------------------------------------------------------------------- *)
(** ** Field ranges of the wire format

    The range of a field is the range of the accessor that the codec uses
    for it: [setUint8]/[getUint8] for a [uint8], and so on.  [txPower] is
    written with [setInt8] and read back with [getInt8], so its range is the
    signed one.  A reserved region is in range when it is present, has the
    length the interface documents and holds bytes. *)

Definition uint8 (x : Z) : Prop := 0 <= x < 256.
Definition int8 (x : Z) : Prop := -128 <= x < 128.
Definition uint16 (x : Z) : Prop := 0 <= x < 65536.
Definition uint24 (x : Z) : Prop := 0 <= x < 16777216.
Definition uint32 (x : Z) : Prop := 0 <= x < 4294967296.

Definition has_length (n : nat) (o : option Uint8Array) : Prop :=
  match o with
  | Some l => length l = n /\ bytes_ok l
  | None => False
  end.

Definition SystemConfig_ok (r : SystemConfig.t) : Prop :=
  uint16 (SystemConfig.icType r) /\
  uint8 (SystemConfig.communicationModes r) /\
  uint8 (SystemConfig.deviceFlags r) /\
  uint8 (SystemConfig.pwrPin r) /\
  has_length 17 (SystemConfig.reserved r).

Definition ManufacturerData_ok (r : ManufacturerData.t) : Prop :=
  uint16 (ManufacturerData.manufacturerId r) /\
  uint8 (ManufacturerData.boardType r) /\
  uint8 (ManufacturerData.boardRevision r) /\
  has_length 18 (ManufacturerData.reserved r).

Definition PowerOption_ok (r : PowerOption.t) : Prop :=
  uint8 (PowerOption.powerMode r) /\
  uint24 (PowerOption.batteryCapacityMah r) /\
  uint16 (PowerOption.sleepTimeoutMs r) /\
  int8 (PowerOption.txPower r) /\
  uint8 (PowerOption.sleepFlags r) /\
  uint8 (PowerOption.batterySensePin r) /\
  uint8 (PowerOption.batterySenseEnablePin r) /\
  uint8 (PowerOption.batterySenseFlags r) /\
  uint8 (PowerOption.capacityEstimator r) /\
  uint16 (PowerOption.voltageScalingFactor r) /\
  uint32 (PowerOption.deepSleepCurrentUa r) /\
  uint16 (PowerOption.deepSleepTimeSeconds r) /\
  has_length 10 (PowerOption.reserved r).

Definition DisplayConfig_ok (r : DisplayConfig.t) : Prop :=
  uint8 (DisplayConfig.instanceNumber r) /\
  uint8 (DisplayConfig.displayTechnology r) /\
  uint16 (DisplayConfig.panelIcType r) /\
  uint16 (DisplayConfig.pixelWidth r) /\
  uint16 (DisplayConfig.pixelHeight r) /\
  uint16 (DisplayConfig.activeWidthMm r) /\
  uint16 (DisplayConfig.activeHeightMm r) /\
  uint16 (DisplayConfig.tagType r) /\
  uint8 (DisplayConfig.rotation r) /\
  uint8 (DisplayConfig.resetPin r) /\
  uint8 (DisplayConfig.busyPin r) /\
  uint8 (DisplayConfig.dcPin r) /\
  uint8 (DisplayConfig.csPin r) /\
  uint8 (DisplayConfig.dataPin r) /\
  uint8 (DisplayConfig.partialUpdateSupport r) /\
  uint8 (DisplayConfig.colorScheme r) /\
  uint8 (DisplayConfig.transmissionModes r) /\
  uint8 (DisplayConfig.clkPin r) /\
  has_length 7 (DisplayConfig.reservedPins r) /\
  has_length 15 (DisplayConfig.reserved r).

Definition LedConfig_ok (r : LedConfig.t) : Prop :=
  uint8 (LedConfig.instanceNumber r) /\
  uint8 (LedConfig.ledType r) /\
  uint8 (LedConfig.led1R r) /\
  uint8 (LedConfig.led2G r) /\
  uint8 (LedConfig.led3B r) /\
  uint8 (LedConfig.led4 r) /\
  uint8 (LedConfig.ledFlags r) /\
  has_length 15 (LedConfig.reserved r).

Definition SensorData_ok (r : SensorData.t) : Prop :=
  uint8 (SensorData.instanceNumber r) /\
  uint16 (SensorData.sensorType r) /\
  uint8 (SensorData.busId r) /\
  has_length 26 (SensorData.reserved r).

Definition DataBus_ok (r : DataBus.t) : Prop :=
  uint8 (DataBus.instanceNumber r) /\
  uint8 (DataBus.busType r) /\
  uint8 (DataBus.pin1 r) /\
  uint8 (DataBus.pin2 r) /\
  uint8 (DataBus.pin3 r) /\
  uint8 (DataBus.pin4 r) /\
  uint8 (DataBus.pin5 r) /\
  uint8 (DataBus.pin6 r) /\
  uint8 (DataBus.pin7 r) /\
  uint32 (DataBus.busSpeedHz r) /\
  uint8 (DataBus.busFlags r) /\
  uint8 (DataBus.pullups r) /\
  uint8 (DataBus.pulldowns r) /\
  has_length 14 (DataBus.reserved r).

Definition BinaryInputs_ok (r : BinaryInputs.t) : Prop :=
  uint8 (BinaryInputs.instanceNumber r) /\
  uint8 (BinaryInputs.inputType r) /\
  uint8 (BinaryInputs.displayAs r) /\
  has_length 8 (BinaryInputs.reservedPins r) /\
  uint8 (BinaryInputs.inputFlags r) /\
  uint8 (BinaryInputs.invert r) /\
  uint8 (BinaryInputs.pullups r) /\
  uint8 (BinaryInputs.pulldowns r) /\
  has_length 15 (BinaryInputs.reserved r).

(** ** Sample records *)

Definition sample_system : SystemConfig.t :=
  SystemConfig.mk 1 3 1 255 (Some (repeat 0 17)).

Definition sample_manufacturer : ManufacturerData.t :=
  ManufacturerData.mk 0x2446 2 1 (Some (repeat 7 18)).

Definition sample_power : PowerOption.t :=
  PowerOption.mk 1 1200 30000 (-8) 1 4 5 0 1 1000 70000 3600
                 (Some [1; 2; 3; 4; 5; 6; 7; 8; 9; 10]).

Definition sample_display : DisplayConfig.t :=
  DisplayConfig.mk 0 1 2 296 128 66 29 0 90 8 9 10 11 12 1 1 3 13
                   (Some (repeat 0xff 7)) (Some (repeat 0 15)).

Definition sample_led : LedConfig.t :=
  LedConfig.mk 0 1 14 15 16 255 0 (Some (repeat 0 15)).

Definition sample_sensor : SensorData.t :=
  SensorData.mk 0 513 0 (Some (repeat 0xaa 26)).

Definition sample_bus : DataBus.t :=
  DataBus.mk 0 0 5 6 255 255 255 255 255 400000 0 3 0 (Some (repeat 0 14)).

Definition sample_input : BinaryInputs.t :=
  BinaryInputs.mk 0 1 2 (Some [1; 2; 3; 4; 5; 6; 7; 8]) 1 0 1 0
                  (Some (repeat 0 15)).

Definition sample_config : GlobalConfig.t :=
  GlobalConfig.mk (Some sample_system) (Some sample_manufacturer)
                  (Some sample_power) [sample_display] [sample_led]
                  [sample_sensor] [sample_bus] [sample_input] 1 1 true.

(** ** Layout of a serialized configuration *)

(** The packets of one repeatable kind: item [i] of [items] preceded by the
    header [[i; packetType]]. *)
Definition tagged_packets {A : Type} (packetType : Z)
           (serialize : A -> Uint8Array) (items : list A) : list Uint8Array :=
  flat_map (fun ix => [[Z.of_nat (fst ix); packetType]; serialize (snd ix)])
           (combine (seq 0 (length items)) items).

(** Header, single-instance packets, then at most the first four items of
    each repeatable kind. *)
Definition first_four_layout (c : GlobalConfig.t) : list Uint8Array :=
  [[0x00; 0x00; GlobalConfig.version c mod 256]]
    ++ push_single PACKET_TYPE_SYSTEM serializeSystemConfig (GlobalConfig.system c)
    ++ push_single PACKET_TYPE_MANUFACTURER serializeManufacturerData
         (GlobalConfig.manufacturer c)
    ++ push_single PACKET_TYPE_POWER serializePowerOption (GlobalConfig.power c)
    ++ tagged_packets PACKET_TYPE_DISPLAY serializeDisplayConfig
         (firstn 4 (GlobalConfig.displays c))
    ++ tagged_packets PACKET_TYPE_LED serializeLedConfig
         (firstn 4 (GlobalConfig.leds c))
    ++ tagged_packets PACKET_TYPE_SENSOR serializeSensorData
         (firstn 4 (GlobalConfig.sensors c))
    ++ tagged_packets PACKET_TYPE_DATABUS serializeDataBus
         (firstn 4 (GlobalConfig.dataBuses c))
    ++ tagged_packets PACKET_TYPE_BINARY_INPUT serializeBinaryInputs
         (firstn 4 (GlobalConfig.binaryInputs c)).

(** [c] with every repeatable list cut after its fourth entry. *)
Definition first_four (c : GlobalConfig.t) : GlobalConfig.t :=
  GlobalConfig.mk (GlobalConfig.system c) (GlobalConfig.manufacturer c)
                  (GlobalConfig.power c)
                  (firstn 4 (GlobalConfig.displays c))
                  (firstn 4 (GlobalConfig.leds c))
                  (firstn 4 (GlobalConfig.sensors c))
                  (firstn 4 (GlobalConfig.dataBuses c))
                  (firstn 4 (GlobalConfig.binaryInputs c))
                  (GlobalConfig.version c) (GlobalConfig.minorVersion c)
                  (GlobalConfig.loaded c).

Definition some_list_over_four (c : GlobalConfig.t) : Prop :=
  (4 < length (GlobalConfig.displays c)
   \/ 4 < length (GlobalConfig.leds c)
   \/ 4 < length (GlobalConfig.sensors c)
   \/ 4 < length (GlobalConfig.dataBuses c)
   \/ 4 < length (GlobalConfig.binaryInputs c))%nat.

Definition crowded_config : GlobalConfig.t :=
  GlobalConfig.mk (Some sample_system) None None
                  (repeat sample_display 6) [sample_led] [] [] [] 1 1 true.

(** ** CRC-32/ISO-HDLC, after the words of the specification

    "Standard CRC-32/ISO-HDLC (poly 0xEDB88320, init 0xFFFFFFFF, reflected
    in/out, final XOR 0xFFFFFFFF); keep only the low 16 bits of the 32-bit
    result."  The register is an unsigned 32-bit number; with reflected
    input and output the register is shifted right and the reflected
    polynomial is added when a one falls out. *)

Definition crc32_poly : Z := 0xEDB88320.

Definition crc32_shift (c : Z) : Z :=
  Z.lxor (Z.shiftr c 1) (if Z.testbit c 0 then crc32_poly else 0).

Fixpoint crc32_shifts (n : nat) (c : Z) : Z :=
  match n with
  | O => c
  | S k => crc32_shifts k (crc32_shift c)
  end.

Definition crc32_byte (c b : Z) : Z := crc32_shifts 8 (Z.lxor c b).

Definition crc32_iso_hdlc (data : Uint8Array) : Z :=
  Z.lxor (fold_left crc32_byte data 0xFFFFFFFF) 0xFFFFFFFF.

Definition low16 (x : Z) : Z := x mod 65536.

(** [data] with bit [j] of its byte [i] inverted. *)
Definition flip_bit (data : Uint8Array) (i : nat) (j : Z) : Uint8Array :=
  firstn i data ++ [Z.lxor (nth i data 0) (2 ^ j)] ++ skipn (S i) data.

(** No single inverted bit at distance [1..n] from the end of the message
    leaves the low half of the register unchanged: the effect of the bit at
    distance [t] is [crc32_shifts t 1]. *)
Fixpoint low16_deltas_nonzero (n : nat) (c : Z) : bool :=
  match n with
  | O => true
  | S k =>
      let c' := crc32_shift c in
      negb (low16 c' =? 0) && low16_deltas_nonzero k c'
  end.

(** ** Packet streams *)

(** One TLV packet: sequence number, type id, payload. *)
Record packet : Type := mkPacket {
  pk_number : Z;
  pk_type : Z;
  pk_payload : Uint8Array
}.

Definition packet_bytes (p : packet) : Uint8Array :=
  [pk_number p; pk_type p] ++ pk_payload p.

(** A packet of a known type whose payload has the size of the table. *)
Definition packet_ok (p : packet) : Prop :=
  getPacketSize (pk_type p) = Some (length (pk_payload p)).

Definition stream (ps : list packet) : Uint8Array := flat_map packet_bytes ps.

Definition packet_key_of (p : packet) : packet_key := (pk_type p, pk_number p).

(** The [packets] map after the walk has stored [ps] in order. *)
Definition packets_map (ps : list packet) (m : list (packet_key * Uint8Array))
  : list (packet_key * Uint8Array) :=
  fold_left (fun m p => map_set (packet_key_of p) (pk_payload p) m) ps m.

(** The accumulator with which the second pass of [parseTlvConfig] starts. *)
Definition empty_config (version : Z) : GlobalConfig.t :=
  GlobalConfig.mk None None None [] [] [] [] [] version 1 true.

Definition sample_packets : list packet :=
  [ mkPacket 0 PACKET_TYPE_SYSTEM (serializeSystemConfig sample_system);
    mkPacket 0 PACKET_TYPE_DISPLAY (serializeDisplayConfig sample_display) ].

(** ** Configurations that round-trip *)

Definition opt_packet {A : Type} (packetType : Z) (serialize : A -> Uint8Array)
           (x : option A) : list packet :=
  match x with
  | Some item => [mkPacket 0 packetType (serialize item)]
  | None => []
  end.

Definition idx_packets_from {A : Type} (start : nat) (packetType : Z)
           (serialize : A -> Uint8Array) (items : list A) : list packet :=
  map (fun ix => mkPacket (Z.of_nat (fst ix)) packetType (serialize (snd ix)))
      (combine (seq start (length items)) items).

(** The packets that [serializeConfig] emits for [c], in order. *)
Definition config_packets (c : GlobalConfig.t) : list packet :=
  opt_packet PACKET_TYPE_SYSTEM serializeSystemConfig (GlobalConfig.system c)
    ++ opt_packet PACKET_TYPE_MANUFACTURER serializeManufacturerData
         (GlobalConfig.manufacturer c)
    ++ opt_packet PACKET_TYPE_POWER serializePowerOption (GlobalConfig.power c)
    ++ idx_packets_from 0 PACKET_TYPE_DISPLAY serializeDisplayConfig
         (firstn 4 (GlobalConfig.displays c))
    ++ idx_packets_from 0 PACKET_TYPE_LED serializeLedConfig
         (firstn 4 (GlobalConfig.leds c))
    ++ idx_packets_from 0 PACKET_TYPE_SENSOR serializeSensorData
         (firstn 4 (GlobalConfig.sensors c))
    ++ idx_packets_from 0 PACKET_TYPE_DATABUS serializeDataBus
         (firstn 4 (GlobalConfig.dataBuses c))
    ++ idx_packets_from 0 PACKET_TYPE_BINARY_INPUT serializeBinaryInputs
         (firstn 4 (GlobalConfig.binaryInputs c)).

Definition option_ok {A : Type} (P : A -> Prop) (o : option A) : Prop :=
  match o with
  | Some x => P x
  | None => True
  end.

(** Well-formed: at most four entries in each repeatable list (at most one
    single-instance record holds by the type), every field in range and a
    version that fits its byte. *)
Definition GlobalConfig_ok (c : GlobalConfig.t) : Prop :=
  option_ok SystemConfig_ok (GlobalConfig.system c) /\
  option_ok ManufacturerData_ok (GlobalConfig.manufacturer c) /\
  option_ok PowerOption_ok (GlobalConfig.power c) /\
  Forall DisplayConfig_ok (GlobalConfig.displays c) /\
  Forall LedConfig_ok (GlobalConfig.leds c) /\
  Forall SensorData_ok (GlobalConfig.sensors c) /\
  Forall DataBus_ok (GlobalConfig.dataBuses c) /\
  Forall BinaryInputs_ok (GlobalConfig.binaryInputs c) /\
  (length (GlobalConfig.displays c) <= 4)%nat /\
  (length (GlobalConfig.leds c) <= 4)%nat /\
  (length (GlobalConfig.sensors c) <= 4)%nat /\
  (length (GlobalConfig.dataBuses c) <= 4)%nat /\
  (length (GlobalConfig.binaryInputs c) <= 4)%nat /\
  uint8 (GlobalConfig.version c).

(** The configuration holds at least one record. *)
Definition has_record (c : GlobalConfig.t) : Prop :=
  config_packets c <> [].

(** A configuration without any record, at version 26. *)
Definition bare_config_v26 : GlobalConfig.t :=
  GlobalConfig.mk None None None [] [] [] [] [] 26 1 true.

(** ** Worlds, frames and traces of the orchestrators *)

(** A connected device that will answer with [incoming]; nothing has
    happened yet. *)
Definition online (incoming : list outcome) : world :=
  mkWorld true incoming [] None None None.

(** The frames written, in order. *)
Definition written (tr : list action) : list Uint8Array :=
  flat_map (fun a => match a with Wrote f => [f] | _ => [] end) tr.

(** First frame of a read-config response as [interrogate] reads it: echo,
    a two-byte field that is skipped, the total length (little-endian),
    payload. *)
Definition read_config_first_frame (skipped : Z * Z) (totalLength : Z)
           (payload : Uint8Array) : Uint8Array :=
  [0x00; 0x40] ++ [fst skipped; snd skipped]
    ++ [totalLength mod 256; (totalLength / 256) mod 256] ++ payload.

(** Continuation frame: echo, two-byte continuation marker, payload. *)
Definition read_config_continuation (c : (Z * Z) * Uint8Array) : Uint8Array :=
  [0x00; 0x40] ++ [fst (fst c); snd (fst c)] ++ snd c.

(** First frame with the total length immediately after the echo. *)
Definition length_after_echo_frame (totalLength : Z) (payload : Uint8Array)
  : Uint8Array :=
  [0x00; 0x40] ++ [totalLength mod 256; (totalLength / 256) mod 256] ++ payload.

(** 500 bytes in four frames, 196 + 150 + 150 + 4. *)
Definition split_500_conts : list ((Z * Z) * Uint8Array) :=
  [ ((1, 0), repeat 0x22 150); ((2, 0), repeat 0x33 150); ((3, 0), repeat 0x44 4) ].

(** ** Chunked upload: chunks, replies, trace disciplines *)

(** Chunk number [i] (from 0) of [data], as the sender slices it. *)
Definition nth_chunk (data : Uint8Array) (i : nat) : Uint8Array :=
  slice data (i * CHUNK_SIZE) (Nat.min (i * CHUNK_SIZE + CHUNK_SIZE) (length data)).

(** The frame that [buildDirectWriteDataCommand] returns for a chunk. *)
Definition data_command (chunk : Uint8Array) : Uint8Array :=
  DataView.set
    (DataView.setUint16 (DataView.alloc (2 + length chunk)) 0
                        CommandCode.DIRECT_WRITE_DATA false)
    chunk 2.

(** A frame that the sender takes for a data acknowledgement / for the end
    opcode (with or without the acknowledgement bit). *)
Definition is_data_ack (frame : Uint8Array) : Prop :=
  exists isAck, checkResponseType frame = Ok (CommandCode.DIRECT_WRITE_DATA, isAck).

Definition is_end (frame : Uint8Array) : Prop :=
  exists isAck, checkResponseType frame = Ok (CommandCode.DIRECT_WRITE_END, isAck).

(** The reply to one chunk: the frame arrives within the short wait, or
    only during the long re-wait ([late]). *)
Definition reply_events (r : bool * Uint8Array) : list outcome :=
  if fst r then [Silence; Arrives (snd r)] else [Arrives (snd r)].

Definition reply_actions (r : bool * Uint8Array) : list action :=
  if fst r
  then [Waited TIMEOUT_ACK Silence; OnStatusChange RefreshingDisplay;
        Waited TIMEOUT_REFRESH (Arrives (snd r))]
  else [Waited TIMEOUT_ACK (Arrives (snd r))].

Definition uncompressed_upload (data : Uint8Array) (mode : Z) : UploadParams :=
  {| imageData := data; refreshMode := mode; useCompression := false;
     compressedData := None; uncompressedSize := None |}.

(** A wait that did not deliver a frame. *)
Definition failed (o : outcome) : bool :=
  match o with
  | Arrives _ => false
  | Silence | Dropped => true
  end.

Definition is_ok {A} (r : result A) : bool :=
  match r with
  | Ok _ => true
  | Err _ => false
  end.

(** ** One attempt per exchange

    The discipline that a trace obeys when nothing is retried, except for
    the one re-wait of the chunk loop.  An observer of the trace knows what
    may come next: *)

Inductive expect : Type :=
| Idle                  (* no response is due; a frame may be written *)
| Response (cmd : Z)    (* the response to the frame with opcode [cmd] *)
| Chunks (missing : Z)  (* further frames of the configuration, while bytes
                           are missing *)
| LateResponse          (* the response to a data chunk, in the long re-wait *)
| Refresh               (* the refresh notification *)
| Finished              (* the refresh wait is over *)
| Stopped.              (* a write or a wait has failed, or a response was
                           refused: nothing may follow *)

(** The opcode that a frame opens with. *)
Definition opcode (frame : Uint8Array) : Z := 256 * nth 0 frame 0 + nth 1 frame 0.

(** After the response to a data chunk: the next chunk or the END frame
    may be written, or the device has completed the upload by itself, or
    the response is refused. *)
Definition after_chunk_response (frame : Uint8Array) : expect :=
  match checkResponseType frame with
  | Ok (command, _) =>
      if command =? CommandCode.DIRECT_WRITE_DATA then Idle
      else if command =? CommandCode.DIRECT_WRITE_END then Refresh
      else Stopped
  | Err _ => Stopped
  end.

(** The payload bytes that a frame of the configuration brings, after the
    echo and two more bytes. *)
Definition config_bytes (frame : Uint8Array) : Z :=
  Z.of_nat (length (stripCommandEcho frame CommandCode.READ_CONFIG)) - 2.

(** After the response to the frame with opcode [cmd].  The first frame of
    a configuration must hold the length field, which tells how many bytes
    are still missing; a firmware version must parse; every other response
    must echo the opcode. *)
Definition after_response (cmd : Z) (frame : Uint8Array) : expect :=
  if cmd =? CommandCode.DIRECT_WRITE_DATA then after_chunk_response frame
  else if cmd =? CommandCode.READ_CONFIG then
    let chunkData := stripCommandEcho frame CommandCode.READ_CONFIG in
    if (length chunkData <? 4)%nat then Stopped
    else Chunks (DataView.getUint16 chunkData 2 true - (config_bytes frame - 2))
  else if cmd =? CommandCode.READ_FW_VERSION then
    if is_ok (parseFirmwareVersion frame) then Idle else Stopped
  else if is_ok (validateAckResponse frame cmd) then
    if cmd =? CommandCode.DIRECT_WRITE_END then Refresh else Idle
  else Stopped.

(** One action of the trace.  [None]: the action is not allowed.  [rewait]
    tells whether the re-wait of the chunk loop is allowed at all.
    - A frame is written only when no response is due; a rejected write
      stops the operation.
    - The frames of a configuration are awaited as long as bytes are
      missing, and no longer.
    - A wait that fails stops the operation.  The one exception: when the
      response to a data chunk does not arrive in time, one more wait, with
      TIMEOUT_REFRESH, is allowed, and its failure stops the operation.
    - A response that is refused stops the operation.
    - Once stopped, nothing happens any more, not even a callback. *)
Definition next (rewait : bool) (s : expect) (a : action) : option expect :=
  match a with
  | Wrote frame =>
      match s with
      | Idle => Some (Response (opcode frame))
      | _ => None
      end
  | WriteFailed _ =>
      match s with
      | Idle => Some Stopped
      | _ => None
      end
  | Waited timeoutMs o =>
      match s, o with
      | Response cmd, Arrives frame => Some (after_response cmd frame)
      | Response cmd, Silence =>
          if rewait && (cmd =? CommandCode.DIRECT_WRITE_DATA) then Some LateResponse
          else Some Stopped
      | Response _, Dropped => Some Stopped
      | Chunks missing, Arrives frame =>
          if 0 <? missing then Some (Chunks (missing - config_bytes frame)) else None
      | Chunks missing, _ => if 0 <? missing then Some Stopped else None
      | LateResponse, Arrives frame =>
          if timeoutMs =? TIMEOUT_REFRESH then Some (after_chunk_response frame)
          else None
      | LateResponse, _ =>
          if timeoutMs =? TIMEOUT_REFRESH then Some Stopped else None
      | Refresh, Arrives _ => Some Finished
      | Refresh, _ => Some Stopped
      | _, _ => None
      end
  | _ =>
      match s with
      | Stopped => None
      | _ => Some s
      end
  end.

Fixpoint protocol (rewait : bool) (s : expect) (acts : list action)
  : option expect :=
  match acts with
  | [] => Some s
  | a :: rest =>
      match next rewait s a with
      | Some s' => protocol rewait s' rest
      | None => None
      end
  end.

(** An operation every run of which, in whatever world, extends the trace
    by actions that the protocol allows from [s] on, and fails when the
    protocol has stopped. *)
Definition attempts_once_from (rewait : bool) (s : expect) {A} (m : M A) : Prop :=
  forall w, exists added s',
    trace (snd (m w)) = trace w ++ added
    /\ protocol rewait s added = Some s'
    /\ (s' = Stopped -> is_ok (fst (m w)) = false).

(** Nothing is attempted twice. *)
Definition never_retries {A} (m : M A) : Prop := attempts_once_from false Idle m.

(** Nothing is attempted twice, but for the re-wait for the response to a
    data chunk. *)
Definition rewaits_only_for_chunks {A} (m : M A) : Prop :=
  attempts_once_from true Idle m.

(** The whole of [data] in chunks: [n] full ones before the last. *)
Definition last_chunk_at (data : Uint8Array) (n : nat) : Prop :=
  (n * CHUNK_SIZE < length data <= n * CHUNK_SIZE + CHUNK_SIZE)%nat.

(** A frame that the chunk sender rejects. *)
Definition is_invalid_response (frame : Uint8Array) : Prop :=
  match checkResponseType frame with
  | Ok (command, _) =>
      command <> CommandCode.DIRECT_WRITE_DATA /\ command <> CommandCode.DIRECT_WRITE_END
  | Err _ => True
  end.

(** The frames of the first [n] chunks of [data]. *)
Definition chunks_written (data : Uint8Array) (n : nat) : list Uint8Array :=
  map (fun i => data_command (nth_chunk data i)) (seq 0 n).

(** The error of a wait that fails. *)
Definition wait_error (o : outcome) : error :=
  match o with
  | Dropped => PlainError
  | _ => BLETimeoutError
  end.

(** Whether the link survives a wait. *)
Definition link_after (o : outcome) : bool :=
  match o with
  | Dropped => false
  | _ => true
  end.

(** The same, with what is known of the result and of the state of the
    protocol when the operation returns. *)
Definition conforms (rewait : bool) {A} (s : expect) (m : M A)
           (post : A -> expect -> Prop) : Prop :=
  forall w, exists added s',
    trace (snd (m w)) = trace w ++ added
    /\ protocol rewait s added = Some s'
    /\ match fst (m w) with
       | Ok a => post a s'
       | Err _ => True
       end.

Definition is_callback (a : action) : bool :=
  match a with
  | Wrote _ | WriteFailed _ | Waited _ _ => false
  | _ => true
  end.

(** ** Sizes and normal forms of configurations *)

Definition present {A : Type} (o : option A) : nat :=
  match o with
  | Some _ => 1
  | None => 0
  end.

(** Header and CRC, then header and payload of every packet that is
    emitted. *)
Definition serialized_size (c : GlobalConfig.t) : nat :=
  5 + 24 * present (GlobalConfig.system c)
    + 24 * present (GlobalConfig.manufacturer c)
    + 32 * present (GlobalConfig.power c)
    + 48 * Nat.min 4 (length (GlobalConfig.displays c))
    + 24 * Nat.min 4 (length (GlobalConfig.leds c))
    + 32 * Nat.min 4 (length (GlobalConfig.sensors c))
    + 32 * Nat.min 4 (length (GlobalConfig.dataBuses c))
    + 32 * Nat.min 4 (length (GlobalConfig.binaryInputs c)).

(** [c] as the parser returns it: the two fields that are not on the wire
    take the values the parser gives them. *)
Definition as_parsed (c : GlobalConfig.t) : GlobalConfig.t :=
  GlobalConfig.mk (GlobalConfig.system c) (GlobalConfig.manufacturer c)
                  (GlobalConfig.power c) (GlobalConfig.displays c)
                  (GlobalConfig.leds c) (GlobalConfig.sensors c)
                  (GlobalConfig.dataBuses c) (GlobalConfig.binaryInputs c)
                  (GlobalConfig.version c) 1 true.

(** ** Exchanges with the device *)

(** A frame is written and its acknowledgement awaited. *)
Definition exchange (cmd ack : Uint8Array) : list action :=
  [Wrote cmd; Waited TIMEOUT_ACK (Arrives ack)].

Definition exchanges (cmds acks : list Uint8Array) : list action :=
  flat_map (fun p => exchange (fst p) (snd p)) (combine cmds acks).

(** The capabilities that [extractCapabilitiesFromConfig] reads off a
    display record. *)
Definition capabilities_of (display : DisplayConfig.t) : DeviceCapabilities :=
  {| width := DisplayConfig.pixelWidth display;
     height := DisplayConfig.pixelHeight display;
     colorScheme := DisplayConfig.colorScheme display;
     rotation := DisplayConfig.rotation display |}.

Definition sample_config_bytes : Uint8Array :=
  match serializeConfig sample_config with
  | Ok bytes => bytes
  | Err _ => []
  end.

(** ** Runs of the notification queue *)

Inductive queue_event : Type :=
| Enqueue (data : Uint8Array)      (* a notification arrives *)
| Dequeue (timeoutMs : Z)          (* a consumer asks for the next one *)
| TimerFires (promise : nat)       (* the timer of a dequeue goes off *)
| Clear.                           (* the connection is closed or reset *)

Definition queue_step (q : NotificationQueue.t) (e : queue_event)
  : NotificationQueue.t * list NotificationQueue.settled :=
  match e with
  | Enqueue data => NotificationQueue.enqueue data q
  | Dequeue timeoutMs => NotificationQueue.dequeue timeoutMs q
  | TimerFires promise => NotificationQueue.onTimeout promise q
  | Clear => NotificationQueue.clear q
  end.

Fixpoint queue_run (es : list queue_event) (q : NotificationQueue.t)
  : NotificationQueue.t * list NotificationQueue.settled :=
  match es with
  | [] => (q, [])
  | e :: rest =>
      let (q1, s1) := queue_step q e in
      let (q2, s2) := queue_run rest q1 in
      (q2, s1 ++ s2)
  end.

Definition enqueued (es : list queue_event) : list Uint8Array :=
  flat_map (fun e => match e with Enqueue data => [data] | _ => [] end) es.

Definition delivered (ss : list NotificationQueue.settled) : list Uint8Array :=
  flat_map (fun s => match s with
                     | NotificationQueue.Resolved _ data => [data]
                     | _ => []
                     end) ss.

Definition promise_of (s : NotificationQueue.settled) : nat :=
  match s with
  | NotificationQueue.Resolved promise _ => promise
  | NotificationQueue.Rejected promise _ => promise
  end.

Definition is_clear (e : queue_event) : bool :=
  match e with
  | Clear => true
  | _ => false
  end.

(** Notifications are buffered only while nobody waits, and a consumer
    waits only while nothing is buffered. *)
Definition never_both (q : NotificationQueue.t) : Prop :=
  NotificationQueue.queue q = [] \/ NotificationQueue.pendingResolvers q = [].

(** A promise that may still be settled: its resolver is queued, or it has
    not been handed out yet. *)
Definition live (q : NotificationQueue.t) (promise : nat) : Prop :=
  In promise (NotificationQueue.pendingResolvers q)
  \/ (NotificationQueue.promises q <= promise)%nat.

(** The queued resolvers are distinct promises that have been handed out. *)
Definition resolvers_ok (q : NotificationQueue.t) : Prop :=
  NoDup (NotificationQueue.pendingResolvers q)
  /\ Forall (fun p => (p < NotificationQueue.promises q)%nat)
            (NotificationQueue.pendingResolvers q).

(** ** Packed pixels *)

(** A run of [output[i] |= v] statements. *)
Definition or_writes (ws : list (nat * Z)) (output : Uint8Array) : Uint8Array :=
  fold_left (fun o w => or_assign o (fst w) (snd w)) ws output.

(** The statements that a loop over the pixels executes, row by row. *)
Definition pixel_writes (width height : nat) (f : nat -> nat -> option (nat * Z))
  : list (nat * Z) :=
  flat_map (fun y => flat_map (fun x => match f y x with
                                        | Some w => [w]
                                        | None => []
                                        end) (seq 0 width))
           (seq 0 height).

(** The pixel [(x, y)] of an image. *)
Definition pixel (paletteImage : PaletteImageBuffer.t) (x y : nat) : Z :=
  pixel_at (PaletteImageBuffer.indices paletteImage)
           (y * PaletteImageBuffer.width paletteImage + x).

(** The field of [bits] bits that holds pixel [x] of row [y] in an output
    with [ppb] pixels per byte, first pixel in the high bits. *)
Definition packed_field (bits ppb : nat) (paletteImage : PaletteImageBuffer.t)
           (output : Uint8Array) (x y : nat) : Z :=
  let bytesPerRow := ceil_div (PaletteImageBuffer.width paletteImage) ppb in
  Z.land (Z.shiftr (nth (y * bytesPerRow + x / ppb) output 0)
                   (Z.of_nat ((ppb - 1 - x mod ppb) * bits)))
         (2 ^ Z.of_nat bits - 1).

(** The value that [encode4bpp] packs for a palette index. *)
Definition nibble_of (bwgbryMapping : bool) (paletteIdx : Z) : Z :=
  let low := paletteIdx mod 16 in
  if bwgbryMapping then
    match BWGBRY_MAP low with
    | Some mapped => mapped
    | None => low
    end
  else low.

Definition sample_image : PaletteImageBuffer.t :=
  PaletteImageBuffer.mk 10 2 [0; 1; 2; 3; 4; 5; 0; 1; 2; 3;
                              1; 1; 0; 0; 2; 2; 5; 4; 3; 0].

(** ** Uploads *)

Definition compressed_upload (data : Uint8Array) (mode : Z)
           (compressed : Uint8Array) : UploadParams :=
  {| imageData := data; refreshMode := mode; useCompression := true;
     compressedData := Some compressed;
     uncompressedSize := Some (Z.of_nat (length data)) |}.

(* ------------------------------------------------------------------------- *)
(** * Properties *)

(** ** Integer and byte arithmetic *)

Lemma toInt32_small x : 0 <= x < 2 ^ 31 -> JS.toInt32 x = x.
Proof.
  intros H. unfold JS.toInt32.
  assert (2 ^ 31 < 2 ^ 32) by reflexivity.
  rewrite Z.mod_small by lia.
  destruct (Z.ltb_spec x (2 ^ 31)); lia.
Qed.

Lemma land_shiftl_disjoint a b n :
  0 <= n -> 0 <= a < 2 ^ n -> Z.land a (Z.shiftl b n) = 0.
Proof.
  intros Hn Ha. apply Z.bits_inj'. intros i Hi.
  rewrite Z.land_spec, Z.bits_0.
  destruct (Z.ltb_spec i n) as [Hlt | Hge].
  - rewrite (Z.shiftl_spec_low b n i) by assumption. apply andb_false_r.
  - rewrite <- (Z.mod_small a (2 ^ n)) by assumption.
    rewrite Z.mod_pow2_bits_high by lia. reflexivity.
Qed.

Lemma lor_shiftl_add a b n :
  0 <= n -> 0 <= a < 2 ^ n -> Z.lor a (Z.shiftl b n) = a + b * 2 ^ n.
Proof.
  intros Hn Ha.
  pose proof (land_shiftl_disjoint a b n Hn Ha) as Hd.
  rewrite <- Z.lxor_lor by assumption.
  rewrite <- Z.add_nocarry_lxor by assumption.
  rewrite Z.shiftl_mul_pow2 by assumption. reflexivity.
Qed.

Lemma js_and_255 x : 0 <= x < 2 ^ 31 -> JS.and x 0xff = x mod 256.
Proof.
  intros H. unfold JS.and.
  rewrite (toInt32_small x) by assumption.
  rewrite (toInt32_small 255) by (split; [lia | reflexivity]).
  change 255 with (Z.ones 8). rewrite Z.land_ones by lia.
  change (2 ^ 8) with 256.
  pose proof (Z.mod_pos_bound x 256 ltac:(lia)).
  apply toInt32_small. change (2 ^ 31) with 2147483648. lia.
Qed.

Lemma js_shr_div x n :
  0 <= x < 2 ^ 31 -> 0 <= n < 32 -> JS.shr x n = x / 2 ^ n.
Proof.
  intros H Hn. unfold JS.shr.
  rewrite toInt32_small by assumption.
  rewrite (Z.mod_small n 32) by lia.
  apply Z.shiftr_div_pow2. lia.
Qed.

Lemma js_shl_mul b n :
  0 <= n < 32 -> 0 <= b -> b * 2 ^ n < 2 ^ 31 -> JS.shl b n = b * 2 ^ n.
Proof.
  intros Hn Hb Hlt. unfold JS.shl.
  assert (0 < 2 ^ n) by (apply Z.pow_pos_nonneg; lia).
  rewrite (toInt32_small b) by nia.
  rewrite (Z.mod_small n 32) by lia.
  rewrite Z.shiftl_mul_pow2 by lia.
  apply toInt32_small. nia.
Qed.

Lemma js_or_add a b n :
  0 <= n < 32 -> 0 <= a < 2 ^ n -> 0 <= b -> a + b * 2 ^ n < 2 ^ 31 ->
  JS.or a (b * 2 ^ n) = a + b * 2 ^ n.
Proof.
  intros Hn Ha Hb Hlt. unfold JS.or.
  assert (0 < 2 ^ n) by (apply Z.pow_pos_nonneg; lia).
  rewrite (toInt32_small a) by nia.
  rewrite (toInt32_small (b * 2 ^ n)) by nia.
  rewrite <- (Z.shiftl_mul_pow2 b n) by lia.
  rewrite lor_shiftl_add by lia.
  rewrite Z.shiftl_mul_pow2 by lia.
  apply toInt32_small. nia.
Qed.

(** Little-endian field codecs: a value in range is the value of its bytes,
    and the bytes of a value built from bytes are those bytes. *)

Lemma u8_enc_dec x : uint8 x -> x mod 256 = x.
Proof. unfold uint8. intros. apply Z.mod_small. assumption. Qed.

Lemma i8_enc_dec x :
  int8 x -> (if x mod 256 <? 128 then x mod 256 else x mod 256 - 256) = x.
Proof.
  unfold int8. intros H.
  destruct (Z.ltb_spec (x mod 256) 128);
    pose proof (Z.div_mod x 256 ltac:(lia));
    pose proof (Z.mod_pos_bound x 256 ltac:(lia)); lia.
Qed.

Lemma u16_enc_dec x : uint16 x -> x mod 256 + 256 * ((x / 256) mod 256) = x.
Proof.
  unfold uint16. intros H.
  pose proof (Z.div_mod x 256 ltac:(lia)).
  pose proof (Z.mod_pos_bound x 256 ltac:(lia)).
  rewrite (Z.mod_small (x / 256)) by lia. lia.
Qed.

Lemma u32_enc_dec x :
  uint32 x ->
  x mod 256 + 256 * ((x / 256) mod 256) + 65536 * ((x / 65536) mod 256)
    + 16777216 * ((x / 16777216) mod 256) = x.
Proof.
  unfold uint32. intros H.
  pose proof (Z.div_mod x 256 ltac:(lia)).
  pose proof (Z.mod_pos_bound x 256 ltac:(lia)).
  pose proof (Z.div_mod (x / 256) 256 ltac:(lia)).
  pose proof (Z.mod_pos_bound (x / 256) 256 ltac:(lia)).
  pose proof (Z.div_mod (x / 65536) 256 ltac:(lia)).
  pose proof (Z.mod_pos_bound (x / 65536) 256 ltac:(lia)).
  assert (x / 65536 = x / 256 / 256) as E2
      by (rewrite Z.div_div by lia; reflexivity).
  assert (x / 16777216 = x / 65536 / 256) as E3
      by (rewrite Z.div_div by lia; reflexivity).
  rewrite (Z.mod_small (x / 16777216)) by lia.
  lia.
Qed.

Lemma u24_enc_dec x :
  uint24 x ->
  JS.or (JS.or ((JS.and x 0xff) mod 256)
               (JS.shl ((JS.and (JS.shr x 8) 0xff) mod 256) 8))
        (JS.shl ((JS.and (JS.shr x 16) 0xff) mod 256) 16) = x.
Proof.
  unfold uint24. intros H.
  assert (0 <= x < 2 ^ 31) as H31
      by (change (2 ^ 31) with 2147483648; lia).
  rewrite (js_and_255 x) by assumption.
  rewrite (js_shr_div x 8), (js_shr_div x 16) by (assumption || lia).
  change (2 ^ 8) with 256. change (2 ^ 16) with 65536.
  pose proof (Z.div_mod x 256 ltac:(lia)).
  pose proof (Z.mod_pos_bound x 256 ltac:(lia)).
  pose proof (Z.div_mod (x / 256) 256 ltac:(lia)).
  pose proof (Z.mod_pos_bound (x / 256) 256 ltac:(lia)).
  assert (x / 65536 = x / 256 / 256) as E2
      by (rewrite Z.div_div by lia; reflexivity).
  rewrite (js_and_255 (x / 256)) by (change (2 ^ 31) with 2147483648; lia).
  rewrite (js_and_255 (x / 65536)) by (change (2 ^ 31) with 2147483648; lia).
  rewrite !Z.mod_mod by lia.
  rewrite (js_shl_mul _ 8), (js_shl_mul _ 16);
    try (change (2 ^ 31) with 2147483648; change (2 ^ 8) with 256;
         change (2 ^ 16) with 65536;
         pose proof (Z.mod_pos_bound (x / 65536) 256 ltac:(lia)); lia).
  rewrite (js_or_add _ _ 8);
    try (change (2 ^ 31) with 2147483648; change (2 ^ 8) with 256; lia).
  change (2 ^ 8) with 256. change (2 ^ 16) with 65536.
  pose proof (Z.mod_pos_bound (x / 65536) 256 ltac:(lia)).
  rewrite (js_or_add _ _ 16);
    try (change (2 ^ 31) with 2147483648; change (2 ^ 16) with 65536; lia).
  change (2 ^ 16) with 65536.
  rewrite (Z.mod_small (x / 65536)) by lia. lia.
Qed.

(** ** Record codecs: encode then decode *)

Ltac list_of_length l H :=
  repeat (destruct l as [| ? l];
          [ try discriminate H | simpl in H; try discriminate H ]).

(** Runs a codec on a buffer whose cells are known one by one. *)
Ltac codec_compute :=
  cbv -[Z.modulo Z.div Z.add Z.mul Z.sub Z.ltb JS.and JS.or JS.shl JS.shr].

Ltac forall_cells :=
  repeat match goal with
         | H : Forall _ (_ :: _) |- _ =>
             apply Forall_cons_iff in H; destruct H
         | H : Forall _ [] |- _ => clear H
         end.

Ltac codec_fields :=
  repeat match goal with
         | H : uint8 ?x |- _ => rewrite (u8_enc_dec x H)
         | H : byte_ok ?x |- _ => rewrite (Z.mod_small x 256 H)
         | H : int8 ?x |- _ => rewrite (i8_enc_dec x H)
         | H : uint16 ?x |- _ => rewrite (u16_enc_dec x H)
         | H : uint24 ?x |- _ => rewrite (u24_enc_dec x H)
         | H : uint32 ?x |- _ => rewrite (u32_enc_dec x H)
         end;
  reflexivity.

Lemma SystemConfig_enc_dec r :
  SystemConfig_ok r -> SystemConfig.fromBytes (serializeSystemConfig r) = Ok r.
Proof.
  destruct r as [icType communicationModes deviceFlags pwrPin [l|]];
    unfold SystemConfig_ok; simpl; intros H; [| tauto].
  decompose [and] H; clear H.
  match goal with H : length l = _ |- _ => list_of_length l H end.
  unfold bytes_ok in *; forall_cells.
  codec_compute. codec_fields.
Qed.

Lemma ManufacturerData_enc_dec r :
  ManufacturerData_ok r ->
  ManufacturerData.fromBytes (serializeManufacturerData r) = Ok r.
Proof.
  destruct r as [manufacturerId boardType boardRevision [l|]];
    unfold ManufacturerData_ok; simpl; intros H; [| tauto].
  decompose [and] H; clear H.
  match goal with H : length l = _ |- _ => list_of_length l H end.
  unfold bytes_ok in *; forall_cells.
  codec_compute. codec_fields.
Qed.

Lemma PowerOption_enc_dec r :
  PowerOption_ok r -> PowerOption.fromBytes (serializePowerOption r) = Ok r.
Proof.
  destruct r as [powerMode cap sleepTimeoutMs txPower sleepFlags bsp bsep bsf
                 ce vsf dsc dsts [l|]];
    unfold PowerOption_ok; simpl; intros H; [| tauto].
  decompose [and] H; clear H.
  match goal with H : length l = _ |- _ => list_of_length l H end.
  unfold bytes_ok in *; forall_cells.
  codec_compute. codec_fields.
Qed.

Lemma DisplayConfig_enc_dec r :
  DisplayConfig_ok r -> DisplayConfig.fromBytes (serializeDisplayConfig r) = Ok r.
Proof.
  destruct r as [f0 f1 f2 f3 f4 f5 f6 f7 f8 f9 f10 f11 f12 f13 f14 f15 f16 f17
                 [p|] [l|]];
    unfold DisplayConfig_ok; simpl; intros H; try tauto.
  decompose [and] H; clear H.
  match goal with H : length p = _ |- _ => list_of_length p H end.
  match goal with H : length l = _ |- _ => list_of_length l H end.
  unfold bytes_ok in *; forall_cells.
  codec_compute. codec_fields.
Qed.

Lemma LedConfig_enc_dec r :
  LedConfig_ok r -> LedConfig.fromBytes (serializeLedConfig r) = Ok r.
Proof.
  destruct r as [f0 f1 f2 f3 f4 f5 f6 [l|]];
    unfold LedConfig_ok; simpl; intros H; [| tauto].
  decompose [and] H; clear H.
  match goal with H : length l = _ |- _ => list_of_length l H end.
  unfold bytes_ok in *; forall_cells.
  codec_compute. codec_fields.
Qed.

Lemma SensorData_enc_dec r :
  SensorData_ok r -> SensorData.fromBytes (serializeSensorData r) = Ok r.
Proof.
  destruct r as [f0 f1 f2 [l|]];
    unfold SensorData_ok; simpl; intros H; [| tauto].
  decompose [and] H; clear H.
  match goal with H : length l = _ |- _ => list_of_length l H end.
  unfold bytes_ok in *; forall_cells.
  codec_compute. codec_fields.
Qed.

Lemma DataBus_enc_dec r :
  DataBus_ok r -> DataBus.fromBytes (serializeDataBus r) = Ok r.
Proof.
  destruct r as [f0 f1 f2 f3 f4 f5 f6 f7 f8 f9 f10 f11 f12 [l|]];
    unfold DataBus_ok; simpl; intros H; [| tauto].
  decompose [and] H; clear H.
  match goal with H : length l = _ |- _ => list_of_length l H end.
  unfold bytes_ok in *; forall_cells.
  codec_compute. codec_fields.
Qed.

Lemma BinaryInputs_enc_dec r :
  BinaryInputs_ok r -> BinaryInputs.fromBytes (serializeBinaryInputs r) = Ok r.
Proof.
  destruct r as [f0 f1 f2 [p|] f3 f4 f5 f6 [l|]];
    unfold BinaryInputs_ok; simpl; intros H; try tauto.
  decompose [and] H; clear H.
  match goal with H : length p = _ |- _ => list_of_length p H end.
  match goal with H : length l = _ |- _ => list_of_length l H end.
  unfold bytes_ok in *; forall_cells.
  codec_compute. codec_fields.
Qed.

(** ** Record codecs: decode then encode *)

Lemma le16_lo x y : byte_ok x -> byte_ok y -> (x + 256 * y) mod 256 = x.
Proof.
  unfold byte_ok. intros Hx Hy.
  replace (x + 256 * y) with (x + y * 256) by ring.
  rewrite Z.mod_add by lia. apply Z.mod_small; lia.
Qed.

Lemma le16_hi x y : byte_ok x -> byte_ok y -> ((x + 256 * y) / 256) mod 256 = y.
Proof.
  unfold byte_ok. intros Hx Hy.
  replace (x + 256 * y) with (x + y * 256) by ring.
  rewrite Z.div_add by lia.
  rewrite (Z.div_small x 256) by lia. apply Z.mod_small; lia.
Qed.

Section LE32.
Variables b0 b1 b2 b3 : Z.
Hypothesis H0 : byte_ok b0.
Hypothesis H1 : byte_ok b1.
Hypothesis H2 : byte_ok b2.
Hypothesis H3 : byte_ok b3.

Let v := b0 + 256 * b1 + 65536 * b2 + 16777216 * b3.

Lemma le32_b0 : v mod 256 = b0.
Proof.
  unfold v, byte_ok in *.
  replace (b0 + 256 * b1 + 65536 * b2 + 16777216 * b3)
    with (b0 + (b1 + 256 * b2 + 65536 * b3) * 256) by ring.
  rewrite Z.mod_add by lia. apply Z.mod_small; lia.
Qed.

Lemma le32_b1 : (v / 256) mod 256 = b1.
Proof.
  unfold v, byte_ok in *.
  replace (b0 + 256 * b1 + 65536 * b2 + 16777216 * b3)
    with (b0 + (b1 + 256 * b2 + 65536 * b3) * 256) by ring.
  rewrite Z.div_add by lia. rewrite (Z.div_small b0 256) by lia.
  replace (0 + (b1 + 256 * b2 + 65536 * b3))
    with (b1 + (b2 + 256 * b3) * 256) by ring.
  rewrite Z.mod_add by lia. apply Z.mod_small; lia.
Qed.

Lemma le32_b2 : (v / 65536) mod 256 = b2.
Proof.
  unfold v, byte_ok in *.
  replace (b0 + 256 * b1 + 65536 * b2 + 16777216 * b3)
    with (b0 + 256 * b1 + (b2 + 256 * b3) * 65536) by ring.
  rewrite Z.div_add by lia. rewrite (Z.div_small (b0 + 256 * b1) 65536) by lia.
  replace (0 + (b2 + 256 * b3)) with (b2 + b3 * 256) by ring.
  rewrite Z.mod_add by lia. apply Z.mod_small; lia.
Qed.

Lemma le32_b3 : (v / 16777216) mod 256 = b3.
Proof.
  unfold v, byte_ok in *.
  replace (b0 + 256 * b1 + 65536 * b2 + 16777216 * b3)
    with (b0 + 256 * b1 + 65536 * b2 + b3 * 16777216) by ring.
  rewrite Z.div_add by lia.
  rewrite (Z.div_small (b0 + 256 * b1 + 65536 * b2) 16777216) by lia.
  apply Z.mod_small; lia.
Qed.
End LE32.

Lemma i8_dec_enc x : byte_ok x -> (if x <? 128 then x else x - 256) mod 256 = x.
Proof.
  unfold byte_ok. intros H. destruct (Z.ltb_spec x 128).
  - apply Z.mod_small; lia.
  - replace (x - 256) with (x + (-1) * 256) by ring.
    rewrite Z.mod_add by lia. apply Z.mod_small; lia.
Qed.

Section LE24.
Variables b1 b2 b3 : Z.
Hypothesis H1 : byte_ok b1.
Hypothesis H2 : byte_ok b2.
Hypothesis H3 : byte_ok b3.

Let v := JS.or (JS.or b1 (JS.shl b2 8)) (JS.shl b3 16).

Lemma le24_value : v = b1 + 256 * b2 + 65536 * b3.
Proof.
  unfold v, byte_ok in *.
  rewrite (js_shl_mul b2 8), (js_shl_mul b3 16);
    try (change (2 ^ 31) with 2147483648; change (2 ^ 8) with 256;
         change (2 ^ 16) with 65536; lia).
  rewrite (js_or_add b1 b2 8);
    try (change (2 ^ 31) with 2147483648; change (2 ^ 8) with 256; lia).
  change (2 ^ 8) with 256.
  rewrite (js_or_add (b1 + b2 * 256) b3 16);
    change (2 ^ 31) with 2147483648; change (2 ^ 16) with 65536; lia.
Qed.

Lemma le24_b1 : (JS.and v 0xff) mod 256 = b1.
Proof.
  rewrite le24_value. unfold byte_ok in *.
  rewrite js_and_255 by (change (2 ^ 31) with 2147483648; lia).
  rewrite Z.mod_mod by lia.
  replace (b1 + 256 * b2 + 65536 * b3) with (b1 + (b2 + 256 * b3) * 256) by ring.
  rewrite Z.mod_add by lia. apply Z.mod_small; lia.
Qed.

Lemma le24_b2 : (JS.and (JS.shr v 8) 0xff) mod 256 = b2.
Proof.
  rewrite le24_value. unfold byte_ok in *.
  rewrite js_shr_div by (change (2 ^ 31) with 2147483648; lia).
  change (2 ^ 8) with 256.
  replace (b1 + 256 * b2 + 65536 * b3) with (b1 + (b2 + 256 * b3) * 256) by ring.
  rewrite Z.div_add by lia. rewrite (Z.div_small b1 256) by lia.
  rewrite js_and_255 by (change (2 ^ 31) with 2147483648; lia).
  rewrite Z.mod_mod by lia.
  replace (0 + (b2 + 256 * b3)) with (b2 + b3 * 256) by ring.
  rewrite Z.mod_add by lia. apply Z.mod_small; lia.
Qed.

Lemma le24_b3 : (JS.and (JS.shr v 16) 0xff) mod 256 = b3.
Proof.
  rewrite le24_value. unfold byte_ok in *.
  rewrite js_shr_div by (change (2 ^ 31) with 2147483648; lia).
  change (2 ^ 16) with 65536.
  replace (b1 + 256 * b2 + 65536 * b3) with (b1 + 256 * b2 + b3 * 65536) by ring.
  rewrite Z.div_add by lia. rewrite (Z.div_small (b1 + 256 * b2) 65536) by lia.
  rewrite js_and_255 by (change (2 ^ 31) with 2147483648; lia).
  rewrite Z.mod_mod by lia. apply Z.mod_small; lia.
Qed.
End LE24.

Ltac bytes_fields :=
  repeat match goal with
         | |- context [(JS.and (JS.or (JS.or ?a (JS.shl ?b 8)) (JS.shl ?c 16)) 255) mod 256] =>
             rewrite (le24_b1 a b c) by assumption
         | |- context [(JS.and (JS.shr (JS.or (JS.or ?a (JS.shl ?b 8)) (JS.shl ?c 16)) 8) 255) mod 256] =>
             rewrite (le24_b2 a b c) by assumption
         | |- context [(JS.and (JS.shr (JS.or (JS.or ?a (JS.shl ?b 8)) (JS.shl ?c 16)) 16) 255) mod 256] =>
             rewrite (le24_b3 a b c) by assumption
         | |- context [(?a + 256 * ?b + 65536 * ?c + 16777216 * ?d) mod 256] =>
             rewrite (le32_b0 a b c d) by assumption
         | |- context [((?a + 256 * ?b + 65536 * ?c + 16777216 * ?d) / 256) mod 256] =>
             rewrite (le32_b1 a b c d) by assumption
         | |- context [((?a + 256 * ?b + 65536 * ?c + 16777216 * ?d) / 65536) mod 256] =>
             rewrite (le32_b2 a b c d) by assumption
         | |- context [((?a + 256 * ?b + 65536 * ?c + 16777216 * ?d) / 16777216) mod 256] =>
             rewrite (le32_b3 a b c d) by assumption
         | |- context [(?a + 256 * ?b) mod 256] =>
             rewrite (le16_lo a b) by assumption
         | |- context [((?a + 256 * ?b) / 256) mod 256] =>
             rewrite (le16_hi a b) by assumption
         | |- context [(if ?a <? 128 then ?a else ?a - 256) mod 256] =>
             rewrite (i8_dec_enc a) by assumption
         | H : byte_ok ?a |- context [?a mod 256] =>
             rewrite (Z.mod_small a 256 H)
         end;
  reflexivity.

Ltac dec_enc data Hlen Hbytes :=
  list_of_length data Hlen; forall_cells;
  eexists; split; [ reflexivity | ];
  codec_compute; bytes_fields.

Lemma SystemConfig_dec_enc data :
  length data = SystemConfig.SIZE -> bytes_ok data ->
  exists r, SystemConfig.fromBytes data = Ok r /\ serializeSystemConfig r = data.
Proof. unfold bytes_ok. intros Hlen Hbytes. dec_enc data Hlen Hbytes. Qed.

Lemma ManufacturerData_dec_enc data :
  length data = ManufacturerData.SIZE -> bytes_ok data ->
  exists r, ManufacturerData.fromBytes data = Ok r /\ serializeManufacturerData r = data.
Proof. unfold bytes_ok. intros Hlen Hbytes. dec_enc data Hlen Hbytes. Qed.

Lemma PowerOption_dec_enc data :
  length data = PowerOption.SIZE -> bytes_ok data ->
  exists r, PowerOption.fromBytes data = Ok r /\ serializePowerOption r = data.
Proof. unfold bytes_ok. intros Hlen Hbytes. dec_enc data Hlen Hbytes. Qed.

Lemma DisplayConfig_dec_enc data :
  length data = DisplayConfig.SIZE -> bytes_ok data ->
  exists r, DisplayConfig.fromBytes data = Ok r /\ serializeDisplayConfig r = data.
Proof. unfold bytes_ok. intros Hlen Hbytes. dec_enc data Hlen Hbytes. Qed.

Lemma LedConfig_dec_enc data :
  length data = LedConfig.SIZE -> bytes_ok data ->
  exists r, LedConfig.fromBytes data = Ok r /\ serializeLedConfig r = data.
Proof. unfold bytes_ok. intros Hlen Hbytes. dec_enc data Hlen Hbytes. Qed.

Lemma SensorData_dec_enc data :
  length data = SensorData.SIZE -> bytes_ok data ->
  exists r, SensorData.fromBytes data = Ok r /\ serializeSensorData r = data.
Proof. unfold bytes_ok. intros Hlen Hbytes. dec_enc data Hlen Hbytes. Qed.

Lemma DataBus_dec_enc data :
  length data = DataBus.SIZE -> bytes_ok data ->
  exists r, DataBus.fromBytes data = Ok r /\ serializeDataBus r = data.
Proof. unfold bytes_ok. intros Hlen Hbytes. dec_enc data Hlen Hbytes. Qed.

Lemma BinaryInputs_dec_enc data :
  length data = BinaryInputs.SIZE -> bytes_ok data ->
  exists r, BinaryInputs.fromBytes data = Ok r /\ serializeBinaryInputs r = data.
Proof. unfold bytes_ok. intros Hlen Hbytes. dec_enc data Hlen Hbytes. Qed.

(** [txPower] is the one signed field: a value above 127, which the
    interface comment ("uint8") would allow, comes back negative. *)
Remark txPower_is_signed :
  let r := PowerOption.mk 1 1200 30000 200 1 4 5 0 1 1000 70000 3600
                          (Some (repeat 0 10)) in
  rbind (PowerOption.fromBytes (serializePowerOption r))
        (fun r' => Ok (PowerOption.txPower r')) = Ok (-56).
Proof. vm_compute. reflexivity. Qed.

(** The decoded form of the specification's sample bytes
    [01 00 03 01 FF 00 ... 00]. *)
Example SystemConfig_sample_bytes :
  SystemConfig.fromBytes ([0x01; 0x00; 0x03; 0x01; 0xFF] ++ repeat 0 17)
  = Ok sample_system
  /\ SystemConfig.hasPwrPin sample_system = true.
Proof. split; vm_compute; reflexivity. Qed.

(** C3.  For each of the eight record types, decoding the encoding of a
    record whose fields are in range (reserved regions present, of the
    documented length, holding arbitrary bytes) gives the record back; and
    encoding the decoding of any byte array of the record's size gives the
    bytes back, so the reserved regions survive decode-then-encode
    unchanged. *)
Theorem record_codec_roundtrip :
  (forall r, SystemConfig_ok r ->
             SystemConfig.fromBytes (serializeSystemConfig r) = Ok r) /\
  (forall r, ManufacturerData_ok r ->
             ManufacturerData.fromBytes (serializeManufacturerData r) = Ok r) /\
  (forall r, PowerOption_ok r ->
             PowerOption.fromBytes (serializePowerOption r) = Ok r) /\
  (forall r, DisplayConfig_ok r ->
             DisplayConfig.fromBytes (serializeDisplayConfig r) = Ok r) /\
  (forall r, LedConfig_ok r ->
             LedConfig.fromBytes (serializeLedConfig r) = Ok r) /\
  (forall r, SensorData_ok r ->
             SensorData.fromBytes (serializeSensorData r) = Ok r) /\
  (forall r, DataBus_ok r ->
             DataBus.fromBytes (serializeDataBus r) = Ok r) /\
  (forall r, BinaryInputs_ok r ->
             BinaryInputs.fromBytes (serializeBinaryInputs r) = Ok r) /\
  (forall data, length data = SystemConfig.SIZE -> bytes_ok data ->
     exists r, SystemConfig.fromBytes data = Ok r
               /\ serializeSystemConfig r = data) /\
  (forall data, length data = ManufacturerData.SIZE -> bytes_ok data ->
     exists r, ManufacturerData.fromBytes data = Ok r
               /\ serializeManufacturerData r = data) /\
  (forall data, length data = PowerOption.SIZE -> bytes_ok data ->
     exists r, PowerOption.fromBytes data = Ok r
               /\ serializePowerOption r = data) /\
  (forall data, length data = DisplayConfig.SIZE -> bytes_ok data ->
     exists r, DisplayConfig.fromBytes data = Ok r
               /\ serializeDisplayConfig r = data) /\
  (forall data, length data = LedConfig.SIZE -> bytes_ok data ->
     exists r, LedConfig.fromBytes data = Ok r
               /\ serializeLedConfig r = data) /\
  (forall data, length data = SensorData.SIZE -> bytes_ok data ->
     exists r, SensorData.fromBytes data = Ok r
               /\ serializeSensorData r = data) /\
  (forall data, length data = DataBus.SIZE -> bytes_ok data ->
     exists r, DataBus.fromBytes data = Ok r
               /\ serializeDataBus r = data) /\
  (forall data, length data = BinaryInputs.SIZE -> bytes_ok data ->
     exists r, BinaryInputs.fromBytes data = Ok r
               /\ serializeBinaryInputs r = data).
Proof.
  repeat split.
  - apply SystemConfig_enc_dec.
  - apply ManufacturerData_enc_dec.
  - apply PowerOption_enc_dec.
  - apply DisplayConfig_enc_dec.
  - apply LedConfig_enc_dec.
  - apply SensorData_enc_dec.
  - apply DataBus_enc_dec.
  - apply BinaryInputs_enc_dec.
  - apply SystemConfig_dec_enc.
  - apply ManufacturerData_dec_enc.
  - apply PowerOption_dec_enc.
  - apply DisplayConfig_dec_enc.
  - apply LedConfig_dec_enc.
  - apply SensorData_dec_enc.
  - apply DataBus_dec_enc.
  - apply BinaryInputs_dec_enc.
Qed.

Ltac in_range :=
  cbv [SystemConfig_ok ManufacturerData_ok PowerOption_ok DisplayConfig_ok
       LedConfig_ok SensorData_ok DataBus_ok BinaryInputs_ok
       uint8 int8 uint16 uint24 uint32 has_length bytes_ok byte_ok];
  cbn; repeat split; try lia; try reflexivity;
  repeat (constructor; [ unfold byte_ok; lia | ]); try constructor.

Lemma record_codec_roundtrip_witness :
  SystemConfig.fromBytes (serializeSystemConfig sample_system) = Ok sample_system /\
  ManufacturerData.fromBytes (serializeManufacturerData sample_manufacturer)
    = Ok sample_manufacturer /\
  PowerOption.fromBytes (serializePowerOption sample_power) = Ok sample_power /\
  DisplayConfig.fromBytes (serializeDisplayConfig sample_display) = Ok sample_display /\
  LedConfig.fromBytes (serializeLedConfig sample_led) = Ok sample_led /\
  SensorData.fromBytes (serializeSensorData sample_sensor) = Ok sample_sensor /\
  DataBus.fromBytes (serializeDataBus sample_bus) = Ok sample_bus /\
  BinaryInputs.fromBytes (serializeBinaryInputs sample_input) = Ok sample_input /\
  (exists r, SystemConfig.fromBytes (repeat 0xa5 22) = Ok r
             /\ serializeSystemConfig r = repeat 0xa5 22) /\
  (exists r, ManufacturerData.fromBytes (repeat 0xa5 22) = Ok r
             /\ serializeManufacturerData r = repeat 0xa5 22) /\
  (exists r, PowerOption.fromBytes (repeat 0xa5 30) = Ok r
             /\ serializePowerOption r = repeat 0xa5 30) /\
  (exists r, DisplayConfig.fromBytes (repeat 0xa5 46) = Ok r
             /\ serializeDisplayConfig r = repeat 0xa5 46) /\
  (exists r, LedConfig.fromBytes (repeat 0xa5 22) = Ok r
             /\ serializeLedConfig r = repeat 0xa5 22) /\
  (exists r, SensorData.fromBytes (repeat 0xa5 30) = Ok r
             /\ serializeSensorData r = repeat 0xa5 30) /\
  (exists r, DataBus.fromBytes (repeat 0xa5 30) = Ok r
             /\ serializeDataBus r = repeat 0xa5 30) /\
  (exists r, BinaryInputs.fromBytes (repeat 0xa5 30) = Ok r
             /\ serializeBinaryInputs r = repeat 0xa5 30).
Proof.
  destruct record_codec_roundtrip
    as (E1 & E2 & E3 & E4 & E5 & E6 & E7 & E8 & D1 & D2 & D3 & D4 & D5 & D6 & D7 & D8).
  split; [ apply E1; in_range | ].
  split; [ apply E2; in_range | ].
  split; [ apply E3; in_range | ].
  split; [ apply E4; in_range | ].
  split; [ apply E5; in_range | ].
  split; [ apply E6; in_range | ].
  split; [ apply E7; in_range | ].
  split; [ apply E8; in_range | ].
  split; [ apply D1; in_range | ].
  split; [ apply D2; in_range | ].
  split; [ apply D3; in_range | ].
  split; [ apply D4; in_range | ].
  split; [ apply D5; in_range | ].
  split; [ apply D6; in_range | ].
  split; [ apply D7; in_range | ].
  apply D8; in_range.
Defined.

(** ** Sizes of the serializer's output *)

Lemma length_store buf off b : length (DataView.store buf off b) = length buf.
Proof.
  revert off. induction buf as [| h t IH]; intros [| k]; simpl; auto.
Qed.

Lemma length_set src : forall buf off, length (DataView.set buf src off) = length buf.
Proof.
  induction src as [| b s IH]; intros buf off; simpl; [reflexivity |].
  rewrite IH. apply length_store.
Qed.

Lemma length_setUint8 buf off v : length (DataView.setUint8 buf off v) = length buf.
Proof. apply length_store. Qed.

Lemma length_setInt8 buf off v : length (DataView.setInt8 buf off v) = length buf.
Proof. apply length_store. Qed.

Lemma length_setUint16 buf off v le :
  length (DataView.setUint16 buf off v le) = length buf.
Proof. unfold DataView.setUint16. destruct le; rewrite !length_store; reflexivity. Qed.

Lemma length_setUint32 buf off v le :
  length (DataView.setUint32 buf off v le) = length buf.
Proof. unfold DataView.setUint32. destruct le; rewrite !length_store; reflexivity. Qed.

Lemma length_alloc n : length (DataView.alloc n) = n.
Proof. apply repeat_length. Qed.

Ltac buffer_length :=
  repeat (rewrite length_set || rewrite length_setUint8 || rewrite length_setInt8
          || rewrite length_setUint16 || rewrite length_setUint32);
  apply length_alloc.

Lemma length_serializeSystemConfig r : length (serializeSystemConfig r) = 22%nat.
Proof. unfold serializeSystemConfig. buffer_length. Qed.

Lemma length_serializeManufacturerData r :
  length (serializeManufacturerData r) = 22%nat.
Proof. unfold serializeManufacturerData. buffer_length. Qed.

Lemma length_serializePowerOption r : length (serializePowerOption r) = 30%nat.
Proof. unfold serializePowerOption. buffer_length. Qed.

Lemma length_serializeDisplayConfig r : length (serializeDisplayConfig r) = 46%nat.
Proof. unfold serializeDisplayConfig. buffer_length. Qed.

Lemma length_serializeLedConfig r : length (serializeLedConfig r) = 22%nat.
Proof. unfold serializeLedConfig. buffer_length. Qed.

Lemma length_serializeSensorData r : length (serializeSensorData r) = 30%nat.
Proof. unfold serializeSensorData. buffer_length. Qed.

Lemma length_serializeDataBus r : length (serializeDataBus r) = 30%nat.
Proof. unfold serializeDataBus. buffer_length. Qed.

Lemma length_serializeBinaryInputs r : length (serializeBinaryInputs r) = 30%nat.
Proof. unfold serializeBinaryInputs. buffer_length. Qed.

(** ** The repeatable loops keep the first four items *)

Lemma push_repeatable_first_four {A} ty (ser : A -> Uint8Array) items :
  push_repeatable ty ser items = tagged_packets ty ser (firstn 4 items).
Proof.
  unfold push_repeatable, tagged_packets.
  destruct items as [| a [| b [| c [| d rest]]]]; try reflexivity.
  cbn [length firstn]. rewrite <- !Nat.succ_min_distr, Nat.min_0_r.
  reflexivity.
Qed.

Lemma serializeConfig_chunks_layout c :
  serializeConfig_chunks c = first_four_layout c.
Proof.
  unfold serializeConfig_chunks, first_four_layout.
  rewrite !push_repeatable_first_four. reflexivity.
Qed.

Lemma length_tagged_packets {A} ty (ser : A -> Uint8Array) n items :
  (forall x, length (ser x) = n) ->
  length (concat (tagged_packets ty ser items)) = (length items * (2 + n))%nat.
Proof.
  intros Hn. unfold tagged_packets.
  remember (2 + n)%nat as k eqn:Hk. generalize 0%nat as start.
  induction items as [| x rest IH]; intros start; [reflexivity |].
  cbn [length seq combine flat_map app concat].
  rewrite !length_app, IH, Hn. cbn [length].
  rewrite Nat.mul_succ_l. lia.
Qed.

Lemma length_push_single {A} ty (ser : A -> Uint8Array) n x :
  (forall y, length (ser y) = n) ->
  (length (concat (push_single ty ser x)) <= 2 + n)%nat.
Proof.
  intros Hn. destruct x as [y |]; cbn; [| lia].
  rewrite length_app, Hn. cbn. lia.
Qed.

Lemma fold_left_total_size chunks : forall acc,
  fold_left (fun sum (chunk : Uint8Array) => sum + Z.of_nat (length chunk)) chunks acc
  = acc + Z.of_nat (length (concat chunks)).
Proof.
  induction chunks as [| ch rest IH]; intros acc; cbn [fold_left concat].
  - cbn. lia.
  - rewrite IH, length_app. lia.
Qed.

(** The size test of [serializeConfig] can never fail: the largest output
    is 3 + 24 + 24 + 32 + 4 * (48 + 24 + 32 + 32 + 32) + 2 = 757 bytes. *)
Lemma serializeConfig_size c :
  (length (concat (first_four_layout c)) <= 755)%nat.
Proof.
  unfold first_four_layout.
  rewrite !concat_app, !length_app.
  pose proof (length_push_single PACKET_TYPE_SYSTEM serializeSystemConfig 22
                (GlobalConfig.system c) length_serializeSystemConfig).
  pose proof (length_push_single PACKET_TYPE_MANUFACTURER serializeManufacturerData 22
                (GlobalConfig.manufacturer c) length_serializeManufacturerData).
  pose proof (length_push_single PACKET_TYPE_POWER serializePowerOption 30
                (GlobalConfig.power c) length_serializePowerOption).
  rewrite (length_tagged_packets _ _ 46) by apply length_serializeDisplayConfig.
  rewrite (length_tagged_packets _ _ 22) by apply length_serializeLedConfig.
  rewrite (length_tagged_packets _ _ 30) by apply length_serializeSensorData.
  rewrite (length_tagged_packets _ _ 30) by apply length_serializeDataBus.
  rewrite (length_tagged_packets _ _ 30) by apply length_serializeBinaryInputs.
  pose proof (firstn_le_length 4 (GlobalConfig.displays c)).
  pose proof (firstn_le_length 4 (GlobalConfig.leds c)).
  pose proof (firstn_le_length 4 (GlobalConfig.sensors c)).
  pose proof (firstn_le_length 4 (GlobalConfig.dataBuses c)).
  pose proof (firstn_le_length 4 (GlobalConfig.binaryInputs c)).
  cbn [concat length app] in *. lia.
Qed.

Lemma serializeConfig_layout c :
  let packetData := concat (first_four_layout c) in
  let crc16 := calculateConfigCrc packetData in
  serializeConfig c = Ok (packetData ++ [crc16 mod 256; (crc16 / 256) mod 256]).
Proof.
  cbv zeta. unfold serializeConfig.
  rewrite serializeConfig_chunks_layout, fold_left_total_size.
  pose proof (serializeConfig_size c) as Hsz.
  destruct (Z.gtb_spec (0 + Z.of_nat (length (concat (first_four_layout c))) + 2) 4096);
    [lia | reflexivity].
Qed.

Lemma first_four_layout_idem c :
  first_four_layout (first_four c) = first_four_layout c.
Proof.
  unfold first_four_layout, first_four. cbn [GlobalConfig.system
    GlobalConfig.manufacturer GlobalConfig.power GlobalConfig.displays
    GlobalConfig.leds GlobalConfig.sensors GlobalConfig.dataBuses
    GlobalConfig.binaryInputs GlobalConfig.version].
  rewrite !firstn_firstn. reflexivity.
Qed.

(** C10.  A configuration with more than four entries in some repeatable
    list is serialized without error: the output is the header, the single
    packets and, for every repeatable kind, the first four entries tagged 0
    to 3, followed by the checksum; entries past the fourth leave no trace
    (the output is that of the configuration cut to four entries). *)
Theorem serializeConfig_keeps_first_four c :
  some_list_over_four c ->
  let packetData := concat (first_four_layout c) in
  let crc16 := calculateConfigCrc packetData in
  serializeConfig c = Ok (packetData ++ [crc16 mod 256; (crc16 / 256) mod 256])
  /\ serializeConfig c = serializeConfig (first_four c).
Proof.
  intros _. cbv zeta. split.
  - apply serializeConfig_layout.
  - rewrite (serializeConfig_layout c), (serializeConfig_layout (first_four c)).
    cbv zeta. rewrite first_four_layout_idem. reflexivity.
Qed.

Lemma serializeConfig_keeps_first_four_witness :
  some_list_over_four crowded_config
  /\ serializeConfig crowded_config = serializeConfig (first_four crowded_config)
  /\ first_four_layout crowded_config
     = [[0; 0; 1]; [0; 1]; serializeSystemConfig sample_system;
        [0; 0x20]; serializeDisplayConfig sample_display;
        [1; 0x20]; serializeDisplayConfig sample_display;
        [2; 0x20]; serializeDisplayConfig sample_display;
        [3; 0x20]; serializeDisplayConfig sample_display;
        [0; 0x21]; serializeLedConfig sample_led].
Proof.
  assert (some_list_over_four crowded_config) as H
      by (unfold some_list_over_four; cbn; lia).
  split; [exact H |].
  split; [exact (proj2 (serializeConfig_keeps_first_four crowded_config H)) |].
  reflexivity.
Defined.

(** ** The checksum of the serializer is the low half of CRC-32/ISO-HDLC *)

Example crc32_check_value :
  crc32_iso_hdlc [0x31; 0x32; 0x33; 0x34; 0x35; 0x36; 0x37; 0x38; 0x39]
  = 0xCBF43926.
Proof. vm_compute. reflexivity. Qed.

Lemma mod_pow2_lxor a b n :
  0 <= n -> (Z.lxor a b) mod 2 ^ n = Z.lxor (a mod 2 ^ n) (b mod 2 ^ n).
Proof.
  intros Hn. apply Z.bits_inj'. intros i Hi.
  rewrite Z.lxor_spec, !Z.testbit_mod_pow2, Z.lxor_spec by assumption.
  destruct (i <? n); reflexivity.
Qed.

Lemma toUint32_range x : 0 <= JS.toUint32 x < 2 ^ 32.
Proof. apply Z.mod_pos_bound. reflexivity. Qed.

Lemma toUint32_toInt32 x : JS.toUint32 (JS.toInt32 x) = JS.toUint32 x.
Proof.
  unfold JS.toUint32, JS.toInt32.
  destruct (x mod 2 ^ 32 <? 2 ^ 31).
  - apply Z.mod_mod. discriminate.
  - replace (x mod 2 ^ 32 - 2 ^ 32) with (x mod 2 ^ 32 + (-1) * 2 ^ 32) by ring.
    rewrite Z.mod_add by discriminate. apply Z.mod_mod. discriminate.
Qed.

Lemma toUint32_small x : 0 <= x < 2 ^ 32 -> JS.toUint32 x = x.
Proof. apply Z.mod_small. Qed.

Lemma toUint32_xor a b :
  JS.toUint32 (JS.xor a b) = Z.lxor (JS.toUint32 a) (JS.toUint32 b).
Proof.
  unfold JS.xor. rewrite toUint32_toInt32.
  unfold JS.toUint32 at 1. rewrite mod_pow2_lxor by lia.
  fold (JS.toUint32 (JS.toInt32 a)). fold (JS.toUint32 (JS.toInt32 b)).
  rewrite !toUint32_toInt32. reflexivity.
Qed.

Lemma testbit_toInt32 x i :
  0 <= i < 32 -> Z.testbit (JS.toInt32 x) i = Z.testbit (JS.toUint32 x) i.
Proof.
  intros Hi. rewrite <- (toUint32_toInt32 x). unfold JS.toUint32 at 1.
  rewrite Z.mod_pow2_bits_low by lia. reflexivity.
Qed.

Lemma js_and_1 c :
  JS.and c 1 = Z.b2z (Z.testbit (JS.toUint32 c) 0).
Proof.
  unfold JS.and.
  rewrite (toInt32_small 1) by (split; [lia | reflexivity]).
  change 1 with (Z.ones 1) at 1. rewrite Z.land_ones by lia.
  change (2 ^ 1) with 2. rewrite <- Z.bit0_mod, testbit_toInt32 by lia.
  apply toInt32_small.
  destruct (Z.testbit (JS.toUint32 c) 0); cbn; split; try lia; reflexivity.
Qed.

Lemma shiftr1_range x : 0 <= x < 2 ^ 32 -> 0 <= Z.shiftr x 1 < 2 ^ 31.
Proof.
  intros H. rewrite Z.shiftr_div_pow2 by lia. change (2 ^ 1) with 2.
  change (2 ^ 32) with (2 * 2 ^ 31) in H.
  split; [apply Z.div_pos; lia | apply Z.div_lt_upper_bound; lia].
Qed.

Lemma crc_shift_refines c :
  JS.toUint32 (crc_shift c) = crc32_shift (JS.toUint32 c).
Proof.
  unfold crc_shift, crc32_shift. rewrite js_and_1.
  pose proof (shiftr1_range (JS.toUint32 c) (toUint32_range c)) as Hr.
  assert (2 ^ 31 < 2 ^ 32) by reflexivity.
  destruct (Z.testbit (JS.toUint32 c) 0); cbn [Z.b2z Z.eqb].
  - rewrite toUint32_xor. unfold JS.ushr. change (1 mod 32) with 1.
    rewrite (toUint32_small (Z.shiftr _ 1)) by lia. reflexivity.
  - unfold JS.ushr. change (1 mod 32) with 1.
    rewrite Z.lxor_0_r. apply toUint32_small. lia.
Qed.

Lemma crc_shifts_refines n : forall c,
  JS.toUint32 (crc_shifts n c) = crc32_shifts n (JS.toUint32 c).
Proof.
  induction n as [| k IH]; intros c; cbn [crc_shifts crc32_shifts].
  - reflexivity.
  - rewrite IH, crc_shift_refines. reflexivity.
Qed.

Lemma byte_lt_pow32 b : byte_ok b -> 0 <= b < 2 ^ 32.
Proof. unfold byte_ok. change (2 ^ 32) with 4294967296. lia. Qed.

Lemma crc_byte_refines c b :
  byte_ok b -> JS.toUint32 (crc_byte c b) = crc32_byte (JS.toUint32 c) b.
Proof.
  intros Hb. unfold crc_byte, crc32_byte.
  rewrite crc_shifts_refines, toUint32_xor.
  rewrite (toUint32_small b) by (apply byte_lt_pow32; assumption).
  reflexivity.
Qed.

(** Unfolding [fold_left] by rewriting keeps the step function folded: its
    body (eight nested conditionals) must not be opened by conversion. *)
Lemma fold_left_cons {A B} (f : A -> B -> A) b rest a :
  fold_left f (b :: rest) a = fold_left f rest (f a b).
Proof. reflexivity. Qed.

Lemma fold_left_nil {A B} (f : A -> B -> A) a : fold_left f [] a = a.
Proof. reflexivity. Qed.

Lemma crc_fold_refines data : bytes_ok data -> forall c,
  JS.toUint32 (fold_left crc_byte data c)
  = fold_left crc32_byte data (JS.toUint32 c).
Proof.
  induction data as [| b rest IH]; intros Hd c.
  - reflexivity.
  - apply Forall_cons_iff in Hd. destruct Hd as [Hb Hrest].
    rewrite !fold_left_cons, (IH Hrest). f_equal.
    apply crc_byte_refines. exact Hb.
Qed.

Lemma toUint32_not x : JS.toUint32 (JS.not x) = Z.lxor (JS.toUint32 x) 0xFFFFFFFF.
Proof.
  unfold JS.not. rewrite toUint32_toInt32, <- Z.lxor_m1_r.
  unfold JS.toUint32 at 1. rewrite mod_pow2_lxor by lia.
  fold (JS.toUint32 (JS.toInt32 x)). rewrite toUint32_toInt32.
  replace ((-1) mod 2 ^ 32) with 0xFFFFFFFF by (vm_compute; reflexivity).
  reflexivity.
Qed.

Lemma js_and_ffff x : JS.and x 0xffff = low16 (JS.toUint32 x).
Proof.
  unfold JS.and, low16.
  rewrite (toInt32_small 65535) by (split; [lia | reflexivity]).
  change 65535 with (Z.ones 16). rewrite Z.land_ones by lia.
  change (2 ^ 16) with 65536.
  assert ((JS.toInt32 x) mod 65536 = (JS.toUint32 x) mod 65536) as E.
  { rewrite <- (toUint32_toInt32 x). unfold JS.toUint32.
    symmetry. apply Z.mod_mod_divide. exists 65536. reflexivity. }
  rewrite E.
  pose proof (Z.mod_pos_bound (JS.toUint32 x) 65536 ltac:(lia)).
  apply toInt32_small. change (2 ^ 31) with 2147483648. lia.
Qed.

Lemma calculateConfigCrc_refines data :
  bytes_ok data -> calculateConfigCrc data = low16 (crc32_iso_hdlc data).
Proof.
  intros Hb. unfold calculateConfigCrc, crc32_iso_hdlc.
  rewrite js_and_ffff. unfold JS.ushr. change (0 mod 32) with 0.
  rewrite Z.shiftr_0_r.
  rewrite (toUint32_small (JS.toUint32 _)) by apply toUint32_range.
  rewrite toUint32_not, crc_fold_refines by assumption.
  reflexivity.
Qed.

Lemma calculateConfigCrc_range data : 0 <= calculateConfigCrc data < 65536.
Proof.
  unfold calculateConfigCrc. rewrite js_and_ffff. unfold low16.
  apply Z.mod_pos_bound. lia.
Qed.

(** ** The register is linear in the message *)

Ltac xor_bits :=
  apply Z.bits_inj'; intros ? ?; rewrite ?Z.lxor_spec;
  repeat match goal with
         | |- context [Z.testbit ?x ?n] => destruct (Z.testbit x n)
         end;
  reflexivity.

Lemma lxor_swap_inner a b c d :
  Z.lxor (Z.lxor a b) (Z.lxor c d) = Z.lxor (Z.lxor a c) (Z.lxor b d).
Proof. xor_bits. Qed.

Lemma crc32_shift_lxor a b :
  crc32_shift (Z.lxor a b) = Z.lxor (crc32_shift a) (crc32_shift b).
Proof.
  unfold crc32_shift.
  rewrite Z.shiftr_lxor, Z.lxor_spec, lxor_swap_inner.
  f_equal.
  destruct (Z.testbit a 0), (Z.testbit b 0); reflexivity.
Qed.

Lemma crc32_shifts_lxor n : forall a b,
  crc32_shifts n (Z.lxor a b) = Z.lxor (crc32_shifts n a) (crc32_shifts n b).
Proof.
  induction n as [| k IH]; intros a b; cbn [crc32_shifts].
  - reflexivity.
  - rewrite crc32_shift_lxor. apply IH.
Qed.

Lemma crc32_shifts_add n m c :
  crc32_shifts (n + m) c = crc32_shifts m (crc32_shifts n c).
Proof.
  revert c. induction n as [| k IH]; intros c; cbn [crc32_shifts Nat.add].
  - reflexivity.
  - apply IH.
Qed.

Lemma crc32_byte_state c d b :
  crc32_byte (Z.lxor c d) b = Z.lxor (crc32_byte c b) (crc32_shifts 8 d).
Proof.
  unfold crc32_byte. rewrite <- crc32_shifts_lxor. f_equal. xor_bits.
Qed.

Lemma crc32_byte_input c b e :
  crc32_byte c (Z.lxor b e) = Z.lxor (crc32_byte c b) (crc32_shifts 8 e).
Proof.
  unfold crc32_byte. rewrite <- crc32_shifts_lxor. f_equal. xor_bits.
Qed.

Lemma crc32_fold_state data : forall c d,
  fold_left crc32_byte data (Z.lxor c d)
  = Z.lxor (fold_left crc32_byte data c) (crc32_shifts (8 * length data) d).
Proof.
  induction data as [| b rest IH]; intros c d.
  - rewrite !fold_left_nil. reflexivity.
  - rewrite !fold_left_cons, crc32_byte_state, IH.
    replace (8 * length (b :: rest))%nat with (8 + 8 * length rest)%nat
      by (cbn [length]; lia).
    rewrite crc32_shifts_add. reflexivity.
Qed.

Lemma flip_bit_split data i :
  (i < length data)%nat ->
  data = firstn i data ++ [nth i data 0] ++ skipn (S i) data.
Proof.
  revert i. induction data as [| b rest IH]; intros i Hi; cbn in Hi; [lia |].
  destruct i as [| k]; cbn [firstn nth skipn app].
  - reflexivity.
  - f_equal. apply IH. lia.
Qed.

Lemma crc32_fold_flip data i j c :
  (i < length data)%nat ->
  fold_left crc32_byte (flip_bit data i j) c
  = Z.lxor (fold_left crc32_byte data c)
           (crc32_shifts (8 * (length data - i)) (2 ^ j)).
Proof.
  intros Hi. unfold flip_bit.
  rewrite (flip_bit_split data i Hi) at 4.
  rewrite !fold_left_app, !fold_left_cons, !fold_left_nil.
  rewrite crc32_byte_input, crc32_fold_state.
  rewrite <- crc32_shifts_add. f_equal. f_equal.
  rewrite length_skipn. lia.
Qed.

Lemma unit_bit_reaches_one j :
  0 <= j < 8 -> crc32_shifts (Z.to_nat j) (2 ^ j) = 1.
Proof.
  intros Hj.
  assert (j = 0 \/ j = 1 \/ j = 2 \/ j = 3 \/ j = 4 \/ j = 5 \/ j = 6 \/ j = 7)
    as Hc by lia.
  decompose [or] Hc; subst j; vm_compute; reflexivity.
Qed.

Lemma low16_deltas_sound n : forall c,
  low16_deltas_nonzero n c = true ->
  forall t, (1 <= t <= n)%nat -> low16 (crc32_shifts t c) <> 0.
Proof.
  induction n as [| k IH]; intros c Hok t Ht; [lia |].
  cbn [low16_deltas_nonzero] in Hok.
  apply andb_prop in Hok. destruct Hok as [Hhead Htail].
  destruct t as [| t']; [lia |]. cbn [crc32_shifts].
  destruct t' as [| t''].
  - cbn [crc32_shifts]. intros E. rewrite E in Hhead. discriminate Hhead.
  - apply (IH _ Htail). lia.
Qed.

Lemma low16_deltas_4094_bytes : low16_deltas_nonzero (8 * 4094) 1 = true.
Proof. vm_compute. reflexivity. Qed.

Lemma low16_lxor_cancel s d x :
  low16 (Z.lxor (Z.lxor s d) x) = low16 (Z.lxor s x) -> low16 d = 0.
Proof.
  unfold low16. change 65536 with (2 ^ 16).
  rewrite !mod_pow2_lxor by lia.
  set (s' := s mod 2 ^ 16). set (d' := d mod 2 ^ 16). set (x' := x mod 2 ^ 16).
  intros E.
  assert (Z.lxor (Z.lxor s' x') (Z.lxor (Z.lxor s' d') x') = d') as E1 by xor_bits.
  rewrite E, Z.lxor_nilpotent in E1. symmetry. exact E1.
Qed.

Lemma crc32_detects_single_flip data i j :
  (length data <= 4094)%nat -> (i < length data)%nat -> 0 <= j < 8 ->
  low16 (crc32_iso_hdlc (flip_bit data i j)) <> low16 (crc32_iso_hdlc data).
Proof.
  intros Hlen Hi Hj E. unfold crc32_iso_hdlc in E.
  rewrite crc32_fold_flip in E by assumption.
  apply low16_lxor_cancel in E.
  replace (8 * (length data - i))%nat
    with (Z.to_nat j + (8 * (length data - i) - Z.to_nat j))%nat in E by lia.
  rewrite crc32_shifts_add, unit_bit_reaches_one in E by assumption.
  revert E. apply (low16_deltas_sound _ _ low16_deltas_4094_bytes). lia.
Qed.

Lemma byte_ok_lxor a b : byte_ok a -> byte_ok b -> byte_ok (Z.lxor a b).
Proof.
  unfold byte_ok. change 256 with (2 ^ 8). intros Ha Hb.
  rewrite <- (Z.mod_small a (2 ^ 8)), <- (Z.mod_small b (2 ^ 8)) by assumption.
  rewrite <- mod_pow2_lxor by lia. apply Z.mod_pos_bound. reflexivity.
Qed.

Lemma byte_ok_pow2 j : 0 <= j < 8 -> byte_ok (2 ^ j).
Proof.
  intros Hj. unfold byte_ok. split; [apply Z.pow_nonneg; lia |].
  change 256 with (2 ^ 8). apply Z.pow_lt_mono_r; lia.
Qed.

Lemma Forall_firstn {A} (P : A -> Prop) n : forall l,
  Forall P l -> Forall P (firstn n l).
Proof.
  induction n as [| k IH]; intros l Hl; [constructor |].
  destruct Hl as [| x rest Hx Hrest]; cbn [firstn]; constructor; auto.
Qed.

Lemma Forall_skipn {A} (P : A -> Prop) n : forall l,
  Forall P l -> Forall P (skipn n l).
Proof.
  induction n as [| k IH]; intros l Hl; [exact Hl |].
  destruct Hl as [| x rest Hx Hrest]; cbn [skipn]; [constructor | auto].
Qed.

Lemma bytes_ok_flip_bit data i j :
  bytes_ok data -> (i < length data)%nat -> 0 <= j < 8 ->
  bytes_ok (flip_bit data i j).
Proof.
  unfold bytes_ok, flip_bit. intros Hd Hi Hj.
  apply Forall_app. split; [apply Forall_firstn; assumption |].
  apply Forall_app. split; [| apply Forall_skipn; assumption].
  constructor; [| constructor].
  apply byte_ok_lxor; [| apply byte_ok_pow2; assumption].
  rewrite Forall_forall in Hd. apply Hd. apply nth_In. assumption.
Qed.

Lemma calculateConfigCrc_detects_single_flip data i j :
  bytes_ok data -> (length data <= 4094)%nat -> (i < length data)%nat ->
  0 <= j < 8 ->
  calculateConfigCrc (flip_bit data i j) <> calculateConfigCrc data.
Proof.
  intros Hb Hlen Hi Hj.
  rewrite !calculateConfigCrc_refines
    by (assumption || apply bytes_ok_flip_bit; assumption).
  apply crc32_detects_single_flip; assumption.
Qed.

(** ** The serializer emits bytes *)

Lemma byte_ok_mod v : byte_ok (v mod 256).
Proof. unfold byte_ok. apply Z.mod_pos_bound. lia. Qed.

Lemma bytes_ok_store buf b : bytes_ok buf -> byte_ok b ->
  forall off, bytes_ok (DataView.store buf off b).
Proof.
  unfold bytes_ok. intros Hbuf Hb.
  induction Hbuf as [| h t Hh Ht IH]; intros [| k]; cbn [DataView.store];
    constructor; auto.
Qed.

Lemma bytes_ok_set src : forall buf off,
  bytes_ok buf -> bytes_ok (DataView.set buf src off).
Proof.
  induction src as [| b s IH]; intros buf off Hbuf; cbn [DataView.set].
  - exact Hbuf.
  - apply IH. apply bytes_ok_store; [exact Hbuf | apply byte_ok_mod].
Qed.

Lemma bytes_ok_alloc n : bytes_ok (DataView.alloc n).
Proof.
  unfold bytes_ok, DataView.alloc. induction n as [| k IH]; cbn [repeat];
    constructor; [unfold byte_ok; lia | exact IH].
Qed.

Lemma bytes_ok_setUint8 buf off v :
  bytes_ok buf -> bytes_ok (DataView.setUint8 buf off v).
Proof. intros H. apply bytes_ok_store; [exact H | apply byte_ok_mod]. Qed.

Lemma bytes_ok_setInt8 buf off v :
  bytes_ok buf -> bytes_ok (DataView.setInt8 buf off v).
Proof. intros H. apply bytes_ok_store; [exact H | apply byte_ok_mod]. Qed.

Lemma bytes_ok_setUint16 buf off v le :
  bytes_ok buf -> bytes_ok (DataView.setUint16 buf off v le).
Proof.
  intros H. unfold DataView.setUint16.
  destruct le; repeat apply bytes_ok_store; auto using byte_ok_mod.
Qed.

Lemma bytes_ok_setUint32 buf off v le :
  bytes_ok buf -> bytes_ok (DataView.setUint32 buf off v le).
Proof.
  intros H. unfold DataView.setUint32.
  destruct le; repeat apply bytes_ok_store; auto using byte_ok_mod.
Qed.

Ltac buffer_bytes :=
  repeat (apply bytes_ok_set || apply bytes_ok_setUint8 || apply bytes_ok_setInt8
          || apply bytes_ok_setUint16 || apply bytes_ok_setUint32);
  apply bytes_ok_alloc.

Lemma bytes_ok_serializeSystemConfig r : bytes_ok (serializeSystemConfig r).
Proof. unfold serializeSystemConfig. buffer_bytes. Qed.

Lemma bytes_ok_serializeManufacturerData r : bytes_ok (serializeManufacturerData r).
Proof. unfold serializeManufacturerData. buffer_bytes. Qed.

Lemma bytes_ok_serializePowerOption r : bytes_ok (serializePowerOption r).
Proof. unfold serializePowerOption. buffer_bytes. Qed.

Lemma bytes_ok_serializeDisplayConfig r : bytes_ok (serializeDisplayConfig r).
Proof. unfold serializeDisplayConfig. buffer_bytes. Qed.

Lemma bytes_ok_serializeLedConfig r : bytes_ok (serializeLedConfig r).
Proof. unfold serializeLedConfig. buffer_bytes. Qed.

Lemma bytes_ok_serializeSensorData r : bytes_ok (serializeSensorData r).
Proof. unfold serializeSensorData. buffer_bytes. Qed.

Lemma bytes_ok_serializeDataBus r : bytes_ok (serializeDataBus r).
Proof. unfold serializeDataBus. buffer_bytes. Qed.

Lemma bytes_ok_serializeBinaryInputs r : bytes_ok (serializeBinaryInputs r).
Proof. unfold serializeBinaryInputs. buffer_bytes. Qed.

Lemma bytes_ok_push_single {A} ty (ser : A -> Uint8Array) x :
  byte_ok ty -> (forall y, bytes_ok (ser y)) ->
  Forall bytes_ok (push_single ty ser x).
Proof.
  unfold bytes_ok. intros Hty Hser.
  destruct x as [y |]; cbn [push_single]; repeat constructor; auto;
    unfold byte_ok in *; lia.
Qed.

Lemma bytes_ok_tagged_first_four {A} ty (ser : A -> Uint8Array) items :
  byte_ok ty -> (forall y, bytes_ok (ser y)) ->
  Forall bytes_ok (tagged_packets ty ser (firstn 4 items)).
Proof.
  unfold bytes_ok. intros Hty Hser.
  destruct items as [| a [| b [| c [| d rest]]]];
    cbn [firstn tagged_packets length seq combine flat_map app fst snd];
    repeat constructor; auto; unfold byte_ok in *; cbn; lia.
Qed.

Ltac byte_const := unfold byte_ok; cbv; split; [discriminate | reflexivity].

Lemma bytes_ok_first_four_layout c : bytes_ok (concat (first_four_layout c)).
Proof.
  unfold bytes_ok. apply Forall_concat. unfold first_four_layout.
  rewrite !Forall_app. repeat split.
  - constructor; [| constructor].
    repeat (constructor; [first [apply byte_ok_mod | unfold byte_ok; lia] |]).
    constructor.
  - apply bytes_ok_push_single;
      [byte_const | apply bytes_ok_serializeSystemConfig].
  - apply bytes_ok_push_single;
      [byte_const | apply bytes_ok_serializeManufacturerData].
  - apply bytes_ok_push_single;
      [byte_const | apply bytes_ok_serializePowerOption].
  - apply bytes_ok_tagged_first_four;
      [byte_const | apply bytes_ok_serializeDisplayConfig].
  - apply bytes_ok_tagged_first_four;
      [byte_const | apply bytes_ok_serializeLedConfig].
  - apply bytes_ok_tagged_first_four;
      [byte_const | apply bytes_ok_serializeSensorData].
  - apply bytes_ok_tagged_first_four;
      [byte_const | apply bytes_ok_serializeDataBus].
  - apply bytes_ok_tagged_first_four;
      [byte_const | apply bytes_ok_serializeBinaryInputs].
Qed.

(** C7.  Whenever [serializeConfig] returns, its output is the packet data
    followed by two bytes that hold, little-endian, the low 16 bits of the
    CRC-32/ISO-HDLC of the packet data; and inverting any one bit of the
    packet data makes the computed checksum differ from those two bytes. *)
Theorem serializeConfig_trailing_crc c out :
  serializeConfig c = Ok out ->
  exists packetData lo hi,
    out = packetData ++ [lo; hi]
    /\ byte_ok lo /\ byte_ok hi
    /\ lo + 256 * hi = low16 (crc32_iso_hdlc packetData)
    /\ calculateConfigCrc packetData = lo + 256 * hi
    /\ forall i j, (i < length packetData)%nat -> 0 <= j < 8 ->
         calculateConfigCrc (flip_bit packetData i j) <> lo + 256 * hi.
Proof.
  rewrite serializeConfig_layout. cbv zeta. intros E. injection E as E. subst out.
  set (packetData := concat (first_four_layout c)).
  pose proof (bytes_ok_first_four_layout c) as Hbytes. fold packetData in Hbytes.
  pose proof (serializeConfig_size c) as Hsize. fold packetData in Hsize.
  pose proof (calculateConfigCrc_range packetData) as Hrange.
  assert (calculateConfigCrc packetData mod 256
          + 256 * ((calculateConfigCrc packetData / 256) mod 256)
          = calculateConfigCrc packetData) as Hle
      by (apply u16_enc_dec; exact Hrange).
  exists packetData, (calculateConfigCrc packetData mod 256),
         ((calculateConfigCrc packetData / 256) mod 256).
  split; [reflexivity |].
  split; [apply byte_ok_mod |].
  split; [apply byte_ok_mod |].
  rewrite Hle.
  split; [apply calculateConfigCrc_refines; exact Hbytes |].
  split; [reflexivity |].
  intros i j Hi Hj.
  apply calculateConfigCrc_detects_single_flip; try assumption. lia.
Qed.

Lemma serializeConfig_trailing_crc_witness :
  exists out packetData lo hi,
    serializeConfig sample_config = Ok out
    /\ out = packetData ++ [lo; hi]
    /\ lo + 256 * hi = low16 (crc32_iso_hdlc packetData)
    /\ calculateConfigCrc (flip_bit packetData 3 0) <> lo + 256 * hi.
Proof.
  destruct (serializeConfig sample_config) as [out | e] eqn:E;
    [| vm_compute in E; discriminate E].
  destruct (serializeConfig_trailing_crc sample_config out E)
    as (packetData & lo & hi & Hout & _ & _ & Hcrc & Hcalc & Hflip).
  exists out, packetData, lo, hi.
  split; [reflexivity |].
  split; [exact Hout |].
  split; [exact Hcrc |].
  apply Hflip; [| lia].
  assert (length out = 253%nat) as Hlen
      by (vm_compute in E; injection E as E; subst out; reflexivity).
  rewrite Hout, length_app in Hlen. cbn [length] in Hlen. lia.
Defined.

(** ** The TLV walk over a stream of well-formed packets *)

Lemma slice_app_middle (a b c : Uint8Array) :
  slice (a ++ b ++ c) (length a) (length a + length b) = b.
Proof.
  unfold slice.
  replace (length a + length b - length a)%nat with (length b) by lia.
  rewrite skipn_app, skipn_all, Nat.sub_diag. cbn [skipn app].
  rewrite firstn_app, firstn_all, Nat.sub_diag. cbn [firstn].
  apply app_nil_r.
Qed.

Lemma map_set_bytes k v m : map_set k v m <> [].
Proof. destruct m as [| [k' v'] rest]; cbn; [| destruct (key_eqb k k')]; discriminate. Qed.

Lemma tlv_walk_packet fuel pre p tail m :
  packet_ok p ->
  tlv_walk (S fuel) (pre ++ packet_bytes p ++ tail) (length pre) m
  = tlv_walk fuel (pre ++ packet_bytes p ++ tail)
             (length (pre ++ packet_bytes p))
             (map_set (packet_key_of p) (pk_payload p) m).
Proof.
  destruct p as [number ty payload]. unfold packet_ok, packet_bytes, packet_key_of.
  cbn [pk_number pk_type pk_payload]. intros Hsize.
  set (data := pre ++ ([number; ty] ++ payload) ++ tail).
  assert (length data = (length pre + 2 + length payload + length tail)%nat) as Hlen
      by (unfold data; rewrite !length_app; cbn [length]; lia).
  cbn [tlv_walk].
  destruct (Z.ltb_spec (Z.of_nat (length pre)) (Z.of_nat (length data) - 1)); [| lia].
  destruct (Nat.ltb_spec (length data) (length pre + 2)); [lia |].
  assert (nth (length pre) data 0 = number) as ->.
  { unfold data. cbn [app]. apply nth_middle. }
  assert (nth (length pre + 1) data 0 = ty) as ->.
  { unfold data. rewrite app_nth2_plus. reflexivity. }
  rewrite Hsize.
  destruct (Nat.ltb_spec (length data) (length pre + 2 + length payload)); [lia |].
  assert (slice data (length pre + 2) (length pre + 2 + length payload) = payload) as ->.
  { unfold data.
    replace (pre ++ ([number; ty] ++ payload) ++ tail)
      with ((pre ++ [number; ty]) ++ payload ++ tail)
      by (rewrite <- !app_assoc; reflexivity).
    replace (length pre + 2)%nat with (length (pre ++ [number; ty]))
      by (rewrite length_app; reflexivity).
    apply slice_app_middle. }
  f_equal. rewrite !length_app. cbn [length]. lia.
Qed.

Lemma tlv_walk_stream ps : forall fuel pre tail m,
  Forall packet_ok ps ->
  tlv_walk (length ps + fuel) (pre ++ stream ps ++ tail) (length pre) m
  = tlv_walk fuel (pre ++ stream ps ++ tail) (length (pre ++ stream ps))
             (packets_map ps m).
Proof.
  induction ps as [| p rest IH]; intros fuel pre tail m Hok.
  - cbn [stream flat_map app length packets_map fold_left Nat.add].
    rewrite app_nil_r. reflexivity.
  - apply Forall_cons_iff in Hok. destruct Hok as [Hp Hrest].
    cbn [stream flat_map length Nat.add packets_map fold_left].
    fold (stream rest).
    rewrite <- (app_assoc (packet_bytes p) (stream rest) tail).
    rewrite tlv_walk_packet by assumption.
    replace (pre ++ packet_bytes p ++ stream rest ++ tail)
      with ((pre ++ packet_bytes p) ++ stream rest ++ tail)
      by (rewrite <- app_assoc; reflexivity).
    rewrite IH by assumption.
    rewrite <- !app_assoc. reflexivity.
Qed.

(** How the walk ends on what follows the well-formed packets. *)

Lemma tlv_walk_end_short fuel pre tail m :
  (length tail < 2)%nat ->
  tlv_walk (S fuel) (pre ++ tail) (length pre) m = Ok m.
Proof.
  intros Ht. cbn [tlv_walk]. rewrite length_app.
  destruct (Z.ltb_spec (Z.of_nat (length pre))
                       (Z.of_nat (length pre + length tail) - 1)) as [Hlt | Hge];
    [| reflexivity].
  destruct (Nat.ltb_spec (length pre + length tail) (length pre + 2)); [reflexivity | lia].
Qed.

Lemma tlv_walk_end_unknown fuel pre number ty rest m :
  getPacketSize ty = None ->
  tlv_walk (S fuel) (pre ++ number :: ty :: rest) (length pre) m = Ok m.
Proof.
  intros Hty. cbn [tlv_walk]. rewrite length_app. cbn [length].
  destruct (Z.ltb_spec (Z.of_nat (length pre))
                       (Z.of_nat (length pre + S (S (length rest))) - 1)); [| lia].
  destruct (Nat.ltb_spec (length pre + S (S (length rest))) (length pre + 2)); [lia |].
  replace (pre ++ number :: ty :: rest) with (pre ++ [number] ++ ty :: rest) by reflexivity.
  rewrite app_nth2_plus. cbn [app nth]. rewrite Hty. reflexivity.
Qed.

Lemma tlv_walk_end_truncated fuel pre number ty rest size m :
  getPacketSize ty = Some size -> (length rest < size)%nat ->
  tlv_walk (S fuel) (pre ++ number :: ty :: rest) (length pre) m
  = Err ConfigParseError.
Proof.
  intros Hty Hshort. cbn [tlv_walk]. rewrite length_app. cbn [length].
  destruct (Z.ltb_spec (Z.of_nat (length pre))
                       (Z.of_nat (length pre + S (S (length rest))) - 1)); [| lia].
  destruct (Nat.ltb_spec (length pre + S (S (length rest))) (length pre + 2)); [lia |].
  replace (pre ++ number :: ty :: rest) with (pre ++ [number] ++ ty :: rest) by reflexivity.
  rewrite app_nth2_plus. cbn [app nth]. rewrite Hty.
  destruct (Nat.ltb_spec (length pre + S (S (length rest))) (length pre + 2 + size));
    [reflexivity | lia].
Qed.

Lemma length_stream_ge ps : (length ps <= length (stream ps))%nat.
Proof.
  induction ps as [| p rest IH]; cbn [stream flat_map length]; [lia |].
  fold (stream rest). rewrite length_app. unfold packet_bytes. cbn [app length]. lia.
Qed.

(** The walk of [parseTlvConfig] on well-formed packets followed by [tail],
    as a function of how a walk with one turn left treats [tail]. *)
Lemma tlv_walk_stream_then ps tail r :
  Forall packet_ok ps ->
  (forall fuel pre m, tlv_walk (S fuel) (pre ++ tail) (length pre) m = r m) ->
  tlv_walk (S (length (stream ps ++ tail))) (stream ps ++ tail) 0 []
  = r (packets_map ps []).
Proof.
  intros Hok Hend.
  pose proof (length_stream_ge ps) as Hge.
  replace (S (length (stream ps ++ tail)))
    with (length ps + S (length (stream ps ++ tail) - length ps))%nat
    by (rewrite length_app; lia).
  pose proof (tlv_walk_stream ps (S (length (stream ps ++ tail) - length ps))
                [] tail [] Hok) as Hw.
  cbn [app length] in Hw. rewrite Hw.
  apply (Hend _ (stream ps) (packets_map ps [])).
Qed.

(** ** The second pass of the parser *)

Definition entry_of (p : packet) : packet_key * Uint8Array :=
  (packet_key_of p, pk_payload p).

Lemma key_eqb_eq a b : key_eqb a b = true <-> a = b.
Proof.
  destruct a as [a1 a2], b as [b1 b2]. unfold key_eqb. cbn [fst snd].
  rewrite andb_true_iff, !Z.eqb_eq. split.
  - intros [-> ->]. reflexivity.
  - intros E. injection E as -> ->. split; reflexivity.
Qed.

Lemma map_set_fresh k v m :
  ~ In k (map fst m) -> map_set k v m = m ++ [(k, v)].
Proof.
  induction m as [| [k' v'] rest IH]; intros Hk; cbn [map_set app]; [reflexivity |].
  destruct (key_eqb k k') eqn:E.
  - apply key_eqb_eq in E. subst k'. exfalso. apply Hk. left. reflexivity.
  - rewrite IH; [reflexivity |]. intros Hin. apply Hk. right. exact Hin.
Qed.

Lemma packets_map_distinct ps : forall m,
  NoDup (map fst m ++ map packet_key_of ps) ->
  packets_map ps m = m ++ map entry_of ps.
Proof.
  induction ps as [| p rest IH]; intros m Hnd;
    cbn [packets_map fold_left map]; [symmetry; apply app_nil_r |].
  fold (packets_map rest (map_set (packet_key_of p) (pk_payload p) m)).
  cbn [map] in Hnd.
  rewrite map_set_fresh.
  - rewrite IH.
    + rewrite <- app_assoc. reflexivity.
    + rewrite map_app. cbn [map fst]. rewrite <- app_assoc. exact Hnd.
  - apply NoDup_remove_2 in Hnd. intros Hin. apply Hnd.
    apply in_or_app. left. exact Hin.
Qed.

Lemma tlv_collect_app e1 : forall e2 acc,
  tlv_collect (e1 ++ e2) acc = rbind (tlv_collect e1 acc) (tlv_collect e2).
Proof.
  induction e1 as [| [[ty n] v] rest IH]; intros e2 acc; [reflexivity |].
  destruct acc as [s m p d l se db bi ver mv lo].
  cbn [app tlv_collect].
  repeat match goal with
         | |- context [if ?c then _ else _] => destruct c
         end;
    try apply IH;
    match goal with
    | |- rbind ?r _ = rbind (rbind ?r _) _ => destruct r; cbn [rbind]
    end;
    try apply IH; reflexivity.
Qed.

Ltac type_tests :=
  repeat match goal with
         | |- context [Z.eqb ?a ?b] =>
             let r := eval vm_compute in (Z.eqb a b) in
             change (Z.eqb a b) with r
         end;
  cbv iota.

Section CollectOne.
Variables (s : option SystemConfig.t) (m : option ManufacturerData.t)
          (p : option PowerOption.t) (d : list DisplayConfig.t)
          (l : list LedConfig.t) (se : list SensorData.t)
          (db : list DataBus.t) (bi : list BinaryInputs.t)
          (ver mv : Z) (lo : bool).
Variable n : Z.
Variable rest : list (packet_key * Uint8Array).

Lemma collect_system x :
  SystemConfig_ok x ->
  tlv_collect (((PACKET_TYPE_SYSTEM, n), serializeSystemConfig x) :: rest)
              (GlobalConfig.mk s m p d l se db bi ver mv lo)
  = tlv_collect rest (GlobalConfig.mk (Some x) m p d l se db bi ver mv lo).
Proof.
  intros H. cbn [tlv_collect]. type_tests.
  unfold parseSystemConfig. rewrite length_serializeSystemConfig.
  change (22 <? 22)%nat with false. cbv iota.
  rewrite SystemConfig_enc_dec by assumption. reflexivity.
Qed.

Lemma collect_manufacturer x :
  ManufacturerData_ok x ->
  tlv_collect (((PACKET_TYPE_MANUFACTURER, n), serializeManufacturerData x) :: rest)
              (GlobalConfig.mk s m p d l se db bi ver mv lo)
  = tlv_collect rest (GlobalConfig.mk s (Some x) p d l se db bi ver mv lo).
Proof.
  intros H. cbn [tlv_collect]. type_tests.
  unfold parseManufacturerData. rewrite length_serializeManufacturerData.
  change (22 <? 22)%nat with false. cbv iota.
  rewrite ManufacturerData_enc_dec by assumption. reflexivity.
Qed.

Lemma collect_power x :
  PowerOption_ok x ->
  tlv_collect (((PACKET_TYPE_POWER, n), serializePowerOption x) :: rest)
              (GlobalConfig.mk s m p d l se db bi ver mv lo)
  = tlv_collect rest (GlobalConfig.mk s m (Some x) d l se db bi ver mv lo).
Proof.
  intros H. cbn [tlv_collect]. type_tests.
  unfold parsePowerOption. rewrite length_serializePowerOption.
  change (30 <? 30)%nat with false. cbv iota.
  rewrite PowerOption_enc_dec by assumption. reflexivity.
Qed.

Lemma collect_display x :
  DisplayConfig_ok x ->
  tlv_collect (((PACKET_TYPE_DISPLAY, n), serializeDisplayConfig x) :: rest)
              (GlobalConfig.mk s m p d l se db bi ver mv lo)
  = tlv_collect rest (GlobalConfig.mk s m p (d ++ [x]) l se db bi ver mv lo).
Proof.
  intros H. cbn [tlv_collect]. type_tests.
  unfold parseDisplayConfig. rewrite length_serializeDisplayConfig.
  change (46 <? 46)%nat with false. cbv iota.
  rewrite DisplayConfig_enc_dec by assumption. reflexivity.
Qed.

Lemma collect_led x :
  LedConfig_ok x ->
  tlv_collect (((PACKET_TYPE_LED, n), serializeLedConfig x) :: rest)
              (GlobalConfig.mk s m p d l se db bi ver mv lo)
  = tlv_collect rest (GlobalConfig.mk s m p d (l ++ [x]) se db bi ver mv lo).
Proof.
  intros H. cbn [tlv_collect]. type_tests.
  unfold parseLedConfig. rewrite length_serializeLedConfig.
  change (22 <? 22)%nat with false. cbv iota.
  rewrite LedConfig_enc_dec by assumption. reflexivity.
Qed.

Lemma collect_sensor x :
  SensorData_ok x ->
  tlv_collect (((PACKET_TYPE_SENSOR, n), serializeSensorData x) :: rest)
              (GlobalConfig.mk s m p d l se db bi ver mv lo)
  = tlv_collect rest (GlobalConfig.mk s m p d l (se ++ [x]) db bi ver mv lo).
Proof.
  intros H. cbn [tlv_collect]. type_tests.
  unfold parseSensorData. rewrite length_serializeSensorData.
  change (30 <? 30)%nat with false. cbv iota.
  rewrite SensorData_enc_dec by assumption. reflexivity.
Qed.

Lemma collect_bus x :
  DataBus_ok x ->
  tlv_collect (((PACKET_TYPE_DATABUS, n), serializeDataBus x) :: rest)
              (GlobalConfig.mk s m p d l se db bi ver mv lo)
  = tlv_collect rest (GlobalConfig.mk s m p d l se (db ++ [x]) bi ver mv lo).
Proof.
  intros H. cbn [tlv_collect]. type_tests.
  unfold parseDataBus. rewrite length_serializeDataBus.
  change (30 <? 30)%nat with false. cbv iota.
  rewrite DataBus_enc_dec by assumption. reflexivity.
Qed.

Lemma collect_input x :
  BinaryInputs_ok x ->
  tlv_collect (((PACKET_TYPE_BINARY_INPUT, n), serializeBinaryInputs x) :: rest)
              (GlobalConfig.mk s m p d l se db bi ver mv lo)
  = tlv_collect rest (GlobalConfig.mk s m p d l se db (bi ++ [x]) ver mv lo).
Proof.
  intros H. cbn [tlv_collect]. type_tests.
  unfold parseBinaryInputs. rewrite length_serializeBinaryInputs.
  change (30 <? 30)%nat with false. cbv iota.
  rewrite BinaryInputs_enc_dec by assumption. reflexivity.
Qed.
End CollectOne.

(** ** Unknown types end the walk, truncated packets fail it *)

Definition map_sized (m : list (packet_key * Uint8Array)) : Prop :=
  Forall (fun e => getPacketSize (fst (fst e)) = Some (length (snd e))) m.

Lemma map_set_sized k v m :
  getPacketSize (fst k) = Some (length v) -> map_sized m -> map_sized (map_set k v m).
Proof.
  unfold map_sized. intros Hk Hm.
  induction Hm as [| [k' v'] rest Hh Ht IH]; cbn [map_set].
  - constructor; [exact Hk | constructor].
  - destruct (key_eqb k k'); constructor; auto.
Qed.

Lemma packets_map_sized ps : forall m,
  Forall packet_ok ps -> map_sized m -> map_sized (packets_map ps m).
Proof.
  induction ps as [| p rest IH]; intros m Hok Hm; cbn [packets_map fold_left];
    [exact Hm |].
  apply Forall_cons_iff in Hok. destruct Hok as [Hp Hrest].
  apply IH; [exact Hrest |]. apply map_set_sized; assumption.
Qed.

(** On a map whose payloads have the sizes of the table, no record parser
    of the second pass can fail. *)
Lemma tlv_collect_sized m : map_sized m ->
  forall acc, exists cfg, tlv_collect m acc = Ok cfg.
Proof.
  unfold map_sized.
  induction 1 as [| [[ty n] v] rest Hsize Hrest IH]; intros acc.
  - exists acc. reflexivity.
  - destruct acc as [s m p d l se db bi ver mv lo].
    cbn [fst snd] in Hsize. unfold getPacketSize in Hsize.
    cbn [tlv_collect].
    unfold parseSystemConfig, parseManufacturerData, parsePowerOption,
      parseDisplayConfig, parseLedConfig, parseSensorData, parseDataBus,
      parseBinaryInputs, SystemConfig.fromBytes, ManufacturerData.fromBytes,
      PowerOption.fromBytes, DisplayConfig.fromBytes, LedConfig.fromBytes,
      SensorData.fromBytes, DataBus.fromBytes, BinaryInputs.fromBytes,
      SystemConfig.SIZE, ManufacturerData.SIZE, PowerOption.SIZE,
      DisplayConfig.SIZE, LedConfig.SIZE, SensorData.SIZE, DataBus.SIZE,
      BinaryInputs.SIZE.
    repeat match goal with
           | H : (if ?c then _ else _) = Some _ |- _ =>
               destruct c; [injection H as H; rewrite <- H | ]
           end;
      try discriminate Hsize;
      cbn [Nat.ltb Nat.leb rbind]; apply IH.
Qed.

Lemma length_stream_nonempty ps :
  ps <> [] -> (2 <= length (stream ps))%nat.
Proof.
  destruct ps as [| p rest]; [congruence |]. intros _.
  cbn [stream flat_map]. rewrite length_app. unfold packet_bytes.
  cbn [app length]. lia.
Qed.

Lemma parseTlvConfig_stream_unknown ps number ty rest version :
  Forall packet_ok ps -> getPacketSize ty = None ->
  parseTlvConfig (stream ps ++ number :: ty :: rest) version
  = tlv_collect (packets_map ps []) (empty_config version).
Proof.
  intros Hok Hty. unfold parseTlvConfig, parseTlvConfig_fuel.
  destruct (Nat.ltb_spec (length (stream ps ++ number :: ty :: rest)) 2) as [Hlt | _].
  - rewrite length_app in Hlt. cbn [length] in Hlt. lia.
  - rewrite (tlv_walk_stream_then ps (number :: ty :: rest) (fun m => Ok m) Hok).
    + reflexivity.
    + intros fuel pre m. apply tlv_walk_end_unknown. exact Hty.
Qed.

Lemma parseTlvConfig_stream_truncated ps number ty rest size version :
  Forall packet_ok ps -> getPacketSize ty = Some size -> (length rest < size)%nat ->
  parseTlvConfig (stream ps ++ number :: ty :: rest) version = Err ConfigParseError.
Proof.
  intros Hok Hty Hshort. unfold parseTlvConfig, parseTlvConfig_fuel.
  destruct (Nat.ltb_spec (length (stream ps ++ number :: ty :: rest)) 2) as [Hlt | _].
  - rewrite length_app in Hlt. cbn [length] in Hlt. lia.
  - rewrite (tlv_walk_stream_then ps (number :: ty :: rest)
               (fun _ => Err ConfigParseError) Hok).
    + reflexivity.
    + intros fuel pre m. apply (tlv_walk_end_truncated _ _ _ _ _ size); assumption.
Qed.

Lemma parseTlvConfig_stream ps version :
  Forall packet_ok ps -> ps <> [] ->
  parseTlvConfig (stream ps) version
  = tlv_collect (packets_map ps []) (empty_config version).
Proof.
  intros Hok Hne. unfold parseTlvConfig, parseTlvConfig_fuel.
  pose proof (length_stream_nonempty ps Hne) as Hlen.
  destruct (Nat.ltb_spec (length (stream ps)) 2) as [Hlt | _]; [lia |].
  rewrite <- (app_nil_r (stream ps)).
  rewrite (tlv_walk_stream_then ps [] (fun m => Ok m) Hok).
  - reflexivity.
  - intros fuel pre m. apply tlv_walk_end_short. cbn. lia.
Qed.

(** C9.  After any run of well-formed packets, a header whose type is not
    in the size table ends the walk without error, and the result is the
    configuration collected from the packets read so far (the one that the
    packets alone parse to); a header of a known type followed by fewer
    payload bytes than the table declares raises ConfigParseError. *)
Theorem tlv_unknown_type_stops_truncation_fails ps number ty rest version :
  Forall packet_ok ps ->
  (getPacketSize ty = None ->
     exists cfg,
       parseTlvConfig (stream ps ++ number :: ty :: rest) version = Ok cfg
       /\ tlv_collect (packets_map ps []) (empty_config version) = Ok cfg
       /\ (ps <> [] -> parseTlvConfig (stream ps) version = Ok cfg))
  /\ (forall size,
        getPacketSize ty = Some size -> (length rest < size)%nat ->
        parseTlvConfig (stream ps ++ number :: ty :: rest) version
        = Err ConfigParseError).
Proof.
  intros Hok. split.
  - intros Hty.
    destruct (tlv_collect_sized (packets_map ps [])
                (packets_map_sized ps [] Hok (Forall_nil _))
                (empty_config version)) as [cfg Hcfg].
    exists cfg. split; [| split].
    + rewrite parseTlvConfig_stream_unknown by assumption. exact Hcfg.
    + exact Hcfg.
    + intros Hne. rewrite parseTlvConfig_stream by assumption. exact Hcfg.
  - intros size Hty Hshort.
    apply (parseTlvConfig_stream_truncated _ _ _ _ size); assumption.
Qed.

Lemma sample_packets_ok : Forall packet_ok sample_packets.
Proof. repeat constructor. Defined.

Lemma tlv_unknown_type_stops_truncation_fails_witness :
  (exists cfg,
     parseTlvConfig (stream sample_packets ++ [7; 0x99; 1; 2; 3]) 1 = Ok cfg
     /\ GlobalConfig.system cfg = Some sample_system
     /\ GlobalConfig.displays cfg = [sample_display])
  /\ parseTlvConfig (stream sample_packets ++ 1 :: 0x21 :: repeat 0 21) 1
     = Err ConfigParseError.
Proof.
  destruct (tlv_unknown_type_stops_truncation_fails
              sample_packets 7 0x99 [1; 2; 3] 1 sample_packets_ok) as [Hunknown _].
  destruct (tlv_unknown_type_stops_truncation_fails
              sample_packets 1 0x21 (repeat 0 21) 1 sample_packets_ok) as [_ Htrunc].
  split.
  - destruct (Hunknown eq_refl) as (cfg & Hparse & Hcollect & _).
    exists cfg. split; [exact Hparse |].
    vm_compute in Hcollect. injection Hcollect as <-. split; reflexivity.
  - apply (Htrunc 22%nat); [reflexivity | cbn; lia].
Defined.

(** ** Serialize, then parse *)

Lemma idx_packets_from_cons {A} start ty (ser : A -> Uint8Array) x items :
  idx_packets_from start ty ser (x :: items)
  = mkPacket (Z.of_nat start) ty (ser x) :: idx_packets_from (S start) ty ser items.
Proof. reflexivity. Qed.

Lemma concat_push_single {A} ty (ser : A -> Uint8Array) x :
  concat (push_single ty ser x) = stream (opt_packet ty ser x).
Proof.
  destruct x as [y |]; [| reflexivity].
  cbn [push_single opt_packet concat stream flat_map packet_bytes
       pk_number pk_type pk_payload app].
  rewrite !app_nil_r. reflexivity.
Qed.

Lemma concat_tagged_from {A} ty (ser : A -> Uint8Array) items : forall start,
  concat (flat_map (fun ix => [[Z.of_nat (fst ix); ty]; ser (snd ix)])
                   (combine (seq start (length items)) items))
  = stream (idx_packets_from start ty ser items).
Proof.
  induction items as [| x rest IH]; intros start; [reflexivity |].
  rewrite idx_packets_from_cons.
  cbn [length seq combine flat_map app concat stream fst snd packet_bytes
       pk_number pk_type pk_payload].
  fold (stream (idx_packets_from (S start) ty ser rest)).
  rewrite IH. reflexivity.
Qed.

Lemma first_four_layout_stream c :
  concat (first_four_layout c)
  = [0; 0; GlobalConfig.version c mod 256] ++ stream (config_packets c).
Proof.
  unfold first_four_layout, config_packets, tagged_packets, stream.
  rewrite !concat_app, !flat_map_app, !concat_push_single.
  rewrite !concat_tagged_from. reflexivity.
Qed.

(** *** The keys of the emitted packets are pairwise distinct *)

Lemma keys_idx_from {A} ty (ser : A -> Uint8Array) items : forall start k,
  In k (map packet_key_of (idx_packets_from start ty ser items)) ->
  fst k = ty /\ Z.of_nat start <= snd k.
Proof.
  induction items as [| x rest IH]; intros start k Hin; [contradiction |].
  rewrite idx_packets_from_cons in Hin. cbn [map In] in Hin.
  destruct Hin as [<- | Hin].
  - cbn. split; [reflexivity | lia].
  - destruct (IH _ _ Hin) as [Hty Hle]. split; [exact Hty | lia].
Qed.

Lemma NoDup_keys_idx_from {A} ty (ser : A -> Uint8Array) items : forall start,
  NoDup (map packet_key_of (idx_packets_from start ty ser items)).
Proof.
  induction items as [| x rest IH]; intros start; [constructor |].
  rewrite idx_packets_from_cons. cbn [map]. constructor; [| apply IH].
  intros Hin. apply keys_idx_from in Hin. cbn in Hin. lia.
Qed.

Lemma NoDup_keys_opt {A} ty (ser : A -> Uint8Array) x :
  NoDup (map packet_key_of (opt_packet ty ser x)).
Proof.
  destruct x as [y |]; cbn; repeat constructor. intros [].
Qed.

Lemma keys_opt {A} ty (ser : A -> Uint8Array) x k :
  In k (map packet_key_of (opt_packet ty ser x)) -> fst k = ty.
Proof.
  destruct x as [y |]; cbn; [intros [<- | []]; reflexivity | intros []].
Qed.

Lemma NoDup_grouped (groups : list (Z * list packet_key)) :
  NoDup (map fst groups) ->
  Forall (fun g => NoDup (snd g) /\ forall k, In k (snd g) -> fst k = fst g) groups ->
  NoDup (concat (map snd groups)).
Proof.
  induction groups as [| g rest IH]; intros Htypes Hgroups; [constructor |].
  apply Forall_cons_iff in Hgroups. destruct Hgroups as [[Hnd Hty] Hrest].
  cbn [map] in Htypes. apply NoDup_cons_iff in Htypes.
  destruct Htypes as [Hfresh Htypes].
  cbn [map concat]. apply NoDup_app; [exact Hnd | apply IH; assumption |].
  intros k Hk Hin. apply in_concat in Hin. destruct Hin as (ks & Hks & Hkin).
  apply in_map_iff in Hks. destruct Hks as (g' & <- & Hg').
  rewrite Forall_forall in Hrest. destruct (Hrest g' Hg') as [_ Hty'].
  apply Hfresh. apply in_map_iff. exists g'. split; [| exact Hg'].
  transitivity (fst k); [symmetry; apply Hty'; exact Hkin | apply Hty; exact Hk].
Qed.

Lemma NoDup_config_keys c : NoDup (map packet_key_of (config_packets c)).
Proof.
  unfold config_packets. rewrite !map_app.
  match goal with
  | |- NoDup (?k1 ++ ?k2 ++ ?k3 ++ ?k4 ++ ?k5 ++ ?k6 ++ ?k7 ++ ?k8) =>
      replace (k1 ++ k2 ++ k3 ++ k4 ++ k5 ++ k6 ++ k7 ++ k8)
        with (concat (map snd
                [ (PACKET_TYPE_SYSTEM, k1); (PACKET_TYPE_MANUFACTURER, k2);
                  (PACKET_TYPE_POWER, k3); (PACKET_TYPE_DISPLAY, k4);
                  (PACKET_TYPE_LED, k5); (PACKET_TYPE_SENSOR, k6);
                  (PACKET_TYPE_DATABUS, k7); (PACKET_TYPE_BINARY_INPUT, k8) ]))
        by (cbn [map snd concat]; rewrite app_nil_r; reflexivity)
  end.
  apply NoDup_grouped.
  - cbn [map fst].
    unfold PACKET_TYPE_SYSTEM, PACKET_TYPE_MANUFACTURER, PACKET_TYPE_POWER,
      PACKET_TYPE_DISPLAY, PACKET_TYPE_LED, PACKET_TYPE_SENSOR,
      PACKET_TYPE_DATABUS, PACKET_TYPE_BINARY_INPUT.
    repeat (constructor; [cbn [In]; intuition discriminate |]).
    constructor.
  - repeat (constructor;
            [cbn [fst snd]; split;
             [first [apply NoDup_keys_opt | apply NoDup_keys_idx_from]
             | intros k Hk;
               first [apply keys_opt in Hk; exact Hk
                     | apply keys_idx_from in Hk; exact (proj1 Hk)]] |]).
    constructor.
Qed.

Lemma config_packets_ok c : Forall packet_ok (config_packets c).
Proof.
  assert (forall A ty (ser : A -> Uint8Array) n x,
             getPacketSize ty = Some n -> (forall y, length (ser y) = n) ->
             Forall packet_ok (opt_packet ty ser x)) as Hopt.
  { intros A ty ser n x Hty Hlen. destruct x as [y |]; cbn [opt_packet];
      repeat constructor. unfold packet_ok. cbn. rewrite Hlen. exact Hty. }
  assert (forall A ty (ser : A -> Uint8Array) n items start,
             getPacketSize ty = Some n -> (forall y, length (ser y) = n) ->
             Forall packet_ok (idx_packets_from start ty ser items)) as Hidx.
  { intros A ty ser n items. induction items as [| x rest IH]; intros start Hty Hlen;
      [constructor |].
    rewrite idx_packets_from_cons. constructor; [| apply IH; assumption].
    unfold packet_ok. cbn. rewrite Hlen. exact Hty. }
  unfold config_packets. rewrite !Forall_app. repeat split.
  - apply (Hopt _ _ _ 22%nat); [reflexivity | apply length_serializeSystemConfig].
  - apply (Hopt _ _ _ 22%nat); [reflexivity | apply length_serializeManufacturerData].
  - apply (Hopt _ _ _ 30%nat); [reflexivity | apply length_serializePowerOption].
  - apply (Hidx _ _ _ 46%nat); [reflexivity | apply length_serializeDisplayConfig].
  - apply (Hidx _ _ _ 22%nat); [reflexivity | apply length_serializeLedConfig].
  - apply (Hidx _ _ _ 30%nat); [reflexivity | apply length_serializeSensorData].
  - apply (Hidx _ _ _ 30%nat); [reflexivity | apply length_serializeDataBus].
  - apply (Hidx _ _ _ 30%nat); [reflexivity | apply length_serializeBinaryInputs].
Qed.

(** *** Collecting the packets of a configuration *)

Section CollectGroups.
Variables (ver mv : Z) (lo : bool).
Variable rest : list (packet_key * Uint8Array).

Lemma collect_opt_system x m p d l se db bi :
  option_ok SystemConfig_ok x ->
  tlv_collect (map entry_of (opt_packet PACKET_TYPE_SYSTEM serializeSystemConfig x)
               ++ rest)
              (GlobalConfig.mk None m p d l se db bi ver mv lo)
  = tlv_collect rest (GlobalConfig.mk x m p d l se db bi ver mv lo).
Proof.
  destruct x as [y |]; intros H; [| reflexivity].
  apply collect_system. exact H.
Qed.

Lemma collect_opt_manufacturer x s p d l se db bi :
  option_ok ManufacturerData_ok x ->
  tlv_collect (map entry_of (opt_packet PACKET_TYPE_MANUFACTURER
                                        serializeManufacturerData x) ++ rest)
              (GlobalConfig.mk s None p d l se db bi ver mv lo)
  = tlv_collect rest (GlobalConfig.mk s x p d l se db bi ver mv lo).
Proof.
  destruct x as [y |]; intros H; [| reflexivity].
  apply collect_manufacturer. exact H.
Qed.

Lemma collect_opt_power x s m d l se db bi :
  option_ok PowerOption_ok x ->
  tlv_collect (map entry_of (opt_packet PACKET_TYPE_POWER serializePowerOption x)
               ++ rest)
              (GlobalConfig.mk s m None d l se db bi ver mv lo)
  = tlv_collect rest (GlobalConfig.mk s m x d l se db bi ver mv lo).
Proof.
  destruct x as [y |]; intros H; [| reflexivity].
  apply collect_power. exact H.
Qed.

Lemma collect_displays items : forall start s m p d l se db bi,
  Forall DisplayConfig_ok items ->
  tlv_collect (map entry_of (idx_packets_from start PACKET_TYPE_DISPLAY
                                              serializeDisplayConfig items) ++ rest)
              (GlobalConfig.mk s m p d l se db bi ver mv lo)
  = tlv_collect rest (GlobalConfig.mk s m p (d ++ items) l se db bi ver mv lo).
Proof.
  induction items as [| x xs IH]; intros start s m p d l se db bi H.
  - cbn [idx_packets_from length seq combine map app]. rewrite app_nil_r. reflexivity.
  - apply Forall_cons_iff in H. destruct H as [Hx Hxs].
    rewrite idx_packets_from_cons. cbn [map app]. unfold entry_of at 1.
    unfold packet_key_of. cbn [pk_number pk_type pk_payload].
    rewrite collect_display by assumption.
    rewrite IH by assumption. rewrite <- app_assoc. reflexivity.
Qed.

Lemma collect_leds items : forall start s m p d l se db bi,
  Forall LedConfig_ok items ->
  tlv_collect (map entry_of (idx_packets_from start PACKET_TYPE_LED
                                              serializeLedConfig items) ++ rest)
              (GlobalConfig.mk s m p d l se db bi ver mv lo)
  = tlv_collect rest (GlobalConfig.mk s m p d (l ++ items) se db bi ver mv lo).
Proof.
  induction items as [| x xs IH]; intros start s m p d l se db bi H.
  - cbn [idx_packets_from length seq combine map app]. rewrite app_nil_r. reflexivity.
  - apply Forall_cons_iff in H. destruct H as [Hx Hxs].
    rewrite idx_packets_from_cons. cbn [map app]. unfold entry_of at 1.
    unfold packet_key_of. cbn [pk_number pk_type pk_payload].
    rewrite collect_led by assumption.
    rewrite IH by assumption. rewrite <- app_assoc. reflexivity.
Qed.

Lemma collect_sensors items : forall start s m p d l se db bi,
  Forall SensorData_ok items ->
  tlv_collect (map entry_of (idx_packets_from start PACKET_TYPE_SENSOR
                                              serializeSensorData items) ++ rest)
              (GlobalConfig.mk s m p d l se db bi ver mv lo)
  = tlv_collect rest (GlobalConfig.mk s m p d l (se ++ items) db bi ver mv lo).
Proof.
  induction items as [| x xs IH]; intros start s m p d l se db bi H.
  - cbn [idx_packets_from length seq combine map app]. rewrite app_nil_r. reflexivity.
  - apply Forall_cons_iff in H. destruct H as [Hx Hxs].
    rewrite idx_packets_from_cons. cbn [map app]. unfold entry_of at 1.
    unfold packet_key_of. cbn [pk_number pk_type pk_payload].
    rewrite collect_sensor by assumption.
    rewrite IH by assumption. rewrite <- app_assoc. reflexivity.
Qed.

Lemma collect_buses items : forall start s m p d l se db bi,
  Forall DataBus_ok items ->
  tlv_collect (map entry_of (idx_packets_from start PACKET_TYPE_DATABUS
                                              serializeDataBus items) ++ rest)
              (GlobalConfig.mk s m p d l se db bi ver mv lo)
  = tlv_collect rest (GlobalConfig.mk s m p d l se (db ++ items) bi ver mv lo).
Proof.
  induction items as [| x xs IH]; intros start s m p d l se db bi H.
  - cbn [idx_packets_from length seq combine map app]. rewrite app_nil_r. reflexivity.
  - apply Forall_cons_iff in H. destruct H as [Hx Hxs].
    rewrite idx_packets_from_cons. cbn [map app]. unfold entry_of at 1.
    unfold packet_key_of. cbn [pk_number pk_type pk_payload].
    rewrite collect_bus by assumption.
    rewrite IH by assumption. rewrite <- app_assoc. reflexivity.
Qed.

Lemma collect_inputs items : forall start s m p d l se db bi,
  Forall BinaryInputs_ok items ->
  tlv_collect (map entry_of (idx_packets_from start PACKET_TYPE_BINARY_INPUT
                                              serializeBinaryInputs items) ++ rest)
              (GlobalConfig.mk s m p d l se db bi ver mv lo)
  = tlv_collect rest (GlobalConfig.mk s m p d l se db (bi ++ items) ver mv lo).
Proof.
  induction items as [| x xs IH]; intros start s m p d l se db bi H.
  - cbn [idx_packets_from length seq combine map app]. rewrite app_nil_r. reflexivity.
  - apply Forall_cons_iff in H. destruct H as [Hx Hxs].
    rewrite idx_packets_from_cons. cbn [map app]. unfold entry_of at 1.
    unfold packet_key_of. cbn [pk_number pk_type pk_payload].
    rewrite collect_input by assumption.
    rewrite IH by assumption. rewrite <- app_assoc. reflexivity.
Qed.
End CollectGroups.

Lemma firstn_short {A} n (l : list A) : (length l <= n)%nat -> firstn n l = l.
Proof. intros H. apply firstn_all2. exact H. Qed.

Lemma tlv_collect_config c version :
  GlobalConfig_ok c ->
  tlv_collect (map entry_of (config_packets c)) (empty_config version)
  = Ok (GlobalConfig.mk (GlobalConfig.system c) (GlobalConfig.manufacturer c)
          (GlobalConfig.power c) (GlobalConfig.displays c) (GlobalConfig.leds c)
          (GlobalConfig.sensors c) (GlobalConfig.dataBuses c)
          (GlobalConfig.binaryInputs c) version 1 true).
Proof.
  unfold GlobalConfig_ok.
  intros (Hs & Hm & Hp & Hd & Hl & Hse & Hdb & Hbi & Ld & Ll & Lse & Ldb & Lbi & _).
  unfold config_packets, empty_config.
  rewrite !firstn_short by assumption.
  rewrite !map_app.
  rewrite collect_opt_system by assumption.
  rewrite collect_opt_manufacturer by assumption.
  rewrite collect_opt_power by assumption.
  rewrite collect_displays by assumption.
  rewrite collect_leds by assumption.
  rewrite collect_sensors by assumption.
  rewrite collect_buses by assumption.
  rewrite <- (app_nil_r (map entry_of (idx_packets_from 0 PACKET_TYPE_BINARY_INPUT _ _))).
  rewrite collect_inputs by assumption.
  reflexivity.
Qed.

Lemma parseConfigResponse_wrapped v ps lo hi :
  byte_ok v -> Forall packet_ok ps -> ps <> [] ->
  parseConfigResponse (([0; 0; v] ++ stream ps) ++ [lo; hi])
  = tlv_collect (packets_map ps []) (empty_config v).
Proof.
  intros Hv Hok Hne. unfold parseConfigResponse.
  pose proof (length_stream_nonempty ps Hne) as Hlen.
  assert (length (([0; 0; v] ++ stream ps) ++ [lo; hi]) = (length (stream ps) + 5)%nat)
    as Htotal by (rewrite !length_app; cbn [length]; lia).
  rewrite Htotal.
  destruct (Nat.ltb_spec (length (stream ps) + 5) 5); [lia |].
  destruct (Nat.ltb_spec 5 (length (stream ps) + 5)); [| lia].
  assert (DataView.getUint8 (([0; 0; v] ++ stream ps) ++ [lo; hi]) 2 = v) as ->
      by reflexivity.
  assert (slice_to_end_minus (([0; 0; v] ++ stream ps) ++ [lo; hi]) 3 2 = stream ps)
    as ->.
  { unfold slice_to_end_minus. rewrite Htotal.
    replace (length (stream ps) + 5 - 2 - 3)%nat with (length (stream ps)) by lia.
    cbn [app skipn]. rewrite firstn_app, firstn_all, Nat.sub_diag.
    cbn [firstn]. apply app_nil_r. }
  apply parseTlvConfig_stream; assumption.
Qed.

(** C2 (amended).  A well-formed configuration that holds at least one
    record, whose fields are all in range and whose [minorVersion] and
    [loaded] have the values the parser always produces (1 and true), is
    returned unchanged, version byte included, by [parseConfigResponse]
    applied to the output of [serializeConfig]. *)
Theorem serialize_parse_roundtrip c :
  GlobalConfig_ok c -> has_record c ->
  GlobalConfig.minorVersion c = 1 -> GlobalConfig.loaded c = true ->
  exists out, serializeConfig c = Ok out /\ parseConfigResponse out = Ok c.
Proof.
  intros Hok Hrec Hminor Hloaded.
  pose proof (serializeConfig_layout c) as Hser. cbv zeta in Hser.
  eexists. split; [exact Hser |].
  rewrite first_four_layout_stream.
  assert (uint8 (GlobalConfig.version c)) as Hv
      by (unfold GlobalConfig_ok in Hok; tauto).
  rewrite (u8_enc_dec _ Hv).
  rewrite parseConfigResponse_wrapped;
    [| exact Hv | apply config_packets_ok | exact Hrec].
  rewrite packets_map_distinct by (cbn [map app]; apply NoDup_config_keys).
  cbn [app]. rewrite tlv_collect_config by assumption.
  destruct c as [s m p d l se db bi ver mv lo].
  cbn [GlobalConfig.minorVersion GlobalConfig.loaded] in Hminor, Hloaded.
  subst mv lo. reflexivity.
Qed.

Lemma sample_config_ok : GlobalConfig_ok sample_config.
Proof.
  unfold GlobalConfig_ok, sample_config.
  cbn [GlobalConfig.system GlobalConfig.manufacturer GlobalConfig.power
       GlobalConfig.displays GlobalConfig.leds GlobalConfig.sensors
       GlobalConfig.dataBuses GlobalConfig.binaryInputs GlobalConfig.version
       option_ok length].
  repeat match goal with
         | |- _ /\ _ => split
         | |- Forall _ [_] => constructor; [| constructor]
         end;
    try (unfold uint8; lia); try lia; in_range.
Defined.

Lemma serialize_parse_roundtrip_witness :
  exists out, serializeConfig sample_config = Ok out
              /\ parseConfigResponse out = Ok sample_config.
Proof.
  apply (serialize_parse_roundtrip sample_config).
  - exact sample_config_ok.
  - unfold has_record. vm_compute. discriminate.
  - reflexivity.
  - reflexivity.
Defined.

(** C2 as stated fails: the configuration without records at version 26 is
    well-formed, yet its serialization (five bytes: header and checksum
    [68 20]) is not parsed back; with nothing between the header and the
    checksum, the wrapper is stripped by [slice(3)] and the checksum bytes
    are walked as a packet header of type 0x20, whose payload is missing. *)
Lemma serialize_parse_fails_without_records :
  GlobalConfig_ok bare_config_v26
  /\ GlobalConfig.minorVersion bare_config_v26 = 1
  /\ GlobalConfig.loaded bare_config_v26 = true
  /\ serializeConfig bare_config_v26 = Ok [0; 0; 26; 0x68; 0x20]
  /\ parseConfigResponse [0; 0; 26; 0x68; 0x20] = Err ConfigParseError
  /\ ~ (exists out, serializeConfig bare_config_v26 = Ok out
                    /\ parseConfigResponse out = Ok bare_config_v26).
Proof.
  assert (serializeConfig bare_config_v26 = Ok [0; 0; 26; 0x68; 0x20]) as Hser
      by (vm_compute; reflexivity).
  assert (parseConfigResponse [0; 0; 26; 0x68; 0x20] = Err ConfigParseError) as Hparse
      by (vm_compute; reflexivity).
  split.
  { unfold GlobalConfig_ok, bare_config_v26. cbn. repeat split; try constructor; lia. }
  split; [reflexivity |]. split; [reflexivity |].
  split; [exact Hser |]. split; [exact Hparse |].
  intros (out & Hout & Hback). rewrite Hser in Hout. injection Hout as <-.
  rewrite Hparse in Hback. discriminate Hback.
Qed.

(** [minorVersion] and [loaded] are not on the wire: the parser sets them
    to 1 and [true] whatever the serialized configuration held. *)
Remark parse_resets_minorVersion_and_loaded :
  let c := GlobalConfig.mk (Some sample_system) None None [] [] [] [] [] 1 7 false in
  rbind (serializeConfig c) parseConfigResponse
  = Ok (GlobalConfig.mk (Some sample_system) None None [] [] [] [] [] 1 1 true).
Proof. vm_compute. reflexivity. Qed.

(** ** Command frames *)

Lemma store_firstn buf : forall off b,
  (off < length buf)%nat ->
  firstn (S off) (DataView.store buf off b) = firstn off buf ++ [b].
Proof.
  induction buf as [| h t IH]; intros off b Hoff; cbn [length] in Hoff; [lia |].
  destruct off as [| k]; cbn [DataView.store firstn app]; [reflexivity |].
  f_equal. apply IH. lia.
Qed.

Lemma store_skipn buf : forall off b n,
  (off < n)%nat -> skipn n (DataView.store buf off b) = skipn n buf.
Proof.
  induction buf as [| h t IH]; intros off b n Hn.
  - destruct off; reflexivity.
  - destruct n as [| n']; [lia |].
    destruct off as [| k]; cbn [DataView.store skipn]; [reflexivity |].
    apply IH. lia.
Qed.

Lemma store_firstn_before buf : forall off b n,
  (n <= off)%nat -> firstn n (DataView.store buf off b) = firstn n buf.
Proof.
  induction buf as [| h t IH]; intros off b n Hn.
  - destruct off; reflexivity.
  - destruct n as [| n']; [reflexivity |].
    destruct off as [| k]; [lia |]. cbn [DataView.store firstn].
    f_equal. apply IH. lia.
Qed.

(** [set] overwrites the cells [off .. off + length src) and nothing else. *)
Lemma set_splice src : forall buf off,
  (off + length src <= length buf)%nat ->
  DataView.set buf src off
  = firstn off buf ++ map (fun b => b mod 256) src ++ skipn (off + length src) buf.
Proof.
  induction src as [| b s IH]; intros buf off Hfit; cbn [DataView.set map app length].
  - rewrite Nat.add_0_r. symmetry. apply firstn_skipn.
  - cbn [length] in Hfit. rewrite IH by (rewrite length_store; lia).
    rewrite store_firstn by lia.
    rewrite store_skipn by lia.
    rewrite <- app_assoc. cbn [app].
    replace (S off + length s)%nat with (off + S (length s))%nat by lia.
    reflexivity.
Qed.

Lemma map_mod_bytes l : bytes_ok l -> map (fun b => b mod 256) l = l.
Proof.
  unfold bytes_ok. induction 1 as [| b rest Hb Hrest IH]; cbn [map]; [reflexivity |].
  rewrite IH, (Z.mod_small b 256 Hb). reflexivity.
Qed.

(** A frame built as "opcode, then data": allocate, write the big-endian
    opcode at 0, copy the data at 2. *)
Lemma opcode_then_data code data :
  bytes_ok data ->
  DataView.set (DataView.setUint16 (DataView.alloc (2 + length data)) 0 code false)
               data 2
  = [(code / 256) mod 256; code mod 256] ++ data.
Proof.
  intros Hb.
  change (DataView.alloc (2 + length data)) with (0 :: 0 :: repeat 0 (length data)).
  cbn [DataView.setUint16 DataView.store].
  rewrite set_splice by (cbn [length]; rewrite repeat_length; lia).
  cbn [firstn skipn Nat.add app]. rewrite skipn_all2 by (rewrite repeat_length; lia).
  rewrite map_mod_bytes by assumption. rewrite app_nil_r. reflexivity.
Qed.

Lemma writeConfig_first_frame data :
  bytes_ok data -> (198 <= length data)%nat ->
  DataView.set
    (DataView.setUint16
       (DataView.setUint16 (DataView.alloc (2 + 2 + 198)) 0 CommandCode.WRITE_CONFIG false)
       2 (Z.of_nat (length data)) true)
    (slice data 0 198) 4
  = [0x00; 0x41; Z.of_nat (length data) mod 256; (Z.of_nat (length data) / 256) mod 256]
      ++ firstn 198 data.
Proof.
  intros Hb Hlen.
  change (DataView.alloc (2 + 2 + 198)) with (0 :: 0 :: 0 :: 0 :: repeat 0 198).
  cbn [DataView.setUint16 DataView.store].
  unfold slice. cbn [skipn Nat.sub].
  assert (length (firstn 198 data) = 198%nat) as Hf by (rewrite length_firstn; lia).
  assert (bytes_ok (firstn 198 data)) as Hfb by (apply Forall_firstn; assumption).
  set (f := firstn 198 data) in *.
  rewrite set_splice by (cbn [length]; rewrite repeat_length, Hf; lia).
  rewrite Hf. cbn [firstn app].
  change (skipn (4 + 198) (?[a] :: ?[b] :: ?[c] :: ?[d] :: repeat 0 198))
    with (skipn 198 (repeat 0 198)).
  rewrite skipn_all2 by (rewrite repeat_length; lia).
  rewrite map_mod_bytes by assumption.
  rewrite app_nil_r. reflexivity.
Qed.

Lemma writeConfig_chunks_last fuel data offset chunks :
  bytes_ok data -> (offset < length data)%nat ->
  (length data - offset <= CONFIG_CHUNK_SIZE)%nat ->
  writeConfig_chunks (S (S fuel)) data offset chunks
  = Ok (chunks ++ [[0x00; 0x42] ++ skipn offset data]).
Proof.
  intros Hb Hoff Hfit.
  assert (length (skipn offset data) = (length data - offset)%nat) as Hsk
      by apply length_skipn.
  cbn [writeConfig_chunks].
  destruct (Nat.ltb_spec offset (length data)) as [_ | Hge]; [| lia].
  rewrite (Nat.min_r _ _ Hfit).
  replace (offset + (length data - offset))%nat with (length data) by lia.
  destruct (Nat.ltb_spec (length data) (length data)) as [Hlt | _]; [lia |].
  assert (slice data offset (length data) = skipn offset data) as ->.
  { unfold slice. apply firstn_all2. rewrite Hsk. lia. }
  rewrite <- Hsk.
  rewrite opcode_then_data by (apply Forall_skipn; assumption).
  reflexivity.
Qed.

(** C8.  Exactly 200 bytes of configuration data give one WRITE_CONFIG frame
    (opcode, then the data) and no continuation; exactly 201 bytes give a
    first frame that holds the opcode, the total length 201 as two
    little-endian bytes and the first 198 data bytes, and one
    WRITE_CONFIG_CHUNK frame that carries the three bytes left. *)
Theorem buildWriteConfigCommand_200_201 data :
  bytes_ok data ->
  (length data = 200%nat ->
     buildWriteConfigCommand data = Ok ([0x00; 0x41] ++ data, []))
  /\ (length data = 201%nat ->
        buildWriteConfigCommand data
        = Ok ([0x00; 0x41] ++ [201; 0] ++ firstn 198 data,
              [[0x00; 0x42] ++ skipn 198 data])
        /\ length (skipn 198 data) = 3%nat).
Proof.
  intros Hb. split; intros Hlen.
  - unfold buildWriteConfigCommand, buildWriteConfigCommand_fuel.
    cbv zeta.
    destruct (Nat.leb_spec (length data) CONFIG_CHUNK_SIZE) as [_ | Hgt];
      [| unfold CONFIG_CHUNK_SIZE in Hgt; lia].
    rewrite opcode_then_data by assumption. reflexivity.
  - split; [| rewrite length_skipn; lia].
    unfold buildWriteConfigCommand, buildWriteConfigCommand_fuel.
    cbv zeta.
    destruct (Nat.leb_spec (length data) CONFIG_CHUNK_SIZE) as [Hle | _];
      [unfold CONFIG_CHUNK_SIZE in Hle; lia |].
    change (CONFIG_CHUNK_SIZE - 2)%nat with 198%nat.
    rewrite writeConfig_first_frame by (assumption || lia).
    rewrite Hlen.
    rewrite (writeConfig_chunks_last 200 data 198 [])
      by (assumption || (unfold CONFIG_CHUNK_SIZE; lia)).
    reflexivity.
Qed.

Lemma buildWriteConfigCommand_200_201_witness :
  buildWriteConfigCommand (repeat 0x5a 200) = Ok ([0x00; 0x41] ++ repeat 0x5a 200, [])
  /\ buildWriteConfigCommand (repeat 0x5a 198 ++ [1; 2; 3])
     = Ok ([0x00; 0x41; 201; 0] ++ repeat 0x5a 198, [[0x00; 0x42; 1; 2; 3]]).
Proof.
  assert (forall n, bytes_ok (repeat 0x5a n)) as Hrep.
  { intros n. unfold bytes_ok. induction n; cbn [repeat]; constructor;
      [unfold byte_ok; lia | assumption]. }
  split.
  - apply (proj1 (buildWriteConfigCommand_200_201 (repeat 0x5a 200) (Hrep 200%nat))).
    apply repeat_length.
  - assert (bytes_ok (repeat 0x5a 198 ++ [1; 2; 3])) as Hb.
    { unfold bytes_ok. apply Forall_app. split; [apply Hrep |].
      repeat constructor; unfold byte_ok; lia. }
    assert (length (repeat 0x5a 198 ++ [1; 2; 3]) = 201%nat) as Hlen
        by (rewrite length_app, repeat_length; reflexivity).
    destruct (proj2 (buildWriteConfigCommand_200_201 _ Hb) Hlen) as [Hcmd _].
    rewrite Hcmd. vm_compute. reflexivity.
Defined.

(** ** Reassembly of the read-config response *)

Lemma stripCommandEcho_echo rest :
  stripCommandEcho (0x00 :: 0x40 :: rest) CommandCode.READ_CONFIG = rest.
Proof. reflexivity. Qed.

Lemma strip_continuation c :
  stripCommandEcho (read_config_continuation c) CommandCode.READ_CONFIG
  = fst (fst c) :: snd (fst c) :: snd c.
Proof. reflexivity. Qed.

Lemma bind_run {A B} (m : M A) (k : A -> M B) w a w' :
  m w = (Ok a, w') -> bind m k w = k a w'.
Proof. intros H. unfold bind. rewrite H. reflexivity. Qed.

Lemma bind_fail {A B} (m : M A) (k : A -> M B) w e w' :
  m w = (Err e, w') -> bind m k w = (Err e, w').
Proof. intros H. unfold bind. rewrite H. reflexivity. Qed.

Lemma strip_first_frame skipped totalLength payload :
  stripCommandEcho (read_config_first_frame skipped totalLength payload)
                   CommandCode.READ_CONFIG
  = fst skipped :: snd skipped :: totalLength mod 256
      :: (totalLength / 256) mod 256 :: payload.
Proof. reflexivity. Qed.

Lemma skipn_repeat {A} (x : A) n : forall k, skipn k (repeat x n) = repeat x (n - k).
Proof.
  induction n as [| m IH]; intros [| k]; cbn [repeat skipn Nat.sub]; auto.
Qed.

Lemma set_chunks_fill chunks : forall pre n,
  Forall bytes_ok chunks -> length (concat chunks) = n ->
  set_chunks (pre ++ repeat 0 n) chunks (length pre) = Ok (pre ++ concat chunks).
Proof.
  induction chunks as [| chunk rest IH]; intros pre n Hb Hn.
  - cbn [concat length] in Hn. subst n. reflexivity.
  - apply Forall_cons_iff in Hb. destruct Hb as [Hchunk Hrest].
    cbn [concat] in Hn. rewrite length_app in Hn.
    cbn [set_chunks].
    rewrite length_app, repeat_length.
    destruct (Nat.ltb_spec (length pre + n) (length pre + length chunk)); [lia |].
    rewrite set_splice by (rewrite length_app, repeat_length; lia).
    rewrite map_mod_bytes by assumption.
    rewrite firstn_app, firstn_all, Nat.sub_diag. cbn [firstn].
    rewrite skipn_app, skipn_all2 by lia.
    replace (length pre + length chunk - length pre)%nat with (length chunk) by lia.
    rewrite skipn_repeat. cbn [app]. rewrite app_nil_r.
    replace (pre ++ chunk ++ repeat 0 (n - length chunk))
      with ((pre ++ chunk) ++ repeat 0 (n - length chunk))
      by (rewrite <- app_assoc; reflexivity).
    replace (length pre + length chunk)%nat with (length (pre ++ chunk))
      by apply length_app.
    rewrite IH by (assumption || lia).
    cbn [concat]. rewrite <- app_assoc. reflexivity.
Qed.

Lemma interrogate_loop_frames conts :
  forall fuel totalLength currentLength tlvData later tr cfg caps fw,
    Forall (fun c => snd c <> []) conts ->
    currentLength + Z.of_nat (length (concat (map snd conts))) = totalLength ->
    (length conts < fuel)%nat ->
    exists tr',
      interrogate_loop fuel totalLength currentLength tlvData
        (mkWorld true (map (fun c => Arrives (read_config_continuation c)) conts ++ later)
                 tr cfg caps fw)
      = (Ok (totalLength, tlvData ++ map snd conts),
         mkWorld true later tr' cfg caps fw).
Proof.
  induction conts as [| [marker payload] rest IH];
    intros fuel totalLength currentLength tlvData later tr cfg caps fw Hne Hsum Hfuel.
  - destruct fuel as [| fuel']; [cbn in Hfuel; lia |].
    cbn [map concat length app] in *. cbn [interrogate_loop].
    destruct (Z.ltb_spec currentLength totalLength); [lia |].
    assert (currentLength = totalLength) as -> by lia.
    exists tr. rewrite app_nil_r. reflexivity.
  - destruct fuel as [| fuel']; [cbn in Hfuel; lia |].
    apply Forall_cons_iff in Hne. destruct Hne as [Hpayload Hrest].
    cbn [snd] in Hpayload.
    cbn [map concat snd] in Hsum. rewrite length_app in Hsum.
    assert (0 < length payload)%nat as Hpos
        by (destruct payload; [congruence | cbn; lia]).
    cbn [interrogate_loop].
    destruct (Z.ltb_spec currentLength totalLength); [| lia].
    cbn [map app bind readResponse rejections connected incoming trace _config _capabilities
         _fwVersion].
    rewrite !strip_continuation.
    cbn [length slice_from skipn fst snd].
    destruct (IH fuel' totalLength
                (currentLength + (Z.of_nat (S (S (length payload))) - 2))
                (tlvData ++ [payload]) later
                (tr ++ [Waited TIMEOUT_CHUNK
                          (Arrives (read_config_continuation (marker, payload)))])
                cfg caps fw Hrest) as [tr' Hloop]; [lia | cbn in Hfuel; lia |].
    exists tr'. etransitivity; [exact Hloop |].
    rewrite <- app_assoc. reflexivity.
Qed.

(** C4 (amended).  [interrogate] strips the echo of the first frame, skips
    two bytes, reads the total length as the next two bytes (little-endian)
    and takes the rest of the frame, from offset 4, as payload; every
    further frame is stripped of its echo and of a two-byte continuation
    marker and is pure payload.  The frames are read until the total length
    is reached, and the payloads are concatenated in arrival order. *)
Theorem interrogate_reassembles skipped totalLength payload conts later :
  0 <= totalLength < 65536 ->
  bytes_ok payload ->
  Forall (fun c => bytes_ok (snd c)) conts ->
  Forall (fun c => snd c <> []) conts ->
  Z.of_nat (length payload + length (concat (map snd conts))) = totalLength ->
  fst (interrogate_completeData
         (online (Arrives (read_config_first_frame skipped totalLength payload)
                    :: map (fun c => Arrives (read_config_continuation c)) conts
                    ++ later)))
  = Ok (payload ++ concat (map snd conts))
  /\ length (payload ++ concat (map snd conts)) = Z.to_nat totalLength.
Proof.
  intros Htotal Hb Hbs Hne Hsum.
  split; [| rewrite length_app; lia].
  unfold interrogate_completeData, online.
  cbn [bind ensureConnected writeCommand readResponse log rejections connected incoming trace
       _config _capabilities _fwVersion app].
  rewrite !strip_first_frame.
  cbn [length Nat.ltb Nat.leb slice_from skipn].
  assert (DataView.getUint16
            (fst skipped :: snd skipped :: totalLength mod 256
               :: (totalLength / 256) mod 256 :: payload) 2 true = totalLength) as ->.
  { cbn [DataView.getUint16 nth]. apply u16_enc_dec. exact Htotal. }
  cbn [bind incoming].
  destruct (interrogate_loop_frames conts
              (S (length (map (fun c => Arrives (read_config_continuation c)) conts
                          ++ later)))
              totalLength
              (Z.of_nat (S (S (S (S (length payload))))) - 4)
              [payload] later
              ([Wrote buildReadConfigCommand;
                Waited TIMEOUT_FIRST_CHUNK
                  (Arrives (read_config_first_frame skipped totalLength payload))])
              None None None Hne) as [tr' Hloop].
  { unfold Uint8Array in *. lia. }
  { rewrite length_app, length_map. unfold Uint8Array in *. lia. }
  rewrite (bind_run _ _ _ _ _ Hloop).
  destruct (Z.ltb_spec totalLength 0); [lia |].
  unfold lift. cbn [fst].
  pose proof (set_chunks_fill (payload :: map snd conts) [] (Z.to_nat totalLength))
    as Hfill.
  cbn [app length concat] in Hfill. apply Hfill.
  - constructor; [exact Hb |]. rewrite Forall_map. exact Hbs.
  - rewrite length_app. lia.
Qed.

Lemma interrogate_reassembles_witness :
  fst (interrogate_completeData
         (online (Arrives (read_config_first_frame (0, 0) 500 (repeat 0x11 196))
                    :: map (fun c => Arrives (read_config_continuation c)) split_500_conts
                    ++ [])))
  = Ok (repeat 0x11 196 ++ concat (map snd split_500_conts))
  /\ length (repeat 0x11 196 ++ concat (map snd split_500_conts)) = 500%nat.
Proof.
  assert (forall x n, byte_ok x -> bytes_ok (repeat x n)) as Hrep.
  { intros x n Hx. unfold bytes_ok. induction n; cbn [repeat]; constructor; assumption. }
  apply (interrogate_reassembles (0, 0) 500 (repeat 0x11 196) split_500_conts []).
  - lia.
  - apply Hrep. unfold byte_ok. lia.
  - unfold split_500_conts.
    repeat (apply Forall_cons; [cbn [snd]; apply Hrep; unfold byte_ok; lia |]).
    apply Forall_nil.
  - unfold split_500_conts.
    repeat (apply Forall_cons; [cbn [snd repeat]; discriminate |]).
    apply Forall_nil.
  - reflexivity.
Defined.

(** C4 as stated fails: with the total length placed immediately after the
    echo, [interrogate] takes the first two payload bytes for the total
    length (here 0x1111 = 4369) and starts the payload two bytes late, so
    after the three continuation frames it still waits for more and times
    out instead of returning 500 bytes. *)
Lemma interrogate_length_is_not_after_echo :
  fst (interrogate_completeData
         (online (Arrives (length_after_echo_frame 500 (repeat 0x11 196))
                    :: map (fun c => Arrives (read_config_continuation c))
                           split_500_conts)))
  = Err BLETimeoutError.
Proof. vm_compute. reflexivity. Qed.

(** ** The chunk sender *)

Lemma written_app a b : written (a ++ b) = written a ++ written b.
Proof. unfold written. apply flat_map_app. Qed.

Lemma written_wrote f l : written (Wrote f :: l) = f :: written l.
Proof. reflexivity. Qed.

Lemma written_progress sent total l : written (OnProgress sent total :: l) = written l.
Proof. reflexivity. Qed.

Lemma written_reply_actions r : written (reply_actions r) = [].
Proof. destruct r as [[|] f]; reflexivity. Qed.

Lemma length_nth_chunk_le data i : (length (nth_chunk data i) <= CHUNK_SIZE)%nat.
Proof.
  unfold nth_chunk, slice. rewrite length_firstn, length_skipn. lia.
Qed.

Lemma length_nth_chunk_full data i :
  (i * CHUNK_SIZE + CHUNK_SIZE <= length data)%nat ->
  length (nth_chunk data i) = CHUNK_SIZE.
Proof.
  intros H. unfold nth_chunk, slice. rewrite length_firstn, length_skipn. lia.
Qed.

Lemma buildDirectWriteDataCommand_chunk chunk :
  (length chunk <= CHUNK_SIZE)%nat ->
  buildDirectWriteDataCommand chunk = Ok (data_command chunk).
Proof.
  intros H. unfold buildDirectWriteDataCommand.
  destruct (Nat.ltb_spec CHUNK_SIZE (length chunk)); [lia | reflexivity].
Qed.

Lemma run_awaitChunkResponse r later tr cfg caps fw :
  awaitChunkResponse (mkWorld true (reply_events r ++ later) tr cfg caps fw)
  = (Ok (snd r), mkWorld true later (tr ++ reply_actions r) cfg caps fw).
Proof.
  destruct r as [[|] f]; cbn; [| reflexivity].
  rewrite <- !app_assoc. reflexivity.
Qed.

(** One turn of the loop up to the dispatch on the response. *)
Lemma sendDataChunks_turn fuel data k r later tr cfg caps fw :
  (k * CHUNK_SIZE < length data)%nat ->
  sendDataChunks_loop (S fuel) data (k * CHUNK_SIZE) k
    (mkWorld true (reply_events r ++ later) tr cfg caps fw)
  = bind (lift (checkResponseType (snd r)))
      (fun resp =>
         let '(command, isAck) := resp in
         if command =? CommandCode.DIRECT_WRITE_DATA then
           emit (OnProgress (k * CHUNK_SIZE + length (nth_chunk data k)) (length data)) ;;;
           sendDataChunks_loop fuel data
             (k * CHUNK_SIZE + length (nth_chunk data k)) (k + 1)
         else if command =? CommandCode.DIRECT_WRITE_END then
           emit (OnProgress (length data) (length data)) ;;; ret true
         else throw ProtocolError)
      (mkWorld true later
         (tr ++ Wrote (data_command (nth_chunk data k)) :: reply_actions r)
         cfg caps fw).
Proof.
  intros Hk. cbn [sendDataChunks_loop].
  destruct (Nat.ltb_spec (k * CHUNK_SIZE) (length data)) as [_ | Hge]; [| lia].
  fold (nth_chunk data k).
  rewrite buildDirectWriteDataCommand_chunk by apply length_nth_chunk_le.
  erewrite (bind_run (lift (Ok (data_command (nth_chunk data k))))); [| reflexivity].
  erewrite (bind_run (writeCommand (data_command (nth_chunk data k)))); [| reflexivity].
  unfold log; cbn [rejections connected incoming trace _config _capabilities _fwVersion].
  rewrite (bind_run awaitChunkResponse _ _ _ _
             (run_awaitChunkResponse r later _ cfg caps fw)).
  rewrite <- app_assoc. reflexivity.
Qed.

Lemma sendDataChunks_loop_auto_completes acks :
  forall fuel data k endr later tr cfg caps fw,
    Forall (fun r => is_data_ack (snd r)) acks -> is_end (snd endr) ->
    ((k + length acks) * CHUNK_SIZE < length data)%nat ->
    (length acks < fuel)%nat ->
    exists tr',
      sendDataChunks_loop fuel data (k * CHUNK_SIZE) k
        (mkWorld true (flat_map reply_events acks ++ reply_events endr ++ later)
                 tr cfg caps fw)
      = (Ok true, mkWorld true later tr' cfg caps fw)
      /\ written tr'
         = written tr
             ++ map (fun i => data_command (nth_chunk data i)) (seq k (S (length acks))).
Proof.
  induction acks as [| r rest IH];
    intros fuel data k endr later tr cfg caps fw Hacks Hend Hk Hfuel;
    (destruct fuel as [| fuel']; [cbn in Hfuel; lia |]).
  - cbn [flat_map app length] in *.
    rewrite sendDataChunks_turn by lia.
    destruct Hend as [isAck Hend]. rewrite Hend.
    eexists. split; [reflexivity |].
    cbn [trace]. rewrite !written_app, written_wrote, written_progress.
    rewrite written_reply_actions. apply app_nil_r.
  - apply Forall_cons_iff in Hacks. destruct Hacks as [[isAck Hack] Hrest].
    cbn [flat_map length] in *. rewrite <- app_assoc.
    rewrite sendDataChunks_turn by lia.
    rewrite Hack.
    erewrite (bind_run (lift (Ok (CommandCode.DIRECT_WRITE_DATA, isAck)))); [| reflexivity].
    cbv beta iota. change (CommandCode.DIRECT_WRITE_DATA =? CommandCode.DIRECT_WRITE_DATA)
      with true. cbv iota.
    erewrite (bind_run (emit _)); [| reflexivity].
    unfold log; cbn [rejections connected incoming trace _config _capabilities _fwVersion].
    rewrite length_nth_chunk_full by lia.
    replace (k * CHUNK_SIZE + CHUNK_SIZE)%nat with (S k * CHUNK_SIZE)%nat by lia.
    replace (k + 1)%nat with (S k) by lia.
    edestruct (IH fuel' data (S k) endr later) as [tr' [Hrun Hwritten]];
      [exact Hrest | exact Hend | lia | lia |].
    eexists. split; [exact Hrun |].
    rewrite Hwritten. rewrite !written_app, written_wrote, written_progress.
    rewrite written_reply_actions. cbn [app seq map length].
    rewrite <- !app_assoc. reflexivity.
Qed.

Lemma awaitRefresh_with_writes_nothing refreshComplete refreshTimeout w :
  written (trace (snd (awaitRefresh_with refreshComplete refreshTimeout w)))
  = written (trace w).
Proof.
  destruct w as [rej conn inc tr cfg caps fw].
  unfold awaitRefresh_with, bind, readResponse, lift, emit, throw, log.
  cbn [rejections connected incoming trace _config _capabilities _fwVersion].
  destruct conn; [| reflexivity].
  destruct inc as [| [frame | |] rest];
    [| destruct (checkResponseType frame) as [[code isAck] | e];
       [destruct (JS.strict_eq (JS.Num code) refreshComplete);
        [| destruct (JS.strict_eq (JS.Num code) refreshTimeout)] |] | |];
    cbn [snd trace rejections connected incoming _config _capabilities _fwVersion];
    rewrite !written_app; cbn [written flat_map app];
    rewrite ?app_nil_r; reflexivity.
Qed.

Lemma awaitRefresh_writes_nothing w :
  written (trace (snd (awaitRefresh w))) = written (trace w).
Proof. apply awaitRefresh_with_writes_nothing. Qed.

Lemma data_command_opcode chunk : nth 1 (data_command chunk) 0 = 0x71.
Proof.
  unfold data_command.
  change (DataView.alloc (2 + length chunk)) with (0 :: 0 :: repeat 0 (length chunk)).
  cbn [DataView.setUint16 DataView.store].
  rewrite set_splice by (cbn [length]; rewrite repeat_length; lia).
  reflexivity.
Qed.

(* ------------------------------------------------------------------------- *)
(** * One attempt per exchange *)

Lemma Ok_inj {A} (a b : A) : Ok a = Ok b -> a = b.
Proof. intros H. injection H as H. exact H. Qed.

(** Operations that leave the trace alone. *)
Ltac quiet :=
  intros;
  cbv [bind ret throw lift ensureConnected ensureCapabilities
       extractCapabilitiesFromConfig set_config set_capabilities set_fwVersion];
  repeat match goal with
         | |- context [match ?x with _ => _ end] => destruct x
         end;
  reflexivity.

Section Rules.
Context {rewait : bool}.

(** ** Runs of the protocol *)

Lemma protocol_stopped a rest : protocol rewait Stopped (a :: rest) = None.
Proof. destruct a; reflexivity. Qed.

Lemma protocol_app l1 : forall s s1 l2,
  protocol rewait s l1 = Some s1 ->
  protocol rewait s (l1 ++ l2) = protocol rewait s1 l2.
Proof.
  induction l1 as [| a l1 IH]; intros s s1 l2 H; cbn [protocol app] in *.
  - injection H as <-. reflexivity.
  - destruct (next rewait s a) as [s' |]; [apply IH; exact H | discriminate H].
Qed.

Lemma next_callback s a :
  is_callback a = true -> s <> Stopped -> next rewait s a = Some s.
Proof.
  intros Ha Hs.
  destruct a; try discriminate Ha;
    destruct s; first [reflexivity | contradiction Hs; reflexivity].
Qed.

(** ** The rules of the discipline *)

Lemma conforms_silent {A} s (m : M A) (post : A -> expect -> Prop) :
  (forall w, trace (snd (m w)) = trace w) ->
  (forall w a, fst (m w) = Ok a -> post a s) ->
  conforms rewait s m post.
Proof.
  intros Htr Hpost w. exists [], s. rewrite Htr, app_nil_r.
  split; [reflexivity |]. split; [reflexivity |].
  destruct (fst (m w)) as [a | e] eqn:E; [apply (Hpost w a E) | exact I].
Qed.

Lemma conforms_bind {A B} s (m : M A) (k : A -> M B) P Q :
  conforms rewait s m P ->
  (forall a s', P a s' -> conforms rewait s' (k a) Q) ->
  conforms rewait s (bind m k) Q.
Proof.
  intros Hm Hk w. destruct (Hm w) as (l1 & s1 & Ht1 & Hp1 & Hr1).
  unfold bind. destruct (m w) as [[a | e] w1]; cbn [fst snd] in *.
  - destruct (Hk a s1 Hr1 w1) as (l2 & s2 & Ht2 & Hp2 & Hr2).
    exists (l1 ++ l2), s2. rewrite Ht2, Ht1, app_assoc.
    split; [reflexivity |]. split; [| exact Hr2].
    rewrite (protocol_app l1 s s1 l2 Hp1). exact Hp2.
  - exists l1, s1. split; [exact Ht1 |]. split; [exact Hp1 | exact I].
Qed.

Lemma conforms_weaken {A} s (m : M A) (P Q : A -> expect -> Prop) :
  (forall a s', P a s' -> Q a s') -> conforms rewait s m P -> conforms rewait s m Q.
Proof.
  intros HPQ Hm w. destruct (Hm w) as (l & s' & Ht & Hp & Hr).
  exists l, s'. split; [exact Ht |]. split; [exact Hp |].
  destruct (fst (m w)); [apply HPQ; exact Hr | exact I].
Qed.

Lemma conforms_dependent {A} {I} s (f : I -> M A) (g : world -> I) P :
  (forall i, conforms rewait s (f i) P) -> conforms rewait s (fun w => f (g w) w) P.
Proof. intros H w. apply (H (g w) w). Qed.

Lemma conforms_attempts_once {A} s (m : M A) :
  conforms rewait s m (fun _ s' => s' <> Stopped) -> attempts_once_from rewait s m.
Proof.
  intros Hm w. destruct (Hm w) as (l & s' & Ht & Hp & Hr).
  exists l, s'. split; [exact Ht |]. split; [exact Hp |].
  intros ->. destruct (fst (m w)); [contradiction Hr; reflexivity | reflexivity].
Qed.

Lemma conforms_emit s a (post : unit -> expect -> Prop) :
  is_callback a = true -> s <> Stopped -> post tt s -> conforms rewait s (emit a) post.
Proof.
  intros Ha Hs Hpost w. exists [a], s. split; [reflexivity |].
  cbn [protocol]. rewrite (next_callback s a Ha Hs). split; [reflexivity | exact Hpost].
Qed.

Lemma conforms_writeCommand data (post : unit -> expect -> Prop) :
  post tt (Response (opcode data)) -> conforms rewait Idle (writeCommand data) post.
Proof.
  intros Hpost [rej conn inc tr cfg caps fw]. unfold writeCommand, log.
  cbn [rejections connected incoming trace _config _capabilities _fwVersion].
  destruct conn.
  - destruct rej as [| [|] rej].
    + exists [Wrote data], (Response (opcode data)). repeat split. exact Hpost.
    + exists [WriteFailed data], Stopped. repeat split.
    + exists [Wrote data], (Response (opcode data)). repeat split. exact Hpost.
  - exists [], Idle. cbn [snd trace]. rewrite app_nil_r. repeat split.
Qed.

Lemma conforms_readResponse s timeoutMs :
  (forall o, next rewait s (Waited timeoutMs o) <> None) ->
  conforms rewait s (readResponse timeoutMs)
    (fun frame s' => next rewait s (Waited timeoutMs (Arrives frame)) = Some s').
Proof.
  intros Hallowed [rej conn inc tr cfg caps fw]. unfold readResponse, log.
  cbn [rejections connected incoming trace _config _capabilities _fwVersion].
  destruct conn.
  - destruct inc as [| [frame | |] rest]; cbn [fst snd trace].
    + destruct (next rewait s (Waited timeoutMs Silence)) as [s' |] eqn:E;
        [| contradiction (Hallowed Silence E)].
      exists [Waited timeoutMs Silence], s'. cbn [protocol]. rewrite E. repeat split.
    + destruct (next rewait s (Waited timeoutMs (Arrives frame))) as [s' |] eqn:E;
        [| contradiction (Hallowed (Arrives frame) E)].
      exists [Waited timeoutMs (Arrives frame)], s'. cbn [protocol]. rewrite E.
      repeat split.
    + destruct (next rewait s (Waited timeoutMs Silence)) as [s' |] eqn:E;
        [| contradiction (Hallowed Silence E)].
      exists [Waited timeoutMs Silence], s'. cbn [protocol]. rewrite E. repeat split.
    + destruct (next rewait s (Waited timeoutMs Dropped)) as [s' |] eqn:E;
        [| contradiction (Hallowed Dropped E)].
      exists [Waited timeoutMs Dropped], s'. cbn [protocol]. rewrite E. repeat split.
  - exists [], s. cbn [snd trace]. rewrite app_nil_r. repeat split.
Qed.

Lemma conforms_fails {A} s (m : M A) post :
  (forall w, trace (snd (m w)) = trace w) ->
  (forall w, is_ok (fst (m w)) = false) ->
  conforms rewait s m post.
Proof.
  intros Htr Hfail. apply conforms_silent; [exact Htr |].
  intros w a E. specialize (Hfail w). rewrite E in Hfail. discriminate Hfail.
Qed.

Lemma conforms_lift {A B} s (r : result A) (k : A -> M B) post :
  (forall a, r = Ok a -> conforms rewait s (k a) post) ->
  conforms rewait s (bind (lift r) k) post.
Proof.
  intros H. destruct r as [a | e].
  - intros w. apply (H a eq_refl w).
  - apply conforms_fails; intros w; reflexivity.
Qed.

(** ** The opcodes of the frames *)

Lemma opcode_firstn frame : opcode (firstn 2 frame) = opcode frame.
Proof. destruct frame as [| a [| b rest]]; reflexivity. Qed.

Lemma set_firstn_before src : forall buf off n,
  (n <= off)%nat -> firstn n (DataView.set buf src off) = firstn n buf.
Proof.
  induction src as [| b src IH]; intros buf off n Hn; cbn [DataView.set]; [reflexivity |].
  rewrite IH by lia. apply store_firstn_before. exact Hn.
Qed.

Lemma opcode_set buf src off :
  (2 <= off)%nat -> opcode (DataView.set buf src off) = opcode buf.
Proof.
  intros Hoff. rewrite <- opcode_firstn, set_firstn_before by exact Hoff.
  apply opcode_firstn.
Qed.

Lemma opcode_store buf off b :
  (2 <= off)%nat -> opcode (DataView.store buf off b) = opcode buf.
Proof.
  intros Hoff. rewrite <- opcode_firstn, store_firstn_before by exact Hoff.
  apply opcode_firstn.
Qed.

Lemma opcode_data_command chunk :
  opcode (data_command chunk) = CommandCode.DIRECT_WRITE_DATA.
Proof. unfold data_command. rewrite opcode_set by lia. reflexivity. Qed.

Lemma opcode_buildDirectWriteDataCommand chunk frame :
  buildDirectWriteDataCommand chunk = Ok frame ->
  opcode frame = CommandCode.DIRECT_WRITE_DATA.
Proof.
  unfold buildDirectWriteDataCommand.
  destruct (CHUNK_SIZE <? length chunk)%nat; [discriminate |].
  intros H. apply Ok_inj in H. subst frame. apply opcode_data_command.
Qed.

Lemma opcode_setUint32 buf off v le :
  (2 <= off)%nat -> opcode (DataView.setUint32 buf off v le) = opcode buf.
Proof.
  intros Hoff. unfold DataView.setUint32.
  destruct le; rewrite !opcode_store by lia; reflexivity.
Qed.

Lemma opcode_buildDirectWriteStartCompressed size compressed :
  opcode (fst (buildDirectWriteStartCompressed size compressed))
  = CommandCode.DIRECT_WRITE_START.
Proof.
  unfold buildDirectWriteStartCompressed. cbv zeta. cbn [fst].
  rewrite opcode_set, opcode_setUint32 by lia.
  destruct (length compressed <=? MAX_START_PAYLOAD - 6)%nat; reflexivity.
Qed.

Lemma opcode_buildDirectWriteEndCommand mode :
  opcode (buildDirectWriteEndCommand mode) = CommandCode.DIRECT_WRITE_END.
Proof. reflexivity. Qed.

Lemma opcode_writeConfig_chunks fuel : forall data offset chunks out,
  Forall (fun c => opcode c = CommandCode.WRITE_CONFIG_CHUNK) chunks ->
  writeConfig_chunks fuel data offset chunks = Ok out ->
  Forall (fun c => opcode c = CommandCode.WRITE_CONFIG_CHUNK) out.
Proof.
  induction fuel as [| fuel IH]; intros data offset chunks out Hchunks;
    cbn [writeConfig_chunks]; [discriminate |].
  cbv zeta. destruct (offset <? length data)%nat.
  - apply IH. apply Forall_app. split; [exact Hchunks |].
    constructor; [| constructor]. rewrite opcode_set by lia. reflexivity.
  - intros H. apply Ok_inj in H. subst out. exact Hchunks.
Qed.

Lemma opcode_buildWriteConfigCommand data firstCmd chunkCmds :
  buildWriteConfigCommand data = Ok (firstCmd, chunkCmds) ->
  opcode firstCmd = CommandCode.WRITE_CONFIG
  /\ Forall (fun c => opcode c = CommandCode.WRITE_CONFIG_CHUNK) chunkCmds.
Proof.
  unfold buildWriteConfigCommand, buildWriteConfigCommand_fuel. cbv zeta.
  destruct (length data <=? CONFIG_CHUNK_SIZE)%nat.
  - intros H. apply Ok_inj in H. injection H as <- <-.
    split; [| constructor]. rewrite opcode_set by lia. reflexivity.
  - destruct (writeConfig_chunks (S (length data)) data (CONFIG_CHUNK_SIZE - 2) [])
      as [chunks | e] eqn:E; cbn [rbind]; [| discriminate].
    intros H. apply Ok_inj in H. injection H as <- <-.
    split; [rewrite opcode_set by lia; reflexivity |].
    apply (opcode_writeConfig_chunks _ _ _ _ _ (Forall_nil _) E).
Qed.

(** ** Waits that the protocol allows *)

Lemma wait_allowed_response cmd timeoutMs o :
  next rewait (Response cmd) (Waited timeoutMs o) <> None.
Proof.
  destruct o; cbn [next];
    [| destruct (rewait && (cmd =? CommandCode.DIRECT_WRITE_DATA)) |];
    discriminate.
Qed.

Lemma wait_allowed_chunks missing timeoutMs o :
  0 < missing -> next rewait (Chunks missing) (Waited timeoutMs o) <> None.
Proof.
  intros H. apply Z.ltb_lt in H. destruct o; cbn [next]; rewrite H; discriminate.
Qed.

Lemma wait_allowed_refresh timeoutMs o : next rewait Refresh (Waited timeoutMs o) <> None.
Proof. destruct o; discriminate. Qed.

Lemma conforms_read_response cmd timeoutMs :
  conforms rewait (Response cmd) (readResponse timeoutMs)
    (fun frame s' => s' = after_response cmd frame).
Proof.
  eapply conforms_weaken;
    [| apply conforms_readResponse; intros o; apply wait_allowed_response].
  intros frame s' H. cbn [next] in H. apply (f_equal (fun o => match o with
                                                             | Some x => x
                                                             | None => s'
                                                             end)) in H.
  symmetry. exact H.
Qed.

Lemma conforms_read_chunk missing timeoutMs :
  0 < missing ->
  conforms rewait (Chunks missing) (readResponse timeoutMs)
    (fun frame s' => s' = Chunks (missing - config_bytes frame)).
Proof.
  intros Hm.
  eapply conforms_weaken;
    [| apply conforms_readResponse; intros o; apply wait_allowed_chunks; exact Hm].
  intros frame s' H. cbn [next] in H. apply Z.ltb_lt in Hm. rewrite Hm in H.
  congruence.
Qed.

Lemma conforms_read_refresh timeoutMs :
  conforms rewait Refresh (readResponse timeoutMs) (fun _ s' => s' = Finished).
Proof.
  eapply conforms_weaken;
    [| apply conforms_readResponse; intros o; apply wait_allowed_refresh].
  intros frame s' H. cbn [next] in H. congruence.
Qed.

(** An acknowledged exchange: the frame is written, its response awaited
    and validated; the operation goes on when the response is accepted. *)
Lemma conforms_exchange {B} cmd frame (rest : M B) (post : B -> expect -> Prop) :
  opcode frame = cmd ->
  cmd <> CommandCode.DIRECT_WRITE_DATA -> cmd <> CommandCode.READ_CONFIG ->
  cmd <> CommandCode.READ_FW_VERSION ->
  conforms rewait (if cmd =? CommandCode.DIRECT_WRITE_END then Refresh else Idle) rest post ->
  conforms rewait Idle
    (writeCommand frame ;;;
     response <- readResponse TIMEOUT_ACK ;;
     lift (validateAckResponse response cmd) ;;;
     rest)
    post.
Proof.
  intros Hop Hd Hc Hf Hrest.
  apply (conforms_bind Idle _ _ (fun _ s' => s' = Response cmd));
    [apply conforms_writeCommand; rewrite Hop; reflexivity |].
  intros _ s' ->.
  eapply conforms_bind; [apply conforms_read_response |].
  intros response s' ->. cbv beta.
  unfold after_response.
  destruct (Z.eqb_spec cmd CommandCode.DIRECT_WRITE_DATA); [contradiction |].
  destruct (Z.eqb_spec cmd CommandCode.READ_CONFIG); [contradiction |].
  destruct (Z.eqb_spec cmd CommandCode.READ_FW_VERSION); [contradiction |].
  destruct (validateAckResponse response cmd) as [[] | e]; cbn [is_ok].
  - apply (conforms_bind _ _ _ (fun _ s' => s' = if cmd =? CommandCode.DIRECT_WRITE_END
                                                 then Refresh else Idle)).
    + apply conforms_silent; [intros w; reflexivity | intros; reflexivity].
    + intros _ s' ->. exact Hrest.
  - apply conforms_fails; intros w; reflexivity.
Qed.

(** ** The orchestrators *)

Lemma conforms_reboot : conforms rewait Idle reboot (fun _ s' => s' <> Stopped).
Proof.
  unfold reboot.
  apply (conforms_bind Idle _ _ (fun _ s' => s' = Idle));
    [apply conforms_silent; [quiet | intros; reflexivity] |].
  intros _ s' ->. apply conforms_writeCommand. discriminate.
Qed.

Lemma conforms_readFirmwareVersion :
  conforms rewait Idle readFirmwareVersion (fun _ s' => s' <> Stopped).
Proof.
  unfold readFirmwareVersion.
  apply (conforms_bind Idle _ _ (fun _ s' => s' = Idle));
    [apply conforms_silent; [quiet | intros; reflexivity] |].
  intros _ s' ->.
  apply (conforms_bind Idle _ _
           (fun _ s' => s' = Response CommandCode.READ_FW_VERSION));
    [apply conforms_writeCommand; reflexivity |].
  intros _ s' ->.
  eapply conforms_bind; [apply conforms_read_response |].
  intros response s' ->. cbv beta.
  change (after_response CommandCode.READ_FW_VERSION response)
    with (if is_ok (parseFirmwareVersion response) then Idle else Stopped).
  destruct (parseFirmwareVersion response) as [v | e]; cbn [is_ok].
  - apply conforms_silent; [quiet | intros; discriminate].
  - apply conforms_fails; intros w; reflexivity.
Qed.

Lemma conforms_writeConfig_send chunkCmds :
  Forall (fun c => opcode c = CommandCode.WRITE_CONFIG_CHUNK) chunkCmds ->
  conforms rewait Idle (writeConfig_send chunkCmds) (fun _ s' => s' <> Stopped).
Proof.
  induction chunkCmds as [| chunkCmd rest IH]; intros Hop; cbn [writeConfig_send].
  - apply conforms_silent; [quiet | intros; discriminate].
  - apply Forall_cons_iff in Hop. destruct Hop as [Hop Hrest].
    apply conforms_exchange; [exact Hop | discriminate | discriminate | discriminate |].
    apply IH. exact Hrest.
Qed.

Lemma conforms_writeConfig config :
  conforms rewait Idle (writeConfig config) (fun _ s' => s' <> Stopped).
Proof.
  unfold writeConfig.
  apply (conforms_bind Idle _ _ (fun _ s' => s' = Idle));
    [apply conforms_silent; [quiet | intros; reflexivity] |].
  intros _ s' ->.
  destruct (GlobalConfig.displays config) as [| d ds];
    [apply conforms_fails; intros w; reflexivity |].
  apply conforms_lift. intros configData _.
  apply conforms_lift. intros [firstCmd chunkCmds] E.
  destruct (opcode_buildWriteConfigCommand _ _ _ E) as [Hfirst Hchunks].
  apply conforms_exchange; [exact Hfirst | discriminate | discriminate | discriminate |].
  apply conforms_writeConfig_send. exact Hchunks.
Qed.

Lemma conforms_interrogate_loop fuel :
  forall totalLength currentLength tlvData,
    conforms rewait (Chunks (totalLength - currentLength))
             (interrogate_loop fuel totalLength currentLength tlvData)
             (fun _ s' => s' <> Stopped).
Proof.
  induction fuel as [| fuel IH]; intros totalLength currentLength tlvData;
    cbn [interrogate_loop].
  - apply conforms_fails; intros w; reflexivity.
  - destruct (Z.ltb_spec currentLength totalLength) as [Hlt | Hge].
    + eapply conforms_bind; [apply conforms_read_chunk; lia |].
      intros nextResponse s' ->. cbv beta zeta.
      replace (totalLength - currentLength - config_bytes nextResponse)
        with (totalLength
              - (currentLength
                 + (Z.of_nat (length (stripCommandEcho nextResponse
                                        CommandCode.READ_CONFIG)) - 2)))
        by (unfold config_bytes; lia).
      apply IH.
    + apply conforms_silent; [quiet | intros; discriminate].
Qed.

Lemma conforms_interrogate : conforms rewait Idle interrogate (fun _ s' => s' <> Stopped).
Proof.
  unfold interrogate.
  apply (conforms_bind Idle _ _ (fun _ s' => s' <> Stopped)).
  - unfold interrogate_completeData.
    apply (conforms_bind Idle _ _ (fun _ s' => s' = Idle));
      [apply conforms_silent; [quiet | intros; reflexivity] |].
    intros _ s' ->.
    apply (conforms_bind Idle _ _ (fun _ s' => s' = Response CommandCode.READ_CONFIG));
      [apply conforms_writeCommand; reflexivity |].
    intros _ s' ->.
    eapply conforms_bind; [apply conforms_read_response |].
    intros response s' ->. cbv beta zeta.
    change (after_response CommandCode.READ_CONFIG response)
      with (if (length (stripCommandEcho response CommandCode.READ_CONFIG) <? 4)%nat
            then Stopped
            else Chunks (DataView.getUint16
                           (stripCommandEcho response CommandCode.READ_CONFIG) 2 true
                         - (config_bytes response - 2))).
    destruct (length (stripCommandEcho response CommandCode.READ_CONFIG) <? 4)%nat.
    + apply conforms_fails; intros w; reflexivity.
    + replace (config_bytes response - 2)
        with (Z.of_nat (length (stripCommandEcho response CommandCode.READ_CONFIG)) - 4)
        by (unfold config_bytes; lia).
      apply (conforms_dependent _
               (fun fuel =>
                  r <- interrogate_loop fuel _ _ _ ;;
                  (let '(currentLength, tlvData) := r in
                   if currentLength <? 0 then throw RangeError
                   else lift (set_chunks (DataView.alloc (Z.to_nat currentLength))
                                         tlvData 0)))
               (fun w => S (length (incoming w)))).
      intros fuel.
      eapply conforms_bind; [apply conforms_interrogate_loop |].
      intros [currentLength tlvData] s' Hs.
      apply conforms_silent; [quiet | intros; exact Hs].
  - intros completeData s' Hs.
    apply conforms_lift. intros config _.
    apply (conforms_bind s' _ _ (fun _ s'' => s'' = s'));
      [apply conforms_silent; [quiet | intros; reflexivity] |].
    intros _ s'' ->.
    apply (conforms_bind s' _ _ (fun _ s'' => s'' = s'));
      [apply conforms_silent; [quiet | intros; reflexivity] |].
    intros caps s'' ->.
    apply (conforms_bind s' _ _ (fun _ s'' => s'' = s'));
      [apply conforms_silent; [quiet | intros; reflexivity] |].
    intros _ s'' ->.
    apply conforms_silent; [quiet | intros; exact Hs].
Qed.

Lemma conforms_awaitRefresh_with refreshComplete refreshTimeout :
  conforms rewait Refresh (awaitRefresh_with refreshComplete refreshTimeout)
           (fun _ s' => s' <> Stopped).
Proof.
  unfold awaitRefresh_with.
  eapply conforms_bind; [apply conforms_read_refresh |].
  intros refreshResponse s' ->. cbv beta.
  apply conforms_lift. intros [responseCode isAck] _.
  destruct (JS.strict_eq (JS.Num responseCode) refreshComplete).
  - apply (conforms_bind Finished _ _ (fun _ s' => s' = Finished));
      [apply conforms_emit; [reflexivity | discriminate | reflexivity] |].
    intros _ s' ->. apply conforms_emit; [reflexivity | discriminate | discriminate].
  - destruct (JS.strict_eq (JS.Num responseCode) refreshTimeout);
      apply conforms_fails; intros w; reflexivity.
Qed.

(** Steps 4 and 5 of [executeUpload]. *)
Lemma conforms_end_and_refresh mode (autoCompleted : bool) :
  conforms rewait (if autoCompleted then Refresh else Idle)
    (if negb autoCompleted then
       writeCommand (buildDirectWriteEndCommand mode) ;;;
       response <- readResponse TIMEOUT_ACK ;;
       lift (validateAckResponse response CommandCode.DIRECT_WRITE_END) ;;;
       emit OnUploadComplete ;;;
       emit (OnStatusChange UploadCompleteRefreshing) ;;;
       awaitRefresh
     else
       emit OnUploadComplete ;;;
       emit (OnStatusChange UploadCompleteRefreshing) ;;;
       awaitRefresh)
    (fun _ s' => s' <> Stopped).
Proof.
  assert (conforms rewait Refresh
            (emit OnUploadComplete ;;;
             emit (OnStatusChange UploadCompleteRefreshing) ;;;
             awaitRefresh)
            (fun _ s' => s' <> Stopped)) as Hrefresh.
  { apply (conforms_bind Refresh _ _ (fun _ s' => s' = Refresh));
      [apply conforms_emit; [reflexivity | discriminate | reflexivity] |].
    intros _ s' ->.
    apply (conforms_bind Refresh _ _ (fun _ s' => s' = Refresh));
      [apply conforms_emit; [reflexivity | discriminate | reflexivity] |].
    intros _ s' ->. apply conforms_awaitRefresh_with. }
  destruct autoCompleted; cbn [negb]; [exact Hrefresh |].
  apply conforms_exchange;
    [apply opcode_buildDirectWriteEndCommand | discriminate | discriminate
     | discriminate | exact Hrefresh].
Qed.

End Rules.

(** ** The chunk loop and the uploads *)

Lemma conforms_awaitChunkResponse :
  conforms true (Response CommandCode.DIRECT_WRITE_DATA) awaitChunkResponse
    (fun frame s' => s' = after_chunk_response frame).
Proof.
  intros [rej conn inc tr cfg caps fw]. destruct conn.
  - destruct inc as [| [f | |] rest]; [| | destruct rest as [| [g | |] rest] |].
    + exists [Waited TIMEOUT_ACK Silence; OnStatusChange RefreshingDisplay;
              Waited TIMEOUT_REFRESH Silence], Stopped.
      split; [cbn; rewrite <- ?app_assoc; reflexivity |]. split; [reflexivity | exact I].
    + exists [Waited TIMEOUT_ACK (Arrives f)], (after_chunk_response f).
      split; [reflexivity |]. split; reflexivity.
    + exists [Waited TIMEOUT_ACK Silence; OnStatusChange RefreshingDisplay;
              Waited TIMEOUT_REFRESH Silence], Stopped.
      split; [cbn; rewrite <- ?app_assoc; reflexivity |]. split; [reflexivity | exact I].
    + exists [Waited TIMEOUT_ACK Silence; OnStatusChange RefreshingDisplay;
              Waited TIMEOUT_REFRESH (Arrives g)], (after_chunk_response g).
      split; [cbn; rewrite <- ?app_assoc; reflexivity |]. split; reflexivity.
    + exists [Waited TIMEOUT_ACK Silence; OnStatusChange RefreshingDisplay;
              Waited TIMEOUT_REFRESH Silence], Stopped.
      split; [cbn; rewrite <- ?app_assoc; reflexivity |]. split; [reflexivity | exact I].
    + exists [Waited TIMEOUT_ACK Silence; OnStatusChange RefreshingDisplay;
              Waited TIMEOUT_REFRESH Dropped], Stopped.
      split; [cbn; rewrite <- ?app_assoc; reflexivity |]. split; [reflexivity | exact I].
    + exists [Waited TIMEOUT_ACK Dropped], Stopped.
      split; [reflexivity |]. split; [reflexivity | exact I].
  - exists [], (Response CommandCode.DIRECT_WRITE_DATA).
    cbn. rewrite app_nil_r. repeat split.
Qed.

Lemma conforms_sendDataChunks_loop fuel :
  forall imageData bytesSent chunksSent,
    conforms true Idle (sendDataChunks_loop fuel imageData bytesSent chunksSent)
             (fun (autoCompleted : bool) s' =>
                s' = if autoCompleted then Refresh else Idle).
Proof.
  induction fuel as [| fuel IH]; intros imageData bytesSent chunksSent;
    cbn [sendDataChunks_loop].
  - apply conforms_fails; intros w; reflexivity.
  - cbv zeta. destruct (bytesSent <? length imageData)%nat;
      [| apply conforms_silent; [quiet | intros w a E; apply Ok_inj in E; subst a;
                                         reflexivity]].
    apply conforms_lift. intros dataCmd Hcmd.
    apply opcode_buildDirectWriteDataCommand in Hcmd.
    apply (conforms_bind Idle _ _
             (fun _ s' => s' = Response CommandCode.DIRECT_WRITE_DATA));
      [apply conforms_writeCommand; rewrite Hcmd; reflexivity |].
    intros _ s' ->.
    eapply conforms_bind; [apply conforms_awaitChunkResponse |].
    intros response s' ->. cbv beta. unfold after_chunk_response.
    apply conforms_lift. intros [command isAck] Hcheck. rewrite Hcheck.
    destruct (command =? CommandCode.DIRECT_WRITE_DATA).
    + apply (conforms_bind Idle _ _ (fun _ s' => s' = Idle));
        [apply conforms_emit; [reflexivity | discriminate | reflexivity] |].
      intros _ s' ->. apply IH.
    + destruct (command =? CommandCode.DIRECT_WRITE_END).
      * apply (conforms_bind Refresh _ _ (fun _ s' => s' = Refresh));
          [apply conforms_emit; [reflexivity | discriminate | reflexivity] |].
        intros _ s' ->. apply conforms_silent; [quiet | ].
        intros w a E. apply Ok_inj in E. subst a. reflexivity.
      * apply conforms_fails; intros w; reflexivity.
Qed.

Lemma conforms_sendDataChunks imageData :
  conforms true Idle (sendDataChunks imageData)
           (fun (autoCompleted : bool) s' =>
              s' = if autoCompleted then Refresh else Idle).
Proof. apply conforms_sendDataChunks_loop. Qed.

Lemma conforms_executeUpload params :
  conforms true Idle (executeUpload params) (fun _ s' => s' <> Stopped).
Proof.
  unfold executeUpload, clearQueue.
  apply (conforms_bind Idle _ _ (fun _ s' => s' = Idle));
    [apply conforms_emit; [reflexivity | discriminate | reflexivity] |].
  intros _ s' ->. cbv zeta.
  assert (forall startCmd remainingCompressed,
             opcode startCmd = CommandCode.DIRECT_WRITE_START ->
             conforms true Idle
               (writeCommand startCmd ;;;
                response <- readResponse TIMEOUT_ACK ;;
                lift (validateAckResponse response CommandCode.DIRECT_WRITE_START) ;;;
                autoCompleted <-
                  match useCompression params, remainingCompressed with
                  | true, Some (b :: rest) => sendDataChunks (b :: rest)
                  | true, _ => ret false
                  | false, _ => sendDataChunks (imageData params)
                  end ;;
                if negb autoCompleted then
                  writeCommand (buildDirectWriteEndCommand (refreshMode params)) ;;;
                  response <- readResponse TIMEOUT_ACK ;;
                  lift (validateAckResponse response CommandCode.DIRECT_WRITE_END) ;;;
                  emit OnUploadComplete ;;;
                  emit (OnStatusChange UploadCompleteRefreshing) ;;;
                  awaitRefresh
                else
                  emit OnUploadComplete ;;;
                  emit (OnStatusChange UploadCompleteRefreshing) ;;;
                  awaitRefresh)
               (fun _ s' => s' <> Stopped)) as Hrun.
  { intros startCmd remainingCompressed Hop.
    apply conforms_exchange; [exact Hop | discriminate | discriminate | discriminate |].
    change (if CommandCode.DIRECT_WRITE_START =? CommandCode.DIRECT_WRITE_END
            then Refresh else Idle) with Idle.
    apply (conforms_bind Idle _ _
             (fun (autoCompleted : bool) s' =>
                s' = if autoCompleted then Refresh else Idle)).
    - destruct (useCompression params);
        [destruct remainingCompressed as [[| b rest] |] |];
        first [ apply conforms_sendDataChunks
              | apply conforms_silent;
                [quiet | intros w a E; apply Ok_inj in E; subst a; reflexivity] ].
    - intros autoCompleted s' ->. apply conforms_end_and_refresh. }
  destruct (useCompression params), (compressedData params) as [cd |],
           (uncompressedSize params) as [n |];
    try (apply (Hrun buildDirectWriteStartUncompressed None); reflexivity).
  destruct (n =? 0); [apply (Hrun buildDirectWriteStartUncompressed None); reflexivity |].
  pose proof (opcode_buildDirectWriteStartCompressed n cd) as Hop.
  destruct (buildDirectWriteStartCompressed n cd) as [s r].
  apply (Hrun s (Some r)). exact Hop.
Qed.

Lemma conforms_uploadImage encodedData compressed mode compress :
  conforms true Idle (uploadImage encodedData compressed mode compress)
           (fun _ s' => s' <> Stopped).
Proof.
  unfold uploadImage.
  apply (conforms_bind Idle _ _ (fun _ s' => s' = Idle));
    [apply conforms_silent; [quiet | intros; reflexivity] |].
  intros _ s' ->.
  apply (conforms_bind Idle _ _ (fun _ s' => s' = Idle));
    [apply conforms_silent; [quiet | intros; reflexivity] |].
  intros _ s' ->.
  apply (conforms_bind Idle _ _ (fun _ s' => s' = Idle));
    [apply conforms_emit; [reflexivity | discriminate | reflexivity] |].
  intros _ s' ->.
  apply (conforms_bind Idle _ _ (fun _ s' => s' <> Stopped)).
  - destruct compress; [| ].
    + apply (conforms_bind Idle _ _ (fun _ s' => s' = Idle));
        [apply conforms_emit; [reflexivity | discriminate | reflexivity] |].
      intros _ s' ->.
      destruct (length compressed <? MAX_COMPRESSED_SIZE)%nat;
        (apply (conforms_bind Idle _ _ (fun _ s' => s' = Idle));
         [apply conforms_emit; [reflexivity | discriminate | reflexivity] |];
         intros _ s' ->; apply conforms_executeUpload).
    + apply (conforms_bind Idle _ _ (fun _ s' => s' = Idle));
        [apply conforms_emit; [reflexivity | discriminate | reflexivity] |].
      intros _ s' ->. apply conforms_executeUpload.
  - intros _ s' Hs. apply conforms_emit; [reflexivity | exact Hs | exact Hs].
Qed.

(** ** The chunk loop, turn by turn *)

Lemma chunks_written_S data n :
  chunks_written data (S n) = chunks_written data n ++ [data_command (nth_chunk data n)].
Proof. unfold chunks_written. rewrite seq_S, map_app. reflexivity. Qed.

Lemma sendDataChunks_loop_acks acks :
  forall fuel data k rest tr cfg caps fw,
    Forall (fun r => is_data_ack (snd r)) acks ->
    ((k + length acks) * CHUNK_SIZE <= length data)%nat ->
    exists tr',
      sendDataChunks_loop (length acks + fuel) data (k * CHUNK_SIZE) k
        (mkWorld true (flat_map reply_events acks ++ rest) tr cfg caps fw)
      = sendDataChunks_loop fuel data ((k + length acks) * CHUNK_SIZE) (k + length acks)
          (mkWorld true rest tr' cfg caps fw)
      /\ written tr'
         = written tr ++ map (fun i => data_command (nth_chunk data i)) (seq k (length acks)).
Proof.
  induction acks as [| r acks IH]; intros fuel data k rest tr cfg caps fw Hacks Hk.
  - cbn [flat_map app length seq map Nat.add]. rewrite Nat.add_0_r, app_nil_r.
    exists tr. split; reflexivity.
  - apply Forall_cons_iff in Hacks. destruct Hacks as [[isAck Hack] Hacks].
    cbn [flat_map length] in *. rewrite <- app_assoc.
    cbn [Nat.add]. unfold CHUNK_SIZE in Hk. fold CHUNK_SIZE in Hk.
    rewrite sendDataChunks_turn by (unfold CHUNK_SIZE in *; lia).
    rewrite Hack.
    erewrite (bind_run (lift (Ok (CommandCode.DIRECT_WRITE_DATA, isAck))));
      [| reflexivity].
    cbv beta iota.
    change (CommandCode.DIRECT_WRITE_DATA =? CommandCode.DIRECT_WRITE_DATA) with true.
    cbv iota.
    erewrite (bind_run (emit _)); [| reflexivity].
    unfold log; cbn [rejections connected incoming trace _config _capabilities _fwVersion].
    rewrite length_nth_chunk_full by (unfold CHUNK_SIZE in *; lia).
    replace (k * CHUNK_SIZE + CHUNK_SIZE)%nat with (S k * CHUNK_SIZE)%nat by lia.
    replace (k + 1)%nat with (S k) by lia.
    replace (k + S (length acks))%nat with (S k + length acks)%nat in * by lia.
    edestruct (IH fuel data (S k) rest) as [tr' [Hrun Hwritten]];
      [exact Hacks | exact Hk |].
    exists tr'. split; [exact Hrun |].
    rewrite Hwritten, !written_app, written_wrote, written_progress.
    rewrite written_reply_actions. cbn [app seq map].
    rewrite <- !app_assoc. reflexivity.
Qed.

(** A turn in which the wait for the response fails. *)
Lemma sendDataChunks_turn_fails fuel data k inc tr cfg caps fw e w' :
  (k * CHUNK_SIZE < length data)%nat ->
  awaitChunkResponse
    (mkWorld true inc (tr ++ [Wrote (data_command (nth_chunk data k))]) cfg caps fw)
  = (Err e, w') ->
  sendDataChunks_loop (S fuel) data (k * CHUNK_SIZE) k (mkWorld true inc tr cfg caps fw)
  = (Err e, w').
Proof.
  intros Hk Hwait. cbn [sendDataChunks_loop].
  destruct (Nat.ltb_spec (k * CHUNK_SIZE) (length data)) as [_ | Hge]; [| lia].
  fold (nth_chunk data k).
  rewrite buildDirectWriteDataCommand_chunk by apply length_nth_chunk_le.
  erewrite (bind_run (lift (Ok (data_command (nth_chunk data k))))); [| reflexivity].
  erewrite (bind_run (writeCommand (data_command (nth_chunk data k)))); [| reflexivity].
  unfold log; cbn [rejections connected incoming trace _config _capabilities _fwVersion].
  apply bind_fail. exact Hwait.
Qed.

(** The state of the sender when the chunks before chunk [length acks] have
    been acknowledged. *)
Lemma sendDataChunks_after_acks data acks rest :
  Forall (fun r => is_data_ack (snd r)) acks ->
  (length acks * CHUNK_SIZE < length data)%nat ->
  exists tr',
    sendDataChunks data (online (flat_map reply_events acks ++ rest))
    = sendDataChunks_loop (S (length data - length acks)) data
        (length acks * CHUNK_SIZE) (length acks)
        (mkWorld true rest tr' None None None)
    /\ written tr' = chunks_written data (length acks).
Proof.
  intros Hacks Hlen. unfold sendDataChunks, online.
  assert (length acks < length data)%nat as Hlt by (unfold CHUNK_SIZE in Hlen; lia).
  replace (S (length data))
    with (length acks + S (length data - length acks))%nat by lia.
  destruct (sendDataChunks_loop_acks acks (S (length data - length acks)) data 0
              rest [] None None None Hacks) as [tr' [Hrun Hwritten]].
  - cbn [Nat.add]. lia.
  - exists tr'. split; [exact Hrun | exact Hwritten].
Qed.

Lemma awaitChunkResponse_cases later tr cfg caps fw :
  (forall f,
      awaitChunkResponse (mkWorld true (Arrives f :: later) tr cfg caps fw)
      = (Ok f, mkWorld true later (tr ++ [Waited TIMEOUT_ACK (Arrives f)]) cfg caps fw))
  /\ (forall f,
         awaitChunkResponse (mkWorld true (Silence :: Arrives f :: later) tr cfg caps fw)
         = (Ok f,
            mkWorld true later
              (tr ++ [Waited TIMEOUT_ACK Silence; OnStatusChange RefreshingDisplay;
                      Waited TIMEOUT_REFRESH (Arrives f)]) cfg caps fw))
  /\ (forall o, failed o = true ->
         awaitChunkResponse (mkWorld true (Silence :: o :: later) tr cfg caps fw)
         = (Err (wait_error o),
            mkWorld (link_after o) later
              (tr ++ [Waited TIMEOUT_ACK Silence; OnStatusChange RefreshingDisplay;
                      Waited TIMEOUT_REFRESH o]) cfg caps fw))
  /\ awaitChunkResponse (mkWorld true (Dropped :: later) tr cfg caps fw)
     = (Err PlainError,
        mkWorld false later (tr ++ [Waited TIMEOUT_ACK Dropped]) cfg caps fw).
Proof.
  repeat split; intros; try (destruct o; try discriminate);
    cbn; rewrite <- ?app_assoc; reflexivity.
Qed.

Lemma written_waits tr :
  Forall (fun a => match a with Wrote _ => False | _ => True end) tr ->
  written tr = [].
Proof.
  induction 1 as [| a tr Ha _ IH]; [reflexivity |].
  destruct a; try contradiction; exact IH.
Qed.

Ltac written_chunks Hwritten :=
  cbn [fst snd incoming trace];
  rewrite ?written_app, ?written_wrote, Hwritten, chunks_written_S;
  rewrite ?written_reply_actions;
  rewrite ?written_waits by (repeat constructor);
  rewrite ?app_nil_r; reflexivity.

Lemma sendDataChunks_rewait_fails data acks o later :
  Forall (fun r => is_data_ack (snd r)) acks ->
  (length acks * CHUNK_SIZE < length data)%nat ->
  failed o = true ->
  let out := sendDataChunks data
               (online (flat_map reply_events acks ++ Silence :: o :: later)) in
  fst out = Err (wait_error o)
  /\ incoming (snd out) = later
  /\ written (trace (snd out)) = chunks_written data (S (length acks)).
Proof.
  intros Hacks Hlen Ho. cbv zeta.
  destruct (sendDataChunks_after_acks data acks (Silence :: o :: later) Hacks Hlen)
    as [tr' [Hrun Hwritten]].
  rewrite Hrun.
  erewrite sendDataChunks_turn_fails;
    [| exact Hlen | apply awaitChunkResponse_cases; exact Ho].
  repeat split. written_chunks Hwritten.
Qed.

Lemma sendDataChunks_dropped_fails data acks later :
  Forall (fun r => is_data_ack (snd r)) acks ->
  (length acks * CHUNK_SIZE < length data)%nat ->
  let out := sendDataChunks data
               (online (flat_map reply_events acks ++ Dropped :: later)) in
  fst out = Err PlainError
  /\ incoming (snd out) = later
  /\ written (trace (snd out)) = chunks_written data (S (length acks)).
Proof.
  intros Hacks Hlen. cbv zeta.
  destruct (sendDataChunks_after_acks data acks (Dropped :: later) Hacks Hlen)
    as [tr' [Hrun Hwritten]].
  rewrite Hrun.
  erewrite sendDataChunks_turn_fails;
    [| exact Hlen | apply awaitChunkResponse_cases].
  repeat split. written_chunks Hwritten.
Qed.

Lemma sendDataChunks_invalid_response_fails data acks r later :
  Forall (fun r => is_data_ack (snd r)) acks ->
  (length acks * CHUNK_SIZE < length data)%nat ->
  is_invalid_response (snd r) ->
  let out := sendDataChunks data
               (online (flat_map reply_events acks ++ reply_events r ++ later)) in
  (exists e, fst out = Err e)
  /\ incoming (snd out) = later
  /\ written (trace (snd out)) = chunks_written data (S (length acks)).
Proof.
  intros Hacks Hlen Hbad. cbv zeta.
  destruct (sendDataChunks_after_acks data acks (reply_events r ++ later) Hacks Hlen)
    as [tr' [Hrun Hwritten]].
  rewrite Hrun, sendDataChunks_turn by exact Hlen.
  unfold is_invalid_response in Hbad.
  destruct (checkResponseType (snd r)) as [[command isAck] | e].
  - destruct Hbad as [Hdata Hend].
    erewrite (bind_run (lift (Ok (command, isAck)))); [| reflexivity].
    cbv beta iota.
    destruct (Z.eqb_spec command CommandCode.DIRECT_WRITE_DATA); [contradiction |].
    destruct (Z.eqb_spec command CommandCode.DIRECT_WRITE_END); [contradiction |].
    unfold throw. repeat split; [eexists; reflexivity | written_chunks Hwritten].
  - erewrite (bind_fail (lift (Err e))); [| reflexivity].
    repeat split; [eexists; reflexivity | written_chunks Hwritten].
Qed.

Lemma length_nth_chunk_last data n :
  last_chunk_at data n ->
  (n * CHUNK_SIZE + length (nth_chunk data n))%nat = length data.
Proof.
  unfold last_chunk_at, nth_chunk, slice. intros H.
  rewrite length_firstn, length_skipn. lia.
Qed.

Lemma sendDataChunks_all_acknowledged data init last later :
  Forall (fun r => is_data_ack (snd r)) (init ++ [last]) ->
  last_chunk_at data (length init) ->
  let out := sendDataChunks data
               (online (flat_map reply_events (init ++ [last]) ++ later)) in
  fst out = Ok false
  /\ incoming (snd out) = later
  /\ written (trace (snd out)) = chunks_written data (S (length init)).
Proof.
  intros Hacks Hlast. cbv zeta.
  apply Forall_app in Hacks. destruct Hacks as [Hinit Hl].
  apply Forall_cons_iff in Hl. destruct Hl as [[isAck Hl] _].
  rewrite flat_map_app. cbn [flat_map]. rewrite app_nil_r, <- app_assoc.
  destruct (sendDataChunks_after_acks data init (reply_events last ++ later) Hinit)
    as [tr' [Hrun Hwritten]]; [apply Hlast |].
  rewrite Hrun, sendDataChunks_turn by apply Hlast.
  rewrite Hl.
  erewrite (bind_run (lift (Ok (CommandCode.DIRECT_WRITE_DATA, isAck))));
    [| reflexivity].
  cbv beta iota.
  change (CommandCode.DIRECT_WRITE_DATA =? CommandCode.DIRECT_WRITE_DATA) with true.
  cbv iota.
  erewrite (bind_run (emit _)); [| reflexivity].
  unfold log; cbn [rejections connected incoming trace _config _capabilities _fwVersion].
  rewrite (length_nth_chunk_last data (length init) Hlast).
  assert (length init < length data)%nat as Hlt
      by (unfold last_chunk_at, CHUNK_SIZE in Hlast; lia).
  destruct (length data - length init)%nat as [| fuel] eqn:Hfuel; [lia |].
  cbn [sendDataChunks_loop]. rewrite Nat.ltb_irrefl. unfold ret.
  repeat split.
  cbn [fst snd incoming trace].
  rewrite !written_app, written_wrote, Hwritten, chunks_written_S.
  rewrite written_reply_actions.
  rewrite written_waits by (repeat constructor).
  rewrite ?app_nil_r. reflexivity.
Qed.

(** What the discipline rules out.  Nothing may follow a rejected write, a
    failed wait, a failed re-wait or a refused response; and the timeout of
    a wait is followed by a re-wait only where the re-wait is allowed and
    the wait is for the response to a data chunk. *)
Lemma protocol_forbids_retries rewait :
  (forall s a b rest,
      next rewait s a = Some Stopped -> protocol rewait s (a :: b :: rest) = None)
  /\ (forall frame, next rewait Idle (WriteFailed frame) = Some Stopped)
  /\ (forall cmd timeoutMs o,
         failed o = true ->
         rewait = false \/ cmd <> CommandCode.DIRECT_WRITE_DATA \/ o = Dropped ->
         next rewait (Response cmd) (Waited timeoutMs o) = Some Stopped)
  /\ (forall missing timeoutMs o,
         failed o = true -> 0 < missing ->
         next rewait (Chunks missing) (Waited timeoutMs o) = Some Stopped)
  /\ (forall timeoutMs o,
         failed o = true -> next rewait Refresh (Waited timeoutMs o) = Some Stopped)
  /\ (forall o,
         failed o = true ->
         next rewait LateResponse (Waited TIMEOUT_REFRESH o) = Some Stopped)
  /\ (forall cmd timeoutMs frame e,
         cmd <> CommandCode.DIRECT_WRITE_DATA -> cmd <> CommandCode.READ_CONFIG ->
         cmd <> CommandCode.READ_FW_VERSION ->
         validateAckResponse frame cmd = Err e ->
         next rewait (Response cmd) (Waited timeoutMs (Arrives frame)) = Some Stopped)
  /\ (forall timeoutMs frame e,
         parseFirmwareVersion frame = Err e ->
         next rewait (Response CommandCode.READ_FW_VERSION)
              (Waited timeoutMs (Arrives frame))
         = Some Stopped)
  /\ (forall timeoutMs frame,
         is_invalid_response frame ->
         next rewait (Response CommandCode.DIRECT_WRITE_DATA)
              (Waited timeoutMs (Arrives frame))
         = Some Stopped
         /\ next rewait LateResponse (Waited TIMEOUT_REFRESH (Arrives frame))
            = Some Stopped)
  /\ (forall missing timeoutMs o,
         missing <= 0 -> next rewait (Chunks missing) (Waited timeoutMs o) = None)
  /\ (forall s frame, s <> Idle -> next rewait s (Wrote frame) = None)
  /\ (forall cmd timeoutMs o,
         next rewait (Response cmd) (Waited timeoutMs o) = Some LateResponse ->
         rewait = true /\ cmd = CommandCode.DIRECT_WRITE_DATA /\ o = Silence).
Proof.
  split; [| split; [| split; [| split; [| split; [| split; [| split; [| split;
    [| split; [| split; [| split]]]]]]]]]].
  - intros s a b rest H. cbn [protocol]. rewrite H. apply protocol_stopped.
  - reflexivity.
  - intros cmd timeoutMs o Ho Hwhy.
    destruct o; [discriminate Ho | | reflexivity]. cbn [next].
    destruct Hwhy as [-> | [Hcmd | Hd]]; [reflexivity | | discriminate Hd].
    destruct (Z.eqb_spec cmd CommandCode.DIRECT_WRITE_DATA); [contradiction |].
    rewrite andb_false_r. reflexivity.
  - intros missing timeoutMs o Ho Hm. apply Z.ltb_lt in Hm.
    destruct o; [discriminate Ho | |]; cbn [next]; rewrite Hm; reflexivity.
  - intros timeoutMs o Ho. destruct o; [discriminate Ho | |]; reflexivity.
  - intros o Ho. destruct o; [discriminate Ho | |]; reflexivity.
  - intros cmd timeoutMs frame e Hd Hc Hf He. cbn [next]. unfold after_response.
    destruct (Z.eqb_spec cmd CommandCode.DIRECT_WRITE_DATA); [contradiction |].
    destruct (Z.eqb_spec cmd CommandCode.READ_CONFIG); [contradiction |].
    destruct (Z.eqb_spec cmd CommandCode.READ_FW_VERSION); [contradiction |].
    rewrite He. reflexivity.
  - intros timeoutMs frame e He. cbn [next].
    change (after_response CommandCode.READ_FW_VERSION frame)
      with (if is_ok (parseFirmwareVersion frame) then Idle else Stopped).
    rewrite He. reflexivity.
  - intros timeoutMs frame Hinv.
    assert (after_chunk_response frame = Stopped) as Hs.
    { unfold after_chunk_response, is_invalid_response in *.
      destruct (checkResponseType frame) as [[command isAck] | e]; [| reflexivity].
      destruct Hinv as [Hd He].
      destruct (Z.eqb_spec command CommandCode.DIRECT_WRITE_DATA); [contradiction |].
      destruct (Z.eqb_spec command CommandCode.DIRECT_WRITE_END); [contradiction |].
      reflexivity. }
    split; cbn [next].
    + change (after_response CommandCode.DIRECT_WRITE_DATA frame)
        with (after_chunk_response frame). rewrite Hs. reflexivity.
    + change (TIMEOUT_REFRESH =? TIMEOUT_REFRESH) with true. cbv iota.
      rewrite Hs. reflexivity.
  - intros missing timeoutMs o Hm.
    assert ((0 <? missing) = false) as H by (apply Z.ltb_ge; exact Hm).
    destruct o; cbn [next]; rewrite H; reflexivity.
  - intros s frame Hs. destruct s; first [reflexivity | contradiction Hs; reflexivity].
  - intros cmd timeoutMs o H. destruct o; cbn [next] in H.
    + exfalso. unfold after_response, after_chunk_response in H.
      repeat match type of H with
             | context [if ?c then _ else _] => destruct c
             | context [match ?x with _ => _ end] => destruct x
             end; discriminate H.
    + destruct rewait; [| discriminate H].
      destruct (Z.eqb_spec cmd CommandCode.DIRECT_WRITE_DATA) as [-> | Hne];
        [repeat split | discriminate H].
    + discriminate H.
Qed.

(** C6.  In the chunk loop a timeout of the wait for a chunk's response,
    and no other error, is followed by the status callback and one more
    wait for the same response with the long refresh timeout; the loop goes
    on when that wait delivers the response.  The upload is aborted, with
    no further frame written or awaited, when the second wait fails, when
    the first wait fails with another error, and when the response is
    invalid.  Nothing else is ever attempted twice.  In whatever world (any
    arrivals, timeouts, losses of the link and rejected writes), every run
    of [sendDataChunks], [executeUpload] and [uploadImage] obeys the
    discipline [protocol], in which a rejected write, a failed wait, a
    failed re-wait and a refused response are each the last action of the
    run and make it fail, and in which a wait is repeated only after the
    timeout of the response to a data chunk, once, with TIMEOUT_REFRESH;
    every run of [interrogate], [readFirmwareVersion], [reboot],
    [writeConfig] and of the refresh wait obeys it with that re-wait
    forbidden too. *)
Theorem chunk_timeout_rewaits_once_nothing_else_retries :
  (forall later tr cfg caps fw,
      (forall f,
          awaitChunkResponse (mkWorld true (Arrives f :: later) tr cfg caps fw)
          = (Ok f, mkWorld true later (tr ++ [Waited TIMEOUT_ACK (Arrives f)]) cfg caps fw))
      /\ (forall f,
             awaitChunkResponse
               (mkWorld true (Silence :: Arrives f :: later) tr cfg caps fw)
             = (Ok f,
                mkWorld true later
                  (tr ++ [Waited TIMEOUT_ACK Silence; OnStatusChange RefreshingDisplay;
                          Waited TIMEOUT_REFRESH (Arrives f)]) cfg caps fw))
      /\ (forall o, failed o = true ->
             awaitChunkResponse (mkWorld true (Silence :: o :: later) tr cfg caps fw)
             = (Err (wait_error o),
                mkWorld (link_after o) later
                  (tr ++ [Waited TIMEOUT_ACK Silence; OnStatusChange RefreshingDisplay;
                          Waited TIMEOUT_REFRESH o]) cfg caps fw))
      /\ awaitChunkResponse (mkWorld true (Dropped :: later) tr cfg caps fw)
         = (Err PlainError,
            mkWorld false later (tr ++ [Waited TIMEOUT_ACK Dropped]) cfg caps fw))
  /\ (forall data acks later,
         Forall (fun r => is_data_ack (snd r)) acks ->
         (length acks * CHUNK_SIZE < length data)%nat ->
         (forall o, failed o = true ->
             let out := sendDataChunks data
                          (online (flat_map reply_events acks ++ Silence :: o :: later)) in
             fst out = Err (wait_error o)
             /\ incoming (snd out) = later
             /\ written (trace (snd out)) = chunks_written data (S (length acks)))
         /\ (let out := sendDataChunks data
                          (online (flat_map reply_events acks ++ Dropped :: later)) in
             fst out = Err PlainError
             /\ incoming (snd out) = later
             /\ written (trace (snd out)) = chunks_written data (S (length acks)))
         /\ (forall r, is_invalid_response (snd r) ->
                let out := sendDataChunks data
                             (online (flat_map reply_events acks
                                        ++ reply_events r ++ later)) in
                (exists e, fst out = Err e)
                /\ incoming (snd out) = later
                /\ written (trace (snd out)) = chunks_written data (S (length acks))))
  /\ (forall data init last later,
         Forall (fun r => is_data_ack (snd r)) (init ++ [last]) ->
         last_chunk_at data (length init) ->
         let out := sendDataChunks data
                      (online (flat_map reply_events (init ++ [last]) ++ later)) in
         fst out = Ok false
         /\ incoming (snd out) = later
         /\ written (trace (snd out)) = chunks_written data (S (length init)))
  /\ (forall imageData, rewaits_only_for_chunks (sendDataChunks imageData))
  /\ (forall params, rewaits_only_for_chunks (executeUpload params))
  /\ (forall encodedData compressed refreshMode compress,
         rewaits_only_for_chunks (uploadImage encodedData compressed refreshMode compress))
  /\ never_retries interrogate
  /\ never_retries readFirmwareVersion
  /\ never_retries reboot
  /\ (forall config, never_retries (writeConfig config))
  /\ attempts_once_from false Refresh awaitRefresh.
Proof.
  split; [intros; apply awaitChunkResponse_cases |].
  split.
  { intros data acks later Hacks Hlen. split; [| split].
    - intros o Ho. apply sendDataChunks_rewait_fails; assumption.
    - apply sendDataChunks_dropped_fails; assumption.
    - intros r Hr. apply sendDataChunks_invalid_response_fails; assumption. }
  split; [intros; apply sendDataChunks_all_acknowledged; assumption |].
  unfold rewaits_only_for_chunks, never_retries, awaitRefresh.
  split; [| split; [| split; [| split; [| split; [| split; [| split]]]]]]; intros;
    apply conforms_attempts_once.
  - eapply conforms_weaken; [| apply conforms_sendDataChunks].
    intros [|] s' ->; discriminate.
  - apply conforms_executeUpload.
  - apply conforms_uploadImage.
  - apply conforms_interrogate.
  - apply conforms_readFirmwareVersion.
  - apply conforms_reboot.
  - apply conforms_writeConfig.
  - apply conforms_awaitRefresh_with.
Qed.

Lemma chunk_timeout_rewaits_once_nothing_else_retries_witness :
  fst (sendDataChunks (repeat 0xff 300)
         (online (flat_map reply_events [(true, [0x00; 0x71])]
                    ++ [Silence; Silence])))
  = Err BLETimeoutError.
Proof.
  destruct chunk_timeout_rewaits_once_nothing_else_retries as (_ & Hloop & _).
  destruct (Hloop (repeat 0xff 300) [(true, [0x00; 0x71])] []) as (Hrewait & _).
  - repeat constructor. cbn [snd]. eexists. vm_compute. reflexivity.
  - rewrite repeat_length. cbn. lia.
  - apply (Hrewait Silence). reflexivity.
Defined.

(** ** The refresh wait *)

(** With both opcodes declared (and distinct), the refresh wait dispatches
    three ways. *)
Lemma awaitRefresh_with_declared_opcodes refreshComplete refreshTimeout
      frame command isAck later tr cfg caps fw :
  checkResponseType frame = Ok (command, isAck) ->
  awaitRefresh_with (JS.Num refreshComplete) (JS.Num refreshTimeout)
    (mkWorld true (Arrives frame :: later) tr cfg caps fw)
  = if command =? refreshComplete
    then (Ok tt,
          mkWorld true later
            (tr ++ [Waited TIMEOUT_REFRESH (Arrives frame);
                    OnStatusChange RefreshComplete; OnComplete]) cfg caps fw)
    else (Err ProtocolError,
          mkWorld true later (tr ++ [Waited TIMEOUT_REFRESH (Arrives frame)])
                  cfg caps fw).
Proof.
  intros Hframe.
  unfold awaitRefresh_with, bind, readResponse, lift, emit, throw, log.
  cbn [rejections connected incoming trace _config _capabilities _fwVersion].
  rewrite Hframe. cbn [JS.strict_eq].
  destruct (command =? refreshComplete).
  - cbn [rejections connected incoming trace _config _capabilities _fwVersion].
    rewrite <- !app_assoc. reflexivity.
  - destruct (command =? refreshTimeout); reflexivity.
Qed.

Lemma awaitRefresh_rejects frame later tr cfg caps fw :
  awaitRefresh (mkWorld true (Arrives frame :: later) tr cfg caps fw)
  = (match checkResponseType frame with
     | Ok _ => Err ProtocolError
     | Err e => Err e
     end,
     mkWorld true later (tr ++ [Waited TIMEOUT_REFRESH (Arrives frame)]) cfg caps fw).
Proof.
  unfold awaitRefresh, awaitRefresh_with, bind, readResponse, lift, emit, throw, log.
  cbn [rejections connected incoming trace _config _capabilities _fwVersion].
  destruct (checkResponseType frame) as [[command isAck] | e]; reflexivity.
Qed.

(** C1.  [enum CommandCode] declares neither REFRESH_COMPLETE nor
    REFRESH_TIMEOUT, so both evaluate to [undefined] and no response code is
    strictly equal to them: the refresh wait fails on every frame, the
    refresh-complete frame 0x0073 included.  An upload whose START, DATA and
    END frames are acknowledged and that is then sent 0x0073 ends with a
    ProtocolError without the completion callback, and so does an
    auto-completed upload. *)
Theorem refresh_complete_frame_is_rejected :
  CommandCode.member "REFRESH_COMPLETE" = JS.Undefined
  /\ CommandCode.member "REFRESH_TIMEOUT" = JS.Undefined
  /\ (forall frame later tr cfg caps fw,
         let out := awaitRefresh (mkWorld true (Arrives frame :: later) tr cfg caps fw) in
         is_ok (fst out) = false
         /\ trace (snd out) = tr ++ [Waited TIMEOUT_REFRESH (Arrives frame)])
  /\ executeUpload (uncompressed_upload [0xff] 0)
       (online [Arrives [0x00; 0x70]; Arrives [0x00; 0x71]; Arrives [0x00; 0x72];
                Arrives [0x00; 0x73]])
     = (Err ProtocolError,
        mkWorld true []
          [QueueCleared;
           Wrote buildDirectWriteStartUncompressed;
           Waited TIMEOUT_ACK (Arrives [0x00; 0x70]);
           Wrote (data_command [0xff]);
           Waited TIMEOUT_ACK (Arrives [0x00; 0x71]);
           OnProgress 1 1;
           Wrote (buildDirectWriteEndCommand 0);
           Waited TIMEOUT_ACK (Arrives [0x00; 0x72]);
           OnUploadComplete;
           OnStatusChange UploadCompleteRefreshing;
           Waited TIMEOUT_REFRESH (Arrives [0x00; 0x73])]
          None None None)
  /\ executeUpload (uncompressed_upload [0xff] 0)
       (online [Arrives [0x00; 0x70]; Arrives [0x00; 0x72]; Arrives [0x00; 0x73]])
     = (Err ProtocolError,
        mkWorld true []
          [QueueCleared;
           Wrote buildDirectWriteStartUncompressed;
           Waited TIMEOUT_ACK (Arrives [0x00; 0x70]);
           Wrote (data_command [0xff]);
           Waited TIMEOUT_ACK (Arrives [0x00; 0x72]);
           OnProgress 1 1;
           OnUploadComplete;
           OnStatusChange UploadCompleteRefreshing;
           Waited TIMEOUT_REFRESH (Arrives [0x00; 0x73])]
          None None None).
Proof.
  split; [reflexivity |]. split; [reflexivity |]. split.
  - intros frame later tr cfg caps fw. cbv zeta. rewrite awaitRefresh_rejects.
    cbn [fst snd trace].
    split; [destruct (checkResponseType frame) |]; reflexivity.
  - split; vm_compute; reflexivity.
Qed.

(** Had the enum declared the opcodes of the comments in [executeUpload]
    (0x0073 and 0x0074), the same frame would have completed the wait. *)
Remark refresh_complete_frame_with_declared_opcodes :
  awaitRefresh_with (JS.Num 0x0073) (JS.Num 0x0074) (online [Arrives [0x00; 0x73]])
  = (Ok tt,
     mkWorld true []
       [Waited TIMEOUT_REFRESH (Arrives [0x00; 0x73]);
        OnStatusChange RefreshComplete; OnComplete] None None None).
Proof. vm_compute. reflexivity. Qed.

(* ------------------------------------------------------------------------- *)
(** * Further properties of the protocol layer *)

(** ** Response codes (protocol/responses.ts) *)

Lemma testbit_above a n m : 0 <= a < 2 ^ n -> n <= m -> Z.testbit a m = false.
Proof.
  intros Ha Hm. destruct (Z.eq_dec a 0) as [-> | Hnz]; [apply Z.bits_0 |].
  apply Z.bits_above_log2; [lia |].
  assert (0 <= n) by (destruct (Z.le_gt_cases 0 n); [assumption |];
                      rewrite Z.pow_neg_r in Ha by lia; lia).
  assert (Z.log2 a < n) by (apply Z.log2_lt_pow2; lia). lia.
Qed.

Lemma and_not_high_bit code :
  0 <= code < 65536 -> JS.and code (JS.not RESPONSE_HIGH_BIT_FLAG) = code mod 32768.
Proof.
  intros Hc. unfold JS.and.
  replace (JS.toInt32 (JS.not RESPONSE_HIGH_BIT_FLAG)) with (Z.lnot (2 ^ 15))
    by (vm_compute; reflexivity).
  rewrite (toInt32_small code) by lia.
  assert (Z.land code (Z.lnot (2 ^ 15)) = code mod 2 ^ 15) as ->.
  { apply Z.bits_inj'. intros n Hn.
    rewrite Z.land_spec, Z.lnot_spec, Z.pow2_bits_eqb by lia.
    destruct (Z.lt_ge_cases n 15) as [Hlt | Hge].
    - rewrite Z.mod_pow2_bits_low by lia.
      destruct (Z.eqb_spec 15 n); [lia |]. apply andb_true_r.
    - rewrite Z.mod_pow2_bits_high by lia.
      destruct (Z.eqb_spec 15 n) as [Heq | Hne]; [apply andb_false_r |].
      rewrite (testbit_above code 16 n) by lia. reflexivity. }
  apply toInt32_small. change (2 ^ 15) with 32768. change (2 ^ 31) with 2147483648.
  pose proof (Z.mod_pos_bound code 32768). lia.
Qed.

Lemma and_high_bit code :
  0 <= code < 65536 ->
  JS.and code RESPONSE_HIGH_BIT_FLAG = if code <? 32768 then 0 else 32768.
Proof.
  intros Hc. unfold JS.and, RESPONSE_HIGH_BIT_FLAG.
  rewrite (toInt32_small code), (toInt32_small 0x8000) by lia.
  change 0x8000 with (2 ^ 15).
  assert (Z.land code (2 ^ 15) = if code <? 32768 then 0 else 2 ^ 15) as ->.
  { apply Z.bits_inj'. intros n Hn.
    rewrite Z.land_spec, Z.pow2_bits_eqb by lia.
    destruct (Z.ltb_spec code 32768) as [Hlt | Hge].
    - rewrite Z.bits_0.
      destruct (Z.eqb_spec 15 n) as [<- | Hne]; [| apply andb_false_r].
      rewrite (testbit_above code 15 15) by lia. reflexivity.
    - rewrite Z.pow2_bits_eqb by lia.
      destruct (Z.eqb_spec 15 n) as [<- | Hne]; [| apply andb_false_r].
      rewrite andb_true_r. apply Z.testbit_true; [lia |].
      replace (code / 2 ^ 15) with 1; [reflexivity |].
      apply Z.div_unique with (r := code - 32768); lia. }
  change (2 ^ 15) with 32768. destruct (code <? 32768); reflexivity.
Qed.

Lemma or_high_bit cmd :
  0 <= cmd < 32768 -> JS.or cmd RESPONSE_HIGH_BIT_FLAG = cmd + 32768.
Proof.
  intros Hc. unfold RESPONSE_HIGH_BIT_FLAG.
  change 0x8000 with (1 * 2 ^ 15). apply js_or_add; lia.
Qed.

Lemma unpackCommandCode_frame hi lo rest :
  unpackCommandCode (hi :: lo :: rest) 0 = Ok (256 * hi + lo).
Proof. reflexivity. Qed.

Lemma checkResponseType_bytes hi lo rest :
  byte_ok hi -> byte_ok lo ->
  checkResponseType (hi :: lo :: rest)
  = Ok ((256 * hi + lo) mod 32768, negb (256 * hi + lo <? 32768)).
Proof.
  intros Hhi Hlo. unfold byte_ok in *.
  unfold checkResponseType. rewrite unpackCommandCode_frame. cbn [rbind].
  rewrite and_not_high_bit, and_high_bit by lia.
  destruct (256 * hi + lo <? 32768); reflexivity.
Qed.

(** X1.  A frame that opens with the big-endian code [cmd], plain or with the
    acknowledgement bit, is classified as [cmd], whatever follows.  Every
    frame of two bytes or more is classified: the command is the code of
    the first two bytes without its top bit, and the flag is that bit. *)
Theorem checkResponseType_decodes cmd rest :
  0 <= cmd < 32768 ->
  checkResponseType ([cmd / 256; cmd mod 256] ++ rest) = Ok (cmd, false)
  /\ checkResponseType ([cmd / 256 + 128; cmd mod 256] ++ rest) = Ok (cmd, true)
  /\ (forall hi lo more,
         byte_ok hi -> byte_ok lo ->
         exists command isAck,
           checkResponseType (hi :: lo :: more) = Ok (command, isAck)
           /\ 0 <= command < 32768
           /\ 256 * hi + lo = command + (if isAck then 32768 else 0)).
Proof.
  intros Hc.
  pose proof (Z.mod_pos_bound cmd 256 ltac:(lia)) as Hlo.
  assert (0 <= cmd / 256 < 128) as Hhi
      by (split; [apply Z.div_pos; lia | apply Z.div_lt_upper_bound; lia]).
  pose proof (Z.div_mod cmd 256 ltac:(lia)) as Hdm.
  cbn [app]. split; [| split].
  - rewrite checkResponseType_bytes by (unfold byte_ok; lia).
    replace (256 * (cmd / 256) + cmd mod 256) with cmd by lia.
    rewrite Z.mod_small by lia.
    destruct (Z.ltb_spec cmd 32768); [reflexivity | lia].
  - rewrite checkResponseType_bytes by (unfold byte_ok; lia).
    replace (256 * (cmd / 256 + 128) + cmd mod 256) with (cmd + 1 * 32768) by lia.
    rewrite Z.mod_add, Z.mod_small by lia.
    destruct (Z.ltb_spec (cmd + 1 * 32768) 32768); [lia | reflexivity].
  - intros hi lo more Hbhi Hblo.
    rewrite checkResponseType_bytes by assumption.
    unfold byte_ok in Hbhi, Hblo.
    set (code := 256 * hi + lo).
    assert (0 <= code < 65536) as Hcode by (subst code; lia).
    exists (code mod 32768), (negb (code <? 32768)).
    split; [reflexivity |].
    pose proof (Z.mod_pos_bound code 32768 ltac:(lia)) as Hm.
    split; [lia |].
    destruct (Z.ltb_spec code 32768) as [Hlt | Hge]; cbn [negb].
    + rewrite Z.mod_small by lia. lia.
    + replace code with ((code - 32768) + 1 * 32768) at 2 by lia.
      rewrite Z.mod_add, Z.mod_small by lia. lia.
Qed.

Lemma checkResponseType_decodes_witness :
  checkResponseType ([0x0071 / 256; 0x0071 mod 256] ++ [1; 2; 3]) = Ok (0x0071, false).
Proof. apply (checkResponseType_decodes 0x0071 [1; 2; 3]). lia. Defined.

(** X2.  On a frame of two bytes or more [validateAckResponse] accepts
    exactly what [checkResponseType] classifies as the expected command; a
    shorter frame is refused by its length.  Whatever it refuses, it
    refuses with an InvalidResponseError. *)
Theorem validateAckResponse_agrees_with_checkResponseType data cmd :
  bytes_ok data -> 0 <= cmd < 32768 ->
  ((2 <= length data)%nat ->
     (validateAckResponse data cmd = Ok tt
      <-> exists isAck, checkResponseType data = Ok (cmd, isAck)))
  /\ ((length data < 2)%nat -> validateAckResponse data cmd = Err InvalidResponseError)
  /\ (validateAckResponse data cmd = Ok tt
      \/ validateAckResponse data cmd = Err InvalidResponseError).
Proof.
  intros Hb Hc. unfold validateAckResponse.
  destruct data as [| hi [| lo rest]].
  - cbn. split; [lia |]. split; [reflexivity | right; reflexivity].
  - cbn. split; [lia |]. split; [reflexivity | right; reflexivity].
  - apply Forall_cons_iff in Hb. destruct Hb as [Hhi Hb].
    apply Forall_cons_iff in Hb. destruct Hb as [Hlo _].
    change (length (hi :: lo :: rest) <? 2)%nat with false. cbv iota.
    rewrite unpackCommandCode_frame. cbn [rbind].
    rewrite or_high_bit by lia.
    rewrite checkResponseType_bytes by assumption.
    unfold byte_ok in *.
    set (code := 256 * hi + lo) in *.
    assert (0 <= code < 65536) as Hcode by (subst code; lia).
    split; [intros _ | split; [cbn [length]; lia |]].
    + destruct (Z.eqb_spec code cmd) as [Heq | Hne].
      * cbn [orb]. split; [intros _ | reflexivity].
        exists (negb (code <? 32768)). rewrite Heq, Z.mod_small by lia. reflexivity.
      * destruct (Z.eqb_spec code (cmd + 32768)) as [Heq | Hne'].
        -- cbn [orb]. split; [intros _ | reflexivity].
           exists (negb (code <? 32768)).
           rewrite Heq. replace (cmd + 32768) with (cmd + 1 * 32768) by lia.
           rewrite Z.mod_add, Z.mod_small by lia. reflexivity.
        -- cbn [orb]. split; [discriminate |].
           intros [isAck Hck]. injection Hck as Hmod _.
           pose proof (Z.div_mod code 32768 ltac:(lia)) as Hdm.
           assert (0 <= code / 32768 < 2) as Hq
               by (split; [apply Z.div_pos; lia | apply Z.div_lt_upper_bound; lia]).
           assert (code / 32768 = 0 \/ code / 32768 = 1) as [Hq0 | Hq1] by lia; lia.
    + destruct ((code =? cmd) || (code =? cmd + 32768)); [left | right]; reflexivity.
Qed.

Lemma validateAckResponse_agrees_with_checkResponseType_witness :
  validateAckResponse [0x80; 0x42; 7] CommandCode.WRITE_CONFIG_CHUNK = Ok tt
  <-> exists isAck,
      checkResponseType [0x80; 0x42; 7] = Ok (CommandCode.WRITE_CONFIG_CHUNK, isAck).
Proof.
  apply (validateAckResponse_agrees_with_checkResponseType
           [0x80; 0x42; 7] CommandCode.WRITE_CONFIG_CHUNK).
  - repeat constructor; unfold byte_ok; lia.
  - unfold CommandCode.WRITE_CONFIG_CHUNK. lia.
  - cbn [length]. lia.
Defined.

(** X3.  [parseFirmwareVersion] accepts exactly the frames laid out as echo
    0x0043 (plain or with the acknowledgement bit), major, minor, SHA
    length, SHA bytes, with a SHA that is not empty; bytes after the SHA
    are ignored.  Every other frame is an InvalidResponseError. *)
Theorem parseFirmwareVersion_layout data v :
  bytes_ok data ->
  (parseFirmwareVersion data = Ok v
   <-> exists e extra,
       (e = 0x00 \/ e = 0x80)
       /\ data = [e; 0x43; major v; minor v; Z.of_nat (length (sha v))] ++ sha v ++ extra
       /\ sha v <> [])
  /\ (forall err, parseFirmwareVersion data = Err err -> err = InvalidResponseError).
Proof.
  intros Hb. unfold parseFirmwareVersion.
  destruct (Nat.ltb_spec (length data) 5) as [Hshort | Hlong].
  { split.
    - split; [discriminate |].
      intros (e & extra & _ & Hdata & _). subst data.
      cbn [app length] in Hshort. lia.
    - intros err Herr. congruence. }
  destruct data as [| hi [| lo [| mj [| mn [| n rest]]]]]; cbn [length] in Hlong; try lia.
  rewrite unpackCommandCode_frame. cbn [rbind nth].
  replace (JS.or 67 RESPONSE_HIGH_BIT_FLAG) with 0x8043 by (vm_compute; reflexivity).
  repeat (apply Forall_cons_iff in Hb; let H := fresh "Hbyte" in destruct Hb as [H Hb]).
  unfold byte_ok in *.
  assert (slice (hi :: lo :: mj :: mn :: n :: rest) 5 (5 + Z.to_nat n)
          = firstn (Z.to_nat n) rest) as Hslice.
  { unfold slice. cbn [skipn]. f_equal. lia. }
  rewrite Hslice.
  destruct (Z.eqb_spec (256 * hi + lo) 67) as [Hplain | Hnp];
    [| destruct (Z.eqb_spec (256 * hi + lo) 0x8043) as [Hack | Hna]]; cbn [negb andb].
  3: { split.
       - split; [discriminate |].
         intros (e & extra & [He | He] & Hdata & _); injection Hdata as -> -> _; subst e; lia.
       - intros err Herr. congruence. }
  all: destruct (Z.eqb_spec n 0) as [Hz | Hnz].
  all: try (split;
            [ split; [discriminate |];
              intros (e & extra & _ & Hdata & Hsha); injection Hdata as _ _ _ _ Hn _;
              destruct (sha v); [congruence | cbn [length] in Hn; lia]
            | intros err Herr; congruence ]).
  all: destruct (Z.ltb_spec (Z.of_nat (length (hi :: lo :: mj :: mn :: n :: rest))) (5 + n))
    as [Htrunc | Hfits].
  all: try (split;
            [ split; [discriminate |];
              intros (e & extra & _ & Hdata & Hsha);
              injection Hdata as _ _ _ _ Hn Hrest; subst rest;
              cbn [length] in Htrunc; rewrite length_app in Htrunc; lia
            | intros err Herr; congruence ]).
  all: cbn [length] in Hfits.
  all: assert (length (firstn (Z.to_nat n) rest) = Z.to_nat n) as Hlen
      by (rewrite length_firstn; lia).
  all: (split; [| intros err Herr; discriminate Herr]).
  all: split.
  all: try (intros Hv; injection Hv as <-; cbn [major minor sha];
            exists hi, (skipn (Z.to_nat n) rest);
            split; [lia |]; split;
            [ rewrite Hlen, Z2Nat.id by lia;
              cbn [app]; rewrite firstn_skipn;
              repeat f_equal; lia
            | intros Hnil; rewrite Hnil in Hlen; cbn [length] in Hlen; lia ]).
  all: intros (e & extra & He & Hdata & Hsha);
    injection Hdata as _ _ Hmj Hmn Hn Hrest; subst rest n mj mn;
    rewrite Nat2Z.id, firstn_app, Nat.sub_diag, firstn_all; cbn [firstn];
    rewrite app_nil_r; destruct v; reflexivity.
Qed.

Lemma parseFirmwareVersion_layout_witness :
  parseFirmwareVersion [0x80; 0x43; 1; 4; 3; 0x61; 0x62; 0x63; 0xff]
  = Ok {| major := 1; minor := 4; sha := [0x61; 0x62; 0x63] |}.
Proof.
  apply (parseFirmwareVersion_layout [0x80; 0x43; 1; 4; 3; 0x61; 0x62; 0x63; 0xff]).
  - repeat constructor; unfold byte_ok; lia.
  - exists 0x80, [0xff]. repeat split; [right; reflexivity | discriminate].
Defined.

(** ** Command frames, in general (protocol/commands.ts) *)

Lemma slice_zero a n : slice a 0 n = firstn n a.
Proof. unfold slice. rewrite Nat.sub_0_r. reflexivity. Qed.

Lemma buildDirectWriteStartCompressed_parts uncompressedSize compressedData :
  bytes_ok compressedData ->
  buildDirectWriteStartCompressed uncompressedSize compressedData
  = ([0x00; 0x70; uncompressedSize mod 256; (uncompressedSize / 256) mod 256;
      (uncompressedSize / 65536) mod 256; (uncompressedSize / 16777216) mod 256]
       ++ firstn 194 compressedData,
     skipn 194 compressedData).
Proof.
  intros Hb. unfold buildDirectWriteStartCompressed. cbv zeta.
  change (MAX_START_PAYLOAD - 6)%nat with 194%nat.
  destruct (Nat.leb_spec (length compressedData) 194) as [Hle | Hgt].
  - rewrite (Nat.min_l _ _ Hle), slice_zero.
    rewrite firstn_all, (firstn_short 194) by exact Hle.
    f_equal; [| symmetry; apply skipn_all2; exact Hle].
    change (DataView.alloc (6 + length compressedData))
      with (0 :: 0 :: 0 :: 0 :: 0 :: 0 :: repeat 0 (length compressedData)).
    cbn [DataView.setUint16 DataView.setUint32 DataView.store].
    rewrite set_splice by (cbn [length]; rewrite repeat_length; lia).
    cbn [firstn skipn Nat.add app].
    rewrite skipn_all2 by (rewrite repeat_length; lia).
    rewrite map_mod_bytes by exact Hb. rewrite app_nil_r. reflexivity.
  - assert (194 <= length compressedData)%nat as Hge by lia.
    rewrite (Nat.min_r _ _ Hge), slice_zero. unfold slice_from.
    f_equal.
    assert (length (firstn 194 compressedData) = 194%nat) as Hf
        by (rewrite length_firstn; lia).
    assert (bytes_ok (firstn 194 compressedData)) as Hbf
        by (apply Forall_firstn; exact Hb).
    set (f := firstn 194 compressedData) in *.
    change (DataView.alloc MAX_START_PAYLOAD)
      with (0 :: 0 :: 0 :: 0 :: 0 :: 0 :: repeat 0 194).
    cbn [DataView.setUint16 DataView.setUint32 DataView.store].
    rewrite set_splice by (cbn [length]; rewrite repeat_length, Hf; lia).
    rewrite Hf. cbn [firstn app].
    rewrite skipn_all2 by (cbn [length]; rewrite repeat_length; lia).
    rewrite map_mod_bytes by exact Hbf.
    rewrite app_nil_r. reflexivity.
Qed.

(** X4.  The compressed START frame is the opcode, the uncompressed size
    (little-endian, 32 bits) and the first 194 bytes of the compressed data;
    the rest is handed back.  Nothing is lost or repeated, and the frame
    never exceeds MAX_START_PAYLOAD. *)
Theorem buildDirectWriteStartCompressed_splits uncompressedSize compressedData :
  bytes_ok compressedData ->
  let start := fst (buildDirectWriteStartCompressed uncompressedSize compressedData) in
  let remaining := snd (buildDirectWriteStartCompressed uncompressedSize compressedData) in
  start = [0x00; 0x70; uncompressedSize mod 256; (uncompressedSize / 256) mod 256;
           (uncompressedSize / 65536) mod 256; (uncompressedSize / 16777216) mod 256]
            ++ firstn 194 compressedData
  /\ remaining = skipn 194 compressedData
  /\ skipn 6 start ++ remaining = compressedData
  /\ (length start <= MAX_START_PAYLOAD)%nat.
Proof.
  intros Hb. cbv zeta.
  rewrite buildDirectWriteStartCompressed_parts by exact Hb. cbn [fst snd].
  repeat split.
  - cbn [app skipn]. apply firstn_skipn.
  - cbn [app length]. rewrite length_firstn. unfold MAX_START_PAYLOAD. lia.
Qed.

Lemma buildDirectWriteStartCompressed_splits_witness :
  snd (buildDirectWriteStartCompressed 1000 (repeat 0xab 300)) = repeat 0xab 106.
Proof.
  destruct (buildDirectWriteStartCompressed_splits 1000 (repeat 0xab 300))
    as (_ & Hrem & _).
  - apply Forall_forall. intros b Hin. apply repeat_spec in Hin. subst b.
    unfold byte_ok. lia.
  - rewrite Hrem. reflexivity.
Defined.

(** X5.  A data frame is the opcode 0x0071 followed by the chunk; a chunk of
    more than CHUNK_SIZE bytes is refused. *)
Theorem buildDirectWriteDataCommand_frame chunkData :
  bytes_ok chunkData ->
  ((length chunkData <= CHUNK_SIZE)%nat ->
     buildDirectWriteDataCommand chunkData = Ok ([0x00; 0x71] ++ chunkData))
  /\ ((CHUNK_SIZE < length chunkData)%nat ->
        buildDirectWriteDataCommand chunkData = Err PlainError).
Proof.
  intros Hb. unfold buildDirectWriteDataCommand.
  split; intros Hlen;
    destruct (Nat.ltb_spec CHUNK_SIZE (length chunkData)); try lia; [| reflexivity].
  cbv zeta. rewrite opcode_then_data by exact Hb. reflexivity.
Qed.

Lemma buildDirectWriteDataCommand_frame_witness :
  buildDirectWriteDataCommand (repeat 7 231) = Err PlainError.
Proof.
  apply (buildDirectWriteDataCommand_frame (repeat 7 231)).
  - apply Forall_forall. intros b Hin. apply repeat_spec in Hin. subst b.
    unfold byte_ok. lia.
  - rewrite repeat_length. unfold CHUNK_SIZE. lia.
Defined.

Lemma data_command_frame chunk :
  bytes_ok chunk -> data_command chunk = [0x00; 0x71] ++ chunk.
Proof. intros Hb. unfold data_command. apply (opcode_then_data 0x71 chunk Hb). Qed.

(** The chunk loop of [buildWriteConfigCommand] from any offset. *)
Lemma writeConfig_chunks_run fuel : forall data offset chunks,
  bytes_ok data -> (offset <= length data)%nat ->
  (length data - offset < fuel)%nat ->
  exists cs,
    writeConfig_chunks fuel data offset chunks = Ok (chunks ++ cs)
    /\ concat (map (skipn 2) cs) = skipn offset data
    /\ Forall (fun c => firstn 2 c = [0x00; 0x42]
                        /\ (2 < length c <= 2 + CONFIG_CHUNK_SIZE)%nat) cs
    /\ length cs = ((length data - offset + 199) / 200)%nat.
Proof.
  induction fuel as [| fuel IH]; intros data offset chunks Hb Hoff Hfuel; [lia |].
  cbn [writeConfig_chunks]. cbv zeta.
  destruct (Nat.ltb_spec offset (length data)) as [Hlt | Hge].
  - set (chunkSize := Nat.min CONFIG_CHUNK_SIZE (length data - offset)).
    assert (0 < chunkSize <= CONFIG_CHUNK_SIZE)%nat as Hsize
        by (unfold chunkSize, CONFIG_CHUNK_SIZE; lia).
    assert (chunkSize <= length data - offset)%nat as Hfit by (unfold chunkSize; lia).
    assert (length (slice data offset (offset + chunkSize)) = chunkSize) as Hsl.
    { unfold slice. rewrite length_firstn, length_skipn. lia. }
    assert (DataView.set
              (DataView.setUint16 (DataView.alloc (2 + chunkSize)) 0
                                  CommandCode.WRITE_CONFIG_CHUNK false)
              (slice data offset (offset + chunkSize)) 2
            = [0x00; 0x42] ++ slice data offset (offset + chunkSize)) as ->.
    { rewrite <- Hsl at 1. apply (opcode_then_data 0x42).
      unfold slice. apply Forall_firstn, Forall_skipn. exact Hb. }
    destruct (IH data (offset + chunkSize)%nat
                 (chunks ++ [[0x00; 0x42] ++ slice data offset (offset + chunkSize)])
                 Hb ltac:(lia) ltac:(lia))
      as (cs & Hrun & Hcat & Hshape & Hcount).
    exists (([0x00; 0x42] ++ slice data offset (offset + chunkSize)) :: cs).
    split; [etransitivity; [exact Hrun |]; rewrite <- app_assoc; reflexivity |].
    split; [| split].
    + cbn [map concat].
      change (skipn 2 ([0; 66] ++ slice data offset (offset + chunkSize)))
        with (slice data offset (offset + chunkSize)).
      etransitivity; [apply f_equal; exact Hcat |]. unfold slice.
      replace (offset + chunkSize - offset)%nat with chunkSize by lia.
      transitivity (firstn chunkSize (skipn offset data)
                      ++ skipn chunkSize (skipn offset data));
        [| apply firstn_skipn].
      f_equal. rewrite skipn_skipn. f_equal. lia.
    + constructor; [| exact Hshape].
      split; [reflexivity |]. cbn [app length]. rewrite Hsl. lia.
    + cbn [length]. unfold CONFIG_CHUNK_SIZE in *.
      destruct (Nat.le_gt_cases 200 (length data - offset)) as [Hfull | Hpart].
      * assert (chunkSize = 200%nat) as Hcs by (unfold chunkSize; lia).
        rewrite Hcount, Hcs.
        replace (length data - offset + 199)%nat
          with (length data - (offset + 200) + 199 + 1 * 200)%nat by lia.
        rewrite Nat.div_add by lia. lia.
      * assert (chunkSize = (length data - offset)%nat) as Hcs
            by (unfold chunkSize; lia).
        rewrite Hcount, Hcs.
        replace (length data - (offset + (length data - offset)) + 199)%nat
          with 199%nat by lia.
        rewrite (Nat.div_small 199 200) by lia.
        apply Nat.div_unique with (r := (length data - offset - 1)%nat); lia.
  - exists []. assert (offset = length data) as -> by lia.
    rewrite app_nil_r, skipn_all, Nat.sub_diag. repeat split. constructor.
Qed.

(** X6.  Up to CONFIG_CHUNK_SIZE bytes the config goes out in one frame, opcode
    0x0041 and the data.  Beyond, the first frame carries the total length
    (little-endian, 16 bits) and 198 bytes, and the chunk frames, opcode
    0x0042, carry the rest 200 bytes at a time: every byte goes out once, in
    order, and the builder never fails. *)
Theorem buildWriteConfigCommand_frames configData :
  bytes_ok configData ->
  ((length configData <= CONFIG_CHUNK_SIZE)%nat ->
     buildWriteConfigCommand configData = Ok ([0x00; 0x41] ++ configData, []))
  /\ ((CONFIG_CHUNK_SIZE < length configData)%nat ->
        exists chunks,
          buildWriteConfigCommand configData
          = Ok ([0x00; 0x41; Z.of_nat (length configData) mod 256;
                 (Z.of_nat (length configData) / 256) mod 256]
                  ++ firstn 198 configData, chunks)
          /\ firstn 198 configData ++ concat (map (skipn 2) chunks) = configData
          /\ Forall (fun c => firstn 2 c = [0x00; 0x42]
                              /\ (2 < length c <= 2 + CONFIG_CHUNK_SIZE)%nat) chunks
          /\ length chunks = ((length configData - 198 + 199) / 200)%nat).
Proof.
  intros Hb. unfold buildWriteConfigCommand, buildWriteConfigCommand_fuel. cbv zeta.
  split; intros Hlen;
    destruct (Nat.leb_spec (length configData) CONFIG_CHUNK_SIZE); try lia.
  - rewrite (opcode_then_data 0x41) by exact Hb. reflexivity.
  - unfold CONFIG_CHUNK_SIZE in *.
    change (200 - 2)%nat with 198%nat.
    rewrite writeConfig_first_frame by (try exact Hb; lia).
    destruct (writeConfig_chunks_run (S (length configData)) configData 198 [] Hb)
      as (cs & Hrun & Hcat & Hshape & Hcount); [lia | lia |].
    exists cs. rewrite Hrun. cbn [rbind app].
    repeat split; try assumption.
    rewrite Hcat. apply firstn_skipn.
Qed.

Lemma buildWriteConfigCommand_frames_witness :
  exists chunks,
    buildWriteConfigCommand (repeat 9 755)
    = Ok ([0x00; 0x41; 755 mod 256; (755 / 256) mod 256] ++ repeat 9 198, chunks)
    /\ length chunks = 3%nat.
Proof.
  destruct (buildWriteConfigCommand_frames (repeat 9 755)) as [_ Hmulti].
  - apply Forall_forall. intros b Hin. apply repeat_spec in Hin. subst b.
    unfold byte_ok. lia.
  - destruct Hmulti as (chunks & Hrun & _ & _ & Hcount).
    + rewrite repeat_length. unfold CONFIG_CHUNK_SIZE. lia.
    + exists chunks. split; [exact Hrun | exact Hcount].
Defined.

(** ** The TLV parser on the edges (protocol/config-parser.ts) *)

(** X7.  Fewer than two bytes are a ConfigParseError; a single byte after the
    last packet is left unread. *)
Theorem parseTlvConfig_short_and_trailing_byte :
  (forall data version,
      (length data < 2)%nat -> parseTlvConfig data version = Err ConfigParseError)
  /\ (forall ps b version,
         Forall packet_ok ps -> ps <> [] ->
         parseTlvConfig (stream ps ++ [b]) version = parseTlvConfig (stream ps) version).
Proof.
  split.
  - intros data version Hshort. unfold parseTlvConfig, parseTlvConfig_fuel.
    destruct (Nat.ltb_spec (length data) 2); [reflexivity | lia].
  - intros ps b version Hok Hne.
    rewrite (parseTlvConfig_stream ps version Hok Hne).
    unfold parseTlvConfig, parseTlvConfig_fuel.
    pose proof (length_stream_nonempty ps Hne) as Hlen.
    destruct (Nat.ltb_spec (length (stream ps ++ [b])) 2) as [Hlt | _].
    + rewrite length_app in Hlt. lia.
    + rewrite (tlv_walk_stream_then ps [b] (fun m => Ok m) Hok).
      * reflexivity.
      * intros fuel pre m. apply tlv_walk_end_short. cbn [length]. lia.
Qed.

Lemma parseTlvConfig_short_and_trailing_byte_witness :
  parseTlvConfig (stream sample_packets ++ [0x20]) 1
  = parseTlvConfig (stream sample_packets) 1.
Proof.
  destruct parseTlvConfig_short_and_trailing_byte as [_ Htrail].
  apply Htrail; [apply sample_packets_ok | discriminate].
Defined.

(** X8.  [parseConfigResponse] reads the version byte and parses what lies
    between the three header bytes and the last two bytes: neither the
    length field nor the trailing CRC is looked at.  In a response of
    exactly five bytes the two CRC bytes are parsed as packet data. *)
Theorem parseConfigResponse_checks_neither_length_nor_crc l0 l1 version body c0 c1 :
  (body <> [] ->
     parseConfigResponse ([l0; l1; version] ++ body ++ [c0; c1])
     = parseTlvConfig body version)
  /\ parseConfigResponse [l0; l1; version; c0; c1] = parseTlvConfig [c0; c1] version
  /\ (forall rawData, (length rawData < 5)%nat ->
                      parseConfigResponse rawData = Err ConfigParseError).
Proof.
  split; [| split].
  - intros Hne. unfold parseConfigResponse.
    assert (length ([l0; l1; version] ++ body ++ [c0; c1]) = (length body + 5)%nat)
      as Htotal by (rewrite !length_app; cbn [length]; lia).
    assert (0 < length body)%nat as Hpos
        by (destruct body; [congruence | cbn [length]; lia]).
    rewrite Htotal.
    destruct (Nat.ltb_spec (length body + 5) 5); [lia |].
    destruct (Nat.ltb_spec 5 (length body + 5)); [| lia].
    unfold slice_to_end_minus. rewrite Htotal. cbn [app skipn DataView.getUint8 nth].
    replace (length body + 5 - 2 - 3)%nat with (length body) by lia.
    rewrite firstn_app, firstn_all, Nat.sub_diag. cbn [firstn].
    rewrite app_nil_r. reflexivity.
  - reflexivity.
  - intros rawData Hshort. unfold parseConfigResponse.
    destruct (Nat.ltb_spec (length rawData) 5); [reflexivity | lia].
Qed.

Lemma parseConfigResponse_checks_neither_length_nor_crc_witness :
  parseConfigResponse ([0xff; 0xff; 1] ++ stream sample_packets ++ [0xde; 0xad])
  = parseTlvConfig (stream sample_packets) 1.
Proof.
  apply (parseConfigResponse_checks_neither_length_nor_crc
           0xff 0xff 1 (stream sample_packets) 0xde 0xad).
  discriminate.
Defined.

(** ** Packets with the same type and number *)

Lemma key_eqb_refl k : key_eqb k k = true.
Proof. apply key_eqb_eq. reflexivity. Qed.

Lemma key_eqb_neq a b : a <> b -> key_eqb a b = false.
Proof.
  intros Hne. destruct (key_eqb a b) eqn:E; [| reflexivity].
  apply key_eqb_eq in E. contradiction.
Qed.

Lemma map_set_same k v v' m : map_set k v' (map_set k v m) = map_set k v' m.
Proof.
  induction m as [| [k0 v0] m IH]; cbn [map_set].
  - rewrite key_eqb_refl. reflexivity.
  - destruct (key_eqb k k0) eqn:E; cbn [map_set].
    + rewrite key_eqb_refl. reflexivity.
    + rewrite E, IH. reflexivity.
Qed.

Lemma map_set_has_key k v m : In k (map fst (map_set k v m)).
Proof.
  induction m as [| [k0 v0] m IH]; cbn [map_set].
  - left. reflexivity.
  - destruct (key_eqb k k0); cbn [map fst In]; [left; reflexivity | right; exact IH].
Qed.

Lemma map_set_keeps_key k k' v' m :
  In k (map fst m) -> In k (map fst (map_set k' v' m)).
Proof.
  induction m as [| [k0 v0] m IH]; cbn [map fst In map_set]; [contradiction |].
  intros [-> | Hin].
  - destruct (key_eqb k' k) eqn:E; cbn [map fst In].
    + left. apply key_eqb_eq in E. exact E.
    + left. reflexivity.
  - destruct (key_eqb k' k0); cbn [map fst In]; right; [exact Hin | apply IH, Hin].
Qed.

Lemma map_set_comm k k' v v' m :
  In k (map fst m) -> k <> k' ->
  map_set k v (map_set k' v' m) = map_set k' v' (map_set k v m).
Proof.
  intros Hin Hne. induction m as [| [k0 v0] m IH]; [contradiction |].
  cbn [map_set].
  destruct (key_eqb k' k0) eqn:E'; destruct (key_eqb k k0) eqn:E; cbn [map_set].
  - apply key_eqb_eq in E, E'. congruence.
  - rewrite (key_eqb_neq k k') by exact Hne. rewrite E'.
    apply key_eqb_eq in E'. subst k0.
    destruct m as [| e m']; [| reflexivity].
    cbn [map fst In] in Hin. destruct Hin as [Heq | []]. congruence.
  - rewrite E. rewrite (key_eqb_neq k' k) by congruence. reflexivity.
  - rewrite E, E'. f_equal. apply IH.
    cbn [map fst In] in Hin. destruct Hin as [Heq | Hin]; [| exact Hin].
    subst k0. rewrite key_eqb_refl in E. discriminate E.
Qed.

Lemma packets_map_app a b m :
  packets_map (a ++ b) m = packets_map b (packets_map a m).
Proof. unfold packets_map. apply fold_left_app. Qed.

Lemma packets_map_override mid : forall k v' m,
  In k (map fst m) -> ~ In k (map packet_key_of mid) ->
  map_set k v' (packets_map mid m) = packets_map mid (map_set k v' m).
Proof.
  induction mid as [| p mid IH]; intros k v' m Hin Hfresh; [reflexivity |].
  cbn [map In] in Hfresh.
  change (packets_map (p :: mid) m)
    with (packets_map mid (map_set (packet_key_of p) (pk_payload p) m)).
  change (packets_map (p :: mid) (map_set k v' m))
    with (packets_map mid (map_set (packet_key_of p) (pk_payload p) (map_set k v' m))).
  rewrite IH by (try apply map_set_keeps_key; tauto).
  f_equal. apply map_set_comm; [exact Hin |].
  intros Heq. apply Hfresh. left. symmetry. exact Heq.
Qed.

(** X9.  Of two packets with the same type and number the later one wins, and
    it takes the place of the earlier one in the order of the packets,
    wherever the two stand in the stream: the stream parses as the one in
    which the later packet replaces the earlier one. *)
Theorem tlv_later_packet_overrides pre p mid q post version :
  Forall packet_ok (pre ++ p :: mid ++ q :: post) ->
  packet_key_of p = packet_key_of q ->
  ~ In (packet_key_of q) (map packet_key_of mid) ->
  parseTlvConfig (stream (pre ++ p :: mid ++ q :: post)) version
  = parseTlvConfig (stream (pre ++ q :: mid ++ post)) version.
Proof.
  intros Hok Hkey Hfresh.
  assert (Forall packet_ok (pre ++ q :: mid ++ post)) as Hok'.
  { apply Forall_app in Hok. destruct Hok as [Hpre Hrest].
    apply Forall_cons_iff in Hrest. destruct Hrest as [_ Hrest].
    apply Forall_app in Hrest. destruct Hrest as [Hmid Hq].
    apply Forall_cons_iff in Hq. destruct Hq as [Hq Hpost].
    apply Forall_app. split; [exact Hpre |].
    constructor; [exact Hq |]. apply Forall_app. split; assumption. }
  rewrite !parseTlvConfig_stream by (try assumption; destruct pre; discriminate).
  f_equal.
  rewrite !packets_map_app.
  change (packets_map (p :: mid ++ q :: post) (packets_map pre []))
    with (packets_map (mid ++ q :: post)
            (map_set (packet_key_of p) (pk_payload p) (packets_map pre []))).
  change (packets_map (q :: mid ++ post) (packets_map pre []))
    with (packets_map (mid ++ post)
            (map_set (packet_key_of q) (pk_payload q) (packets_map pre []))).
  rewrite !packets_map_app.
  change (packets_map (q :: post) ?m)
    with (packets_map post (map_set (packet_key_of q) (pk_payload q) m)).
  rewrite Hkey.
  rewrite packets_map_override by (try apply map_set_has_key; exact Hfresh).
  rewrite map_set_same. reflexivity.
Qed.

Lemma tlv_later_packet_overrides_witness :
  let p := mkPacket 0 PACKET_TYPE_SYSTEM (serializeSystemConfig sample_system) in
  let d := mkPacket 0 PACKET_TYPE_DISPLAY (serializeDisplayConfig sample_display) in
  let q := mkPacket 0 PACKET_TYPE_SYSTEM (repeat 1 22) in
  parseTlvConfig (stream ([] ++ p :: [d] ++ q :: [d])) 1
  = parseTlvConfig (stream ([] ++ q :: [d] ++ [d])) 1.
Proof.
  cbv zeta. apply tlv_later_packet_overrides.
  - repeat constructor.
  - reflexivity.
  - intros [H | []]. discriminate H.
Defined.

(** ** The serializer: size, and reading back what was written *)

Lemma length_push_single_present {A} ty (ser : A -> Uint8Array) n x :
  (forall y, length (ser y) = n) ->
  length (concat (push_single ty ser x)) = ((2 + n) * present x)%nat.
Proof.
  intros Hn. destruct x as [y |]; cbn [push_single concat present app length].
  - rewrite length_app, Hn. cbn [length]. lia.
  - lia.
Qed.

(** X10.  [serializeConfig] never throws: its output has five bytes of header and
    CRC and, for every record it emits, two bytes of packet header and the
    record, which is at most 757 bytes, far below the limit of 4096 that
    the function tests. *)
Theorem serializeConfig_length c :
  exists out,
    serializeConfig c = Ok out
    /\ length out = serialized_size c
    /\ (5 <= length out <= 757)%nat.
Proof.
  pose proof (serializeConfig_layout c) as Hser. cbv zeta in Hser.
  eexists. split; [exact Hser |].
  assert (length (concat (first_four_layout c)) + 2 = serialized_size c)%nat as Hsize.
  { unfold first_four_layout, serialized_size.
    rewrite !concat_app, !length_app.
    rewrite (length_push_single_present _ _ 22 _ length_serializeSystemConfig).
    rewrite (length_push_single_present _ _ 22 _ length_serializeManufacturerData).
    rewrite (length_push_single_present _ _ 30 _ length_serializePowerOption).
    rewrite (length_tagged_packets _ _ 46 _ length_serializeDisplayConfig).
    rewrite (length_tagged_packets _ _ 22 _ length_serializeLedConfig).
    rewrite (length_tagged_packets _ _ 30 _ length_serializeSensorData).
    rewrite (length_tagged_packets _ _ 30 _ length_serializeDataBus).
    rewrite (length_tagged_packets _ _ 30 _ length_serializeBinaryInputs).
    rewrite !length_firstn. cbn [concat app length]. lia. }
  rewrite length_app. cbn [length]. split; [exact Hsize |].
  pose proof (serializeConfig_size c).
  unfold serialized_size in Hsize. lia.
Qed.

Lemma serializeConfig_as_parsed c : serializeConfig (as_parsed c) = serializeConfig c.
Proof.
  pose proof (serializeConfig_layout c) as H1.
  pose proof (serializeConfig_layout (as_parsed c)) as H2.
  cbv zeta in H1, H2. rewrite H1, H2. destruct c. reflexivity.
Qed.

Lemma parse_serialized c :
  GlobalConfig_ok c -> has_record c ->
  exists out, serializeConfig c = Ok out /\ parseConfigResponse out = Ok (as_parsed c).
Proof.
  intros Hok Hrec.
  pose proof (serializeConfig_layout c) as Hser. cbv zeta in Hser.
  eexists. split; [exact Hser |].
  rewrite first_four_layout_stream.
  assert (uint8 (GlobalConfig.version c)) as Hv
      by (unfold GlobalConfig_ok in Hok; tauto).
  rewrite (u8_enc_dec _ Hv).
  rewrite parseConfigResponse_wrapped;
    [| exact Hv | apply config_packets_ok | exact Hrec].
  rewrite packets_map_distinct by (cbn [map app]; apply NoDup_config_keys).
  cbn [app]. rewrite tlv_collect_config by assumption. reflexivity.
Qed.

(** X11.  What is read back from a serialized configuration is the configuration
    itself, up to [minorVersion] and [loaded], which are not on the wire
    and come back as 1 and [true]; writing it again gives the same bytes. *)
Theorem serialize_parse_serialize c :
  GlobalConfig_ok c -> has_record c ->
  exists out,
    serializeConfig c = Ok out
    /\ parseConfigResponse out = Ok (as_parsed c)
    /\ serializeConfig (as_parsed c) = Ok out.
Proof.
  intros Hok Hrec. destruct (parse_serialized c Hok Hrec) as (out & Hser & Hparse).
  exists out. repeat split; [exact Hser | exact Hparse |].
  rewrite serializeConfig_as_parsed. exact Hser.
Qed.

Lemma serialize_parse_serialize_witness :
  exists out,
    serializeConfig sample_config = Ok out
    /\ parseConfigResponse out = Ok (as_parsed sample_config)
    /\ serializeConfig (as_parsed sample_config) = Ok out.
Proof.
  apply serialize_parse_serialize; [apply sample_config_ok | discriminate].
Defined.

(* ------------------------------------------------------------------------- *)
(** * Further properties of the orchestrators (device.ts) *)

(** X12.  An operation that cannot start fails before it touches the link: on a
    device that is not connected every operation is a BLEConnectionError,
    an upload before the capabilities are known and a configuration without
    a display are plain errors, and in each case nothing is written,
    nothing awaited and nothing stored. *)
Theorem operations_that_cannot_start_touch_nothing w :
  (connected w = false ->
     interrogate w = (Err BLEConnectionError, w)
     /\ readFirmwareVersion w = (Err BLEConnectionError, w)
     /\ reboot w = (Err BLEConnectionError, w)
     /\ (forall config, writeConfig config w = (Err BLEConnectionError, w))
     /\ (forall encodedData compressed refreshMode compress,
            uploadImage encodedData compressed refreshMode compress w
            = (Err BLEConnectionError, w)))
  /\ (connected w = true -> _capabilities w = None ->
      forall encodedData compressed refreshMode compress,
        uploadImage encodedData compressed refreshMode compress w = (Err PlainError, w))
  /\ (connected w = true ->
      forall config, GlobalConfig.displays config = [] ->
                     writeConfig config w = (Err PlainError, w)).
Proof.
  destruct w as [rej conn inc tr cfg caps fw].
  cbn [rejections connected _capabilities]. repeat split; intros.
  all: subst; try reflexivity.
  unfold writeConfig. rewrite H0. reflexivity.
Qed.

Lemma operations_that_cannot_start_touch_nothing_witness :
  uploadImage [1; 2; 3] [] 0 false (online [Arrives [0x00; 0x70]])
  = (Err PlainError, online [Arrives [0x00; 0x70]]).
Proof.
  destruct (operations_that_cannot_start_touch_nothing (online [Arrives [0x00; 0x70]]))
    as (_ & Hupload & _).
  apply Hupload; reflexivity.
Defined.

(** X13.  [reboot] writes the frame 0x000F and awaits no acknowledgement;
    [readFirmwareVersion] writes 0x0043, awaits one response and stores the
    version only when the response parses. *)
Theorem reboot_and_readFirmwareVersion_runs inc frame later tr cfg caps fw :
  reboot (mkWorld true inc tr cfg caps fw)
  = (Ok tt, mkWorld true inc (tr ++ [Wrote [0x00; 0x0f]]) cfg caps fw)
  /\ (forall v,
         parseFirmwareVersion frame = Ok v ->
         readFirmwareVersion (mkWorld true (Arrives frame :: later) tr cfg caps fw)
         = (Ok v, mkWorld true later (tr ++ exchange [0x00; 0x43] frame) cfg caps (Some v)))
  /\ (forall e,
         parseFirmwareVersion frame = Err e ->
         readFirmwareVersion (mkWorld true (Arrives frame :: later) tr cfg caps fw)
         = (Err e, mkWorld true later (tr ++ exchange [0x00; 0x43] frame) cfg caps fw)).
Proof.
  split; [reflexivity |].
  split; intros r Hparse; unfold readFirmwareVersion;
    cbn [bind ensureConnected writeCommand readResponse log rejections connected incoming trace
         _config _capabilities _fwVersion];
    unfold lift; rewrite Hparse; cbn; rewrite <- app_assoc; reflexivity.
Qed.

Lemma reboot_and_readFirmwareVersion_runs_witness :
  readFirmwareVersion (online [Arrives [0x00; 0x43; 1; 4; 2; 0x61; 0x62]])
  = (Ok {| major := 1; minor := 4; sha := [0x61; 0x62] |},
     mkWorld true [] ([] ++ exchange [0x00; 0x43] [0x00; 0x43; 1; 4; 2; 0x61; 0x62])
             None None (Some {| major := 1; minor := 4; sha := [0x61; 0x62] |})).
Proof.
  apply (reboot_and_readFirmwareVersion_runs [] [0x00; 0x43; 1; 4; 2; 0x61; 0x62]).
  reflexivity.
Defined.

(** ** writeConfig *)

Lemma writeConfig_send_run chunkCmds : forall acks later tr cfg caps fw,
  length acks = length chunkCmds ->
  Forall (fun a => validateAckResponse a CommandCode.WRITE_CONFIG_CHUNK = Ok tt) acks ->
  writeConfig_send chunkCmds (mkWorld true (map Arrives acks ++ later) tr cfg caps fw)
  = (Ok tt, mkWorld true later (tr ++ exchanges chunkCmds acks) cfg caps fw).
Proof.
  induction chunkCmds as [| cmd rest IH]; intros acks later tr cfg caps fw Hlen Hacks.
  - destruct acks; [| discriminate Hlen]. cbn. rewrite app_nil_r. reflexivity.
  - destruct acks as [| a acks]; [discriminate Hlen |].
    apply Forall_cons_iff in Hacks. destruct Hacks as [Ha Hacks].
    cbn [writeConfig_send map app].
    cbn [bind writeCommand readResponse log rejections connected incoming trace
         _config _capabilities _fwVersion].
    unfold lift at 1. rewrite Ha. unfold bind at 1. cbv beta iota.
    rewrite IH by (try assumption; cbn [length] in Hlen; lia).
    unfold exchanges. cbn [combine flat_map fst snd]. unfold exchange at 2.
    rewrite <- !app_assoc. reflexivity.
Qed.

Lemma writeConfig_send_rejected sent : forall cmd rest acks bad e later tr cfg caps fw,
  length acks = length sent ->
  Forall (fun a => validateAckResponse a CommandCode.WRITE_CONFIG_CHUNK = Ok tt) acks ->
  validateAckResponse bad CommandCode.WRITE_CONFIG_CHUNK = Err e ->
  writeConfig_send (sent ++ cmd :: rest)
    (mkWorld true (map Arrives acks ++ Arrives bad :: later) tr cfg caps fw)
  = (Err e,
     mkWorld true later (tr ++ exchanges sent acks ++ exchange cmd bad) cfg caps fw).
Proof.
  induction sent as [| c sent IH];
    intros cmd rest acks bad e later tr cfg caps fw Hlen Hacks Hbad.
  - destruct acks; [| discriminate Hlen].
    cbn [writeConfig_send map app].
    cbn [bind writeCommand readResponse log rejections connected incoming trace
         _config _capabilities _fwVersion].
    unfold lift at 1. rewrite Hbad. unfold bind at 1. cbv beta iota. rewrite <- app_assoc. reflexivity.
  - destruct acks as [| a acks]; [discriminate Hlen |].
    apply Forall_cons_iff in Hacks. destruct Hacks as [Ha Hacks].
    cbn [writeConfig_send map app].
    cbn [bind writeCommand readResponse log rejections connected incoming trace
         _config _capabilities _fwVersion].
    unfold lift at 1. rewrite Ha. unfold bind at 1. cbv beta iota.
    rewrite (IH cmd rest acks bad e) by (try assumption; cbn [length] in Hlen; lia).
    unfold exchanges. cbn [combine flat_map fst snd]. unfold exchange at 2.
    rewrite <- !app_assoc. reflexivity.
Qed.

(** X14.  [writeConfig] sends the frames of [buildWriteConfigCommand] in order,
    each one after the acknowledgement of the one before; when every frame
    is acknowledged it succeeds, and when the device rejects a chunk it
    stops there: the chunks after the rejected one are never written. *)
Theorem writeConfig_exchanges config configData firstCmd chunkCmds ack acks later :
  GlobalConfig.displays config <> [] ->
  serializeConfig config = Ok configData ->
  buildWriteConfigCommand configData = Ok (firstCmd, chunkCmds) ->
  validateAckResponse ack CommandCode.WRITE_CONFIG = Ok tt ->
  Forall (fun a => validateAckResponse a CommandCode.WRITE_CONFIG_CHUNK = Ok tt) acks ->
  (length acks = length chunkCmds ->
     writeConfig config (online (Arrives ack :: map Arrives acks ++ later))
     = (Ok tt,
        mkWorld true later (exchange firstCmd ack ++ exchanges chunkCmds acks)
                None None None))
  /\ (forall sent cmd rest bad e,
         chunkCmds = sent ++ cmd :: rest -> length acks = length sent ->
         validateAckResponse bad CommandCode.WRITE_CONFIG_CHUNK = Err e ->
         writeConfig config
           (online (Arrives ack :: map Arrives acks ++ Arrives bad :: later))
         = (Err e,
            mkWorld true later
              (exchange firstCmd ack ++ exchanges sent acks ++ exchange cmd bad)
              None None None)).
Proof.
  intros Hdisp Hser Hbuild Hack Hacks.
  assert (forall inc,
             writeConfig config (online (Arrives ack :: inc))
             = writeConfig_send chunkCmds
                 (mkWorld true inc (exchange firstCmd ack) None None None)) as Hstart.
  { intros inc. unfold writeConfig, online.
    destruct (GlobalConfig.displays config) as [| d ds]; [congruence |].
    cbn [bind ensureConnected connected].
    unfold lift at 1. rewrite Hser. unfold bind at 1. cbv beta iota.
    unfold lift at 1. rewrite Hbuild. unfold bind at 1. cbv beta iota.
    cbn [bind writeCommand readResponse log rejections connected incoming trace
         _config _capabilities _fwVersion app].
    unfold lift at 1. rewrite Hack. unfold bind at 1. cbv beta iota. reflexivity. }
  split.
  - intros Hlen. rewrite Hstart. apply writeConfig_send_run; assumption.
  - intros sent cmd rest bad e Hsplit Hlen Hbad. rewrite Hstart, Hsplit.
    apply writeConfig_send_rejected; assumption.
Qed.

Lemma writeConfig_exchanges_witness :
  fst (writeConfig sample_config
         (online (Arrives [0x00; 0x41] :: map Arrives [[0x80; 0x42]] ++ [])))
  = Ok tt.
Proof.
  assert (exists configData firstCmd chunkCmds,
             serializeConfig sample_config = Ok configData
             /\ buildWriteConfigCommand configData = Ok (firstCmd, chunkCmds)
             /\ length [[0x80; 0x42]] = length chunkCmds)
    as (configData & firstCmd & chunkCmds & Hser & Hbuild & Hlen).
  { eexists _, _, _. split; [vm_compute; reflexivity |].
    split; [vm_compute; reflexivity | reflexivity]. }
  destruct (writeConfig_exchanges sample_config configData firstCmd chunkCmds
              [0x00; 0x41] [[0x80; 0x42]] []) as [Hrun _].
  - discriminate.
  - exact Hser.
  - exact Hbuild.
  - reflexivity.
  - repeat constructor.
  - rewrite (Hrun Hlen). reflexivity.
Defined.

(** ** interrogate, end to end *)

Lemma interrogate_completeData_run skipped totalLength payload conts later :
  0 <= totalLength < 65536 ->
  bytes_ok payload ->
  Forall (fun c => bytes_ok (snd c)) conts ->
  Forall (fun c => snd c <> []) conts ->
  Z.of_nat (length payload + length (concat (map snd conts))) = totalLength ->
  exists tr',
    interrogate_completeData
      (online (Arrives (read_config_first_frame skipped totalLength payload)
                 :: map (fun c => Arrives (read_config_continuation c)) conts
                 ++ later))
    = (Ok (payload ++ concat (map snd conts)), mkWorld true later tr' None None None).
Proof.
  intros Htotal Hb Hbs Hne Hsum.
  destruct (interrogate_loop_frames conts
              (S (length (map (fun c => Arrives (read_config_continuation c)) conts
                          ++ later)))
              totalLength
              (Z.of_nat (S (S (S (S (length payload))))) - 4)
              [payload] later
              ([Wrote buildReadConfigCommand;
                Waited TIMEOUT_FIRST_CHUNK
                  (Arrives (read_config_first_frame skipped totalLength payload))])
              None None None Hne) as [tr' Hloop].
  { unfold Uint8Array in *. lia. }
  { rewrite length_app, length_map. unfold Uint8Array in *. lia. }
  exists tr'.
  unfold interrogate_completeData, online.
  cbn [bind ensureConnected writeCommand readResponse log rejections connected incoming trace
       _config _capabilities _fwVersion app].
  rewrite !strip_first_frame.
  cbn [length Nat.ltb Nat.leb slice_from skipn].
  assert (DataView.getUint16
            (fst skipped :: snd skipped :: totalLength mod 256
               :: (totalLength / 256) mod 256 :: payload) 2 true = totalLength) as ->.
  { cbn [DataView.getUint16 nth]. apply u16_enc_dec. exact Htotal. }
  cbn [bind incoming].
  rewrite (bind_run _ _ _ _ _ Hloop).
  destruct (Z.ltb_spec totalLength 0); [lia |].
  unfold lift. f_equal.
  pose proof (set_chunks_fill (payload :: map snd conts) [] (Z.to_nat totalLength))
    as Hfill.
  cbn [app length concat] in Hfill. apply Hfill.
  - constructor; [exact Hb |]. rewrite Forall_map. exact Hbs.
  - rewrite length_app. lia.
Qed.

Lemma serializeConfig_bytes_ok c out : serializeConfig c = Ok out -> bytes_ok out.
Proof.
  pose proof (serializeConfig_layout c) as Hser. cbv zeta in Hser.
  rewrite Hser. intros Hout. apply Ok_inj in Hout. subst out.
  apply Forall_app. split; [apply bytes_ok_first_four_layout |].
  repeat constructor; apply byte_ok_mod.
Qed.

Lemma serializeConfig_length_bound c out :
  serializeConfig c = Ok out -> (length out <= 757)%nat.
Proof.
  pose proof (serializeConfig_layout c) as Hser. cbv zeta in Hser.
  rewrite Hser. intros Hout. apply Ok_inj in Hout. subst out.
  rewrite length_app. cbn [length]. pose proof (serializeConfig_size c). lia.
Qed.

Lemma has_record_display c d ds : GlobalConfig.displays c = d :: ds -> has_record c.
Proof.
  intros Hd. unfold has_record, config_packets. rewrite Hd.
  cbn [firstn]. rewrite idx_packets_from_cons.
  destruct (GlobalConfig.system c), (GlobalConfig.manufacturer c),
    (GlobalConfig.power c); cbn [opt_packet app]; discriminate.
Qed.

Lemma bytes_ok_concat_parts (parts : list Uint8Array) :
  bytes_ok (concat parts) -> Forall bytes_ok parts.
Proof.
  induction parts as [| p parts IH]; cbn [concat]; intros H; [constructor |].
  apply Forall_app in H. destruct H as [Hp Hrest].
  constructor; [exact Hp | apply IH; exact Hrest].
Qed.

(** X15.  The device answers a read-config request with the bytes of
    [serializeConfig c], cut into frames at any places.  When [c] has a
    display, [interrogate] returns [c] (as the parser returns it) and stores
    it together with the capabilities of the first display.  When [c] has
    records but no display, [interrogate] fails, and yet the configuration
    has been stored by then. *)
Theorem interrogate_reads_back_config c configData skipped payload conts later :
  GlobalConfig_ok c -> has_record c ->
  serializeConfig c = Ok configData ->
  payload ++ concat (map snd conts) = configData ->
  Forall (fun c => snd c <> []) conts ->
  let w := online (Arrives (read_config_first_frame skipped
                              (Z.of_nat (length configData)) payload)
                     :: map (fun c => Arrives (read_config_continuation c)) conts
                     ++ later) in
  (forall d ds,
      GlobalConfig.displays c = d :: ds ->
      exists tr',
        interrogate w
        = (Ok (as_parsed c),
           mkWorld true later tr' (Some (as_parsed c)) (Some (capabilities_of d)) None))
  /\ (GlobalConfig.displays c = [] ->
      exists tr',
        interrogate w
        = (Err PlainError, mkWorld true later tr' (Some (as_parsed c)) None None)).
Proof.
  intros Hok Hrec Hser Hparts Hne. cbv zeta. subst configData.
  pose proof (serializeConfig_bytes_ok c _ Hser) as Hbytes.
  pose proof (serializeConfig_length_bound c _ Hser) as Hlen.
  destruct (parse_serialized c Hok Hrec) as (out & Hser' & Hparse).
  rewrite Hser in Hser'. apply Ok_inj in Hser'. subst out.
  apply Forall_app in Hbytes.
  destruct Hbytes as [Hbp Hbc].
  destruct (interrogate_completeData_run skipped
              (Z.of_nat (length (payload ++ concat (map snd conts))))
              payload conts later) as [tr' Hrun].
  { lia. }
  { exact Hbp. }
  { apply bytes_ok_concat_parts in Hbc. rewrite Forall_map in Hbc. exact Hbc. }
  { exact Hne. }
  { rewrite length_app. reflexivity. }
  unfold Uint8Array in *.
  split.
  - intros d ds Hd. exists tr'.
    unfold interrogate, bind. rewrite Hrun. unfold lift. rewrite Hparse.
    cbn [set_config extractCapabilitiesFromConfig set_capabilities ret
         rejections connected incoming trace _config _capabilities _fwVersion
         as_parsed GlobalConfig.displays].
    rewrite Hd. reflexivity.
  - intros Hd. exists tr'.
    unfold interrogate, bind. rewrite Hrun. unfold lift. rewrite Hparse.
    cbn [set_config extractCapabilitiesFromConfig set_capabilities ret
         rejections connected incoming trace _config _capabilities _fwVersion
         as_parsed GlobalConfig.displays].
    rewrite Hd. reflexivity.
Qed.

Lemma interrogate_reads_back_config_witness :
  exists tr',
    interrogate
      (online (Arrives (read_config_first_frame (0, 0)
                          (Z.of_nat (length sample_config_bytes))
                          (firstn 100 sample_config_bytes))
                 :: map (fun c => Arrives (read_config_continuation c))
                        [((1, 0), skipn 100 sample_config_bytes)]
                 ++ []))
    = (Ok (as_parsed sample_config),
       mkWorld true [] tr' (Some (as_parsed sample_config))
               (Some (capabilities_of sample_display)) None).
Proof.
  destruct (interrogate_reads_back_config sample_config sample_config_bytes (0, 0)
              (firstn 100 sample_config_bytes)
              [((1, 0), skipn 100 sample_config_bytes)] []) as [Hdisplay _].
  - apply sample_config_ok.
  - discriminate.
  - vm_compute. reflexivity.
  - cbn [map snd concat]. rewrite app_nil_r. apply firstn_skipn.
  - constructor; [| constructor]. cbn [snd]. vm_compute. discriminate.
  - apply (Hdisplay sample_display []). reflexivity.
Defined.

(** ** The bytes of an upload *)

Lemma nth_chunk_firstn data i :
  nth_chunk data i = firstn CHUNK_SIZE (skipn (i * CHUNK_SIZE) data).
Proof.
  unfold nth_chunk, slice.
  destruct (Nat.le_gt_cases (i * CHUNK_SIZE + CHUNK_SIZE) (length data)) as [Hfull | Hpart].
  - rewrite Nat.min_l by exact Hfull. f_equal. lia.
  - rewrite Nat.min_r by lia.
    rewrite !firstn_all2 by (rewrite length_skipn; lia). reflexivity.
Qed.

Lemma firstn_plus {A} (l : list A) a b :
  firstn (a + b) l = firstn a l ++ firstn b (skipn a l).
Proof.
  revert l. induction a as [| a IH]; intros l; [reflexivity |].
  destruct l as [| x l]; cbn [Nat.add firstn skipn app].
  - rewrite firstn_nil. reflexivity.
  - rewrite IH. reflexivity.
Qed.

Lemma bytes_ok_nth_chunk data i : bytes_ok data -> bytes_ok (nth_chunk data i).
Proof.
  intros Hb. rewrite nth_chunk_firstn. apply Forall_firstn, Forall_skipn. exact Hb.
Qed.

Lemma chunks_written_payload data n :
  bytes_ok data ->
  concat (map (skipn 2) (chunks_written data n)) = firstn (n * CHUNK_SIZE) data.
Proof.
  intros Hb. induction n as [| n IH]; [reflexivity |].
  rewrite chunks_written_S, map_app, concat_app.
  unfold Uint8Array in *. rewrite IH.
  cbn [map concat]. rewrite app_nil_r.
  rewrite data_command_frame by (apply bytes_ok_nth_chunk; exact Hb).
  change (skipn 2 ([0; 113] ++ nth_chunk data n)) with (nth_chunk data n).
  rewrite nth_chunk_firstn.
  replace (S n * CHUNK_SIZE)%nat with (n * CHUNK_SIZE + CHUNK_SIZE)%nat by lia.
  symmetry. apply firstn_plus.
Qed.

Lemma chunks_written_frames data n :
  bytes_ok data ->
  Forall (fun f => firstn 2 f = [0x00; 0x71] /\ (length f <= 2 + CHUNK_SIZE)%nat)
         (chunks_written data n).
Proof.
  intros Hb. unfold chunks_written. apply Forall_map, Forall_forall. intros i _.
  rewrite data_command_frame by (apply bytes_ok_nth_chunk; exact Hb).
  split; [reflexivity |]. cbn [app length].
  pose proof (length_nth_chunk_le data i). lia.
Qed.

(** X16.  When every chunk is acknowledged (in time or during the re-wait), the
    data frames that [sendDataChunks] has written carry the image bytes
    once each and in order, every frame being the opcode 0x0071 and at most
    CHUNK_SIZE bytes; the sender then reports that the END frame is still
    to be sent. *)
Theorem sendDataChunks_sends_every_byte data init last later :
  bytes_ok data ->
  Forall (fun r => is_data_ack (snd r)) (init ++ [last]) ->
  last_chunk_at data (length init) ->
  let out := sendDataChunks data
               (online (flat_map reply_events (init ++ [last]) ++ later)) in
  fst out = Ok false
  /\ incoming (snd out) = later
  /\ concat (map (skipn 2) (written (trace (snd out)))) = data
  /\ Forall (fun f => firstn 2 f = [0x00; 0x71] /\ (length f <= 2 + CHUNK_SIZE)%nat)
            (written (trace (snd out))).
Proof.
  intros Hb Hacks Hlast.
  destruct (sendDataChunks_all_acknowledged data init last later Hacks Hlast)
    as (Hres & Hinc & Hwritten).
  cbv zeta. rewrite Hwritten. repeat split; try assumption.
  - rewrite chunks_written_payload by exact Hb.
    apply firstn_all2. unfold last_chunk_at in Hlast. lia.
  - apply chunks_written_frames. exact Hb.
Qed.

Lemma sendDataChunks_sends_every_byte_witness :
  let out := sendDataChunks (repeat 0xff 300)
               (online (flat_map reply_events
                          ([(false, [0x00; 0x71])] ++ [(true, [0x80; 0x71])]) ++ [])) in
  fst out = Ok false
  /\ concat (map (skipn 2) (written (trace (snd out)))) = repeat 0xff 300.
Proof.
  cbv zeta.
  destruct (sendDataChunks_sends_every_byte (repeat 0xff 300)
              [(false, [0x00; 0x71])] (true, [0x80; 0x71]) [])
    as (Hres & _ & Hbytes & _).
  - apply Forall_forall. intros b Hin. apply repeat_spec in Hin. subst b.
    unfold byte_ok. lia.
  - repeat constructor; cbn [snd]; eexists; vm_compute; reflexivity.
  - unfold last_chunk_at, CHUNK_SIZE. rewrite repeat_length. cbn [length]. lia.
  - split; assumption.
Defined.

(* ------------------------------------------------------------------------- *)
(** * The notification queue (transport/notification-queue.ts) *)

Lemma queue_step_never_both q e :
  never_both q -> never_both (fst (queue_step q e)).
Proof.
  unfold never_both. intros Hq. destruct e as [data | timeoutMs | promise |];
    cbn [queue_step].
  - unfold NotificationQueue.enqueue.
    destruct (NotificationQueue.pendingResolvers q) as [| p rest] eqn:Hp; cbn.
    + right. reflexivity.
    + left. destruct Hq as [Hq | Hq]; [exact Hq | discriminate Hq].
  - unfold NotificationQueue.dequeue.
    destruct (NotificationQueue.queue q) as [| d rest] eqn:Hd; cbn.
    + left. reflexivity.
    + right. destruct Hq as [Hq | Hq]; [discriminate Hq | exact Hq].
  - unfold NotificationQueue.onTimeout.
    destruct (NotificationQueue.splice_first promise
                (NotificationQueue.pendingResolvers q)) as [rest |] eqn:Hs; cbn.
    + left. destruct Hq as [Hq | Hq]; [exact Hq |].
      rewrite Hq in Hs. discriminate Hs.
    + exact Hq.
  - left. reflexivity.
Qed.

Lemma queue_run_never_both es : forall q,
  never_both q -> never_both (fst (queue_run es q)).
Proof.
  induction es as [| e es IH]; intros q Hq; [exact Hq |].
  cbn [queue_run]. pose proof (queue_step_never_both q e Hq) as Hq1.
  destruct (queue_step q e) as [q1 s1]. cbn [fst] in Hq1.
  specialize (IH q1 Hq1). destruct (queue_run es q1) as [q2 s2]. exact IH.
Qed.

Lemma queue_run_in_order es : forall q,
  never_both q -> existsb is_clear es = false ->
  NotificationQueue.queue q ++ enqueued es
  = delivered (snd (queue_run es q)) ++ NotificationQueue.queue (fst (queue_run es q)).
Proof.
  induction es as [| e es IH]; intros q Hq Hclear.
  - cbn. rewrite app_nil_r. reflexivity.
  - cbn [existsb] in Hclear. apply orb_false_iff in Hclear.
    destruct Hclear as [He Hes].
    pose proof (queue_step_never_both q e Hq) as Hq1.
    cbn [queue_run].
    destruct (queue_step q e) as [q1 s1] eqn:Hstep. cbn [fst] in Hq1.
    pose proof (IH q1 Hq1 Hes) as Horder.
    destruct (queue_run es q1) as [q2 s2]. cbn [fst snd] in *.
    unfold delivered. rewrite flat_map_app. fold (delivered s1). fold (delivered s2).
    rewrite <- app_assoc, <- Horder.
    destruct e as [data | timeoutMs | promise |]; cbn [queue_step is_clear] in *;
      try discriminate He.
    + unfold NotificationQueue.enqueue in Hstep.
      destruct (NotificationQueue.pendingResolvers q) as [| p rest] eqn:Hp;
        injection Hstep as <- <-; cbn.
      * rewrite <- app_assoc. reflexivity.
      * destruct Hq as [Hq | Hq]; [| rewrite Hp in Hq; discriminate Hq].
        rewrite Hq. reflexivity.
    + unfold NotificationQueue.dequeue in Hstep.
      destruct (NotificationQueue.queue q) as [| d rest] eqn:Hd;
        injection Hstep as <- <-; cbn; reflexivity.
    + unfold NotificationQueue.onTimeout in Hstep.
      destruct (NotificationQueue.splice_first promise
                  (NotificationQueue.pendingResolvers q)) as [rest |];
        injection Hstep as <- <-; cbn; reflexivity.
Qed.

(** X17.  Started empty and as long as it is not cleared, the queue hands out the
    notifications in the order of their arrival and loses none: what has
    arrived is what has been delivered followed by what is still buffered.
    Whatever happens, it never holds a buffered notification and a waiting
    consumer at the same time. *)
Theorem notification_queue_delivers_in_order es :
  (existsb is_clear es = false ->
     enqueued es
     = delivered (snd (queue_run es NotificationQueue.new))
         ++ NotificationQueue.queue (fst (queue_run es NotificationQueue.new)))
  /\ never_both (fst (queue_run es NotificationQueue.new)).
Proof.
  split.
  - intros Hclear.
    apply (queue_run_in_order es NotificationQueue.new (or_introl eq_refl) Hclear).
  - apply queue_run_never_both. left. reflexivity.
Qed.

Lemma notification_queue_delivers_in_order_witness :
  enqueued [Dequeue 5000; Enqueue [1]; Enqueue [2]; TimerFires 0; Enqueue [3];
            Dequeue 2000]
  = delivered (snd (queue_run [Dequeue 5000; Enqueue [1]; Enqueue [2]; TimerFires 0;
                               Enqueue [3]; Dequeue 2000] NotificationQueue.new))
      ++ NotificationQueue.queue
           (fst (queue_run [Dequeue 5000; Enqueue [1]; Enqueue [2]; TimerFires 0;
                            Enqueue [3]; Dequeue 2000] NotificationQueue.new)).
Proof.
  apply (notification_queue_delivers_in_order
           [Dequeue 5000; Enqueue [1]; Enqueue [2]; TimerFires 0; Enqueue [3];
            Dequeue 2000]).
  reflexivity.
Defined.

(** ** Every promise is settled at most once *)

Lemma splice_first_spec promise pending :
  match NotificationQueue.splice_first promise pending with
  | Some rest =>
      In promise pending
      /\ (forall p, In p rest -> In p pending)
      /\ (NoDup pending -> NoDup rest /\ ~ In promise rest)
  | None => ~ In promise pending
  end.
Proof.
  induction pending as [| p pending IH]; cbn [NotificationQueue.splice_first].
  - intros [].
  - destruct (Nat.eqb_spec p promise) as [-> | Hne].
    + split; [left; reflexivity |]. split; [intros q Hq; right; exact Hq |].
      intros Hnd. apply NoDup_cons_iff in Hnd. destruct Hnd as [Hnotin Hnd].
      split; assumption.
    + destruct (NotificationQueue.splice_first promise pending) as [rest |].
      * destruct IH as (Hin & Hsub & Hnd).
        split; [right; exact Hin |].
        split; [intros q [-> | Hq]; [left; reflexivity | right; apply Hsub, Hq] |].
        intros Hnodup. apply NoDup_cons_iff in Hnodup.
        destruct Hnodup as [Hnotin Hnodup]. destruct (Hnd Hnodup) as [Hr Hp].
        split.
        -- constructor; [intros Hc; apply Hnotin, Hsub, Hc | exact Hr].
        -- intros [Heq | Hc]; [contradiction | apply Hp, Hc].
      * intros [Heq | Hin]; [contradiction | apply IH, Hin].
Qed.

(** One step settles distinct live promises; what is live afterwards was
    live before and has not been settled by the step. *)
Lemma queue_step_settles q e :
  resolvers_ok q ->
  let q1 := fst (queue_step q e) in
  let s1 := snd (queue_step q e) in
  resolvers_ok q1
  /\ NoDup (map promise_of s1)
  /\ (forall p, In p (map promise_of s1) -> live q p)
  /\ (forall p, live q1 p -> live q p /\ ~ In p (map promise_of s1)).
Proof.
  intros [Hnd Hlt]. cbv zeta. unfold resolvers_ok, live.
  rewrite Forall_forall in Hlt.
  destruct e as [data | timeoutMs | promise |]; cbn [queue_step].
  - unfold NotificationQueue.enqueue.
    destruct (NotificationQueue.pendingResolvers q) as [| p0 rest] eqn:Hp;
      cbn [fst snd map promise_of NotificationQueue.pendingResolvers
           NotificationQueue.promises In].
    + split; [split; constructor |]. split; [constructor |].
      split; [intros p [] |]. intros p Hl. split; [| intros []].
      destruct Hl as [[] | Hge]. right. exact Hge.
    + apply NoDup_cons_iff in Hnd. destruct Hnd as [Hnotin Hnd].
      split; [split; [exact Hnd |] |].
      { apply Forall_forall. intros p Hin. apply Hlt. right. exact Hin. }
      split; [constructor; [intros [] | constructor] |].
      split; [intros p [<- | []]; left; left; reflexivity |].
      intros p Hl. split.
      * destruct Hl as [Hin | Hge]; [left; right; exact Hin | right; exact Hge].
      * intros [<- | []]. destruct Hl as [Hin | Hge]; [contradiction |].
        specialize (Hlt p0 (or_introl eq_refl)). lia.
  - unfold NotificationQueue.dequeue.
    destruct (NotificationQueue.queue q) as [| d rest] eqn:Hq;
      cbn [fst snd map promise_of NotificationQueue.pendingResolvers
           NotificationQueue.promises In].
    + split; [split |].
      { apply NoDup_app; [exact Hnd | constructor; [intros [] | constructor] |].
        intros p Hin [<- | []]. specialize (Hlt _ Hin). lia. }
      { apply Forall_forall. intros p Hin. apply in_app_iff in Hin.
        destruct Hin as [Hin | [<- | []]]; [specialize (Hlt _ Hin) |]; lia. }
      split; [constructor |]. split; [intros p [] |].
      intros p Hl. split; [| intros []].
      destruct Hl as [Hin | Hge]; [| right; lia].
      apply in_app_iff in Hin. destruct Hin as [Hin | [<- | []]];
        [left; exact Hin | right; lia].
    + split; [split; [exact Hnd |] |].
      { apply Forall_forall. intros p Hin. specialize (Hlt _ Hin). lia. }
      split; [constructor; [intros [] | constructor] |].
      split; [intros p [<- | []]; right; lia |].
      intros p Hl. split.
      * destruct Hl as [Hin | Hge]; [left; exact Hin | right; lia].
      * intros [<- | []]. destruct Hl as [Hin | Hge]; [specialize (Hlt _ Hin) |]; lia.
  - unfold NotificationQueue.onTimeout.
    pose proof (splice_first_spec promise (NotificationQueue.pendingResolvers q)) as Hs.
    destruct (NotificationQueue.splice_first promise
                (NotificationQueue.pendingResolvers q)) as [rest |];
      cbn [fst snd map promise_of NotificationQueue.pendingResolvers
           NotificationQueue.promises In].
    + destruct Hs as (Hin & Hsub & Hrest). destruct (Hrest Hnd) as [Hr Hp].
      split; [split; [exact Hr |] |].
      { apply Forall_forall. intros p Hp'. apply Hlt, Hsub, Hp'. }
      split; [constructor; [intros [] | constructor] |].
      split; [intros p [<- | []]; left; exact Hin |].
      intros p Hl. split.
      * destruct Hl as [Hin' | Hge]; [left; apply Hsub, Hin' | right; exact Hge].
      * intros [<- | []]. destruct Hl as [Hin' | Hge]; [contradiction |].
        specialize (Hlt _ Hin). lia.
    + split; [split; [exact Hnd | apply Forall_forall; exact Hlt] |].
      split; [constructor |]. split; [intros p [] |].
      intros p Hl. split; [exact Hl | intros []].
  - unfold NotificationQueue.clear.
    cbn [fst snd NotificationQueue.pendingResolvers NotificationQueue.promises In].
    rewrite map_map. cbn [promise_of]. rewrite map_id.
    split; [split; constructor |]. split; [exact Hnd |].
    split; [intros p Hin; left; exact Hin |].
    intros p Hl. destruct Hl as [[] | Hge]. split; [right; exact Hge |].
    intros Hin. specialize (Hlt _ Hin). lia.
Qed.

Lemma queue_run_settles es : forall q,
  resolvers_ok q ->
  resolvers_ok (fst (queue_run es q))
  /\ NoDup (map promise_of (snd (queue_run es q)))
  /\ (forall p, In p (map promise_of (snd (queue_run es q))) -> live q p).
Proof.
  induction es as [| e es IH]; intros q Hok.
  - cbn. repeat split; [apply Hok | apply Hok | constructor | intros p []].
  - destruct (queue_step_settles q e Hok) as (Hok1 & Hnd1 & Hlive1 & Hlater).
    cbn [queue_run]. destruct (queue_step q e) as [q1 s1]. cbn [fst snd] in *.
    destruct (IH q1 Hok1) as (Hok2 & Hnd2 & Hlive2).
    destruct (queue_run es q1) as [q2 s2]. cbn [fst snd] in *.
    split; [exact Hok2 |]. rewrite map_app. split.
    + apply NoDup_app; [exact Hnd1 | exact Hnd2 |].
      intros p Hin1 Hin2. apply (Hlater p (Hlive2 p Hin2)). exact Hin1.
    + intros p Hin. apply in_app_iff in Hin. destruct Hin as [Hin | Hin].
      * apply Hlive1, Hin.
      * apply (Hlater p (Hlive2 p Hin)).
Qed.

(** X18.  Whatever the order of arrivals, requests, timers and resets: no promise
    is settled twice (a timer that fires after its promise was resolved, or
    after a reset, does nothing), and the resolvers left waiting are
    distinct. *)
Theorem notification_queue_settles_once es :
  NoDup (map promise_of (snd (queue_run es NotificationQueue.new)))
  /\ NoDup (NotificationQueue.pendingResolvers (fst (queue_run es NotificationQueue.new)))
  /\ (forall p, In p (map promise_of (snd (queue_run es NotificationQueue.new))) ->
                ~ In p (NotificationQueue.pendingResolvers
                          (fst (queue_run es NotificationQueue.new)))).
Proof.
  assert (resolvers_ok NotificationQueue.new) as Hnew
      by (split; constructor).
  destruct (queue_run_settles es NotificationQueue.new Hnew) as (Hok & Hnd & _).
  split; [exact Hnd |]. split; [apply Hok |].
  (* a settled promise is no longer live *)
  assert (forall l q, resolvers_ok q ->
                      forall p, In p (map promise_of (snd (queue_run l q))) ->
                                ~ live (fst (queue_run l q)) p) as Hdead.
  { induction l as [| e l IH]; intros q Hq p Hin; [destruct Hin |].
    destruct (queue_step_settles q e Hq) as (Hok1 & _ & _ & Hlater).
    cbn [queue_run] in *. destruct (queue_step q e) as [q1 s1]. cbn [fst snd] in *.
    pose proof (IH q1 Hok1 p) as IHp.
    destruct (queue_run_settles l q1 Hok1) as (_ & _ & Hlive2).
    assert (forall p', live (fst (queue_run l q1)) p' -> live q1 p') as Hmono.
    { clear -Hok1. revert q1 Hok1. induction l as [| e l IHl]; intros q1 Hok1 p' Hl;
        [exact Hl |].
      destruct (queue_step_settles q1 e Hok1) as (Hok2 & _ & _ & Hlater).
      cbn [queue_run] in Hl. destruct (queue_step q1 e) as [q2 s2]. cbn [fst snd] in *.
      specialize (IHl q2 Hok2 p'). destruct (queue_run l q2) as [q3 s3].
      cbn [fst] in *. apply Hlater, IHl, Hl. }
    destruct (queue_run l q1) as [q2 s2]. cbn [fst snd] in *.
    rewrite map_app in Hin. apply in_app_iff in Hin. destruct Hin as [Hin | Hin].
    - intros Hl. apply (Hlater p (Hmono p Hl)). exact Hin.
    - apply IHp, Hin. }
  intros p Hin Hpending. apply (Hdead es NotificationQueue.new Hnew p Hin).
  left. exact Hpending.
Qed.

Lemma notification_queue_settles_once_witness :
  ~ In 0%nat
       (NotificationQueue.pendingResolvers
          (fst (queue_run [Dequeue 5000; TimerFires 0; Enqueue [1]; TimerFires 0]
                          NotificationQueue.new))).
Proof.
  destruct (notification_queue_settles_once
              [Dequeue 5000; TimerFires 0; Enqueue [1]; TimerFires 0])
    as (_ & _ & Hgone).
  apply Hgone. left. reflexivity.
Defined.

(* ------------------------------------------------------------------------- *)
(** * Image encoders (encoding/images.ts, encoding/bitplanes.ts) *)

Lemma nth_store buf : forall off b k,
  nth k (DataView.store buf off b) 0
  = if ((k =? off) && (off <? length buf))%nat then b else nth k buf 0.
Proof.
  induction buf as [| h t IH]; intros off b k.
  - cbn [DataView.store length]. rewrite andb_false_r. reflexivity.
  - destruct off as [| off]; destruct k as [| k]; cbn [DataView.store nth length];
      try reflexivity.
    rewrite IH. reflexivity.
Qed.

Lemma lor_byte a b : byte_ok a -> byte_ok b -> byte_ok (Z.lor a b).
Proof.
  unfold byte_ok. change 256 with (2 ^ 8). intros Ha Hb.
  assert (Z.lor a b = Z.lor a b mod 2 ^ 8) as ->.
  { apply Z.bits_inj'. intros n Hn.
    destruct (Z.lt_ge_cases n 8) as [Hlt | Hge].
    - rewrite Z.mod_pow2_bits_low by lia. reflexivity.
    - rewrite Z.mod_pow2_bits_high by lia. rewrite Z.lor_spec.
      rewrite (testbit_above a 8 n), (testbit_above b 8 n) by lia. reflexivity. }
  apply Z.mod_pos_bound. lia.
Qed.

Lemma js_or_bytes a b : byte_ok a -> byte_ok b -> JS.or a b = Z.lor a b.
Proof.
  intros Ha Hb. pose proof (lor_byte a b Ha Hb) as Hl. unfold byte_ok in *.
  unfold JS.or. rewrite (toInt32_small a), (toInt32_small b) by lia.
  apply toInt32_small. lia.
Qed.

Lemma byte_ok_nth (out : Uint8Array) i : bytes_ok out -> byte_ok (nth i out 0).
Proof.
  intros Hb. destruct (Nat.lt_ge_cases i (length out)) as [Hlt | Hge].
  - unfold bytes_ok in Hb. rewrite Forall_forall in Hb. apply Hb, nth_In, Hlt.
  - rewrite nth_overflow by exact Hge. unfold byte_ok. lia.
Qed.

Lemma or_assign_nth out i v k :
  bytes_ok out -> byte_ok v ->
  nth k (or_assign out i v) 0
  = if ((k =? i) && (i <? length out))%nat then Z.lor (nth i out 0) v else nth k out 0.
Proof.
  intros Hb Hv. unfold or_assign. rewrite nth_store.
  rewrite js_or_bytes by (try apply byte_ok_nth; assumption).
  rewrite Z.mod_small; [reflexivity |].
  apply lor_byte; [apply byte_ok_nth |]; assumption.
Qed.

Lemma bytes_ok_or_assign out i v : bytes_ok out -> bytes_ok (or_assign out i v).
Proof. intros Hb. apply bytes_ok_store; [exact Hb | apply byte_ok_mod]. Qed.

Lemma length_or_assign out i v : length (or_assign out i v) = length out.
Proof. apply length_store. Qed.

Lemma or_writes_shape ws : forall out,
  bytes_ok out ->
  bytes_ok (or_writes ws out) /\ length (or_writes ws out) = length out.
Proof.
  induction ws as [| w ws IH]; intros out Hb; [split; [exact Hb | reflexivity] |].
  cbn [or_writes fold_left]. fold (or_writes ws (or_assign out (fst w) (snd w))).
  destruct (IH (or_assign out (fst w) (snd w)) (bytes_ok_or_assign _ _ _ Hb))
    as [Hb' Hlen].
  split; [exact Hb' | rewrite Hlen; apply length_or_assign].
Qed.

(** A bit of the output is set when it was set before or one of the
    statements sets it. *)
Lemma or_writes_testbit ws : forall out k j,
  bytes_ok out -> Forall (fun w => byte_ok (snd w)) ws -> (k < length out)%nat ->
  Z.testbit (nth k (or_writes ws out) 0) j
  = Z.testbit (nth k out 0) j
    || existsb (fun w => (fst w =? k)%nat && Z.testbit (snd w) j) ws.
Proof.
  induction ws as [| w ws IH]; intros out k j Hb Hws Hk.
  - cbn. rewrite orb_false_r. reflexivity.
  - apply Forall_cons_iff in Hws. destruct Hws as [Hw Hws].
    cbn [or_writes fold_left existsb].
    fold (or_writes ws (or_assign out (fst w) (snd w))).
    rewrite IH by (try apply bytes_ok_or_assign; try rewrite length_or_assign; assumption).
    rewrite or_assign_nth by assumption.
    rewrite (Nat.eqb_sym (fst w) k).
    destruct (Nat.eqb_spec k (fst w)) as [<- | Hne]; cbn [andb].
    + destruct (Nat.ltb_spec k (length out)); [| lia].
      rewrite Z.lor_spec, orb_assoc. reflexivity.
    + reflexivity.
Qed.

Lemma fold_left_flat_map {A B C} (g : A -> C -> A) (F : B -> list C) l : forall a,
  fold_left g (flat_map F l) a = fold_left (fun a y => fold_left g (F y) a) l a.
Proof.
  induction l as [| y l IH]; intros a; [reflexivity |].
  cbn [flat_map fold_left]. rewrite fold_left_app. apply IH.
Qed.

Lemma fold_left_ext_in {A B} (f g : A -> B -> A) l :
  (forall a x, f a x = g a x) -> forall a, fold_left f l a = fold_left g l a.
Proof.
  intros Hfg. induction l as [| x l IH]; intros a; [reflexivity |].
  cbn [fold_left]. rewrite Hfg. apply IH.
Qed.

(** A loop over the pixels whose body is a conditional [|=] is the run of
    its statements. *)
Lemma for_pixels_or_writes width height f body init :
  (forall s y x,
      body s y x = match f y x with
                   | Some w => or_assign s (fst w) (snd w)
                   | None => s
                   end) ->
  for_pixels width height body init = or_writes (pixel_writes width height f) init.
Proof.
  intros Hbody. unfold for_pixels, or_writes, pixel_writes.
  rewrite fold_left_flat_map. apply fold_left_ext_in. intros s y.
  rewrite fold_left_flat_map. apply fold_left_ext_in. intros s' x.
  rewrite Hbody. destruct (f y x); reflexivity.
Qed.

Lemma ceil_div_covers a n : (0 < n)%nat -> (a <= n * ceil_div a n)%nat.
Proof.
  intros Hn. unfold ceil_div.
  pose proof (Nat.div_mod_eq (a + n - 1) n) as Hdm.
  pose proof (Nat.mod_upper_bound (a + n - 1) n ltac:(lia)) as Hr.
  lia.
Qed.

Lemma mul_add_unique n y a y' a' :
  (a < n)%nat -> (a' < n)%nat -> (y * n + a = y' * n + a')%nat -> y = y' /\ a = a'.
Proof.
  intros Ha Ha' Heq.
  assert (y = y') as -> by nia. split; [reflexivity | lia].
Qed.

Section Packed.

Variables (bits ppb width height : nat).
Variable u : nat -> nat -> Z.
Variable skip : nat -> nat -> bool.
Hypothesis Hbits : (bits * ppb = 8)%nat.
Hypothesis Hu : forall y x, 0 <= u y x < 2 ^ Z.of_nat bits.
Hypothesis Hskip : forall y x, skip y x = true -> u y x = 0.

Let bpr := ceil_div width ppb.
Let shift (x : nat) : nat := ((ppb - 1 - x mod ppb) * bits)%nat.
Let f (y x : nat) : option (nat * Z) :=
  if skip y x then None
  else Some ((y * bpr + x / ppb)%nat, u y x * 2 ^ Z.of_nat (shift x)).
Let out := or_writes (pixel_writes width height f) (DataView.alloc (bpr * height)).

Lemma packed_positive : (0 < bits /\ 0 < ppb)%nat.
Proof. destruct bits, ppb; lia. Qed.

Lemma packed_shift_bound x : (shift x + bits <= 8)%nat.
Proof.
  destruct packed_positive as [Hb Hp]. unfold shift.
  pose proof (Nat.mod_upper_bound x ppb ltac:(lia)) as Hr. nia.
Qed.

Lemma packed_value_byte y x : byte_ok (u y x * 2 ^ Z.of_nat (shift x)).
Proof.
  pose proof (packed_shift_bound x) as Hs. pose proof (Hu y x) as Hux.
  unfold byte_ok. split; [apply Z.mul_nonneg_nonneg; [lia | apply Z.pow_nonneg; lia] |].
  apply Z.lt_le_trans with (2 ^ Z.of_nat bits * 2 ^ Z.of_nat (shift x)).
  - apply Z.mul_lt_mono_pos_r; [apply Z.pow_pos_nonneg; lia | lia].
  - rewrite <- Z.pow_add_r by lia. change 256 with (2 ^ 8).
    apply Z.pow_le_mono_r; lia.
Qed.

Lemma packed_writes_bytes : Forall (fun w => byte_ok (snd w)) (pixel_writes width height f).
Proof.
  apply Forall_forall. intros w Hin. unfold pixel_writes in Hin.
  apply in_flat_map in Hin. destruct Hin as (y & _ & Hin).
  apply in_flat_map in Hin. destruct Hin as (x & _ & Hin).
  unfold f in Hin. destruct (skip y x); [destruct Hin |].
  destruct Hin as [<- | []]. cbn [snd]. apply packed_value_byte.
Qed.

Lemma packed_shape : length out = (bpr * height)%nat /\ bytes_ok out.
Proof.
  destruct (or_writes_shape (pixel_writes width height f)
              (DataView.alloc (bpr * height)) (bytes_ok_alloc _)) as [Hb Hlen].
  split; [| exact Hb]. unfold out. rewrite Hlen. apply length_alloc.
Qed.

(** Bit [n] of the field of pixel [(x0, y0)]. *)
Lemma packed_bit x0 y0 n :
  (x0 < ppb * bpr)%nat -> (y0 < height)%nat -> (n < bits)%nat ->
  Z.testbit (nth (y0 * bpr + x0 / ppb) out 0) (Z.of_nat n + Z.of_nat (shift x0))
  = (x0 <? width)%nat && Z.testbit (u y0 x0) (Z.of_nat n).
Proof.
  intros Hx0 Hy0 Hn. destruct packed_positive as [Hb Hp].
  assert (x0 / ppb < bpr)%nat as Hcol
      by (apply Nat.Div0.div_lt_upper_bound; lia).
  assert (y0 * bpr + x0 / ppb < bpr * height)%nat as Hidx by nia.
  unfold out. rewrite or_writes_testbit;
    [| apply bytes_ok_alloc | apply packed_writes_bytes | rewrite length_alloc; exact Hidx].
  unfold DataView.alloc. rewrite nth_repeat, Z.bits_0, orb_false_l.
  apply eq_true_iff_eq. rewrite existsb_exists, andb_true_iff. split.
  - intros (w & Hin & Hw). apply andb_true_iff in Hw. destruct Hw as [Hk Hbit].
    apply Nat.eqb_eq in Hk.
    unfold pixel_writes in Hin.
    apply in_flat_map in Hin. destruct Hin as (y & Hy & Hin).
    apply in_flat_map in Hin. destruct Hin as (x & Hx & Hin).
    apply in_seq in Hy. apply in_seq in Hx.
    unfold f in Hin. destruct (skip y x); [destruct Hin |].
    destruct Hin as [<- | []]. cbn [fst snd] in Hk, Hbit.
    rewrite Z.mul_pow2_bits in Hbit by lia.
    pose proof (Hu y x) as Hux.
    assert (0 <= Z.of_nat n + Z.of_nat (shift x0) - Z.of_nat (shift x) < Z.of_nat bits)
      as Hrange.
    { split.
      - destruct (Z.lt_ge_cases
                    (Z.of_nat n + Z.of_nat (shift x0) - Z.of_nat (shift x)) 0)
          as [Hneg | Hnn]; [| exact Hnn].
        rewrite Z.testbit_neg_r in Hbit by exact Hneg. discriminate Hbit.
      - destruct (Z.lt_ge_cases
                    (Z.of_nat n + Z.of_nat (shift x0) - Z.of_nat (shift x))
                    (Z.of_nat bits)) as [Hlt | Hge]; [exact Hlt |].
        rewrite (testbit_above (u y x) (Z.of_nat bits)) in Hbit by lia.
        discriminate Hbit. }
    pose proof (Nat.mod_upper_bound x ppb ltac:(lia)) as Hr.
    pose proof (Nat.mod_upper_bound x0 ppb ltac:(lia)) as Hr0.
    assert (x mod ppb = x0 mod ppb)%nat as Hmod.
    { unfold shift in Hrange.
      assert (ppb - 1 - x mod ppb = ppb - 1 - x0 mod ppb)%nat by nia. lia. }
    assert (x / ppb < bpr)%nat as Hcolx.
    { apply Nat.Div0.div_lt_upper_bound.
      pose proof (ceil_div_covers width ppb Hp). fold bpr in H. lia. }
    destruct (mul_add_unique bpr y (x / ppb) y0 (x0 / ppb) Hcolx Hcol Hk) as [-> Hdiv].
    assert (x = x0) as ->.
    { rewrite (Nat.div_mod_eq x ppb), (Nat.div_mod_eq x0 ppb), Hdiv, Hmod. reflexivity. }
    split; [apply Nat.ltb_lt; lia |].
    replace (Z.of_nat n + Z.of_nat (shift x0) - Z.of_nat (shift x0)) with (Z.of_nat n)
      in Hbit by lia.
    exact Hbit.
  - intros [Hw Hbit]. apply Nat.ltb_lt in Hw.
    exists ((y0 * bpr + x0 / ppb)%nat, u y0 x0 * 2 ^ Z.of_nat (shift x0)). split.
    + unfold pixel_writes. apply in_flat_map. exists y0. split; [apply in_seq; lia |].
      apply in_flat_map. exists x0. split; [apply in_seq; lia |].
      unfold f. destruct (skip y0 x0) eqn:Hs; [| left; reflexivity].
      rewrite (Hskip y0 x0 Hs), Z.bits_0 in Hbit. discriminate Hbit.
    + cbn [fst snd]. rewrite Nat.eqb_refl. cbn [andb].
      rewrite Z.mul_pow2_bits by lia.
      replace (Z.of_nat n + Z.of_nat (shift x0) - Z.of_nat (shift x0)) with (Z.of_nat n)
        by lia.
      exact Hbit.
Qed.

(** The field of pixel [(x0, y0)]: its value inside the image, zero in the
    padding at the end of a row. *)
Lemma packed_field_value x0 y0 :
  (x0 < ppb * bpr)%nat -> (y0 < height)%nat ->
  Z.land (Z.shiftr (nth (y0 * bpr + x0 / ppb) out 0) (Z.of_nat (shift x0)))
         (2 ^ Z.of_nat bits - 1)
  = if (x0 <? width)%nat then u y0 x0 else 0.
Proof.
  intros Hx0 Hy0. apply Z.bits_inj'. intros n Hn.
  rewrite Z.land_spec, Z.shiftr_spec by exact Hn.
  replace (2 ^ Z.of_nat bits - 1) with (Z.ones (Z.of_nat bits))
    by (rewrite Z.ones_equiv; lia).
  destruct (Z.lt_ge_cases n (Z.of_nat bits)) as [Hlt | Hge].
  - rewrite Z.ones_spec_low, andb_true_r by lia.
    rewrite <- (Z2Nat.id n Hn).
    rewrite packed_bit by (try assumption; lia).
    destruct (x0 <? width)%nat; [reflexivity | rewrite Z.bits_0; reflexivity].
  - rewrite Z.ones_spec_high, andb_false_r by lia.
    destruct (x0 <? width)%nat; [| rewrite Z.bits_0; reflexivity].
    symmetry. apply (testbit_above (u y0 x0) (Z.of_nat bits)); [apply Hu | lia].
Qed.

End Packed.

Lemma fold_left_pair {A B C} (f : A * B -> C -> A * B) (g1 : A -> C -> A)
      (g2 : B -> C -> B) l :
  (forall a b x, f (a, b) x = (g1 a x, g2 b x)) ->
  forall a b, fold_left f l (a, b) = (fold_left g1 l a, fold_left g2 l b).
Proof.
  intros Hf. induction l as [| x l IH]; intros a b; [reflexivity |].
  cbn [fold_left]. rewrite Hf. apply IH.
Qed.

Lemma for_pixels_pair {A B} width height (body : A * B -> nat -> nat -> A * B)
      (b1 : A -> nat -> nat -> A) (b2 : B -> nat -> nat -> B) p1 p2 :
  (forall s1 s2 y x, body (s1, s2) y x = (b1 s1 y x, b2 s2 y x)) ->
  for_pixels width height body (p1, p2)
  = (for_pixels width height b1 p1, for_pixels width height b2 p2).
Proof.
  intros Hbody. unfold for_pixels.
  apply (fold_left_pair _
           (fun s y => fold_left (fun s x => b1 s y x) (seq 0 width) s)
           (fun s y => fold_left (fun s x => b2 s y x) (seq 0 width) s)).
  intros a b y. apply fold_left_pair. intros a' b' x. apply Hbody.
Qed.

Lemma js_and_low p k :
  0 <= p < 2 ^ 31 -> 0 <= k < 31 -> JS.and p (2 ^ k - 1) = p mod 2 ^ k.
Proof.
  intros Hp Hk. unfold JS.and.
  assert (0 < 2 ^ k <= 2 ^ 30) as Hpow
      by (split; [apply Z.pow_pos_nonneg; lia | apply Z.pow_le_mono_r; lia]).
  change (2 ^ 30) with 1073741824 in Hpow. change (2 ^ 31) with 2147483648 in Hp.
  rewrite (toInt32_small p), (toInt32_small (2 ^ k - 1))
    by (change (2 ^ 31) with 2147483648; lia).
  replace (2 ^ k - 1) with (Z.ones k) by (rewrite Z.ones_equiv; lia).
  rewrite Z.land_ones by lia.
  apply toInt32_small. change (2 ^ 31) with 2147483648.
  pose proof (Z.mod_pos_bound p (2 ^ k) ltac:(lia)). lia.
Qed.

Lemma byte_ok_pixel_at pixels i : bytes_ok pixels -> byte_ok (pixel_at pixels i).
Proof. apply byte_ok_nth. Qed.

(** ** One bit per pixel *)

Lemma encode1bpp_writes paletteImage :
  let width := PaletteImageBuffer.width paletteImage in
  let height := PaletteImageBuffer.height paletteImage in
  encode1bpp paletteImage
  = or_writes
      (pixel_writes width height
         (fun y x =>
            if negb (pixel paletteImage x y >? 0) then None
            else Some ((y * ceil_div width 8 + x / 8)%nat,
                       (if pixel paletteImage x y >? 0 then 1 else 0)
                       * 2 ^ Z.of_nat ((8 - 1 - x mod 8) * 1))))
      (DataView.alloc (ceil_div width 8 * height)).
Proof.
  cbv zeta. unfold encode1bpp. apply for_pixels_or_writes. intros s y x.
  unfold pixel. destruct (pixel_at _ _ >? 0); cbn [negb fst snd]; [| reflexivity].
  f_equal.
  replace ((8 - 1 - x mod 8) * 1)%nat with (7 - x mod 8)%nat by lia.
  apply js_shl_mul; [lia | lia |].
  assert (2 ^ Z.of_nat (7 - x mod 8) <= 2 ^ 7) by (apply Z.pow_le_mono_r; lia).
  change (2 ^ 7) with 128 in H. change (2 ^ 31) with 2147483648. lia.
Qed.

(** X19.  The output of [encode1bpp] has [ceil(width / 8)] bytes per row; pixel
    [x] of row [y] is bit [7 - x mod 8] of byte [x / 8] of that row, set
    when the palette index is not 0, and the bits that pad a row are 0. *)
Theorem encode1bpp_bits paletteImage :
  let width := PaletteImageBuffer.width paletteImage in
  let height := PaletteImageBuffer.height paletteImage in
  let bytesPerRow := ceil_div width 8 in
  let output := encode1bpp paletteImage in
  length output = (bytesPerRow * height)%nat
  /\ bytes_ok output
  /\ (forall x y,
         (x < 8 * bytesPerRow)%nat -> (y < height)%nat ->
         Z.testbit (nth (y * bytesPerRow + x / 8) output 0) (Z.of_nat (7 - x mod 8))
         = (x <? width)%nat && (pixel paletteImage x y >? 0)).
Proof.
  cbv zeta. rewrite encode1bpp_writes. cbv zeta.
  set (u := fun y x : nat => if pixel paletteImage x y >? 0 then 1 else 0).
  set (skip := fun y x : nat => negb (pixel paletteImage x y >? 0)).
  assert (forall y x, 0 <= u y x < 2 ^ Z.of_nat 1) as Hu
      by (intros y x; unfold u; change (2 ^ Z.of_nat 1) with 2;
          destruct (pixel paletteImage x y >? 0); lia).
  assert (forall y x, skip y x = true -> u y x = 0) as Hskip
      by (intros y x; unfold skip, u; destruct (pixel paletteImage x y >? 0);
          [discriminate | reflexivity]).
  destruct (packed_shape 1 8 (PaletteImageBuffer.width paletteImage)
              (PaletteImageBuffer.height paletteImage) u skip) as [Hlen Hb].
  split; [exact Hlen |]. split; [exact Hb |].
  intros x y Hx Hy.
  pose proof (packed_bit 1 8 (PaletteImageBuffer.width paletteImage)
                (PaletteImageBuffer.height paletteImage) u skip eq_refl Hu Hskip
                x y 0 Hx Hy ltac:(lia)) as Hbit.
  replace (Z.of_nat (7 - x mod 8))
    with (Z.of_nat 0 + Z.of_nat ((8 - 1 - x mod 8) * 1)) by lia.
  etransitivity; [exact Hbit |]. f_equal.
  unfold u. destruct (pixel paletteImage x y >? 0); reflexivity.
Qed.

Lemma encode1bpp_bits_witness :
  Z.testbit (nth (1 * 2 + 9 / 8) (encode1bpp sample_image) 0) (Z.of_nat (7 - 9 mod 8))
  = (9 <? 10)%nat && (pixel sample_image 9 1 >? 0).
Proof.
  destruct (encode1bpp_bits sample_image) as (_ & _ & Hbits).
  apply (Hbits 9%nat 1%nat); cbn; lia.
Defined.

(** ** Two and four bits per pixel *)

Lemma js_and_3 p : byte_ok p -> JS.and p 0x03 = p mod 4.
Proof.
  intros Hp. unfold byte_ok in Hp.
  apply (js_and_low p 2); [change (2 ^ 31) with 2147483648; lia | lia].
Qed.

Lemma js_and_15 p : byte_ok p -> JS.and p 0x0f = p mod 16.
Proof.
  intros Hp. unfold byte_ok in Hp.
  apply (js_and_low p 4); [change (2 ^ 31) with 2147483648; lia | lia].
Qed.

Lemma js_shl_packed v s :
  0 <= v -> (s <= 7)%nat -> v * 2 ^ Z.of_nat s < 256 ->
  JS.shl v (Z.of_nat s) = v * 2 ^ Z.of_nat s.
Proof.
  intros Hv Hs Hlt. apply js_shl_mul; [lia | exact Hv |].
  change (2 ^ 31) with 2147483648. lia.
Qed.

Lemma field_fits v bits s :
  0 <= v < 2 ^ Z.of_nat bits -> (s + bits <= 8)%nat -> v * 2 ^ Z.of_nat s < 256.
Proof.
  intros Hv Hs.
  apply Z.lt_le_trans with (2 ^ Z.of_nat bits * 2 ^ Z.of_nat s).
  - apply Z.mul_lt_mono_pos_r; [apply Z.pow_pos_nonneg; lia | lia].
  - rewrite <- Z.pow_add_r by lia. change 256 with (2 ^ 8).
    apply Z.pow_le_mono_r; lia.
Qed.

Lemma encode2bpp_writes paletteImage :
  bytes_ok (PaletteImageBuffer.indices paletteImage) ->
  let width := PaletteImageBuffer.width paletteImage in
  let height := PaletteImageBuffer.height paletteImage in
  encode2bpp paletteImage
  = or_writes
      (pixel_writes width height
         (fun y x =>
            if false then None
            else Some ((y * ceil_div width 4 + x / 4)%nat,
                       (pixel paletteImage x y mod 4)
                       * 2 ^ Z.of_nat ((4 - 1 - x mod 4) * 2))))
      (DataView.alloc (ceil_div width 4 * height)).
Proof.
  intros Hb. cbv zeta. unfold encode2bpp. apply for_pixels_or_writes. intros s y x.
  cbn [fst snd]. f_equal. unfold pixel.
  rewrite js_and_3 by (apply byte_ok_pixel_at; exact Hb).
  pose proof (Z.mod_pos_bound
                (pixel_at (PaletteImageBuffer.indices paletteImage)
                          (y * PaletteImageBuffer.width paletteImage + x)) 4
                ltac:(lia)) as Hm.
  pose proof (Nat.mod_upper_bound x 4 ltac:(lia)) as Hr.
  apply js_shl_packed; [lia | lia |].
  apply (field_fits _ 2); [change (2 ^ Z.of_nat 2) with 4; lia | lia].
Qed.

(** X20.  The output of [encode2bpp] has [ceil(width / 4)] bytes per row; pixel
    [x] of row [y] is the two-bit field of byte [x / 4] of that row at
    shift [(3 - x mod 4) * 2], and holds the two low bits of the palette
    index; the fields that pad a row are 0. *)
Theorem encode2bpp_fields paletteImage :
  bytes_ok (PaletteImageBuffer.indices paletteImage) ->
  let width := PaletteImageBuffer.width paletteImage in
  let height := PaletteImageBuffer.height paletteImage in
  let bytesPerRow := ceil_div width 4 in
  let output := encode2bpp paletteImage in
  length output = (bytesPerRow * height)%nat
  /\ bytes_ok output
  /\ (forall x y,
         (x < 4 * bytesPerRow)%nat -> (y < height)%nat ->
         packed_field 2 4 paletteImage output x y
         = if (x <? width)%nat then pixel paletteImage x y mod 4 else 0).
Proof.
  intros Hb. cbv zeta. rewrite encode2bpp_writes by exact Hb. cbv zeta.
  set (u := fun y x : nat => pixel paletteImage x y mod 4).
  set (skip := fun y x : nat => false).
  assert (forall y x, 0 <= u y x < 2 ^ Z.of_nat 2) as Hu
      by (intros y x; unfold u; change (2 ^ Z.of_nat 2) with 4;
          apply Z.mod_pos_bound; lia).
  assert (forall y x, skip y x = true -> u y x = 0) as Hskip
      by (intros y x; unfold skip; discriminate).
  destruct (packed_shape 2 4 (PaletteImageBuffer.width paletteImage)
              (PaletteImageBuffer.height paletteImage) u skip) as [Hlen Hbytes].
  split; [exact Hlen |]. split; [exact Hbytes |].
  intros x y Hx Hy.
  exact (packed_field_value 2 4 (PaletteImageBuffer.width paletteImage)
           (PaletteImageBuffer.height paletteImage) u skip eq_refl Hu Hskip
           x y Hx Hy).
Qed.

Lemma encode2bpp_fields_witness :
  packed_field 2 4 sample_image (encode2bpp sample_image) 7 1
  = if (7 <? 10)%nat then pixel sample_image 7 1 mod 4 else 0.
Proof.
  destruct (encode2bpp_fields sample_image) as (_ & _ & Hfields).
  - repeat constructor; unfold byte_ok; lia.
  - apply (Hfields 7%nat 1%nat); cbn; lia.
Defined.

Lemma nibble_of_range mapping p : 0 <= nibble_of mapping p < 16.
Proof.
  unfold nibble_of. pose proof (Z.mod_pos_bound p 16 ltac:(lia)) as Hm.
  destruct mapping; [| exact Hm]. unfold BWGBRY_MAP.
  repeat match goal with
         | |- context [if ?c then _ else _] => destruct c
         end; lia.
Qed.

Lemma encode4bpp_writes paletteImage bwgbryMapping :
  bytes_ok (PaletteImageBuffer.indices paletteImage) ->
  let width := PaletteImageBuffer.width paletteImage in
  let height := PaletteImageBuffer.height paletteImage in
  encode4bpp paletteImage bwgbryMapping
  = or_writes
      (pixel_writes width height
         (fun y x =>
            if false then None
            else Some ((y * ceil_div width 2 + x / 2)%nat,
                       nibble_of bwgbryMapping (pixel paletteImage x y)
                       * 2 ^ Z.of_nat ((2 - 1 - x mod 2) * 4))))
      (DataView.alloc (ceil_div width 2 * height)).
Proof.
  intros Hb. cbv zeta. unfold encode4bpp. apply for_pixels_or_writes. intros s y x.
  cbn [fst snd]. f_equal.
  rewrite js_and_15 by (apply byte_ok_pixel_at; exact Hb).
  fold (pixel paletteImage x y).
  change (if bwgbryMapping
          then match BWGBRY_MAP (pixel paletteImage x y mod 16) with
               | Some mapped => mapped
               | None => pixel paletteImage x y mod 16
               end
          else pixel paletteImage x y mod 16)
    with (nibble_of bwgbryMapping (pixel paletteImage x y)).
  pose proof (nibble_of_range bwgbryMapping (pixel paletteImage x y)) as Hn.
  pose proof (Nat.mod_upper_bound x 2 ltac:(lia)) as Hr.
  apply js_shl_packed; [lia | lia |].
  apply (field_fits _ 4); [change (2 ^ Z.of_nat 4) with 16; lia | lia].
Qed.

(** X21.  The output of [encode4bpp] has [ceil(width / 2)] bytes per row; pixel
    [x] of row [y] is the high nibble of byte [x / 2] of that row when [x]
    is even and the low nibble when it is odd, and holds the four low bits
    of the palette index, sent through the BWGBRY table (4 to 5, 5 to 6)
    when the mapping is asked for; the nibble that pads a row is 0. *)
Theorem encode4bpp_fields paletteImage bwgbryMapping :
  bytes_ok (PaletteImageBuffer.indices paletteImage) ->
  let width := PaletteImageBuffer.width paletteImage in
  let height := PaletteImageBuffer.height paletteImage in
  let bytesPerRow := ceil_div width 2 in
  let output := encode4bpp paletteImage bwgbryMapping in
  length output = (bytesPerRow * height)%nat
  /\ bytes_ok output
  /\ (forall x y,
         (x < 2 * bytesPerRow)%nat -> (y < height)%nat ->
         packed_field 4 2 paletteImage output x y
         = if (x <? width)%nat then nibble_of bwgbryMapping (pixel paletteImage x y)
           else 0).
Proof.
  intros Hb. cbv zeta. rewrite encode4bpp_writes by exact Hb. cbv zeta.
  set (u := fun y x : nat => nibble_of bwgbryMapping (pixel paletteImage x y)).
  set (skip := fun y x : nat => false).
  assert (forall y x, 0 <= u y x < 2 ^ Z.of_nat 4) as Hu
      by (intros y x; unfold u; change (2 ^ Z.of_nat 4) with 16;
          apply nibble_of_range).
  assert (forall y x, skip y x = true -> u y x = 0) as Hskip
      by (intros y x; unfold skip; discriminate).
  destruct (packed_shape 4 2 (PaletteImageBuffer.width paletteImage)
              (PaletteImageBuffer.height paletteImage) u skip) as [Hlen Hbytes].
  split; [exact Hlen |]. split; [exact Hbytes |].
  intros x y Hx Hy.
  exact (packed_field_value 4 2 (PaletteImageBuffer.width paletteImage)
           (PaletteImageBuffer.height paletteImage) u skip eq_refl Hu Hskip
           x y Hx Hy).
Qed.

Lemma encode4bpp_fields_witness :
  packed_field 4 2 sample_image (encode4bpp sample_image true) 4 0
  = if (4 <? 10)%nat then nibble_of true (pixel sample_image 4 0) else 0.
Proof.
  destruct (encode4bpp_fields sample_image true) as (_ & _ & Hfields).
  - repeat constructor; unfold byte_ok; lia.
  - apply (Hfields 4%nat 0%nat); cbn; lia.
Defined.

(** ** Bitplanes *)

Lemma plane_writes paletteImage index :
  let width := PaletteImageBuffer.width paletteImage in
  let height := PaletteImageBuffer.height paletteImage in
  for_pixels width height
    (fun plane y x =>
       if pixel_at (PaletteImageBuffer.indices paletteImage) (y * width + x) =? index
       then or_assign plane (y * ceil_div width 8 + x / 8)
                      (JS.shl 1 (Z.of_nat (7 - x mod 8)))
       else plane)
    (DataView.alloc (ceil_div width 8 * height))
  = or_writes
      (pixel_writes width height
         (fun y x =>
            if negb (pixel paletteImage x y =? index) then None
            else Some ((y * ceil_div width 8 + x / 8)%nat,
                       (if pixel paletteImage x y =? index then 1 else 0)
                       * 2 ^ Z.of_nat ((8 - 1 - x mod 8) * 1))))
      (DataView.alloc (ceil_div width 8 * height)).
Proof.
  cbv zeta. apply for_pixels_or_writes. intros s y x.
  unfold pixel. destruct (pixel_at _ _ =? index); cbn [negb fst snd]; [| reflexivity].
  f_equal.
  replace ((8 - 1 - x mod 8) * 1)%nat with (7 - x mod 8)%nat by lia.
  apply js_shl_packed; [lia | lia |].
  apply (field_fits _ 1); [change (2 ^ Z.of_nat 1) with 2; lia | lia].
Qed.

Lemma plane_bits paletteImage index :
  let width := PaletteImageBuffer.width paletteImage in
  let height := PaletteImageBuffer.height paletteImage in
  let bytesPerRow := ceil_div width 8 in
  let plane :=
    for_pixels width height
      (fun plane y x =>
         if pixel_at (PaletteImageBuffer.indices paletteImage) (y * width + x) =? index
         then or_assign plane (y * bytesPerRow + x / 8)
                        (JS.shl 1 (Z.of_nat (7 - x mod 8)))
         else plane)
      (DataView.alloc (bytesPerRow * height)) in
  length plane = (bytesPerRow * height)%nat
  /\ forall x y,
      (x < 8 * bytesPerRow)%nat -> (y < height)%nat ->
      Z.testbit (nth (y * bytesPerRow + x / 8) plane 0) (Z.of_nat (7 - x mod 8))
      = (x <? width)%nat && (pixel paletteImage x y =? index).
Proof.
  cbv zeta. rewrite plane_writes. cbv zeta.
  set (u := fun y x : nat => if pixel paletteImage x y =? index then 1 else 0).
  set (skip := fun y x : nat => negb (pixel paletteImage x y =? index)).
  assert (forall y x, 0 <= u y x < 2 ^ Z.of_nat 1) as Hu
      by (intros y x; unfold u; change (2 ^ Z.of_nat 1) with 2;
          destruct (pixel paletteImage x y =? index); lia).
  assert (forall y x, skip y x = true -> u y x = 0) as Hskip
      by (intros y x; unfold skip, u; destruct (pixel paletteImage x y =? index);
          [discriminate | reflexivity]).
  destruct (packed_shape 1 8 (PaletteImageBuffer.width paletteImage)
              (PaletteImageBuffer.height paletteImage) u skip) as [Hlen _].
  split; [exact Hlen |].
  intros x y Hx Hy.
  pose proof (packed_bit 1 8 (PaletteImageBuffer.width paletteImage)
                (PaletteImageBuffer.height paletteImage) u skip eq_refl Hu Hskip
                x y 0 Hx Hy ltac:(lia)) as Hbit.
  replace (Z.of_nat (7 - x mod 8))
    with (Z.of_nat 0 + Z.of_nat ((8 - 1 - x mod 8) * 1)) by lia.
  etransitivity; [exact Hbit |]. f_equal.
  unfold u. destruct (pixel paletteImage x y =? index); reflexivity.
Qed.

(** X22.  For BWR and BWY, [encodeBitplanes] returns two planes laid out as
    [encode1bpp] lays out its output: a bit of the first plane is set where
    the palette index is 1, a bit of the second where it is 2, so no pixel
    is set in both.  Every other scheme is an ImageEncodingError.  Of the
    six members of the enum [encodeImage] encodes exactly those that
    [encodeBitplanes] refuses; a number outside the enum is refused by
    both. *)
Theorem encodeBitplanes_planes paletteImage colorScheme :
  let width := PaletteImageBuffer.width paletteImage in
  let height := PaletteImageBuffer.height paletteImage in
  let bytesPerRow := ceil_div width 8 in
  (colorScheme = BWR \/ colorScheme = BWY ->
   exists plane1 plane2,
     encodeBitplanes paletteImage colorScheme = Ok (plane1, plane2)
     /\ length plane1 = (bytesPerRow * height)%nat
     /\ length plane2 = (bytesPerRow * height)%nat
     /\ forall x y,
         (x < 8 * bytesPerRow)%nat -> (y < height)%nat ->
         let bit plane :=
           Z.testbit (nth (y * bytesPerRow + x / 8) plane 0) (Z.of_nat (7 - x mod 8)) in
         bit plane1 = (x <? width)%nat && (pixel paletteImage x y =? 1)
         /\ bit plane2 = (x <? width)%nat && (pixel paletteImage x y =? 2)
         /\ bit plane1 && bit plane2 = false)
  /\ (colorScheme <> BWR -> colorScheme <> BWY ->
      encodeBitplanes paletteImage colorScheme = Err ImageEncodingError)
  /\ match colorScheme with
     | other _ =>
         encodeImage paletteImage colorScheme = Err ImageEncodingError
         /\ encodeBitplanes paletteImage colorScheme = Err ImageEncodingError
     | _ =>
         is_ok (encodeImage paletteImage colorScheme)
         = negb (is_ok (encodeBitplanes paletteImage colorScheme))
     end.
Proof.
  cbv zeta. split; [| split].
  - intros Hscheme.
    destruct (plane_bits paletteImage 1) as [Hlen1 Hbits1].
    destruct (plane_bits paletteImage 2) as [Hlen2 Hbits2].
    eexists _, _. split.
    + assert (encodeBitplanes paletteImage colorScheme
              = encodeBitplanes paletteImage BWR) as ->
          by (destruct Hscheme as [-> | ->]; reflexivity).
      unfold encodeBitplanes. cbv zeta. f_equal.
      apply (for_pixels_pair _ _ _
               (fun plane y x =>
                  if pixel_at (PaletteImageBuffer.indices paletteImage)
                              (y * PaletteImageBuffer.width paletteImage + x) =? 1
                  then or_assign plane
                         (y * ceil_div (PaletteImageBuffer.width paletteImage) 8 + x / 8)
                         (JS.shl 1 (Z.of_nat (7 - x mod 8)))
                  else plane)
               (fun plane y x =>
                  if pixel_at (PaletteImageBuffer.indices paletteImage)
                              (y * PaletteImageBuffer.width paletteImage + x) =? 2
                  then or_assign plane
                         (y * ceil_div (PaletteImageBuffer.width paletteImage) 8 + x / 8)
                         (JS.shl 1 (Z.of_nat (7 - x mod 8)))
                  else plane)).
      intros s1 s2 y x.
      destruct (Z.eqb_spec
                  (pixel_at (PaletteImageBuffer.indices paletteImage)
                            (y * PaletteImageBuffer.width paletteImage + x)) 1)
        as [-> | Hne]; [reflexivity |].
      destruct (pixel_at _ _ =? 2); reflexivity.
    + split; [exact Hlen1 |]. split; [exact Hlen2 |].
      intros x y Hx Hy. cbv zeta.
      rewrite (Hbits1 x y Hx Hy), (Hbits2 x y Hx Hy).
      repeat split.
      destruct (x <? PaletteImageBuffer.width paletteImage)%nat; [| reflexivity].
      destruct (Z.eqb_spec (pixel paletteImage x y) 1) as [-> | Hne]; reflexivity.
  - intros H1 H2. destruct colorScheme; try reflexivity; congruence.
  - destruct colorScheme; try reflexivity. split; reflexivity.
Qed.

Lemma encodeBitplanes_planes_witness :
  exists plane1 plane2,
    encodeBitplanes sample_image BWR = Ok (plane1, plane2)
    /\ length plane1 = 4%nat.
Proof.
  destruct (encodeBitplanes_planes sample_image BWR) as (Hplanes & _).
  destruct Hplanes as (plane1 & plane2 & Hrun & Hlen & _); [left; reflexivity |].
  exists plane1, plane2. split; [exact Hrun | exact Hlen].
Defined.

(* ------------------------------------------------------------------------- *)
(** * Advertisement data (models/advertisement.ts) *)

(** X23.  [parseAdvertisement] refuses fewer than 11 bytes; otherwise it reads the
    battery voltage from bytes 7 and 8 (little-endian), the temperature from
    byte 9 (two's complement) and the counter from byte 10, whatever the
    seven bytes before and the bytes after; the values it returns are in
    the ranges of their fields. *)
Theorem parseAdvertisement_layout :
  (forall data, (length data < 11)%nat -> parseAdvertisement data = Err PlainError)
  /\ (forall fixed mv t n extra,
         length fixed = 7%nat -> uint16 mv -> int8 t -> uint8 n ->
         parseAdvertisement (fixed ++ [mv mod 256; mv / 256; t mod 256; n] ++ extra)
         = Ok {| batteryMv := mv; temperatureC := t; loopCounter := n |})
  /\ (forall data v,
         bytes_ok data -> parseAdvertisement data = Ok v ->
         uint16 (batteryMv v) /\ int8 (temperatureC v) /\ uint8 (loopCounter v)).
Proof.
  split; [| split].
  - intros data Hshort. unfold parseAdvertisement.
    destruct (Nat.ltb_spec (length data) 11); [reflexivity | lia].
  - intros fixed mv t n extra Hfixed Hmv Ht Hn.
    destruct fixed as [| f0 [| f1 [| f2 [| f3 [| f4 [| f5 [| f6 [| f7 rest]]]]]]]];
      try discriminate Hfixed.
    unfold parseAdvertisement. cbn [app length Nat.ltb Nat.leb].
    unfold DataView.getUint16, DataView.getInt8. cbn [nth]. cbv zeta.
    unfold uint16 in Hmv.
    assert ((mv / 256) mod 256 = mv / 256) as Hhi
        by (apply Z.mod_small; split;
            [apply Z.div_pos; lia | apply Z.div_lt_upper_bound; lia]).
    pose proof (u16_enc_dec mv Hmv) as Hdec. rewrite Hhi in Hdec.
    rewrite Hdec, (i8_enc_dec t Ht). reflexivity.
  - intros data v Hb Hparse. unfold parseAdvertisement in Hparse.
    destruct (length data <? 11)%nat; [discriminate Hparse |].
    apply Ok_inj in Hparse. subst v. cbn [batteryMv temperatureC loopCounter].
    pose proof (byte_ok_nth data 7 Hb) as H7.
    pose proof (byte_ok_nth data 8 Hb) as H8.
    pose proof (byte_ok_nth data 9 Hb) as H9.
    pose proof (byte_ok_nth data 10 Hb) as H10.
    unfold byte_ok, uint16, int8, uint8, DataView.getUint16, DataView.getInt8 in *.
    repeat split; try lia;
      destruct (nth 9 data 0 <? 128) eqn:E; try apply Z.ltb_lt in E;
      try apply Z.ltb_ge in E; lia.
Qed.

Lemma parseAdvertisement_layout_witness :
  parseAdvertisement
    ([1; 2; 3; 4; 5; 6; 7] ++ [3700 mod 256; 3700 / 256; (-5) mod 256; 42] ++ [])
  = Ok {| batteryMv := 3700; temperatureC := -5; loopCounter := 42 |}.
Proof.
  destruct parseAdvertisement_layout as (_ & Hlayout & _).
  apply Hlayout; [reflexivity | unfold uint16; lia | unfold int8; lia | unfold uint8; lia].
Defined.

(* ------------------------------------------------------------------------- *)
(** * The frames of an upload (device.ts, executeUpload) *)

Lemma sendDataChunks_after_acks_from data acks rest tr cfg caps fw :
  Forall (fun r => is_data_ack (snd r)) acks ->
  (length acks * CHUNK_SIZE < length data)%nat ->
  exists tr',
    sendDataChunks data
      (mkWorld true (flat_map reply_events acks ++ rest) tr cfg caps fw)
    = sendDataChunks_loop (S (length data - length acks)) data
        (length acks * CHUNK_SIZE) (length acks)
        (mkWorld true rest tr' cfg caps fw)
    /\ written tr' = written tr ++ chunks_written data (length acks).
Proof.
  intros Hacks Hlen. unfold sendDataChunks.
  assert (length acks < length data)%nat as Hlt by (unfold CHUNK_SIZE in Hlen; lia).
  replace (S (length data))
    with (length acks + S (length data - length acks))%nat by lia.
  destruct (sendDataChunks_loop_acks acks (S (length data - length acks)) data 0
              rest tr cfg caps fw Hacks) as [tr' [Hrun Hwritten]].
  - cbn [Nat.add]. lia.
  - exists tr'. split; [exact Hrun | exact Hwritten].
Qed.

Lemma sendDataChunks_all_acknowledged_from data init last later tr cfg caps fw :
  Forall (fun r => is_data_ack (snd r)) (init ++ [last]) ->
  last_chunk_at data (length init) ->
  exists tr',
    sendDataChunks data
      (mkWorld true (flat_map reply_events (init ++ [last]) ++ later) tr cfg caps fw)
    = (Ok false, mkWorld true later tr' cfg caps fw)
    /\ written tr' = written tr ++ chunks_written data (S (length init)).
Proof.
  intros Hacks Hlast.
  apply Forall_app in Hacks. destruct Hacks as [Hinit Hl].
  apply Forall_cons_iff in Hl. destruct Hl as [[isAck Hl] _].
  rewrite flat_map_app. cbn [flat_map]. rewrite app_nil_r, <- app_assoc.
  assert (length init < length data)%nat as Hlt
      by (unfold last_chunk_at, CHUNK_SIZE in Hlast; lia).
  destruct (sendDataChunks_after_acks_from data init (reply_events last ++ later)
              tr cfg caps fw Hinit) as [tr1 [Hrun Hwritten]]; [apply Hlast |].
  rewrite Hrun.
  rewrite sendDataChunks_turn by apply Hlast.
  rewrite Hl.
  erewrite (bind_run (lift (Ok (CommandCode.DIRECT_WRITE_DATA, isAck))));
    [| reflexivity].
  cbv beta iota.
  change (CommandCode.DIRECT_WRITE_DATA =? CommandCode.DIRECT_WRITE_DATA) with true.
  cbv iota.
  erewrite (bind_run (emit _)); [| reflexivity].
  unfold log; cbn [rejections connected incoming trace _config _capabilities _fwVersion].
  rewrite (length_nth_chunk_last data (length init) Hlast).
  destruct (length data - length init)%nat as [| fuel] eqn:Hfuel; [lia |].
  cbn [sendDataChunks_loop]. rewrite Nat.ltb_irrefl. unfold ret.
  eexists. split; [reflexivity |].
  rewrite !written_app, written_wrote, written_progress, written_reply_actions.
  change (written []) with (@nil Uint8Array).
  rewrite Hwritten, chunks_written_S, ?app_nil_r, <- !app_assoc. reflexivity.
Qed.

Lemma executeUpload_after_chunks mode autoCompleted tr later cfg caps fw endAck :
  validateAckResponse endAck CommandCode.DIRECT_WRITE_END = Ok tt ->
  written
    (trace
       (snd
          ((if negb autoCompleted then
              writeCommand (buildDirectWriteEndCommand mode) ;;;
              response <- readResponse TIMEOUT_ACK ;;
              lift (validateAckResponse response CommandCode.DIRECT_WRITE_END) ;;;
              emit OnUploadComplete ;;;
              emit (OnStatusChange UploadCompleteRefreshing) ;;;
              awaitRefresh
            else
              emit OnUploadComplete ;;;
              emit (OnStatusChange UploadCompleteRefreshing) ;;;
              awaitRefresh)
             (mkWorld true (Arrives endAck :: later) tr cfg caps fw))))
  = written tr ++ (if autoCompleted then [] else [buildDirectWriteEndCommand mode]).
Proof.
  intros Hend. destruct autoCompleted; cbn [negb].
  - erewrite (bind_run (emit OnUploadComplete)); [| reflexivity].
    erewrite (bind_run (emit (OnStatusChange UploadCompleteRefreshing))); [| reflexivity].
    rewrite awaitRefresh_writes_nothing.
    unfold log; cbn [rejections connected incoming trace _config _capabilities _fwVersion].
    rewrite !written_app. cbn [written flat_map app]. rewrite !app_nil_r. reflexivity.
  - erewrite (bind_run (writeCommand _)); [| reflexivity].
    erewrite (bind_run (readResponse TIMEOUT_ACK)); [| reflexivity].
    rewrite Hend.
    erewrite (bind_run (lift (Ok tt))); [| reflexivity].
    erewrite (bind_run (emit OnUploadComplete)); [| reflexivity].
    erewrite (bind_run (emit (OnStatusChange UploadCompleteRefreshing))); [| reflexivity].
    rewrite awaitRefresh_writes_nothing.
    unfold log; cbn [rejections connected incoming trace _config _capabilities _fwVersion].
    rewrite !written_app. cbn [written flat_map app]. rewrite !app_nil_r. reflexivity.
Qed.

Lemma executeUpload_start params startCmd remaining startAck rest :
  (match useCompression params, compressedData params, uncompressedSize params with
   | true, Some cd, Some n =>
       if n =? 0 then (buildDirectWriteStartUncompressed, None)
       else let '(s, r) := buildDirectWriteStartCompressed n cd in (s, Some r)
   | _, _, _ => (buildDirectWriteStartUncompressed, None)
   end) = (startCmd, remaining) ->
  validateAckResponse startAck CommandCode.DIRECT_WRITE_START = Ok tt ->
  executeUpload params (online (Arrives startAck :: rest))
  = (autoCompleted <-
       match useCompression params, remaining with
       | true, Some (b :: more) => sendDataChunks (b :: more)
       | true, _ => ret false
       | false, _ => sendDataChunks (imageData params)
       end ;;
     if negb autoCompleted then
       writeCommand (buildDirectWriteEndCommand (refreshMode params)) ;;;
       response <- readResponse TIMEOUT_ACK ;;
       lift (validateAckResponse response CommandCode.DIRECT_WRITE_END) ;;;
       emit OnUploadComplete ;;;
       emit (OnStatusChange UploadCompleteRefreshing) ;;;
       awaitRefresh
     else
       emit OnUploadComplete ;;;
       emit (OnStatusChange UploadCompleteRefreshing) ;;;
       awaitRefresh)
      (mkWorld true rest
         [QueueCleared; Wrote startCmd; Waited TIMEOUT_ACK (Arrives startAck)]
         None None None).
Proof.
  intros Hstart Hack. unfold executeUpload, online, clearQueue.
  erewrite (bind_run (emit QueueCleared)); [| reflexivity].
  cbv zeta. rewrite Hstart.
  erewrite (bind_run (writeCommand startCmd)); [| reflexivity].
  erewrite (bind_run (readResponse TIMEOUT_ACK)); [| reflexivity].
  rewrite Hack.
  erewrite (bind_run (lift (Ok tt))); [| reflexivity].
  reflexivity.
Qed.

(** X24.  When the device acknowledges every frame, [executeUpload] has written
    START, the data frames and END, in this order and nothing else, by the
    time it waits for the refresh.  Without compression START is bare and
    the data frames carry the image; with compression START carries the
    size of the image and the first 194 compressed bytes and the data frames
    carry the rest, and there is no data frame when the compressed image
    fits into START. *)
Theorem executeUpload_writes_start_data_end mode startAck endAck later :
  validateAckResponse startAck CommandCode.DIRECT_WRITE_START = Ok tt ->
  validateAckResponse endAck CommandCode.DIRECT_WRITE_END = Ok tt ->
  (forall data init last,
      Forall (fun r => is_data_ack (snd r)) (init ++ [last]) ->
      last_chunk_at data (length init) ->
      written (trace (snd (executeUpload (uncompressed_upload data mode)
         (online (Arrives startAck :: flat_map reply_events (init ++ [last])
                    ++ Arrives endAck :: later)))))
      = [[0x00; 0x70]] ++ chunks_written data (S (length init))
          ++ [buildDirectWriteEndCommand mode])
  /\ (forall data compressed,
         bytes_ok compressed -> data <> [] -> (length compressed <= 194)%nat ->
         written (trace (snd (executeUpload (compressed_upload data mode compressed)
            (online (Arrives startAck :: Arrives endAck :: later)))))
         = [fst (buildDirectWriteStartCompressed (Z.of_nat (length data)) compressed);
            buildDirectWriteEndCommand mode])
  /\ (forall data compressed init last,
         bytes_ok compressed -> data <> [] ->
         Forall (fun r => is_data_ack (snd r)) (init ++ [last]) ->
         last_chunk_at (skipn 194 compressed) (length init) ->
         written (trace (snd (executeUpload (compressed_upload data mode compressed)
            (online (Arrives startAck :: flat_map reply_events (init ++ [last])
                       ++ Arrives endAck :: later)))))
         = [fst (buildDirectWriteStartCompressed (Z.of_nat (length data)) compressed)]
             ++ chunks_written (skipn 194 compressed) (S (length init))
             ++ [buildDirectWriteEndCommand mode]).
Proof.
  intros Hstart Hend. split; [| split].
  - intros data init last Hacks Hlast.
    rewrite (executeUpload_start (uncompressed_upload data mode)
               buildDirectWriteStartUncompressed None startAck _ eq_refl Hstart).
    cbn [uncompressed_upload useCompression imageData refreshMode].
    destruct (sendDataChunks_all_acknowledged_from data init last
                (Arrives endAck :: later)
                [QueueCleared; Wrote buildDirectWriteStartUncompressed;
                 Waited TIMEOUT_ACK (Arrives startAck)] None None None Hacks Hlast)
      as [tr' [Hrun Hwritten]].
    rewrite (bind_run _ _ _ _ _ Hrun).
    rewrite (executeUpload_after_chunks mode false tr' later None None None endAck Hend).
    rewrite Hwritten. cbn [written flat_map app]. reflexivity.
  - intros data compressed Hb Hdata Hfits.
    assert ((Z.of_nat (length data) =? 0) = false) as Hsize
        by (apply Z.eqb_neq; destruct data; [congruence | cbn [length]; lia]).
    assert (skipn 194 compressed = []) as Hrem by (apply skipn_all2; exact Hfits).
    rewrite (executeUpload_start (compressed_upload data mode compressed)
               (fst (buildDirectWriteStartCompressed (Z.of_nat (length data)) compressed))
               (Some []) startAck _);
      [| cbn [compressed_upload useCompression compressedData uncompressedSize];
         rewrite Hsize, buildDirectWriteStartCompressed_parts, Hrem by exact Hb;
         reflexivity
       | exact Hstart].
    cbn [compressed_upload useCompression imageData refreshMode].
    erewrite (bind_run (ret false)); [| reflexivity].
    rewrite (executeUpload_after_chunks mode false _ later None None None endAck Hend).
    reflexivity.
  - intros data compressed init last Hb Hdata Hacks Hlast.
    assert ((Z.of_nat (length data) =? 0) = false) as Hsize
        by (apply Z.eqb_neq; destruct data; [congruence | cbn [length]; lia]).
    destruct (skipn 194 compressed) as [| b more] eqn:Hrem.
    { unfold last_chunk_at in Hlast. cbn [length] in Hlast. lia. }
    rewrite (executeUpload_start (compressed_upload data mode compressed)
               (fst (buildDirectWriteStartCompressed (Z.of_nat (length data)) compressed))
               (Some (b :: more)) startAck _);
      [| cbn [compressed_upload useCompression compressedData uncompressedSize];
         rewrite Hsize, buildDirectWriteStartCompressed_parts, Hrem by exact Hb;
         reflexivity
       | exact Hstart].
    cbn [compressed_upload useCompression imageData refreshMode].
    destruct (sendDataChunks_all_acknowledged_from (b :: more) init last
                (Arrives endAck :: later)
                [QueueCleared;
                 Wrote (fst (buildDirectWriteStartCompressed
                               (Z.of_nat (length data)) compressed));
                 Waited TIMEOUT_ACK (Arrives startAck)] None None None Hacks Hlast)
      as [tr' [Hrun Hwritten]].
    rewrite (bind_run _ _ _ _ _ Hrun).
    rewrite (executeUpload_after_chunks mode false tr' later None None None endAck Hend).
    rewrite Hwritten. cbn [written flat_map app]. reflexivity.
Qed.

Lemma executeUpload_writes_start_data_end_witness :
  written (trace (snd (executeUpload (compressed_upload [1; 2; 3] 0 (repeat 0x55 10))
     (online (Arrives [0x00; 0x70] :: Arrives [0x00; 0x72] :: [])))))
  = [fst (buildDirectWriteStartCompressed (Z.of_nat (length [1; 2; 3])) (repeat 0x55 10));
     buildDirectWriteEndCommand 0].
Proof.
  destruct (executeUpload_writes_start_data_end 0 [0x00; 0x70] [0x00; 0x72] [])
    as (_ & Hfits & _).
  - reflexivity.
  - reflexivity.
  - apply Hfits.
    + apply Forall_forall. intros b Hin. apply repeat_spec in Hin. subst b.
      unfold byte_ok. lia.
    + discriminate.
    + rewrite repeat_length. lia.
Defined.

(* ------------------------------------------------------------------------- *)
(** * Auto-completion (device.ts, sendDataChunks and executeUpload) *)

Lemma executeUpload_auto_completed params startCmd data acks endr startAck later :
  (match useCompression params, compressedData params, uncompressedSize params with
   | true, Some cd, Some n =>
       if n =? 0 then (buildDirectWriteStartUncompressed, None)
       else let '(s, r) := buildDirectWriteStartCompressed n cd in (s, Some r)
   | _, _, _ => (buildDirectWriteStartUncompressed, None)
   end)
  = (startCmd, if useCompression params then Some data else None) ->
  (if useCompression params then True else imageData params = data) ->
  validateAckResponse startAck CommandCode.DIRECT_WRITE_START = Ok tt ->
  Forall (fun r => is_data_ack (snd r)) acks ->
  is_end (snd endr) ->
  (length acks * CHUNK_SIZE < length data)%nat ->
  written (trace (snd (executeUpload params
     (online (Arrives startAck :: flat_map reply_events acks
                ++ reply_events endr ++ later)))))
  = startCmd :: map (fun i => data_command (nth_chunk data i)) (seq 0 (S (length acks))).
Proof.
  intros Hstartcmd Hdata Hstart Hacks Hend Hlen.
  rewrite (executeUpload_start params startCmd _ startAck _ Hstartcmd Hstart).
  assert (match useCompression params,
                (if useCompression params then Some data else None) with
          | true, Some (b :: more) => sendDataChunks (b :: more)
          | true, _ => ret false
          | false, _ => sendDataChunks (imageData params)
          end = sendDataChunks data) as ->.
  { destruct (useCompression params).
    - destruct data as [| b more]; [cbn [length] in Hlen; lia | reflexivity].
    - rewrite Hdata. reflexivity. }
  unfold sendDataChunks.
  edestruct (sendDataChunks_loop_auto_completes acks (S (length data)) data 0
               endr later) as [tr' [Hrun Hwritten]];
    [exact Hacks | exact Hend | exact Hlen | unfold CHUNK_SIZE in Hlen; lia |].
  rewrite (bind_run _ _ _ _ _ Hrun). cbn [negb].
  erewrite (bind_run (emit OnUploadComplete)); [| reflexivity].
  erewrite (bind_run (emit (OnStatusChange UploadCompleteRefreshing))); [| reflexivity].
  rewrite awaitRefresh_writes_nothing.
  unfold log; cbn [rejections connected incoming trace _config _capabilities _fwVersion].
  rewrite !written_app, Hwritten.
  change (written [OnUploadComplete]) with (@nil Uint8Array).
  change (written [OnStatusChange UploadCompleteRefreshing]) with (@nil Uint8Array).
  rewrite !app_nil_r. reflexivity.
Qed.

Lemma no_end_frame_among start frames mode :
  nth 1 start 0 = 0x70 ->
  Forall (fun f => nth 1 f 0 = 0x71) frames ->
  ~ In (buildDirectWriteEndCommand mode) (start :: frames).
Proof.
  intros Hstart Hframes [Heq | Hin].
  - rewrite Heq in Hstart. discriminate Hstart.
  - rewrite Forall_forall in Hframes. apply Hframes in Hin. discriminate Hin.
Qed.

Lemma data_frames_opcode data n :
  Forall (fun f => nth 1 f 0 = 0x71)
         (map (fun i => data_command (nth_chunk data i)) (seq 0 n)).
Proof.
  apply Forall_forall. intros f Hin. apply in_map_iff in Hin.
  destruct Hin as (i & <- & _). apply data_command_opcode.
Qed.

(** C5.  Whatever the chunk index N: when the responses to the chunks
    before the Nth are data acknowledgements and the response to the Nth
    carries the end opcode (each arriving within the short wait or during
    the re-wait), the chunk sender writes the chunks up to the Nth and
    nothing more and returns [true]; and [executeUpload] then writes no END
    frame, whatever its parameters: on the uncompressed path, where the
    chunks are those of the image, and on the compressed path, where they
    are those of the compressed data that did not fit into START, all it
    has written is the START frame and those data frames. *)
Theorem auto_completion_skips_end data acks endr later :
  Forall (fun r => is_data_ack (snd r)) acks ->
  is_end (snd endr) ->
  (length acks * CHUNK_SIZE < length data)%nat ->
  (exists tr',
      sendDataChunks data
        (online (flat_map reply_events acks ++ reply_events endr ++ later))
      = (Ok true, mkWorld true later tr' None None None)
      /\ written tr'
         = map (fun i => data_command (nth_chunk data i)) (seq 0 (S (length acks))))
  /\ (forall params startAck,
        validateAckResponse startAck CommandCode.DIRECT_WRITE_START = Ok tt ->
        useCompression params = false ->
        imageData params = data ->
        let w' := snd (executeUpload params
                         (online (Arrives startAck :: flat_map reply_events acks
                                    ++ reply_events endr ++ later))) in
        written (trace w')
        = buildDirectWriteStartUncompressed
            :: map (fun i => data_command (nth_chunk data i)) (seq 0 (S (length acks)))
        /\ ~ In (buildDirectWriteEndCommand (refreshMode params)) (written (trace w')))
  /\ (forall params compressed size startAck,
        validateAckResponse startAck CommandCode.DIRECT_WRITE_START = Ok tt ->
        useCompression params = true ->
        compressedData params = Some compressed ->
        uncompressedSize params = Some size ->
        size <> 0 ->
        bytes_ok compressed ->
        skipn 194 compressed = data ->
        let w' := snd (executeUpload params
                         (online (Arrives startAck :: flat_map reply_events acks
                                    ++ reply_events endr ++ later))) in
        written (trace w')
        = fst (buildDirectWriteStartCompressed size compressed)
            :: map (fun i => data_command (nth_chunk data i)) (seq 0 (S (length acks)))
        /\ ~ In (buildDirectWriteEndCommand (refreshMode params)) (written (trace w'))).
Proof.
  intros Hacks Hend Hlen. split; [| split].
  - unfold sendDataChunks, online.
    destruct (sendDataChunks_loop_auto_completes acks (S (length data)) data 0
                endr later [] None None None Hacks Hend)
      as [tr' [Hrun Hwritten]];
      [exact Hlen | unfold CHUNK_SIZE in Hlen; lia |].
    exists tr'. split; [exact Hrun | exact Hwritten].
  - intros params startAck Hstart Huse Himage. cbv zeta.
    rewrite (executeUpload_auto_completed params buildDirectWriteStartUncompressed
               data acks endr startAck later);
      [| rewrite Huse; reflexivity | rewrite Huse; exact Himage
       | exact Hstart | exact Hacks | exact Hend | exact Hlen].
    split; [reflexivity |].
    apply no_end_frame_among; [reflexivity | apply data_frames_opcode].
  - intros params compressed size startAck Hstart Huse Hcd Hsize Hnz Hb Hrest. cbv zeta.
    rewrite (executeUpload_auto_completed params
               (fst (buildDirectWriteStartCompressed size compressed))
               data acks endr startAck later);
      [| rewrite Huse, Hcd, Hsize;
         destruct (Z.eqb_spec size 0) as [Hz | _]; [contradiction |];
         rewrite buildDirectWriteStartCompressed_parts, Hrest by exact Hb; reflexivity
       | rewrite Huse; exact I
       | exact Hstart | exact Hacks | exact Hend | exact Hlen].
    split; [reflexivity |].
    apply no_end_frame_among; [| apply data_frames_opcode].
    rewrite buildDirectWriteStartCompressed_parts by exact Hb. reflexivity.
Qed.

Lemma auto_completion_skips_end_witness :
  let compressed := repeat 0x55 700 in
  let acks := [(false, [0x00; 0x71]); (true, [0x80; 0x71])] in
  let endr := (false, [0x00; 0x72]) in
  (exists tr',
      sendDataChunks (skipn 194 compressed)
        (online (flat_map reply_events acks ++ reply_events endr ++ []))
      = (Ok true, mkWorld true [] tr' None None None)
      /\ length (written tr') = 3%nat)
  /\ ~ In (buildDirectWriteEndCommand 0)
          (written (trace (snd (executeUpload
             (compressed_upload (repeat 0xff 1000) 0 compressed)
             (online (Arrives [0x00; 0x70] :: flat_map reply_events acks
                        ++ reply_events endr ++ []))))))
  /\ ~ In (buildDirectWriteEndCommand 0)
          (written (trace (snd (executeUpload
             (uncompressed_upload (skipn 194 compressed) 0)
             (online (Arrives [0x00; 0x70] :: flat_map reply_events acks
                        ++ reply_events endr ++ [])))))).
Proof.
  cbv zeta.
  destruct (auto_completion_skips_end (skipn 194 (repeat 0x55 700))
              [(false, [0x00; 0x71]); (true, [0x80; 0x71])]
              (false, [0x00; 0x72]) []) as (Hsender & Hplain & Hcompressed).
  - repeat constructor; cbn [snd]; eexists; vm_compute; reflexivity.
  - eexists. vm_compute. reflexivity.
  - rewrite length_skipn, repeat_length. cbn. lia.
  - split; [| split].
    + destruct Hsender as [tr' [Hrun Hwritten]]. exists tr'.
      split; [exact Hrun |]. rewrite Hwritten. reflexivity.
    + apply (Hcompressed (compressed_upload (repeat 0xff 1000) 0 (repeat 0x55 700))
               (repeat 0x55 700) (Z.of_nat (length (repeat 0xff 1000))) [0x00; 0x70]).
      * reflexivity.
      * reflexivity.
      * reflexivity.
      * reflexivity.
      * rewrite repeat_length. lia.
      * apply Forall_forall. intros b Hin. apply repeat_spec in Hin. subst b.
        unfold byte_ok. lia.
      * reflexivity.
    + apply (Hplain (uncompressed_upload (skipn 194 (repeat 0x55 700)) 0) [0x00; 0x70]);
        reflexivity.
Defined.
